(* ===== verification/_CoqProject ===== *)
-Q . S2P
Prelude.v
RustStr.v
Net.v
Externals.v
Common.v
Concrete.v
Hostname.v
Labels.v
Store.v
CommonSpec.v
StoreRoutes.v
StoreInv.v
Sessions.v
Config.v
Backup.v
Registry.v
Probe.v
State.v
Controller.v
Router.v
ControllerSpec.v
ControllerSys.v
Threads.v
Concurrent.v
ConcurrentAuth.v
ConcurrentLease.v
NameService.v
Shutdown.v
Dns.v
DnsSpec.v
DnsConcurrent.v
EndToEnd.v
DnsProc.v
Docker.v
DockerSpec.v
ProxyRoutes.v
Proxy.v
ProxySpec.v
Agent.v
Reconcile.v
UnitTests.v
SockAddr.v
ControllerProc.v
FlowTests.v
AgentProc.v
AgentSpec.v
Wire.v
System.v
