(* ===== verification/Prelude.v ===== *)
(** * tailroute: a verification library

    Tailroute gives names to the HTTP services of Docker hosts on a tailnet.  An
    agent on every host lists the labelled containers, the services an admin
    enabled and the static routes of its configuration, serves them with an HTTP
    proxy on its Tailscale address, and sends the hostnames to a controller.  The
    controller keeps agents, hostnames and their owners in SQLite, answers an
    HTTP API, and runs a DNS server that resolves each hostname to the address of
    its owner and forwards every other question.  This library models the seven
    crates of [src/crates] and proves what makes them correct together.

    ** The files and the code they model

    - [Prelude], [RustStr], [Net]: results, the state-and-error monad [SE] with
      its notation, stable sorting, maps collected from lists; Rust's [str], its
      machine integers, [Ipv4Addr] and [SocketAddr].  [SockAddr]: the parser of
      addresses and the functions that use it.
    - [Externals]: every crate the sources call and do not contain (argon2,
      base64, chrono, url, idna, serde_json, http headers, hickory) as a class of
      operations, and what is relied on of it as a class of laws.  [Concrete]:
      small instances of those classes for the witnesses.
    - [Common], [Hostname], [Labels]: [tailsvc-common] (error.rs, auth.rs,
      backend.rs, api.rs; hostname.rs; labels.rs).
    - [Store]: [tailsvc-storage/src/store.rs] and its migrations.  The database is
      the record [Db] of one finite map per table; an operation of [Storage] is
      the [SE Db StorageError] computation of the same name, its statements are
      the functions it is composed of.
    - [Config], [Sessions], [Registry], [Probe], [State], [Controller]: the
      controller (config.rs, sessions.rs, dns registry.rs, probe.rs, state.rs and
      the handlers of api.rs).  [AppState] is the shared state; a handler is a
      computation on it that fails with the error axum answers.  [Router] is the
      HTTP surface, [router] of api.rs: from a request to the handler that
      answers it.  [ControllerSys] drives the controller by requests and timers, one
      after the other; [Threads] and [Concurrent] cut the handlers at their awaits
      and run them at the same time, [Shutdown] until a signal ends the process
      (main.rs); [ControllerProc] is the start of the process and the bootstrap of
      the tests (lib.rs); [Backup] the backups (backup.rs).  [NameService] is the
      abstract service that the controller implements.
    - [Dns]: [tailsvc-dns/src/server.rs], on the state of its response cache;
      [DnsConcurrent]: its requests among others, step by step; [DnsProc]: the
      server's sockets, and the task of main.rs that restarts it.  [EndToEnd] runs
      the requests of the API and of the DNS server on the table they share.
    - [Docker]: [tailsvc-docker], from the daemon's answers to backends.
    - [ProxyRoutes], [Proxy]: [tailsvc-proxy] (routes.rs, proxy.rs).
    - [Agent], [Reconcile]: [tailsvc-agent] (config.rs, agent_state.rs, ready.rs,
      controller_client.rs, tailscale.rs; static_routes.rs, reconcile.rs).  The
      state of an agent is [AgentRun], with the requests it has sent.
      [AgentProc] is its process (main.rs): the start, then passes, heartbeats,
      signals and the end of the proxy in any order.  [Wire] connects the methods of
      the client to the controller's router.
    - [UnitTests], [FlowTests]: the tests of the sources, the [#[cfg(test)]] modules
      and [tailsvc-integration-tests], evaluated on the definitions.

    ** What is proved

    - [System]: the parts composed.  After a pass the controller accepted, every
      hostname resolves to the agent and the proxy there finds the backend the
      controller stores; one such pass restores this after any outage.
    - [NameService]: whatever requests run at the same time, every step of the
      controller is one action of an abstract name service, or none, and one that
      its request may ask for.  [EndToEnd]: every address that a DNS reply takes from
      the table was that of a live agent that had claimed the name and reported the
      address itself.  [Wire]: the agent's client over HTTP is the handlers.
    - [ControllerSys]: over every sequence of HTTP requests and timer ticks, the
      DNS table is the one the storage gave at an instant already read, the names
      of an expired agent disappear, and only entitled requests change anything.
    - [StoreRoutes]: a route update refines an abstract claim on every hostname,
      its answer sorts the requests, and a live owner never loses a hostname.
    - [StoreInv]: the statements of all operations as a step relation; the
      invariant of the tables over every interleaving, that revocation is final,
      what the DNS query, a heartbeat and the purge do exactly, and two races.
    - [ControllerSpec]: every endpoint authenticates, the DNS table follows the
      storage, the policy is enforced, enrollment and click-to-enable reach the
      agent, and a refresh of the DNS table that is overtaken undoes a revocation
      until the next one.  [Sessions], [Config]: the life of a session, the
      policy's meaning.  [Backup]: the directory keeps the newest snapshots.
    - [Concurrent]: the same with requests that interleave, statements that fail and
      clients that hang up: the DNS table is always that of the storage at one
      earlier moment, and it converges to an answer that stays.  [ConcurrentAuth]:
      a step that changes anything is the cleanup's or an entitled request's, and
      every row of the routes table was asked for by its agent and allowed by the
      policy.  [ConcurrentLease]: while its lease is alive, an agent keeps its
      names whatever others claim.  [Shutdown]: the graceful end waits for the requests in flight, ten
      steps each, and always comes.
    - [DnsSpec]: registered names are answered from the table, the response code
      follows the results, the cache answers for its time only, TCP is framed and
      every connection ends.  [DnsConcurrent]: every record of an answer has its
      source, whatever runs at the same time.  [DnsProc]: what the restart repairs,
      and what not.
    - [DockerSpec]: the priorities of backend resolution, as a relation that does
      not depend on the order of the daemon's maps.
    - [ProxySpec]: isolation between backends, the forwarded headers, the codes.
    - [AgentSpec]: what is served is what is registered, the precedence of the
      sources, the retry delays, and what an outage of the controller does.
      [AgentProc]: who the agent is and what it says never changes while it runs,
      and no signal ends it.  [SockAddr]: the agent listens on the address the
      controller gives out for it.
    - [CommonSpec], [Hostname], [Labels]: comparison of secrets, round trip of
      backends, hostname syntax and normal form, labels.

    ** Choices of the model

    - A Rust string is its UTF-8 bytes, in Rocq's [string]; integers are in [Z]
      with the width of a conversion written out ([as_i64], [as_u16], [in_u16]).
      An instant or a duration is a number of nanoseconds, except where a name
      says seconds or milliseconds.
    - Every reading of the clock and every random byte is an argument, one for
      each reading the code makes, and so is the answer of every socket, file or
      command; theorems hold for all of them.
    - A [HashMap] that is only looked up is a [gmap]; one that is iterated is the
      list of its entries in some order, and theorems say when the order matters.
    - Statements of SQLite that run outside a transaction interleave in
      [StoreInv] and [Concurrent]; elsewhere an operation runs to its end.
    - A step of a [Pool] runs to the next await or is one statement; [NameService]
      matches it by one action or none, which makes the actions atomic.
      [Joint] has one life of the DNS server, from any state of the controller;
      later lives start with an empty cache, as [joint_start] does.
    - A request reaches a handler whole; that a server which shuts down closes its
      listener, lets the requests in flight finish and then returns is axum's
      contract, and so are the signals tokio keeps from killing the process.
    - Fuel: [tcp_loop] has as much fuel as the connection has bytes and every turn
      reads two; [show_uint] prints twenty digits, enough for 64 bits; the lossy
      UTF-8 decoding and the printing of a group of an IPv6 address have the
      number of bytes and of digits.

    ** What is not modelled

    The admin page (a constant file), logging and the panic hook, figment's reading
    of configuration files, failures of the disk under SQLite (in [Concurrent]
    every statement may fail), mutex poisoning, overflow of [Instant], the scope of
    an IPv6 address, and the bytes hyper copies for a body or a WebSocket tunnel.
    Of the listening sockets there is whether they could be bound and what they
    deliver.  Of the integration tests those of streamed bytes and of a real Docker
    daemon are left out.  A statement of SQLite
    is atomic and fails without effect; the transaction of [put_routes] is one step,
    as SQLite admits one writer.  The handlers as computations ([Controller]) run to
    their end; [alone_serve] of [Concurrent] relates the two. *)
From stdpp Require Export base tactics option list gmap strings sorting.
From stdpp Require Import pretty.
From Stdlib Require Export ZArith Lia.
#[export] Set Warnings "-clear-no-such-hyp,-level-tolerance".

(** ** Results and the state-and-error monad *)

(** Rust's [Result<A, E>]. *)
Inductive result (E A : Type) : Type :=
| Ok (a : A)
| Err (e : E).
Arguments Ok {E A} a.
Arguments Err {E A} e.

#[global] Instance result_ret {E} : MRet (result E) := λ A a, Ok a.
#[global] Instance result_bind {E} : MBind (result E) := λ A B f m,
  match m with Ok a => f a | Err e => Err e end.
#[global] Instance result_fmap {E} : FMap (result E) := λ A B f m,
  match m with Ok a => Ok (f a) | Err e => Err e end.

(** [Result::map_err]. *)
Definition map_err {E F A} (f : E → F) (m : result E A) : result F A :=
  match m with Ok a => Ok a | Err e => Err (f e) end.

(** [Result::ok] and [Option::ok_or]. *)
Definition ok {E A} (m : result E A) : option A :=
  match m with Ok a => Some a | Err _ => None end.
Definition ok_or {E A} (o : option A) (e : E) : result E A :=
  match o with Some a => Ok a | None => Err e end.
Definition is_ok {E A} (m : result E A) : bool :=
  match m with Ok _ => true | Err _ => false end.
Definition is_err {E A} (m : result E A) : bool := negb (is_ok m).

(** A computation over a mutable state [S] that may fail with [E]; a failure
    keeps the effects that happened before it, as in the source. *)
Definition SE (S E A : Type) : Type := S → result E A * S.

#[global] Instance SE_ret {S E} : MRet (SE S E) := λ A a s, (Ok a, s).
#[global] Instance SE_bind {S E} : MBind (SE S E) := λ A B f m s,
  match m s with
  | (Ok a, s') => f a s'
  | (Err e, s') => (Err e, s')
  end.

Definition throw {S E A} (e : E) : SE S E A := λ s, (Err e, s).
Definition get {S E} : SE S E S := λ s, (Ok s, s).
Definition gets {S E A} (f : S → A) : SE S E A := λ s, (Ok (f s), s).
Definition modify {S E} (f : S → S) : SE S E unit := λ s, (Ok tt, f s).
Definition lift {S E A} (m : result E A) : SE S E A := λ s, (m, s).
(** [r.map_err(f)?] on a stateful computation. *)
Definition se_map_err {S E F A} (f : E → F) (m : SE S E A) : SE S F A := λ s,
  let '(r, s') := m s in (map_err f r, s').
(** [let _ = m.await;]: the result is thrown away, the effects stay. *)
Definition ignore {S E F A} (m : SE S E A) : SE S F unit := λ s, (Ok tt, (m s).2).
(** Runs a computation on a component of a larger state. *)
Definition zoom {S T E A} (get_ : S → T) (set_ : T → S → S) (m : SE T E A) : SE S E A := λ s,
  let '(r, t) := m (get_ s) in (r, set_ t s).

(** A loop over a list whose body may return early with an error. *)
Fixpoint for_each {E A} (f : A → result E unit) (l : list A) : result E unit :=
  match l with
  | [] => Ok tt
  | x :: l' => _ ← f x; for_each f l'
  end.

(** A loop that pushes one computed value per element. *)
Fixpoint try_map {E A B} (f : A → result E B) (l : list A) : result E (list B) :=
  match l with
  | [] => Ok []
  | x :: l' => y ← f x; ys ← try_map f l'; Ok (y :: ys)
  end.

(** A [HashMap] built from pairs in order: a later pair replaces an earlier one. *)
Definition collect_map {K V} `{Countable K} (l : list (K * V)) : gmap K V :=
  foldl (λ m kv, <[kv.1 := kv.2]> m) ∅ l.

(** The stable sort of a slice, [le a b] telling that [a] may stay before [b]. *)
Section sort.
Context {A : Type} (le : A → A → bool).
Fixpoint insert_by (x : A) (l : list A) : list A :=
  match l with
  | [] => [x]
  | y :: l' => if le x y then x :: l else y :: insert_by x l'
  end.
Definition sort_by (l : list A) : list A := foldr insert_by [] l.
End sort.

(** ** Tactics *)

(** Case analysis on the scrutinee of a [match] in the goal or a hypothesis. *)
Ltac mcase :=
  match goal with
  | |- context [match ?x with _ => _ end] => destruct x eqn:?
  | H : context [match ?x with _ => _ end] |- _ => destruct x eqn:?
  end.
Ltac mcases := repeat (mcase; simplify_eq/=).

(** Splits the conjunctions of booleans and turns them into propositions. *)
Ltac breflect :=
  repeat match goal with
  | H : (_ && _) = true |- _ => apply andb_true_iff in H as [? ?]
  | H : (_ || _) = false |- _ => apply orb_false_iff in H as [? ?]
  | H : negb _ = true |- _ => apply negb_true_iff in H
  | H : negb _ = false |- _ => apply negb_false_iff in H
  | H : bool_decide _ = true |- _ => apply bool_decide_eq_true in H
  | H : bool_decide _ = false |- _ => apply bool_decide_eq_false in H
  | H : (_ <? _)%Z = true |- _ => apply Z.ltb_lt in H
  | H : (_ <? _)%Z = false |- _ => apply Z.ltb_ge in H
  | H : (_ <=? _)%Z = true |- _ => apply Z.leb_le in H
  | H : (_ <=? _)%Z = false |- _ => apply Z.leb_gt in H
  | H : (_ =? _)%Z = true |- _ => apply Z.eqb_eq in H
  | H : (_ =? _)%Z = false |- _ => apply Z.eqb_neq in H
  end.

(** ** Lemmas on the monads *)

Lemma result_bind_Ok {E A B} (m : result E A) (f : A → result E B) b :
  (m ≫= f) = Ok b ↔ ∃ a, m = Ok a ∧ f a = Ok b.
Proof.
  destruct m as [x|x]; simpl; split.
  - intros Hx. by exists x.
  - by intros (? & [= ->] & ?).
  - done.
  - by intros (? & ? & ?).
Qed.

Lemma map_err_Ok {E F A} (f : E → F) (m : result E A) a :
  map_err f m = Ok a ↔ m = Ok a.
Proof. destruct m; naive_solver. Qed.

Lemma ok_or_Ok {E A} (o : option A) (e : E) a : ok_or o e = Ok a ↔ o = Some a.
Proof. destruct o; naive_solver. Qed.

Lemma ok_Some {E A} (m : result E A) a : ok m = Some a ↔ m = Ok a.
Proof. destruct m; naive_solver. Qed.

Lemma for_each_Ok {E A} (f : A → result E unit) l :
  for_each f l = Ok tt ↔ Forall (λ x, f x = Ok tt) l.
Proof.
  induction l as [|x l IH]; [by split|].
  change (for_each f (x :: l)) with (f x ≫= λ _, for_each f l).
  rewrite result_bind_Ok, Forall_cons, <- IH.
  split; [intros ([] & ? & ?); done | intros [??]; by exists tt].
Qed.

Lemma try_map_Ok {E A B} (f : A → result E B) l ys :
  try_map f l = Ok ys ↔ Forall2 (λ x y, f x = Ok y) l ys.
Proof.
  revert ys; induction l as [|x l IH]; intros ys.
  { split; [intros [= <-]; constructor | by inversion 1]. }
  change (try_map f (x :: l)) with (f x ≫= λ y, try_map f l ≫= λ ys, Ok (y :: ys)).
  rewrite result_bind_Ok; split.
  - intros (y & Hy & (ys' & Hys & [= <-])%result_bind_Ok).
    constructor; [done | by apply IH].
  - inversion 1 as [|? y ? ys' Hy Hys]; subst. exists y; split; [done|].
    apply result_bind_Ok. exists ys'; split; [by apply IH | done].
Qed.

Lemma insert_by_perm {A} (le : A → A → bool) x l : insert_by le x l ≡ₚ x :: l.
Proof.
  induction l as [|y l IH]; cbn; [done|]. destruct (le x y); [done|].
  rewrite IH. apply perm_swap.
Qed.
Lemma sort_by_perm {A} (le : A → A → bool) l : sort_by le l ≡ₚ l.
Proof.
  induction l as [|x l IH]; [done|]. cbn [sort_by foldr].
  rewrite insert_by_perm. by constructor.
Qed.

Lemma insert_by_sorted {A} (R : relation A) `{!Transitive R} (le : A → A → bool) x l :
  (∀ a b, if le a b then R a b else R b a) → StronglySorted R l → StronglySorted R (insert_by le x l).
Proof.
  intros Hle. induction 1 as [|y l Hl IH Hy]; cbn; [by repeat constructor|].
  pose proof (Hle x y) as Hxy. destruct (le x y).
  - constructor; [by constructor|]. constructor; [done|]. eapply Forall_impl; [exact Hy|]. intros z ?. by etrans.
  - constructor; [done|]. rewrite insert_by_perm. by constructor.
Qed.
Lemma sort_by_sorted {A} (R : relation A) `{!Transitive R} (le : A → A → bool) l :
  (∀ a b, if le a b then R a b else R b a) → StronglySorted R (sort_by le l).
Proof. intros Hle. induction l as [|x l IH]; [constructor|]. by apply insert_by_sorted. Qed.
(** Sorting a list whose elements are those of a sorted one gives the latter. *)
Lemma sort_by_unique {A} (R : relation A) `{!Transitive R, !AntiSymm (=) R} (le : A → A → bool) l k :
  (∀ a b, if le a b then R a b else R b a) → l ≡ₚ k → StronglySorted R k → sort_by le l = k.
Proof.
  intros Hle Hp Hk. apply (StronglySorted_unique R); [by apply sort_by_sorted | done |].
  by rewrite sort_by_perm.
Qed.

(** Collecting a list: a key has the value of its last pair. *)
Lemma collect_map_snoc {K V} `{Countable K} (l : list (K * V)) kv :
  collect_map (l ++ [kv]) = <[kv.1 := kv.2]> (collect_map l).
Proof. unfold collect_map. by rewrite foldl_app. Qed.
Lemma collect_map_elem {K V} `{Countable K} (l : list (K * V)) k v :
  collect_map l !! k = Some v → (k, v) ∈ l.
Proof.
  revert v. induction l as [|[j w] l IH] using rev_ind; intros v.
  { cbn. by rewrite lookup_empty. }
  rewrite collect_map_snoc, elem_of_app, list_elem_of_singleton. cbn [fst snd].
  intros [[<- <-]|[_ ?]]%lookup_insert_Some; auto.
Qed.
Lemma collect_map_NoDup {K V} `{Countable K} (l : list (K * V)) k v :
  NoDup l.*1 → (k, v) ∈ l → collect_map l !! k = Some v.
Proof.
  induction l as [|[j w] l IH] using rev_ind; [by rewrite elem_of_nil|].
  rewrite collect_map_snoc, fmap_app, elem_of_app, list_elem_of_singleton. cbn [fst snd].
  intros (Hl & Hd & _)%NoDup_app [Hin|[= <- <-]]; [|by rewrite lookup_insert_eq].
  rewrite lookup_insert_ne; [by apply IH|]. intros ->.
  eapply (Hd k); [|by apply list_elem_of_singleton].
  apply (list_elem_of_fmap_2 fst _ _ Hin).
Qed.

(** Running a bind of the state-and-error monad, one step at a time. *)
Lemma SE_bind_Ok {S E A B} (m : SE S E A) (f : A → SE S E B) s a s' :
  m s = (Ok a, s') → (m ≫= f) s = f a s'.
Proof. intros H. unfold mbind, SE_bind. by rewrite H. Qed.
Lemma SE_bind_Err {S E A B} (m : SE S E A) (f : A → SE S E B) s e s' :
  m s = (Err e, s') → (m ≫= f) s = (Err e, s').
Proof. intros H. unfold mbind, SE_bind. by rewrite H. Qed.
Lemma SE_bind_inv {S E A B} (m : SE S E A) (f : A → SE S E B) s b s'' :
  (m ≫= f) s = (Ok b, s'') → ∃ a s', m s = (Ok a, s') ∧ f a s' = (Ok b, s'').
Proof. unfold mbind, SE_bind. destruct (m s) as [[a|e] s'] eqn:?; naive_solver. Qed.

(** Runs a computation of the state-and-error monad on a state. *)
Lemma SE_bind_run {S E A B} (m : SE S E A) (f : A → SE S E B) s :
  (m ≫= f) s = match m s with (Ok a, s') => f a s' | (Err e, s') => (Err e, s') end.
Proof. reflexivity. Qed.
Ltac se_run :=
  repeat first
    [ rewrite SE_bind_run
    | progress cbn [mret SE_ret get gets modify throw lift fst snd] ].
Tactic Notation "se_run" "in" hyp(H) :=
  repeat first
    [ rewrite SE_bind_run in H
    | progress cbn [mret SE_ret get gets modify throw lift fst snd] in H ].

(** ** Relations a computation moves along

    [Moves R m]: whatever the state, and whether it succeeds or fails, [m] takes
    it to a related one.  Instances compose it along the monad. *)
Class Moves {S E A} (R : relation S) (m : SE S E A) : Prop := moves s : R s (m s).2.

Section moves.
Context {S : Type} (R : relation S) `{!PreOrder R}.
#[local] Set Default Proof Using "All".
#[export] Instance moves_ret {E A} (a : A) : Moves R (mret a : SE S E A).
Proof. intros s. reflexivity. Qed.
#[export] Instance moves_throw {E A} (e : E) : Moves R (throw e : SE S E A).
Proof. intros s. reflexivity. Qed.
#[export] Instance moves_lift {E A} (m : result E A) : Moves R (lift m : SE S E A).
Proof. intros s. reflexivity. Qed.
#[export] Instance moves_get {E} : Moves R (get : SE S E S).
Proof. intros s. reflexivity. Qed.
#[export] Instance moves_gets {E A} (f : S → A) : Moves R (gets f : SE S E A).
Proof. intros s. reflexivity. Qed.
#[export] Instance moves_bind {E A B} (m : SE S E A) (f : A → SE S E B) :
  Moves R m → (∀ a, Moves R (f a)) → Moves R (m ≫= f).
Proof.
  intros Hm Hf s. specialize (Hm s). rewrite SE_bind_run. destruct (m s) as [[a|e] s']; [|done].
  etrans; [exact Hm | apply Hf].
Qed.
#[export] Instance moves_ignore {E F A} (m : SE S E A) : Moves R m → Moves R (ignore m : SE S F unit).
Proof. intros Hm s. apply Hm. Qed.
#[export] Instance moves_map_err {E F A} (f : E → F) (m : SE S E A) :
  Moves R m → Moves R (se_map_err f m).
Proof. intros Hm s. unfold se_map_err. specialize (Hm s). by destruct (m s). Qed.
End moves.
Ltac moves := repeat first [apply _ | apply moves_bind; [typeclasses eauto| |intros ?] | case_match].

Create HintDb tailsvc.
Create Rewrite HintDb tailsvc.
#[export] Hint Resolve lookup_insert_eq lookup_delete_eq : tailsvc.
#[export] Hint Rewrite @lookup_insert_eq @lookup_delete_eq @lookup_empty : tailsvc.
