(* ===== verification/RustStr.v ===== *)
(** * Rust strings

    The operations of [str] and [String] that the program uses.  A Rust string
    is the sequence of its UTF-8 bytes, so [str::len], comparison and slicing
    are those of Rocq's byte strings, and the Unicode-aware operations
    ([str::trim], [str::chars]) are written on the encodings. *)
From S2P Require Import Prelude.
From Stdlib Require Import Ascii.
#[local] Open Scope Z_scope.

(** ** Bytes *)

Definition byte (c : ascii) : Z := Z.of_N (N_of_ascii c).
Definition byte_in (lo hi : Z) (c : ascii) : bool := (lo <=? byte c) && (byte c <=? hi).

Definition is_ascii_upper (c : ascii) : bool := byte_in 65 90 c.
Definition is_ascii_lower (c : ascii) : bool := byte_in 97 122 c.
Definition is_ascii_digit (c : ascii) : bool := byte_in 48 57 c.
Definition is_ascii_alphanumeric (c : ascii) : bool :=
  is_ascii_upper c || is_ascii_lower c || is_ascii_digit c.
(** [u8::to_ascii_lowercase]. *)
Definition ascii_lower (c : ascii) : ascii :=
  if is_ascii_upper c then ascii_of_N (N_of_ascii c + 32) else c.

(** ** Strings *)

Fixpoint smap (f : ascii → ascii) (s : string) : string :=
  match s with EmptyString => EmptyString | String c s' => String (f c) (smap f s') end.
Fixpoint sall (p : ascii → bool) (s : string) : bool :=
  match s with EmptyString => true | String c s' => p c && sall p s' end.
Fixpoint srev (s : string) : string :=
  match s with EmptyString => EmptyString | String c s' => srev s' +:+ String c EmptyString end.

(** [str::len]: bytes. *)
Fixpoint str_len (s : string) : Z :=
  match s with EmptyString => 0 | String _ s' => 1 + str_len s' end.
Definition str_is_empty (s : string) : bool :=
  match s with EmptyString => true | _ => false end.
Definition to_ascii_lowercase (s : string) : string := smap ascii_lower s.
Definition eq_ignore_ascii_case (a b : string) : bool :=
  bool_decide (to_ascii_lowercase a = to_ascii_lowercase b).

Fixpoint strip_prefix (p s : string) : option string :=
  match p, s with
  | EmptyString, _ => Some s
  | String a p', String b s' => if decide (a = b) then strip_prefix p' s' else None
  | String _ _, EmptyString => None
  end.
Definition starts_with (p s : string) : bool := bool_decide (is_Some (strip_prefix p s)).
Fixpoint ends_with (suf s : string) : bool :=
  bool_decide (s = suf) || match s with EmptyString => false | String _ s' => ends_with suf s' end.
(** [str::contains] with a string and with a character. *)
Fixpoint contains_str (pat s : string) : bool :=
  starts_with pat s || match s with EmptyString => false | String _ s' => contains_str pat s' end.
Definition contains_char (c : ascii) (s : string) : bool := negb (sall (λ x, bool_decide (x ≠ c)) s).
(** [&body[body.find(pat)?..]]: the rest of the string from the first match. *)
Fixpoint find_from (pat s : string) : option string :=
  if starts_with pat s then Some s
  else match s with EmptyString => None | String _ s' => find_from pat s' end.

(** [str::split] on the characters that satisfy [p]: always at least one part. *)
Fixpoint split_on (p : ascii → bool) (s : string) : list string :=
  match s with
  | EmptyString => [EmptyString]
  | String x s' =>
      if p x then EmptyString :: split_on p s'
      else match split_on p s' with
           | w :: ws => String x w :: ws
           | [] => [String x EmptyString]
           end
  end.
Definition split (c : ascii) : string → list string := split_on (λ x, bool_decide (x = c)).
(** [s.split(c).next()], which never is [None]. *)
Definition split_first (c : ascii) (s : string) : string :=
  match split c s with w :: _ => w | [] => EmptyString end.
Fixpoint join (sep : string) (l : list string) : string :=
  match l with
  | [] => EmptyString
  | [w] => w
  | w :: ws => w +:+ sep +:+ join sep ws
  end.

(** [str::trim_start_matches] and [str::trim_end_matches] with a character. *)
Fixpoint trim_start_matches (c : ascii) (s : string) : string :=
  match s with
  | String x s' => if decide (x = c) then trim_start_matches c s' else s
  | EmptyString => EmptyString
  end.
Definition trim_end_matches (c : ascii) (s : string) : string :=
  srev (trim_start_matches c (srev s)).

(** Rust's [char::is_whitespace], by the length of the encoding:
    U+0009-U+000D and U+0020; U+0085 and U+00A0; U+1680, U+2000-U+200A,
    U+2028, U+2029, U+202F, U+205F and U+3000. *)
Definition ws1 (a : ascii) : bool := byte_in 9 13 a || (byte a =? 32).
Definition ws2 (a b : ascii) : bool := (byte a =? 194) && ((byte b =? 133) || (byte b =? 160)).
Definition ws3 (a b c : ascii) : bool :=
  ((byte a =? 225) && (byte b =? 154) && (byte c =? 128))
  || ((byte a =? 226) && (byte b =? 128)
      && (byte_in 128 138 c || (byte c =? 168) || (byte c =? 169) || (byte c =? 175)))
  || ((byte a =? 226) && (byte b =? 129) && (byte c =? 159))
  || ((byte a =? 227) && (byte b =? 128) && (byte c =? 128)).

Fixpoint trim_start (s : string) : string :=
  match s with
  | EmptyString => EmptyString
  | String a s1 =>
      if ws1 a then trim_start s1
      else match s1 with
           | EmptyString => s
           | String b s2 =>
               if ws2 a b then trim_start s2
               else match s2 with
                    | EmptyString => s
                    | String c s3 => if ws3 a b c then trim_start s3 else s
                    end
           end
  end.
(** The same from the end, on the reversed bytes: in valid UTF-8 a suffix that
    spells an encoding is that character. *)
Fixpoint trim_start_rev (s : string) : string :=
  match s with
  | EmptyString => EmptyString
  | String a s1 =>
      if ws1 a then trim_start_rev s1
      else match s1 with
           | EmptyString => s
           | String b s2 =>
               if ws2 b a then trim_start_rev s2
               else match s2 with
                    | EmptyString => s
                    | String c s3 => if ws3 c b a then trim_start_rev s3 else s
                    end
           end
  end.
Definition trim_end (s : string) : string := srev (trim_start_rev (srev s)).
Definition trim (s : string) : string := trim_end (trim_start s).

(** The first [char] of a string, as its bytes ([format!("{c}")]). *)
Definition utf8_width (a : ascii) : nat :=
  if byte a <? 192 then 1 else if byte a <? 224 then 2 else if byte a <? 240 then 3 else 4.
Definition first_char (s : string) : string :=
  match s with EmptyString => EmptyString | String a _ => String.substring 0 (utf8_width a) s end.

(** [String::from_utf8_lossy]: the length of the next chunk of the bytes, and
    whether it encodes a character; a chunk that does not is the longest prefix
    of an encoding, at least one byte, and becomes U+FFFD. *)
Definition cont (s : string) : option (ascii * string) :=
  match s with String c s' => if byte_in 128 191 c then Some (c, s') else None | EmptyString => None end.
Definition second_ok (a : ascii) (s : string) : bool :=
  match s with
  | EmptyString => false
  | String b _ =>
      if byte a =? 224 then byte_in 160 191 b else if byte a =? 237 then byte_in 128 159 b
      else if byte a =? 240 then byte_in 144 191 b else if byte a =? 244 then byte_in 128 143 b
      else byte_in 128 191 b
  end.
Definition utf8_chunk (a : ascii) (s : string) : bool * nat :=
  if byte_in 0 127 a then (true, 1%nat)
  else if byte_in 194 223 a then if second_ok a s then (true, 2%nat) else (false, 1%nat)
  else if byte_in 224 239 a then
    if second_ok a s then
      if bool_decide (is_Some (cont (String.substring 1 1 s))) then (true, 3%nat) else (false, 2%nat)
    else (false, 1%nat)
  else if byte_in 240 244 a then
    if second_ok a s then
      if bool_decide (is_Some (cont (String.substring 1 1 s))) then
        if bool_decide (is_Some (cont (String.substring 2 1 s))) then (true, 4%nat) else (false, 3%nat)
      else (false, 2%nat)
    else (false, 1%nat)
  else (false, 1%nat).
Fixpoint drop_bytes (n : nat) (s : string) : string :=
  match n, s with O, _ => s | S n', String _ s' => drop_bytes n' s' | _, EmptyString => EmptyString end.
Definition replacement_char : string := String "239" (String "191" (String "189" EmptyString)).
Fixpoint utf8_lossy (fuel : nat) (s : string) : string :=
  match fuel, s with
  | S fuel', String a s' =>
      let '(valid, n) := utf8_chunk a s' in
      (if valid then String.substring 0 n s else replacement_char) +:+ utf8_lossy fuel' (drop_bytes n s)
  | _, _ => EmptyString
  end.
(** Every chunk has a byte, so as much fuel as bytes is enough. *)
Definition from_utf8_lossy (s : string) : string := utf8_lossy (String.length s) s.

(** [str::lines]: the lines without their ends ([\n] or [\r\n]); the last
    line counts only when it is not empty. *)
Definition lf : ascii := "010"%char.
Definition cr : ascii := "013"%char.
Definition strip_suffix (suf s : string) : option string := srev <$> strip_prefix (srev suf) (srev s).
Fixpoint line_ends (l : list string) : list string :=
  match l with
  | [] => []
  | [w] => if str_is_empty w then [] else [w]
  | w :: l' => default w (strip_suffix (String cr EmptyString) w) :: line_ends l'
  end.
Definition lines (s : string) : list string := line_ends (split lf s).
Definition first_line (s : string) : string := default EmptyString (head (lines s)).

(** The width of the whitespace character a string starts with, if any. *)
Definition ws_width (s : string) : nat :=
  match s with
  | EmptyString => 0
  | String a s1 =>
      if ws1 a then 1
      else match s1 with
           | EmptyString => 0
           | String b s2 =>
               if ws2 a b then 2
               else match s2 with String c _ => if ws3 a b c then 3 else 0 | EmptyString => 0 end
           end
  end.
(** [str::split_whitespace]: the maximal runs of other characters; [skip] is the
    number of bytes left of the whitespace character being read. *)
Fixpoint words (skip : nat) (cur s : string) : list string :=
  match s with
  | EmptyString => if str_is_empty cur then [] else [cur]
  | String a s' =>
      match skip with
      | S n => words n cur s'
      | O => match ws_width s with
             | O => words 0 (cur +:+ String a EmptyString) s'
             | S n => if str_is_empty cur then words n cur s' else cur :: words n EmptyString s'
             end
      end
  end.
Definition split_whitespace (s : string) : list string := words 0 EmptyString s.

(** [s.replace(chars, EmptyString)]. *)
Fixpoint remove_chars (p : ascii → bool) (s : string) : string :=
  match s with
  | EmptyString => EmptyString
  | String c s' => if p c then remove_chars p s' else String c (remove_chars p s')
  end.

(** ** Lemmas *)

Lemma sapp_cons c s t : String c s +:+ t = String c (s +:+ t).
Proof. reflexivity. Qed.
Lemma sapp_nil_l t : EmptyString +:+ t = t.
Proof. reflexivity. Qed.
#[export] Hint Rewrite sapp_cons sapp_nil_l : tailsvc.

Lemma sapp_nil_r s : s +:+ EmptyString = s.
Proof. induction s as [|c s IH]; [done|]. by rewrite sapp_cons, IH. Qed.
Lemma sapp_assoc s t u : s +:+ (t +:+ u) = (s +:+ t) +:+ u.
Proof. induction s as [|c s IH]; [done|]. by rewrite !sapp_cons, IH. Qed.

Lemma str_len_app s t : str_len (s +:+ t) = str_len s + str_len t.
Proof. induction s as [|c s IH]; [done|]. rewrite sapp_cons; cbn; lia. Qed.
Lemma str_len_nonneg s : 0 <= str_len s.
Proof. induction s; cbn; lia. Qed.

Lemma str_len_length s : str_len s = Z.of_nat (String.length s).
Proof. induction s as [|c s IH]; [done|]. cbn [str_len String.length]. lia. Qed.
Lemma sapp_inj_r t s1 s2 : s1 +:+ t = s2 +:+ t → s1 = s2.
Proof.
  revert s2; induction s1 as [|c1 s1 IH]; intros s2 H.
  - apply (f_equal str_len) in H. rewrite !str_len_app in H.
    destruct s2; [done|]. cbn in H. pose proof (str_len_nonneg s2). lia.
  - destruct s2 as [|c2 s2].
    + apply (f_equal str_len) in H. rewrite !str_len_app in H. cbn in H.
      pose proof (str_len_nonneg s1). lia.
    + rewrite !sapp_cons in H. simplify_eq. f_equal; eauto.
Qed.

(** Predicates on every byte. *)
Lemma sall_app p s t : sall p (s +:+ t) = sall p s && sall p t.
Proof. induction s as [|c s IH]; [done|]. rewrite sapp_cons; cbn. by rewrite IH, andb_assoc. Qed.
Lemma sall_srev p s : sall p (srev s) = sall p s.
Proof. induction s as [|c s IH]; [done|]. cbn. rewrite sall_app, IH; cbn.
  by rewrite andb_true_r, andb_comm. Qed.
Lemma sall_impl (p q : ascii → bool) s :
  (∀ c, p c = true → q c = true) → sall p s = true → sall q s = true.
Proof.
  intros Hpq; induction s as [|c s IH]; [done|]. cbn. intros [??]%andb_true_iff.
  apply andb_true_iff; auto.
Qed.

(** Reversal. *)
Lemma srev_app s t : srev (s +:+ t) = srev t +:+ srev s.
Proof.
  induction s as [|c s IH]; cbn; [by rewrite sapp_nil_r|].
  rewrite sapp_cons; cbn. by rewrite IH, sapp_assoc.
Qed.
Lemma srev_involutive s : srev (srev s) = s.
Proof. induction s as [|c s IH]; [done|]. cbn. by rewrite srev_app, IH. Qed.

(** Case folding. *)
Lemma smap_app f s t : smap f (s +:+ t) = smap f s +:+ smap f t.
Proof. induction s as [|c s IH]; [done|]. rewrite sapp_cons; cbn. by rewrite IH. Qed.
Lemma ascii_lower_idemp c : ascii_lower (ascii_lower c) = ascii_lower c.
Proof. destruct c as [[] [] [] [] [] [] [] []]; vm_compute; reflexivity. Qed.
Lemma to_ascii_lowercase_idemp s :
  to_ascii_lowercase (to_ascii_lowercase s) = to_ascii_lowercase s.
Proof.
  induction s as [|c s IH]; [done|]. unfold to_ascii_lowercase in *; cbn.
  f_equal; [apply ascii_lower_idemp | done].
Qed.
Lemma to_ascii_lowercase_app s t :
  to_ascii_lowercase (s +:+ t) = to_ascii_lowercase s +:+ to_ascii_lowercase t.
Proof. apply smap_app. Qed.
Lemma str_len_lowercase s : str_len (to_ascii_lowercase s) = str_len s.
Proof. induction s as [|c s IH]; [done|]. unfold to_ascii_lowercase in *; cbn. lia. Qed.
Lemma to_ascii_lowercase_id s :
  sall (λ c, negb (is_ascii_upper c)) s = true → to_ascii_lowercase s = s.
Proof.
  induction s as [|c s IH]; [done|]. cbn. intros [Hc Hs]%andb_true_iff.
  apply negb_true_iff in Hc. unfold to_ascii_lowercase in *; cbn.
  unfold ascii_lower at 1. rewrite Hc. f_equal. auto.
Qed.

(** Prefixes and suffixes. *)
Lemma strip_prefix_Some p s r : strip_prefix p s = Some r ↔ s = p +:+ r.
Proof.
  revert s; induction p as [|a p IH]; intros s; cbn.
  { rewrite sapp_nil_l. split; congruence. }
  rewrite sapp_cons. destruct s as [|b s]; [done|].
  case_decide as Hab; [rewrite IH|]; split.
  - by intros ->; subst.
  - by intros [= _ ->].
  - done.
  - by intros [= ->].
Qed.
Lemma starts_with_iff p s : starts_with p s = true ↔ ∃ r, s = p +:+ r.
Proof.
  unfold starts_with. rewrite bool_decide_eq_true. unfold is_Some.
  by setoid_rewrite strip_prefix_Some.
Qed.
Lemma ends_with_iff suf s : ends_with suf s = true ↔ ∃ r, s = r +:+ suf.
Proof.
  induction s as [|c s IH]; cbn; rewrite orb_true_iff, bool_decide_eq_true.
  - split; [intros [<-|]; [by exists EmptyString | done] |].
    intros [[|x r] H]; [by left | done].
  - rewrite IH; split.
    + intros [->|[r ->]]; [by exists EmptyString | by exists (String c r)].
    + intros [[|x r] H]; [by left |]. rewrite sapp_cons in H. simplify_eq. eauto.
Qed.
Lemma ends_with_trans a b s : ends_with a b = true → ends_with b s = true → ends_with a s = true.
Proof.
  rewrite !ends_with_iff. intros [r ->] [r' ->]. exists (r' +:+ r). by rewrite sapp_assoc.
Qed.

(** Splitting. *)
Lemma split_on_cons p s : ∃ w ws, split_on p s = w :: ws.
Proof.
  destruct s as [|c s]; cbn; [eauto|]. destruct (p c); [eauto|].
  destruct (split_on p s); eauto.
Qed.
Lemma split_not_nil c s : split c s ≠ [].
Proof. unfold split. by destruct (split_on_cons (λ x, bool_decide (x = c)) s) as (? & ? & ->). Qed.
Lemma split_on_pieces p s : Forall (λ w, sall (λ c, negb (p c)) w = true) (split_on p s).
Proof.
  induction s as [|c s IH]; cbn; [by repeat constructor|].
  destruct (p c) eqn:Hc; [by constructor|].
  destruct (split_on p s) as [|w ws]; [repeat constructor; cbn; by rewrite Hc|].
  inversion_clear IH. constructor; [cbn; by rewrite Hc | done].
Qed.
Lemma join_cons sep w ws : ws ≠ [] → join sep (w :: ws) = w +:+ sep +:+ join sep ws.
Proof. by destruct ws. Qed.
Lemma join_split c s : join (String c EmptyString) (split c s) = s.
Proof.
  unfold split. induction s as [|x s IH]; [done|]. cbn.
  destruct (split_on_cons (λ x, bool_decide (x = c)) s) as (w & ws & Hs).
  rewrite Hs in *. case_bool_decide as Hx.
  - subst x. rewrite join_cons by done. rewrite IH. reflexivity.
  - destruct ws; cbn in *; [by subst|]. rewrite sapp_cons. by rewrite IH.
Qed.
Lemma split_on_nosep p w : sall (λ c, negb (p c)) w = true → split_on p w = [w].
Proof.
  induction w as [|c w IH]; [done|]. cbn. intros [Hc Hw]%andb_true_iff.
  apply negb_true_iff in Hc. by rewrite Hc, IH.
Qed.
Lemma split_on_app p w c s :
  sall (λ c, negb (p c)) w = true → p c = true →
  split_on p (w +:+ String c s) = w :: split_on p s.
Proof.
  intros Hw Hc. induction w as [|x w IH]; cbn; [by rewrite sapp_nil_l; cbn; rewrite Hc|].
  cbn in Hw. apply andb_true_iff in Hw as [Hx Hw]. apply negb_true_iff in Hx.
  rewrite sapp_cons; cbn. rewrite Hx, IH; done.
Qed.
Lemma split_join c l :
  l ≠ [] → Forall (λ w, sall (λ x, bool_decide (x ≠ c)) w = true) l →
  split c (join (String c EmptyString) l) = l.
Proof.
  intros Hl Hw. assert (∀ w, sall (λ x, bool_decide (x ≠ c)) w = true →
    sall (λ x, negb (bool_decide (x = c))) w = true) as Hneg.
  { intros w; apply sall_impl. intros x. rewrite !bool_decide_eq_true.
    intros. by rewrite bool_decide_false. }
  unfold split. induction l as [|w [|w' l] IH]; [done|..].
  - apply split_on_nosep. inversion Hw; auto.
  - inversion_clear Hw. rewrite join_cons, sapp_cons, sapp_nil_l by done.
    rewrite split_on_app; [by rewrite IH | auto | by apply bool_decide_eq_true].
Qed.

(** Trimming. *)
Definition ascii_graph (c : ascii) : bool := byte_in 33 126 c.

Lemma ascii_graph_no_ws c d e : ascii_graph c = true →
  ws1 c = false ∧ ws2 c d = false ∧ ws2 d c = false ∧ ws3 c d e = false ∧ ws3 e d c = false.
Proof.
  unfold ascii_graph, ws1, ws2, ws3, byte_in.
  generalize (byte c) (byte d) (byte e); intros x y z Hx.
  assert (33 <= x <= 126) by lia.
  repeat match goal with
  | |- context [x =? ?k] => rewrite (proj2 (Z.eqb_neq x k)) by lia
  | |- context [x <=? ?k] => rewrite (proj2 (Z.leb_gt x k)) by lia
  | |- context [?k <=? x] => rewrite (proj2 (Z.leb_gt k x)) by lia
  end.
  cbn [andb orb]. rewrite ?andb_false_r, ?orb_false_r. cbn [andb orb].
  by rewrite ?andb_false_r.
Qed.
Lemma trim_start_graph s : sall ascii_graph s = true → trim_start s = s ∧ trim_start_rev s = s.
Proof.
  destruct s as [|a s1]; [done|]. cbn [sall]. intros [Ha _]%andb_true_iff.
  assert (∀ d e, ws1 a = false ∧ ws2 a d = false ∧ ws2 d a = false ∧
    ws3 a d e = false ∧ ws3 e d a = false) as Hws by (intros; by apply ascii_graph_no_ws).
  cbn. destruct (Hws a a) as (-> & _).
  destruct s1 as [|b s2]; [done|]. destruct (Hws b b) as (_ & -> & -> & _).
  destruct s2 as [|c s3]; [done|]. by destruct (Hws b c) as (_ & _ & _ & -> & ->).
Qed.
Lemma trim_graph s : sall ascii_graph s = true → trim s = s.
Proof.
  intros Hs. unfold trim, trim_end. rewrite (proj1 (trim_start_graph s Hs)).
  destruct (trim_start_graph (srev s)) as [_ ->]; [by rewrite sall_srev|].
  apply srev_involutive.
Qed.

Lemma trim_start_matches_spec c s :
  ∃ r, s = r +:+ trim_start_matches c s ∧ sall (λ x, bool_decide (x = c)) r = true
    ∧ strip_prefix (String c EmptyString) (trim_start_matches c s) = None.
Proof.
  induction s as [|x s (r & IH1 & IH2 & IH3)]; cbn; [by exists EmptyString|].
  case_decide as Hx.
  - subst x. exists (String c r). rewrite sapp_cons. cbn [sall].
    rewrite bool_decide_true by done. by rewrite <- IH1.
  - exists EmptyString. repeat split; [done..|]. cbn. by rewrite decide_False.
Qed.
Lemma trim_end_matches_id c s :
  ends_with (String c EmptyString) s = false → trim_end_matches c s = s.
Proof.
  intros Hs. unfold trim_end_matches.
  destruct (srev s) as [|x t] eqn:Ht; cbn; [by rewrite <- (srev_involutive s), Ht|].
  case_decide as Hx; [|by rewrite <- Ht, srev_involutive].
  subst x. exfalso. apply not_true_iff_false in Hs. apply Hs, ends_with_iff.
  exists (srev t). by rewrite <- (srev_involutive s), Ht.
Qed.
