(* ===== verification/Net.v ===== *)
(** * Machine integers and network addresses

    The integer conversions, decimal parsing and printing, and the address
    types of Rust's standard library, as far as the program uses them. *)
From S2P Require Import Prelude RustStr.
From Stdlib Require Import Ascii.
#[local] Open Scope Z_scope.

(** ** Integer widths *)

Definition u8_max : Z := 255.
Definition u16_max : Z := 65535.
Definition u32_max : Z := 4294967295.
Definition u64_max : Z := 18446744073709551615.
Definition i64_max : Z := 9223372036854775807.

Definition in_u16 (n : Z) : Prop := 0 <= n <= u16_max.
Definition in_u64 (n : Z) : Prop := 0 <= n <= u64_max.

(** [n as u16] keeps the low bits; [n as i64] of a [u64] wraps. *)
Definition as_u16 (n : Z) : Z := n mod 65536.
Definition as_i64 (n : Z) : Z := if n <=? i64_max then n else n - 18446744073709551616.

Lemma as_u16_id n : in_u16 n → as_u16 n = n.
Proof. unfold in_u16, as_u16, u16_max. intros. apply Z.mod_small. lia. Qed.

(** ** Decimal numbers *)

Definition digit_val (c : ascii) : Z := byte c - 48.
Definition digit_char (d : Z) : ascii := ascii_of_N (Z.to_N (d + 48)).

(** The digit loop of [from_str], every step checked against the width. *)
Fixpoint parse_digits (max acc : Z) (s : string) : option Z :=
  match s with
  | EmptyString => Some acc
  | String c s' =>
      if is_ascii_digit c then
        let acc' := acc * 10 + digit_val c in
        if acc' <=? max then parse_digits max acc' s' else None
      else None
  end.

(** [str::parse::<uN>]: one leading plus sign is accepted. *)
Definition parse_uint (max : Z) (s : string) : option Z :=
  match s with
  | EmptyString => None
  | String c EmptyString => if is_ascii_digit c then Some (digit_val c) else None
  | String c s' => if decide (c = "+"%char) then parse_digits max 0 s' else parse_digits max 0 s
  end.
Definition parse_u16 : string → option Z := parse_uint u16_max.
Definition parse_u32 : string → option Z := parse_uint u32_max.

(** [Display] of an unsigned integer; twenty digits hold every [u64]. *)
Fixpoint show_digits (fuel : nat) (n : Z) (acc : string) : string :=
  match fuel with
  | O => acc
  | S fuel' =>
      if n <? 10 then String (digit_char n) acc
      else show_digits fuel' (n / 10) (String (digit_char (n mod 10)) acc)
  end.
Definition show_uint (n : Z) : string := show_digits 20 n EmptyString.

(** ** Addresses *)

Record Ipv4Addr := mk_ipv4 { oct1 : Z; oct2 : Z; oct3 : Z; oct4 : Z }.
#[export] Instance Ipv4Addr_eq_dec : EqDecision Ipv4Addr.
Proof. solve_decision. Defined.

(** [Ipv4Addr::from_str]: four decimal octets of one to three digits, without
    leading zeros, and nothing else. *)
Definition parse_octet (s : string) : option Z :=
  if (1 <=? str_len s) && (str_len s <=? 3)
     && negb (starts_with "0" s && (1 <? str_len s))
  then parse_digits u8_max 0 s else None.
Definition parse_ipv4 (s : string) : option Ipv4Addr :=
  if 15 <? str_len s then None
  else match split "."%char s with
       | [a; b; c; d] =>
           a' ← parse_octet a; b' ← parse_octet b; c' ← parse_octet c; d' ← parse_octet d;
           Some (mk_ipv4 a' b' c' d')
       | _ => None
       end.
Definition show_ipv4 (ip : Ipv4Addr) : string :=
  join "." [show_uint (oct1 ip); show_uint (oct2 ip); show_uint (oct3 ip); show_uint (oct4 ip)].

Definition ipv4_wf (ip : Ipv4Addr) : Prop :=
  0 <= oct1 ip <= 255 ∧ 0 <= oct2 ip <= 255 ∧ 0 <= oct3 ip <= 255 ∧ 0 <= oct4 ip <= 255.
Definition is_loopback (ip : Ipv4Addr) : bool := oct1 ip =? 127.
Definition is_unspecified (ip : Ipv4Addr) : bool := bool_decide (ip = mk_ipv4 0 0 0 0).
Definition is_broadcast (ip : Ipv4Addr) : bool := bool_decide (ip = mk_ipv4 255 255 255 255).

(** [IpAddr] and [SocketAddr]; an IPv6 address is its eight groups. *)
Inductive IpAddr := V4 (ip : Ipv4Addr) | V6 (groups : list Z).
#[export] Instance IpAddr_eq_dec : EqDecision IpAddr.
Proof. solve_decision. Defined.
Record SocketAddr := mk_addr { sa_ip : IpAddr; sa_port : Z }.
#[export] Instance SocketAddr_eq_dec : EqDecision SocketAddr.
Proof. solve_decision. Defined.

(** [Display] of an IPv6 address: lower-case hexadecimal groups, the first
    longest run of two or more zero groups written as two colons, an IPv4-mapped
    address with its last two groups in dotted form. *)
Definition hex_char (d : Z) : ascii :=
  ascii_of_N (Z.to_N (if d <? 10 then d + 48 else d + 87)).
Fixpoint show_hex (fuel : nat) (n : Z) (acc : string) : string :=
  match fuel with
  | O => acc
  | S fuel' =>
      if n <? 16 then String (hex_char n) acc
      else show_hex fuel' (n / 16) (String (hex_char (n mod 16)) acc)
  end.
(** Four digits hold a group. *)
Definition show_group (n : Z) : string := show_hex 4 n EmptyString.
Fixpoint zero_run (l : list Z) : nat :=
  match l with 0 :: l' => S (zero_run l') | _ => 0%nat end.
(** Start and length of the first longest run, from index [i]. *)
Fixpoint longest_run (i : nat) (l : list Z) : nat * nat :=
  match l with
  | [] => (i, 0%nat)
  | _ :: l' =>
      let here := zero_run l in
      let '(j, n) := longest_run (S i) l' in
      if (n <=? here)%nat then (i, here) else (j, n)
  end.
Definition show_ipv6 (g : list Z) : string :=
  match g with
  | [0; 0; 0; 0; 0; 65535; a; b] =>
      "::ffff:" +:+ show_ipv4 (mk_ipv4 (a / 256) (a mod 256) (b / 256) (b mod 256))
  | _ =>
      let '(start, n) := longest_run 0 g in
      if (1 <? n)%nat
      then join ":" (show_group <$> take start g) +:+ "::" +:+ join ":" (show_group <$> drop (start + n) g)
      else join ":" (show_group <$> g)
  end.
Definition show_ip (ip : IpAddr) : string :=
  match ip with V4 a => show_ipv4 a | V6 g => show_ipv6 g end.

(** ** Lemmas *)

Lemma digit_char_spec d : 0 <= d < 10 →
  is_ascii_digit (digit_char d) = true ∧ digit_val (digit_char d) = d.
Proof.
  intros Hd. assert (d = 0 ∨ d = 1 ∨ d = 2 ∨ d = 3 ∨ d = 4 ∨ d = 5 ∨ d = 6 ∨ d = 7 ∨ d = 8 ∨ d = 9)
    as Hc by lia.
  by repeat destruct Hc as [-> | Hc]; [.. | subst d].
Qed.

Lemma parse_digits_bound max acc s n :
  0 <= acc → parse_digits max acc s = Some n → acc <= max → 0 <= n <= max.
Proof.
  revert acc; induction s as [|c s IH]; intros acc Hacc; cbn; [intros [= <-]; lia|].
  destruct (is_ascii_digit c) eqn:Hc; [|done]. mcase; [|done]. breflect.
  intros Hs _. eapply IH; [|done|lia].
  unfold is_ascii_digit, byte_in, digit_val in *. breflect. lia.
Qed.

Lemma parse_uint_bound max s n : 9 <= max → parse_uint max s = Some n → 0 <= n <= max.
Proof.
  intros Hmax. unfold parse_uint. destruct s as [|c [|c' s]]; [done| |].
  - destruct (is_ascii_digit c) eqn:Hc; [|done]. intros [= <-].
    unfold is_ascii_digit, byte_in, digit_val in *. breflect. lia.
  - case_decide; intros; eapply parse_digits_bound; eauto; lia.
Qed.

Lemma parse_digits_step max acc d s : 0 <= d < 10 → acc * 10 + d <= max →
  parse_digits max acc (String (digit_char d) s) = parse_digits max (acc * 10 + d) s.
Proof.
  intros Hd Hle. cbn [parse_digits]. destruct (digit_char_spec d) as [-> ->]; [done|].
  cbv zeta. by rewrite (proj2 (Z.leb_le _ max)) by lia.
Qed.

Lemma parse_show_digits max fuel n acc :
  0 <= n <= max → n < 10 ^ Z.of_nat fuel → 9 <= max →
  parse_digits max 0 (show_digits fuel n acc) = parse_digits max n acc.
Proof.
  revert n acc; induction fuel as [|fuel IH]; intros n acc Hn Hf Hmax.
  { change (10 ^ Z.of_nat 0) with 1 in Hf. cbn. f_equal. lia. }
  cbn [show_digits]. destruct (n <? 10) eqn:Hlt; breflect.
  - rewrite parse_digits_step; [done|lia..].
  - rewrite Nat2Z.inj_succ, Z.pow_succ_r in Hf by lia.
    pose proof (Z.div_mod n 10 ltac:(lia)). pose proof (Z.mod_pos_bound n 10 ltac:(lia)).
    rewrite IH; [|lia|lia|lia].
    rewrite parse_digits_step by lia. f_equal. lia.
Qed.

Lemma parse_show_uint max n : 0 <= n <= max → n <= u64_max → 9 <= max →
  parse_digits max 0 (show_uint n) = Some n.
Proof.
  intros. unfold show_uint. rewrite parse_show_digits; [done|lia| |lia].
  unfold u64_max in *. change (10 ^ Z.of_nat 20) with 100000000000000000000. lia.
Qed.

Definition octet_ok (n : Z) : bool :=
  bool_decide (parse_octet (show_uint n) = Some n) && (str_len (show_uint n) <=? 3)
  && sall is_ascii_digit (show_uint n).

Lemma octet_ok_all n : 0 <= n <= 255 → octet_ok n = true.
Proof.
  intros Hn. assert (forallb octet_ok (seqZ 0 256) = true) as H by (vm_compute; reflexivity).
  rewrite forallb_forall in H. apply H. apply list_elem_of_In, elem_of_seqZ. lia.
Qed.

Lemma digits_no_dot s : sall is_ascii_digit s = true →
  sall (λ x, bool_decide (x ≠ "."%char)) s = true.
Proof.
  apply sall_impl. intros c. unfold is_ascii_digit, byte_in, byte. intros Hc.
  apply bool_decide_eq_true. intros ->. cbn in Hc. done.
Qed.

Lemma parse_show_ipv4 ip : ipv4_wf ip → parse_ipv4 (show_ipv4 ip) = Some ip.
Proof.
  destruct ip as [a b c d]. unfold ipv4_wf; cbn [oct1 oct2 oct3 oct4]. intros (Ha & Hb & Hc & Hd).
  apply octet_ok_all in Ha, Hb, Hc, Hd. unfold octet_ok in *. breflect.
  unfold parse_ipv4, show_ipv4; cbn [oct1 oct2 oct3 oct4].
  rewrite split_join; [|done|repeat constructor; by apply digits_no_dot].
  rewrite (proj2 (Z.ltb_ge _ _)).
  2: { rewrite !join_cons, !str_len_app by done. cbn [join]. change (str_len ".") with 1. lia. }
  repeat match goal with H : parse_octet _ = Some _ |- _ => rewrite H; clear H end.
  done.
Qed.

Lemma show_digits_digits fuel n acc :
  0 <= n → sall is_ascii_digit acc = true → sall is_ascii_digit (show_digits fuel n acc) = true.
Proof.
  revert n acc; induction fuel as [|fuel IH]; intros n acc Hn Hacc; [done|].
  cbn [show_digits]. destruct (n <? 10) eqn:Hlt; breflect.
  - cbn [sall]. destruct (digit_char_spec n) as [-> _]; [lia | done].
  - apply IH; [apply Z.div_pos; lia|]. cbn [sall].
    destruct (digit_char_spec (n mod 10)) as [-> _]; [|done].
    pose proof (Z.mod_pos_bound n 10). lia.
Qed.
Lemma show_uint_digits n : 0 <= n → sall is_ascii_digit (show_uint n) = true.
Proof. intros. by apply show_digits_digits. Qed.
Lemma show_uint_graph n : 0 <= n → sall ascii_graph (show_uint n) = true.
Proof.
  intros Hn. eapply sall_impl; [|by apply show_uint_digits].
  intros c. unfold is_ascii_digit, ascii_graph, byte_in. intros; breflect.
  apply andb_true_iff; rewrite !Z.leb_le; lia.
Qed.
