(* ===== verification/Externals.v ===== *)
(** * The crates the program calls

    Each crate the sources call and that is not part of the repository is an
    operational class: its functions are parameters of the definitions that use
    them.  What the program relies on is a separate class of laws, stated from
    the crate's documentation; only the theorems that need a law assume it. *)
From S2P Require Import Prelude RustStr Net.
From Stdlib Require Import Ascii.
#[local] Open Scope Z_scope.

(** ** [idna]: [domain_to_ascii], with the error already printed. *)
Class Idna := domain_to_ascii : string → result string string.

(** ToASCII applied to the lower-cased result of ToASCII gives it back. *)
Class IdnaLaws `{Idna} : Prop :=
  domain_to_ascii_stable s a :
    domain_to_ascii s = Ok a →
    domain_to_ascii (to_ascii_lowercase a) = Ok (to_ascii_lowercase a).

(** ** [url]: [Url::parse] and the accessors of the parsed URL. *)
Record Url := mk_url {
  url_scheme : string;
  url_username : string;
  url_password : option string;
  url_path : string;
  url_query : option string;
  url_host_str : option string;
  url_port : option Z;
}.
Class UrlCrate := url_parse : string → result string Url.

(** A host printed by the crate is made of graphic ASCII without a solidus,
    and [http://host:port] parses to that host, the scheme's default port being
    reported as no port, with an empty or root path and nothing else. *)
Class UrlLaws `{UrlCrate} : Prop := {
  url_port_u16 raw u p : url_parse raw = Ok u → url_port u = Some p → in_u16 p;
  url_host_graph raw u h :
    url_parse raw = Ok u → url_host_str u = Some h → sall ascii_graph h = true;
  url_parse_authority raw u h p :
    url_parse raw = Ok u → url_scheme u = "http" → url_host_str u = Some h →
    1 <= p <= u16_max →
    ∃ u', url_parse ("http://" +:+ h +:+ ":" +:+ show_uint p) = Ok u'
      ∧ url_scheme u' = "http" ∧ url_username u' = EmptyString ∧ url_password u' = None
      ∧ (url_path u' = "/" ∨ url_path u' = EmptyString) ∧ url_query u' = None
      ∧ url_host_str u' = Some h
      ∧ url_port u' = (if decide (p = 80) then None else Some p);
  url_host_brackets raw u h :
    url_parse raw = Ok u → url_host_str u = Some h → contains_char ":"%char h = true →
    starts_with "[" h = true;
}.

(** ** [argon2] and [base64] *)
Class Argon2 := {
  password_hash : Type;
  (** [PasswordHash::new] *)
  parse_phc : string → option password_hash;
  (** [hash_password] with a fresh salt, printed as a PHC string *)
  hash_password : string → string → result string string;
  verify_password : password_hash → string → bool;
}.

(** A produced hash parses and verifies the password it was made from. *)
Class Argon2Laws `{Argon2} : Prop :=
  hash_verifies salt tok h :
    hash_password salt tok = Ok h → ∃ p, parse_phc h = Some p ∧ verify_password p tok = true.

(** The URL-safe alphabet without padding. *)
Class Base64 := b64_encode : list Z → string.

(** ** [chrono]: an instant is its number of nanoseconds since the epoch. *)
Class Chrono := {
  to_rfc3339 : Z → string;
  parse_from_rfc3339 : string → option Z;
}.

(** The instants the clock can show: the years 1970 to 9999. *)
Definition chrono_range (t : Z) : Prop := 0 <= t < 253402300800 * 1000000000.

(** Printing and parsing an instant of that range is the identity, and the
    printed forms, all in UTC with four digits for the year, sort by time. *)
Class ChronoLaws `{Chrono} : Prop := {
  rfc3339_roundtrip t : chrono_range t → parse_from_rfc3339 (to_rfc3339 t) = Some t;
  rfc3339_order t u : chrono_range t → chrono_range u →
    String.ltb (to_rfc3339 t) (to_rfc3339 u) = (t <? u);
}.

(** [Duration::seconds]: panics outside what milliseconds in an [i64] hold. *)
Definition duration_seconds (s : Z) : option Z :=
  if (- (i64_max / 1000) <=? s) && (s <=? i64_max / 1000) then Some (s * 1000000000) else None.

(** ** [serde_json] at one type *)
Class SerdeJson (A : Type) := {
  to_json : A → result string string;
  from_json : string → result string A;
}.
Class SerdeLaws (A : Type) `{SerdeJson A} : Prop :=
  from_to_json a s : to_json a = Ok s → from_json s = Ok a.

(** Types of strings, integers, booleans, options and lists always serialize. *)
Class SerdeTotal (A : Type) `{SerdeJson A} : Prop :=
  to_json_total a : ∃ s, to_json a = Ok s.

(** ** [http]: header maps with case-insensitive names, here in lower case *)
Class HeaderCrate := {
  HeaderMap : Type;
  (** the first value of a name, as bytes *)
  hm_get : string → HeaderMap → option string;
  (** replaces every value of the name *)
  hm_insert : string → string → HeaderMap → HeaderMap;
  (** every name with each of its values *)
  hm_iter : HeaderMap → list (string * string);
  (** [HeaderValue::to_str]: a value of visible ASCII *)
  hv_to_str : string → option string;
  (** [HeaderValue::from_str] *)
  hv_from_str : string → option string;
}.
(** Visible ASCII and the tab. *)
Definition header_visible (c : ascii) : bool := byte_in 32 126 c || (byte c =? 9).
Class HeaderLaws `{HeaderCrate} : Prop := {
  hm_get_insert n v m k : hm_get k (hm_insert n v m) = if decide (k = n) then Some v else hm_get k m;
  hv_to_str_eq v : hv_to_str v = if sall header_visible v then Some v else None;
  hv_from_str_eq s : hv_from_str s = if sall header_visible s then Some s else None;
}.

(** ** [hickory]: names, records, messages and their wire form *)
Inductive RecordType := TypeA | TypeAAAA | TypeOther (code : Z).
#[export] Instance RecordType_eq_dec : EqDecision RecordType.
Proof. solve_decision. Defined.
#[export] Instance RecordType_countable : Countable RecordType.
Proof.
  apply (inj_countable'
    (λ t, match t with TypeA => inl true | TypeAAAA => inl false | TypeOther c => inr c end)
    (λ x, match x with inl true => TypeA | inl false => TypeAAAA | inr c => TypeOther c end)).
  by intros [].
Defined.
Inductive ResponseCode := NoError | ServFail | NXDomain | DnsRefused.
#[export] Instance ResponseCode_eq_dec : EqDecision ResponseCode.
Proof. solve_decision. Defined.
Inductive RData := RDataA (ip : Ipv4Addr) | RDataOther (bytes : string).
#[export] Instance RData_eq_dec : EqDecision RData.
Proof. solve_decision. Defined.

Class DnsName := {
  Name : Type;
  (** [Name::to_ascii]: the labels with dots, absolute names with a final dot *)
  name_to_ascii : Name → string;
}.
Record Query `{DnsName} := mk_query { q_name : Name; q_type : RecordType }.
Record DnsRecord `{DnsName} := mk_record { rr_name : Name; rr_ttl : Z; rr_data : RData }.
(** What the server reads of a request. *)
Record DnsRequest `{DnsName} := mk_request {
  rq_id : Z; rq_op_code : Z; rq_recursion_desired : bool; rq_queries : list Query;
}.
(** What it sets of a response; the other sections stay empty. *)
Record DnsResponse `{DnsName} := mk_response {
  rs_id : Z; rs_op_code : Z; rs_authoritative : bool; rs_recursion_desired : bool;
  rs_recursion_available : bool; rs_rcode : ResponseCode; rs_queries : list Query;
  rs_answers : list DnsRecord;
}.
Arguments mk_query {_} _ _.
Arguments mk_record {_} _ _ _.
Arguments mk_request {_} _ _ _ _.
Arguments mk_response {_} _ _ _ _ _ _ _ _.
Class DnsWire `{DnsName} := {
  message_from_bytes : string → result string DnsRequest;
  message_to_bytes : DnsResponse → result string string;
}.
(** The encoder never writes more than a message can hold. *)
Class DnsWireLaws `{DnsWire} : Prop :=
  message_size r s : message_to_bytes r = Ok s → str_len s <= u16_max.
