(* ===== verification/Common.v ===== *)
(** * [tailsvc-common]: errors, secrets, backends

    [error.rs], [auth.rs] and [backend.rs], and the request and response types
    of [api.rs] the other crates exchange. *)
From S2P Require Import Prelude RustStr Net Externals.
From Stdlib Require Import Ascii.
#[local] Open Scope Z_scope.

(** ** [error.rs] *)
Inductive Error :=
| InvalidHostname (msg : string)
| InvalidBackend (msg : string)
| LabelParse (msg : string)
| AmbiguousBackend (msg : string)
| Auth
| Conflict (msg : string)
| Other (msg : string).

Definition error_to_string (e : Error) : string :=
  match e with
  | InvalidHostname m => "invalid hostname: " +:+ m
  | InvalidBackend m => "invalid backend URL: " +:+ m
  | LabelParse m => "label parse error: " +:+ m
  | AmbiguousBackend m => "ambiguous backend resolution: " +:+ m
  | Auth => "authentication failed"
  | Conflict m => "conflict: " +:+ m
  | Other m => m
  end.

(** ** [auth.rs] *)
Section auth.
Context `{Argon2} `{Base64}.

(** [buf]: the bytes the random generator fills the buffer with. *)
Definition generate_token (buf : list Z) : string := b64_encode buf.

Definition hash_token (salt token : string) : result string string :=
  map_err (λ e, "argon2 hash: " +:+ e) (hash_password salt token).

Definition verify_token (hash token : string) : bool :=
  match parse_phc hash with
  | Some parsed => verify_password parsed token
  | None => false
  end.
End auth.

(** The accumulator is a [u8]. *)
Definition ct_step (diff : Z) (xy : ascii * ascii) : Z :=
  Z.lor diff (Z.lxor (byte xy.1) (byte xy.2)).
Definition constant_time_eq (a b : string) : bool :=
  if negb (str_len a =? str_len b) then false
  else
    let diff := fold_left ct_step
      (combine (String.list_ascii_of_string a) (String.list_ascii_of_string b)) 0 in
    diff =? 0.

(** ** [backend.rs] *)
Record Backend := mk_backend { host : string; port : Z }.
#[export] Instance Backend_eq_dec : EqDecision Backend.
Proof. solve_decision. Defined.

Definition authority (b : Backend) : string :=
  if contains_char ":"%char (host b) && negb (starts_with "[" (host b))
  then "[" +:+ host b +:+ "]:" +:+ show_uint (port b)
  else host b +:+ ":" +:+ show_uint (port b).
Definition base_url (b : Backend) : string := "http://" +:+ authority b +:+ "/".
Definition fingerprint (b : Backend) : string := "http://" +:+ authority b +:+ "/".

Section backend.
Context `{UrlCrate}.

Definition parse_backend_url (raw : string) : result Error Backend :=
  let trimmed := trim raw in
  if str_is_empty trimmed then Err (InvalidBackend "empty")
  else if negb (sall (λ c, negb (byte c <? 32)) trimmed)
  then Err (InvalidBackend "control characters")
  else
    url ← map_err InvalidBackend (url_parse trimmed);
    if negb (bool_decide (url_scheme url = "http"))
    then Err (InvalidBackend "only http scheme supported")
    else if negb (bool_decide (url_username url = EmptyString))
            || bool_decide (is_Some (url_password url))
    then Err (InvalidBackend "credentials not allowed")
    else if negb (bool_decide (url_path url = "/")) && negb (str_is_empty (url_path url))
    then Err (InvalidBackend "path not allowed")
    else if bool_decide (is_Some (url_query url))
    then Err (InvalidBackend "query not allowed")
    else
      host ← ok_or (url_host_str url) (InvalidBackend "missing host");
      let port := default 80 (url_port url) in
      if port =? 0 then Err (InvalidBackend "invalid port")
      else Ok (mk_backend host port).
End backend.

(** ** [api.rs]: the bodies the agent and the controller exchange *)
Record EnrollRequest := {
  er_display_name : string; er_tailscale_ipv4 : string; er_docker_engine_id : string }.
Record EnrollResponse := {
  en_agent_id : string; en_agent_token : string;
  en_heartbeat_interval_seconds : Z; en_lease_ttl_seconds : Z }.
Record HeartbeatRouteRef := mk_hbref { hb_hostname : string; hb_backend_fingerprint : string }.
Record HeartbeatRequest := { hr_tailscale_ipv4 : string; hr_routes : list HeartbeatRouteRef }.
Record RouteEntry := mk_entry {
  re_hostname : string; re_backend : string;
  re_container_id : option string; re_container_name : option string }.
Record PutRoutesRequest := { pr_routes : list RouteEntry }.
Record RouteConflict := mk_conflict {
  rc_hostname : string; rc_owner_agent_id : string; rc_lease_expires_at : Z }.
Record PutRoutesResponse := { ps_accepted : list string; ps_conflicts : list RouteConflict }.
Record AdminAgentView := {
  av_agent_id : string; av_display_name : string; av_tailscale_ipv4 : string;
  av_docker_engine_id : string; av_created_at : Z; av_last_seen_at : option Z;
  av_status : string }.
Record AdminRouteView := {
  rv_hostname : string; rv_agent_id : string; rv_tailscale_ipv4 : string; rv_backend : string;
  rv_container_id : option string; rv_container_name : option string; rv_lease_expires_at : Z }.
Record AdminRouteHealthView := {
  rh_hostname : string; rh_agent_id : string; rh_tailscale_ipv4 : string; rh_backend : string;
  rh_container_id : option string; rh_container_name : option string; rh_lease_expires_at : Z;
  rh_registration : string; rh_http_probe : string; rh_probe_ms : option Z;
  rh_probe_detail : option string }.
Record AdminDashboard := {
  ad_routes : list AdminRouteHealthView; ad_agents : list AdminAgentView }.
Record CreateEnrollmentTokenResponse := { ce_token : string; ce_expires_at : option Z }.
Record DiscoveredContainerDto := {
  dc_identity_key : string; dc_container_id : string; dc_container_name : string;
  dc_image : string; dc_network_mode : option string; dc_suggested_backend : option string;
  dc_published_ports : list Z; dc_exposed_ports : list Z;
  dc_compose_project : option string; dc_compose_service : option string;
  dc_has_tailsvc_labels : bool }.
Record DiscoveryReportRequest := { dr_services : list DiscoveredContainerDto }.
Record DesiredEnabledService := mk_desired {
  de_id : string; de_identity_key : string; de_hostnames : list string; de_backend : string;
  de_container_name : option string }.
Record DesiredServicesResponse := { ds_services : list DesiredEnabledService }.
Record AdminDiscoveryItem := {
  di_agent_id : string; di_agent_name : string; di_tailscale_ipv4 : string;
  di_identity_key : string; di_container_id : string; di_container_name : string;
  di_image : string; di_suggested_backend : option string; di_published_ports : list Z;
  di_exposed_ports : list Z; di_has_tailsvc_labels : bool; di_enabled : bool;
  di_enabled_id : option string; di_hostnames : list string; di_backend : option string;
  di_discovery_updated_at : option string }.
Record EnableServiceRequest := {
  es_agent_id : string; es_identity_key : string; es_container_name : option string;
  es_hostnames : list string; es_backend : string }.
Record EnableServiceResponse := { ex_id : string }.

(** ** Lemmas *)

Lemma byte_inj c d : byte c = byte d → c = d.
Proof.
  unfold byte. intros H%N2Z.inj. by rewrite <- (ascii_N_embedding c), H, ascii_N_embedding.
Qed.

Lemma ct_fold_zero l d :
  fold_left ct_step l d = 0 ↔ d = 0 ∧ Forall (λ xy, xy.1 = xy.2) l.
Proof.
  revert d; induction l as [|[x y] l IH]; intros d; cbn [fold_left].
  { split; [done | by intros [? _]]. }
  rewrite IH, Forall_cons. unfold ct_step. cbn [fst snd].
  rewrite Z.lor_eq_0_iff, Z.lxor_eq_0_iff.
  split; [intros ([-> ?%byte_inj] & ?); done | intros (-> & -> & ?); done].
Qed.

Lemma str_len_list s : str_len s = Z.of_nat (length (String.list_ascii_of_string s)).
Proof. induction s as [|c s IH]; [done|]. cbn [str_len String.list_ascii_of_string length]. lia. Qed.

Lemma combine_diag {A} (l k : list A) :
  length l = length k → Forall (λ xy, xy.1 = xy.2) (combine l k) → l = k.
Proof.
  revert k; induction l as [|x l IH]; intros [|y k]; try done.
  cbn. intros [= Hl]. rewrite Forall_cons. cbn. intros [-> ?]. f_equal; auto.
Qed.

Lemma parse_backend_url_Ok `{UrlCrate} raw b :
  parse_backend_url raw = Ok b ↔
  trim raw ≠ EmptyString ∧ sall (λ c, negb (byte c <? 32)) (trim raw) = true ∧
  ∃ u, url_parse (trim raw) = Ok u ∧ url_scheme u = "http" ∧ url_username u = EmptyString
    ∧ url_password u = None ∧ (url_path u = "/" ∨ url_path u = EmptyString)
    ∧ url_query u = None ∧ url_host_str u = Some (host b)
    ∧ default 80 (url_port u) = port b ∧ port b ≠ 0.
Proof.
  unfold parse_backend_url. split.
  - destruct (str_is_empty (trim raw)) eqn:He; [done|].
    destruct (sall _ (trim raw)) eqn:Hs; [cbn [negb]|done].
    rewrite result_bind_Ok. intros (u & Hu%map_err_Ok & Hb).
    assert (trim raw ≠ EmptyString) by (by intros Hr; rewrite Hr in He).
    repeat (case_match; [done|]). breflect.
    apply result_bind_Ok in Hb as (h & Hh%ok_or_Ok & Hb).
    case_match; [done|]. simplify_eq/=. breflect.
    repeat split; try done. exists u.
    repeat match goal with
    | H' : negb _ && negb _ = false |- _ => apply andb_false_iff in H'; breflect
    end.
    destruct (url_password u) eqn:?, (url_query u) eqn:?; try (exfalso; eauto; fail).
    repeat split; try done.
    match goal with H' : _ ∨ _ |- _ => destruct H' as [?|?]; breflect; [by left | right] end.
    by destruct (url_path u).
  - intros (Hne & Hs & u & Hu & Hsc & Hun & Hpw & Hpath & Hq & Hh & Hp & Hp0).
    destruct (str_is_empty (trim raw)) eqn:He; [by destruct (trim raw)|].
    destruct b as [h p]; cbn [host port] in *.
    rewrite Hs, Hu. cbn [negb map_err mbind result_bind].
    rewrite Hsc, Hun, Hpw, Hq, Hh. cbn [ok_or mbind result_bind].
    rewrite Hp, (proj2 (Z.eqb_neq p 0)) by done.
    by destruct Hpath as [-> | ->].
Qed.

(** The parts of an accepted backend. *)
Lemma parse_backend_url_parts `{UrlLaws} raw b :
  parse_backend_url raw = Ok b →
  1 <= port b <= u16_max ∧ sall ascii_graph (host b) = true ∧
  authority b = host b +:+ ":" +:+ show_uint (port b).
Proof.
  rewrite parse_backend_url_Ok. intros (_ & _ & u & Hu & _ & _ & _ & _ & _ & Hh & Hp & Hp0).
  repeat split.
  - destruct (url_port u) as [p|] eqn:Hup; simpl in Hp; [|lia].
    apply (url_port_u16 _ _ _ Hu) in Hup. unfold in_u16 in Hup. lia.
  - destruct (url_port u) as [p|] eqn:Hup; simpl in Hp; [|unfold u16_max; lia].
    apply (url_port_u16 _ _ _ Hu) in Hup. unfold in_u16 in Hup. lia.
  - by eapply url_host_graph.
  - unfold authority. destruct (contains_char ":" (host b)) eqn:Hc; [|done].
    by rewrite (url_host_brackets _ _ _ Hu Hh Hc).
Qed.

(** Any string that spells an accepted backend parses back to it. *)
Lemma parse_backend_authority `{UrlLaws} raw b :
  parse_backend_url raw = Ok b → parse_backend_url ("http://" +:+ authority b) = Ok b.
Proof.
  intros Hb. pose proof (parse_backend_url_parts _ _ Hb) as (Hport & Hg & Ha).
  apply parse_backend_url_Ok in Hb
    as (_ & _ & u & Hu & Hsc & _ & _ & _ & _ & Hh & _ & _).
  assert (sall ascii_graph ("http://" +:+ authority b) = true) as Hgr.
  { rewrite Ha, !sall_app, Hg, show_uint_graph by lia. done. }
  apply parse_backend_url_Ok. rewrite trim_graph by done. split; [done|]. split.
  { eapply sall_impl; [|exact Hgr]. intros c. unfold ascii_graph, byte_in.
    intros; breflect. apply negb_true_iff, Z.ltb_ge. lia. }
  destruct (url_parse_authority _ _ _ (port b) Hu Hsc Hh Hport)
    as (u' & Hu' & Hsc' & Hun' & Hpw' & Hpath' & Hq' & Hh' & Hp').
  rewrite Ha. exists u'. rewrite Hp'. repeat split; try done; [|lia].
  case_decide; simpl; lia.
Qed.
