(* ===== verification/Concrete.v ===== *)
(** * Concrete crates

    Small functions that satisfy the laws of [Externals], with which the
    witnesses of the theorems are evaluated.  They are not models of the crates:
    the theorems hold for every instance. *)
From S2P Require Import Prelude RustStr Net Externals Common.
From Stdlib Require Import Ascii.
#[local] Open Scope Z_scope.

(** ** An [idna] that leaves every string alone *)

Definition id_idna : Idna := λ s, Ok s.
Lemma id_idna_laws : @IdnaLaws id_idna.
Proof. by intros s a _. Qed.

(** ** A [chrono] that prints an instant as 68 binary digits *)

Fixpoint bits (w : nat) (t : Z) : string :=
  match w with
  | O => EmptyString
  | S w' =>
      if 2 ^ Z.of_nat w' <=? t then String "1" (bits w' (t - 2 ^ Z.of_nat w'))
      else String "0" (bits w' t)
  end.
Fixpoint unbits (acc : Z) (s : string) : Z :=
  match s with
  | EmptyString => acc
  | String c s' => unbits (2 * acc + (if decide (c = "1"%char) then 1 else 0)) s'
  end.
Definition bits_chrono : Chrono := {|
  to_rfc3339 t := bits 68 t;
  parse_from_rfc3339 s := if str_len s =? 68 then Some (unbits 0 s) else None;
|}.

Lemma bits_range w t : 0 <= t < 2 ^ Z.of_nat (S w) →
  if 2 ^ Z.of_nat w <=? t then 0 <= t - 2 ^ Z.of_nat w < 2 ^ Z.of_nat w
  else 0 <= t < 2 ^ Z.of_nat w.
Proof.
  rewrite Nat2Z.inj_succ, Z.pow_succ_r by lia. case_match; breflect; lia.
Qed.

Lemma unbits_bits w acc t : 0 <= t < 2 ^ Z.of_nat w →
  unbits acc (bits w t) = acc * 2 ^ Z.of_nat w + t.
Proof.
  revert acc t; induction w as [|w IH]; intros acc t Ht.
  { change (2 ^ Z.of_nat 0) with 1 in *. cbn. lia. }
  pose proof (bits_range w t Ht). cbn [bits].
  rewrite Nat2Z.inj_succ, Z.pow_succ_r by lia.
  case_match; cbn [unbits].
  - rewrite decide_True, IH by done. lia.
  - rewrite decide_False, IH by done. lia.
Qed.

Lemma bits_compare w t u : 0 <= t < 2 ^ Z.of_nat w → 0 <= u < 2 ^ Z.of_nat w →
  String.compare (bits w t) (bits w u) = (t ?= u).
Proof.
  revert t u; induction w as [|w IH]; intros t u Ht Hu.
  { change (2 ^ Z.of_nat 0) with 1 in *. cbn. symmetry. apply Z.compare_eq_iff. lia. }
  pose proof (bits_range w t Ht). pose proof (bits_range w u Hu). cbn [bits].
  destruct (2 ^ Z.of_nat w <=? t) eqn:Et, (2 ^ Z.of_nat w <=? u) eqn:Eu; breflect;
    cbn [String.compare].
  - change (Ascii.compare "1" "1") with Eq. cbn iota. rewrite IH by done.
    destruct (Z.compare_spec t u), (Z.compare_spec (t - 2 ^ Z.of_nat w) (u - 2 ^ Z.of_nat w));
      try done; lia.
  - change (Ascii.compare "1" "0") with Gt. cbn iota. symmetry. apply Z.compare_gt_iff. lia.
  - change (Ascii.compare "0" "1") with Lt. cbn iota. symmetry. apply Z.compare_lt_iff. lia.
  - change (Ascii.compare "0" "0") with Eq. cbn iota. by apply IH.
Qed.

Lemma str_len_bits w t : str_len (bits w t) = Z.of_nat w.
Proof.
  revert t; induction w as [|w IH]; intros t; [done|]. cbn [bits].
  rewrite Nat2Z.inj_succ. case_match; cbn [str_len]; rewrite IH; lia.
Qed.

Lemma bits_chrono_laws : @ChronoLaws bits_chrono.
Proof.
  assert (∀ t, chrono_range t → 0 <= t < 2 ^ Z.of_nat 68) as Hr.
  { unfold chrono_range. change (2 ^ Z.of_nat 68) with 295147905179352825856. lia. }
  split.
  - intros t Ht%Hr. cbn -[bits Z.of_nat]. rewrite str_len_bits.
    change (Z.of_nat 68 =? 68) with true. cbn iota. by rewrite unbits_bits.
  - intros t u Ht%Hr Hu%Hr. cbn -[bits]. unfold String.ltb. rewrite bits_compare by done.
    by destruct (Z.compare_spec t u), (Z.ltb_spec t u); try lia.
Qed.

(** ** An [argon2] whose hash shows the password, a [base64] of raw bytes *)

Definition plain_argon2 : Argon2 := {|
  password_hash := string;
  parse_phc h := strip_prefix "plain$" h;
  hash_password _ tok := Ok ("plain$" +:+ tok);
  verify_password p tok := bool_decide (p = tok);
|}.
Lemma plain_argon2_laws : @Argon2Laws plain_argon2.
Proof.
  intros salt tok h. cbn [hash_password plain_argon2]. intros [= <-]. exists tok.
  split; [by apply strip_prefix_Some | by apply bool_decide_eq_true].
Qed.
Definition raw_base64 : Base64 :=
  fold_right (λ b s, String (ascii_of_N (Z.to_N b)) s) EmptyString.

(** ** A [url] crate for [http://host] and [http://host:port], with or without a
    trailing solidus; it refuses every other string. *)

Definition host_graph (c : ascii) : bool :=
  ascii_graph c && bool_decide (c ≠ ":"%char) && bool_decide (c ≠ "/"%char).
Definition authority_url (h : string) (port : option Z) : result string Url :=
  if sall host_graph h
  then Ok (mk_url "http" EmptyString None "/" None (Some h) port) else Err "invalid host".
Definition parse_authority (hp : string) : result string Url :=
  match split ":"%char hp with
  | [h] => authority_url h None
  | [h; p] =>
      match parse_digits u16_max 0 p with
      | Some n => authority_url h (if decide (n = 80) then None else Some n)
      | None => Err "invalid port number"
      end
  | _ => Err "invalid port number"
  end.
Definition plain_url : UrlCrate := λ raw,
  match strip_prefix "http://" raw with
  | None => Err "relative URL without a base"
  | Some rest =>
      match split "/"%char rest with
      | [hp] | [hp; EmptyString] => parse_authority hp
      | _ => Err "unsupported"
      end
  end.

Lemma plain_url_inv raw u : plain_url raw = Ok u →
  ∃ h port, u = mk_url "http" EmptyString None "/" None (Some h) port ∧ sall host_graph h = true
    ∧ ∀ p, port = Some p → in_u16 p.
Proof.
  assert (∀ hp, parse_authority hp = Ok u → ∃ h port,
    u = mk_url "http" EmptyString None "/" None (Some h) port ∧ sall host_graph h = true
    ∧ ∀ p, port = Some p → in_u16 p) as Ha.
  { intros hp. unfold parse_authority, authority_url. intros Hu.
    destruct (split ":" hp) as [|h [|p [|]]]; try done.
    - destruct (sall host_graph h) eqn:Hh; [|done]. simplify_eq. by exists h, None.
    - destruct (parse_digits u16_max 0 p) as [n|] eqn:Hn; [|done].
      destruct (sall host_graph h) eqn:Hh; [|done]. simplify_eq. eexists h, _.
      do 2 (split; [done|]). intros q. case_decide; [done|]. intros [= <-].
      unfold in_u16. eapply parse_digits_bound; [|exact Hn|]; unfold u16_max; lia. }
  unfold plain_url. intros Hu. destruct (strip_prefix "http://" raw); [|done].
  destruct (split "/" _) as [|hp [|[|] [|]]]; try done; by apply (Ha hp).
Qed.

Lemma plain_url_authority h p : sall host_graph h = true → 1 <= p <= u16_max →
  plain_url ("http://" +:+ h +:+ ":" +:+ show_uint p) =
  Ok (mk_url "http" EmptyString None "/" None (Some h) (if decide (p = 80) then None else Some p)).
Proof.
  intros Hh Hp. unfold plain_url.
  rewrite (proj2 (strip_prefix_Some "http://" _ (h +:+ ":" +:+ show_uint p))) by done.
  assert (∀ c, c = ":"%char ∨ c = "/"%char →
    sall (λ x, negb (bool_decide (x = c))) h = true ∧
    sall (λ x, negb (bool_decide (x = c))) (show_uint p) = true) as Hno.
  { intros c Hc. split.
    - eapply sall_impl; [|exact Hh]. unfold host_graph. intros x Hx. breflect.
      apply negb_true_iff, bool_decide_eq_false. by destruct Hc as [->| ->].
    - eapply sall_impl; [|apply show_uint_digits; lia]. intros x Hx.
      apply negb_true_iff, bool_decide_eq_false. intros ->. by destruct Hc as [->| ->]. }
  unfold split at 1. rewrite split_on_nosep.
  2: { rewrite !sall_app. destruct (Hno "/"%char) as [-> ->]; [by right|]. done. }
  unfold parse_authority, split. destruct (Hno ":"%char) as [Hn1 Hn2]; [by left|].
  change (":" +:+ show_uint p) with (String ":" (show_uint p)).
  rewrite split_on_app, split_on_nosep by done.
  rewrite parse_show_uint by (unfold u16_max, u64_max in *; lia).
  unfold authority_url. by rewrite Hh.
Qed.

Lemma plain_url_laws : @UrlLaws plain_url.
Proof.
  split; unfold url_parse.
  - intros raw u p (h & port & -> & _ & Hp)%plain_url_inv. cbn. auto.
  - intros raw u h (h' & port & -> & Hg & _)%plain_url_inv. cbn. intros [= <-].
    eapply sall_impl; [|exact Hg]. unfold host_graph. intros c Hc. by breflect.
  - intros raw u h p (h' & port & -> & Hg & _)%plain_url_inv _ [= ->] Hp. cbn in Hg.
    eexists. split; [by apply plain_url_authority|]. cbn. repeat split. by left.
  - intros raw u h (h' & port & -> & Hg & _)%plain_url_inv [= ->] Hc. exfalso.
    apply negb_true_iff, not_true_iff_false in Hc. apply Hc.
    eapply sall_impl; [|exact Hg]. unfold host_graph. intros c Hx. by breflect; apply bool_decide_eq_true.
Qed.

(** ** Header maps as finite maps *)

#[local] Definition visible (s : string) : option string :=
  if sall header_visible s then Some s else None.
Definition plain_headers : HeaderCrate := {|
  HeaderMap := gmap string string;
  hm_get k m := m !! k;
  hm_insert n v m := <[n := v]> m;
  hm_iter m := map_to_list m;
  hv_to_str := visible;
  hv_from_str := visible;
|}.
Lemma plain_headers_laws : @HeaderLaws plain_headers.
Proof.
  split; cbn; unfold visible.
  - intros n v m k. rewrite lookup_insert. by repeat case_decide; subst.
  - done.
  - done.
Qed.

(** ** A serialization of lists of strings: every byte after a one, every string
    ended by a zero. *)

Fixpoint enc_string (s k : string) : string :=
  match s with
  | EmptyString => String "0" k
  | String c s' => String "1" (String c (enc_string s' k))
  end.
Fixpoint dec_strings (cur s : string) : list string :=
  match s with
  | String "0" s' => srev cur :: dec_strings EmptyString s'
  | String _ (String c s') => dec_strings (String c cur) s'
  | _ => []
  end.
Definition plain_strings : SerdeJson (list string) := {|
  to_json l := Ok (foldr enc_string EmptyString l);
  from_json s := Ok (dec_strings EmptyString s);
|}.
Lemma dec_enc s cur k : dec_strings cur (enc_string s k) = (srev cur +:+ s) :: dec_strings EmptyString k.
Proof.
  revert cur. induction s as [|c s IH]; intros cur; cbn [enc_string].
  - by rewrite sapp_nil_r.
  - cbn [dec_strings]. rewrite IH. cbn [srev]. by rewrite <- sapp_assoc, sapp_cons, sapp_nil_l.
Qed.
Lemma plain_strings_laws : @SerdeLaws (list string) plain_strings.
Proof.
  intros l s [= <-]. cbn. f_equal. induction l as [|w l IH]; [done|]. cbn [foldr].
  by rewrite dec_enc, IH.
Qed.

(** A serialization that always fails. *)
Definition no_json A : SerdeJson A := {| to_json _ := Err "no"; from_json _ := Err "no" |}.
