(* ===== verification/Hostname.v ===== *)
(** * Hostname normalisation ([tailsvc-common/src/hostname.rs])

    [NormalizedHostname] is its inner string.  [validate_hostname_syntax] and
    [parse_host_list] are related to specifications that do not mention the
    loops: [hostname_syntax] and [dedup]. *)
From S2P Require Import Prelude RustStr Net Externals Common.
From Stdlib Require Import Ascii.
#[local] Open Scope Z_scope.

Abbreviation NormalizedHostname := string.

(** ** The code *)

(** [c.is_ascii_alphanumeric() || c == '-'], the first byte of a character
    outside ASCII being neither. *)
Definition label_char (c : ascii) : bool := is_ascii_alphanumeric c || bool_decide (c = "-"%char).

Fixpoint check_chars (label : string) : result Error unit :=
  match label with
  | EmptyString => Ok tt
  | String c label' =>
      if negb (label_char c)
      then Err (InvalidHostname ("invalid char: " +:+ first_char label))
      else check_chars label'
  end.

Definition check_label (label : string) : result Error unit :=
  if str_is_empty label then Err (InvalidHostname "empty label")
  else if 63 <? str_len label then Err (InvalidHostname "label too long")
  else if starts_with "-" label || ends_with "-" label
  then Err (InvalidHostname "label hyphen placement")
  else check_chars label.

Definition validate_hostname_syntax (host : string) : result Error unit :=
  if 253 <? str_len host then Err (InvalidHostname "too long")
  else if ends_with "." host then Err (InvalidHostname "trailing dot not allowed")
  else for_each check_label (split "."%char host).

Section normalize.
Context `{Idna}.

Definition normalize_hostname (input : string) : result Error NormalizedHostname :=
  let trimmed := trim input in
  if str_is_empty trimmed then Err (InvalidHostname "empty")
  else if contains_char ":"%char trimmed
  then Err (InvalidHostname "port not allowed in hostname")
  else if contains_char "/"%char trimmed
  then Err (InvalidHostname "path not allowed in hostname")
  else if contains_str "://" trimmed
  then Err (InvalidHostname "scheme not allowed in hostname")
  else
    ascii ← map_err (λ e, InvalidHostname ("idna: " +:+ e)) (domain_to_ascii trimmed);
    let lower := to_ascii_lowercase ascii in
    _ ← validate_hostname_syntax lower;
    Ok lower.

(** The loop of [parse_host_list]: [seen] is the set of strings inserted. *)
Fixpoint host_list_loop (parts : list string) (seen : gset string) (out : list NormalizedHostname)
    : result Error (list NormalizedHostname) :=
  match parts with
  | [] => Ok out
  | part :: parts' =>
      h ← normalize_hostname part;
      if decide (h ∈ seen) then host_list_loop parts' seen out
      else host_list_loop parts' ({[h]} ∪ seen) (out ++ [h])
  end.

Definition parse_host_list (raw : string) : result Error (list NormalizedHostname) :=
  out ← host_list_loop (split ","%char raw) ∅ [];
  match out with
  | [] => Err (InvalidHostname "at least one hostname required")
  | _ => Ok out
  end.
End normalize.

(** ** Specifications *)

(** A DNS label: one to 63 letters, digits and hyphens, no hyphen at the ends. *)
Definition valid_label (w : string) : Prop :=
  1 <= str_len w <= 63 ∧ sall label_char w = true
  ∧ (∀ r, w ≠ "-" +:+ r) ∧ (∀ r, w ≠ r +:+ "-").

(** A hostname: labels joined by dots, at most 253 bytes. *)
Definition hostname_syntax (s : string) : Prop :=
  str_len s <= 253 ∧ ∃ ls, ls ≠ [] ∧ s = join "." ls ∧ Forall valid_label ls.

(** The first occurrences of a list, in order. *)
Fixpoint dedup {A} `{EqDecision A} (l : list A) : list A :=
  match l with
  | [] => []
  | x :: l' => x :: filter (λ y, y ≠ x) (dedup l')
  end.

(** ** Lemmas *)

Lemma check_chars_Ok w : check_chars w = Ok tt ↔ sall label_char w = true.
Proof.
  induction w as [|c w IH]; [done|]. cbn [check_chars sall].
  destruct (label_char c); cbn [negb andb]; [done | by split].
Qed.

Lemma check_label_Ok w : check_label w = Ok tt ↔ valid_label w.
Proof.
  unfold check_label, valid_label. split.
  - destruct (str_is_empty w) eqn:He; [done|].
    destruct (63 <? str_len w) eqn:Hl; [done|].
    destruct (starts_with "-" w) eqn:Hs; [done|].
    destruct (ends_with "-" w) eqn:Ht; [done|]. cbn [orb].
    rewrite check_chars_Ok. intros Hc. breflect. repeat split; try done.
    + destruct w; [done|]. cbn [str_len]. pose proof (str_len_nonneg w). lia.
    + intros r ->. by rewrite (proj2 (starts_with_iff _ _)) in Hs by eauto.
    + intros r ->. by rewrite (proj2 (ends_with_iff _ _)) in Ht by eauto.
  - intros (Hl & Hc & Hs & Ht).
    destruct (str_is_empty w) eqn:He; [destruct w; cbn in *; [lia | done]|].
    rewrite (proj2 (Z.ltb_ge 63 _)) by lia.
    destruct (starts_with "-" w) eqn:E1.
    { apply starts_with_iff in E1 as [r ->]. by destruct (Hs r). }
    destruct (ends_with "-" w) eqn:E2.
    { apply ends_with_iff in E2 as [r ->]. by destruct (Ht r). }
    by apply check_chars_Ok.
Qed.

Lemma label_char_no_dot w : sall label_char w = true →
  sall (λ x, bool_decide (x ≠ "."%char)) w = true.
Proof.
  apply sall_impl. intros c Hc. apply bool_decide_eq_true. by intros ->.
Qed.

Lemma valid_label_not_dotted r w : valid_label w → w ≠ r +:+ ".".
Proof.
  intros (_ & Hw & _) ->. rewrite sall_app in Hw. cbn in Hw. by rewrite andb_false_r in Hw.
Qed.

(** A list of labels joined does not end with a dot. *)
Lemma join_valid_no_trailing_dot ls :
  ls ≠ [] → Forall valid_label ls → ends_with "." (join "." ls) = false.
Proof.
  intros Hls Hv. apply not_true_iff_false. rewrite ends_with_iff. intros [r Hr].
  assert (∃ ls' w, join "." ls = ls' +:+ w ∧ valid_label w) as (pre & w & Hj & Hw).
  { clear r Hr. induction ls as [|w ls IH]; [done|]. inversion_clear Hv as [|? ? Hw Hls'].
    destruct ls as [|w' ls]; [by exists EmptyString, w|].
    destruct IH as (pre & v & Hj & Hvl); [done..|].
    exists (w +:+ "." +:+ pre), v. rewrite join_cons, Hj by done. by rewrite <- !sapp_assoc. }
  rewrite Hj in Hr. destruct (srev w) as [|c t] eqn:Hs.
  { apply (f_equal srev) in Hs. rewrite srev_involutive in Hs. subst w.
    destruct Hw as [Hl _]. cbn in Hl. lia. }
  apply (f_equal srev) in Hr. rewrite !srev_app, Hs in Hr.
  change (srev ".") with (String "." EmptyString) in Hr. rewrite !sapp_cons in Hr.
  simplify_eq. destruct (valid_label_not_dotted (srev t) w Hw).
  rewrite <- (srev_involutive w), Hs. done.
Qed.

(** [validate_hostname_syntax] decides the syntax. *)
Lemma validate_hostname_syntax_Ok s :
  validate_hostname_syntax s = Ok tt ↔ hostname_syntax s.
Proof.
  unfold validate_hostname_syntax, hostname_syntax. split.
  - destruct (253 <? str_len s) eqn:Hl; [done|].
    destruct (ends_with "." s); [done|]. rewrite for_each_Ok. intros Hf. breflect.
    split; [done|]. exists (split "."%char s). split; [apply split_not_nil|].
    split; [by rewrite join_split|].
    eapply Forall_impl; [exact Hf|]. intros w. by rewrite check_label_Ok.
  - intros (Hl & ls & Hne & -> & Hv).
    rewrite (proj2 (Z.ltb_ge 253 _)) by done.
    rewrite join_valid_no_trailing_dot by done.
    rewrite for_each_Ok, split_join; [|done|].
    + eapply Forall_impl; [exact Hv|]. intros w. by rewrite check_label_Ok.
    + eapply Forall_impl; [exact Hv|]. intros w (_ & Hw & _). by apply label_char_no_dot.
Qed.

(** Bytes of a valid hostname. *)
Definition host_char (c : ascii) : bool := label_char c || bool_decide (c = "."%char).

Lemma join_sall (p : ascii → bool) sep ls :
  sall p sep = true → Forall (λ w, sall p w = true) ls → sall p (join sep ls) = true.
Proof.
  intros Hsep. induction ls as [|w [|w' ls] IH]; [done|by inversion 1|].
  inversion_clear 1. rewrite join_cons, !sall_app, Hsep, IH by done.
  by rewrite andb_true_r.
Qed.

Lemma hostname_syntax_chars s : hostname_syntax s → sall host_char s = true.
Proof.
  intros (_ & ls & _ & -> & Hv). apply join_sall; [done|].
  eapply Forall_impl; [exact Hv|]. intros w (_ & Hw & _). revert Hw.
  apply sall_impl. intros c Hc. unfold host_char. by rewrite Hc.
Qed.

Lemma hostname_syntax_nonempty s : hostname_syntax s → s ≠ EmptyString.
Proof.
  intros (_ & ls & Hne & -> & Hv). destruct ls as [|w ls]; [done|].
  inversion_clear Hv as [|? ? (Hl & _) _]. destruct w as [|c w]; [cbn in Hl; lia|].
  destruct ls; [done|]. by rewrite join_cons, sapp_cons.
Qed.

Lemma host_char_graph c : host_char c = true →
  ascii_graph c = true ∧ c ≠ ":"%char ∧ c ≠ "/"%char ∧ c ≠ ","%char.
Proof.
  intros Hc. split.
  - revert Hc. unfold host_char, label_char, is_ascii_alphanumeric, is_ascii_upper,
      is_ascii_lower, is_ascii_digit, ascii_graph, byte_in.
    destruct (bool_decide_reflect (c = "-"%char)) as [-> | _]; [done|].
    destruct (bool_decide_reflect (c = "."%char)) as [-> | _]; [done|].
    lia.
  - repeat split; by intros ->.
Qed.

Lemma contains_char_none c s :
  sall (λ x, bool_decide (x ≠ c)) s = true → contains_char c s = false.
Proof. unfold contains_char. by intros ->. Qed.

Lemma contains_str_none a p s :
  sall (λ x, bool_decide (x ≠ a)) s = true → contains_str (String a p) s = false.
Proof.
  induction s as [|c s IH]; [done|]. cbn [sall contains_str]. intros [Hc Hs]%andb_true_iff.
  apply bool_decide_eq_true in Hc. rewrite IH, orb_false_r by done.
  unfold starts_with. cbn [strip_prefix]. rewrite decide_False by done.
  rewrite bool_decide_eq_false. by intros [? ?].
Qed.

Section normalize_lemmas.
Context `{Idna}.

Lemma normalize_hostname_Ok input n :
  normalize_hostname input = Ok n →
  hostname_syntax n ∧ to_ascii_lowercase n = n
  ∧ ∃ a, domain_to_ascii (trim input) = Ok a ∧ n = to_ascii_lowercase a.
Proof.
  unfold normalize_hostname. repeat (case_match; [done|]).
  rewrite result_bind_Ok. intros (a & Ha%map_err_Ok & Hb).
  apply result_bind_Ok in Hb as ([] & Hv%validate_hostname_syntax_Ok & [= <-]).
  rewrite to_ascii_lowercase_idemp. eauto.
Qed.

(** A normal form is its own normal form. *)
Lemma normalize_hostname_fix input n `{!IdnaLaws} :
  normalize_hostname input = Ok n → normalize_hostname n = Ok n.
Proof.
  intros (Hv & Hl & a & Ha & Hn)%normalize_hostname_Ok.
  pose proof (hostname_syntax_chars n Hv) as Hc.
  assert (∀ d, (∀ c, host_char c = true → c ≠ d) →
    sall (λ x, bool_decide (x ≠ d)) n = true) as Hno.
  { intros d Hd. eapply sall_impl; [|exact Hc]. intros c ?%Hd. by apply bool_decide_eq_true. }
  unfold normalize_hostname. rewrite trim_graph.
  2: { eapply sall_impl; [|exact Hc]. intros c Hcc. by apply host_char_graph. }
  destruct (str_is_empty n) eqn:He.
  { by destruct n; [destruct (hostname_syntax_nonempty _ Hv)|]. }
  rewrite !contains_char_none, contains_str_none
    by (apply Hno; intros c Hcc; by apply host_char_graph in Hcc as (_ & ? & ? & _)).
  rewrite Hn at 1. rewrite (domain_to_ascii_stable _ _ Ha). rewrite <- Hn.
  cbn [map_err mbind result_bind]. rewrite Hl.
  by rewrite (proj2 (validate_hostname_syntax_Ok n) Hv).
Qed.

Lemma filter_dedup_in (h : string) (seen : gset string) (hs : list string) :
  filter (.∉ seen) (filter (.≠ h) hs) = filter (.∉ {[h]} ∪ seen) hs.
Proof. rewrite list_filter_filter. apply list_filter_iff. intros; set_unfold; tauto. Qed.

Lemma host_list_loop_spec parts seen out :
  host_list_loop parts seen out =
  (λ hs, out ++ filter (.∉ seen) (dedup hs)) <$> try_map normalize_hostname parts.
Proof.
  revert seen out; induction parts as [|part parts IH]; intros seen out.
  { cbn. f_equal. by rewrite app_nil_r. }
  cbn [host_list_loop try_map].
  destruct (normalize_hostname part) as [h|e]; [cbn [mbind result_bind]|done].
  case_decide as Hh; rewrite IH; (destruct (try_map normalize_hostname parts) as [hs|e]; [|done]);
    cbn [mbind result_bind fmap result_fmap dedup]; f_equal.
  - rewrite (filter_cons_False _ h) by (by intros ?). f_equal.
    rewrite list_filter_filter. apply list_filter_iff. intros x; set_unfold.
    split; [intros Hx; split; [done | by intros ->] | tauto].
  - rewrite (filter_cons_True _ h) by done. rewrite filter_dedup_in.
    by rewrite <- app_assoc.
Qed.

(** The loop with its set is the parts normalised, then deduplicated; the final
    emptiness test never fails, as a split has at least one part. *)
Lemma parse_host_list_eq raw :
  parse_host_list raw = dedup <$> try_map normalize_hostname (split ","%char raw).
Proof.
  unfold parse_host_list. rewrite host_list_loop_spec.
  pose proof (split_not_nil ","%char raw) as Hne.
  destruct (split ","%char raw) as [|part parts]; [done|]. cbn [try_map].
  destruct (normalize_hostname part) as [h|e]; [cbn [mbind result_bind]|done].
  destruct (try_map normalize_hostname parts) as [hs|e]; [|done].
  cbn [mbind result_bind fmap result_fmap dedup app].
  rewrite (filter_cons_True _ h) by set_solver+. do 2 f_equal.
  rewrite list_filter_filter. apply list_filter_iff. intros x; set_unfold; tauto.
Qed.
End normalize_lemmas.

Lemma dedup_spec {A} `{EqDecision A} (l : list A) :
  NoDup (dedup l) ∧ ∀ x, x ∈ dedup l ↔ x ∈ l.
Proof.
  induction l as [|x l [IHn IHe]]; cbn; [split; [constructor | done]|]. split.
  - constructor; [rewrite list_elem_of_filter; tauto | by apply NoDup_filter].
  - intros y. rewrite !elem_of_cons, list_elem_of_filter, IHe.
    destruct (decide (y = x)); tauto.
Qed.

Lemma parse_host_list_Ok `{Idna} raw out :
  parse_host_list raw = Ok out → out ≠ [] ∧ NoDup out ∧ Forall hostname_syntax out.
Proof.
  rewrite parse_host_list_eq. destruct (try_map _ _) as [hs|e] eqn:Hm; [|done].
  intros [= <-]. apply try_map_Ok in Hm. destruct (dedup_spec hs) as [Hnd Hel].
  split; [|split; [done|]].
  - pose proof (split_not_nil ","%char raw). by destruct Hm.
  - apply Forall_forall. intros x Hx%Hel%list_elem_of_lookup. destruct Hx as [i Hi].
    destruct (Forall2_lookup_r _ _ _ _ _ Hm Hi) as (p & _ & Hn).
    by apply normalize_hostname_Ok in Hn as (? & _).
Qed.

(** ** Properties *)

(** C35: a hostname the normaliser accepts is syntactically valid and in lower
    case, and normalising it again gives it back (given that ToASCII is stable
    on its own lower-cased output). *)
Theorem normalize_hostname_canonical `{IdnaLaws} input n :
  normalize_hostname input = Ok n →
  hostname_syntax n ∧ to_ascii_lowercase n = n ∧ normalize_hostname n = Ok n.
Proof.
  intros Hn. pose proof (normalize_hostname_Ok _ _ Hn) as (? & ? & _).
  do 2 (split; [done|]). by eapply normalize_hostname_fix.
Qed.

(** A host list parses to the normal forms of its comma-separated parts,
    first occurrences kept in order, and fails with the error of the first part
    that does not normalise; a parsed list is never empty and has no repetition. *)
Theorem parse_host_list_spec `{Idna} raw :
  parse_host_list raw = dedup <$> try_map normalize_hostname (split ","%char raw)
  ∧ ∀ out, parse_host_list raw = Ok out → NoDup out ∧ out ≠ [].
Proof.
  split; [apply parse_host_list_eq|].
  by intros out (? & ? & _)%parse_host_list_Ok.
Qed.

(** The hypotheses hold for an [idna] that leaves ASCII alone. *)
#[local] Instance ascii_idna : Idna := λ s, Ok s.
#[local] Instance ascii_idna_laws : IdnaLaws.
Proof. by intros s a _. Qed.

Lemma normalize_hostname_canonical_witness :
  normalize_hostname "  Grafana.Internal  " = Ok "grafana.internal"
  ∧ hostname_syntax "grafana.internal"
  ∧ to_ascii_lowercase "grafana.internal" = "grafana.internal"
  ∧ normalize_hostname "grafana.internal" = Ok "grafana.internal".
Proof.
  split; [vm_compute; reflexivity|].
  apply (normalize_hostname_canonical "  Grafana.Internal  "). vm_compute; reflexivity.
Defined.
