(* ===== verification/Labels.v ===== *)
(** * Container labels ([tailsvc-common/src/labels.rs])

    The labels arrive in a [HashMap], which the source scans with a
    case-insensitive test.  Here they are the list of its entries in iteration
    order, an order the map does not determine, so what depends on it shows. *)
From S2P Require Import Prelude RustStr Net Externals Common Hostname.
From Stdlib Require Import Ascii.
From stdpp Require Import sorting.
#[local] Open Scope Z_scope.

(** ** The code *)

Definition PREFIX : string := "tailsvc.".

Record ServiceLabels := mk_labels {
  hosts : list NormalizedHostname;
  label_port : option Z;
  label_backend : option Backend;
  label_network : option string;
}.

(** [labels.iter().find(|(k, _)| k.eq_ignore_ascii_case(name))], its value. *)
Fixpoint find_label (name : string) (labels : list (string * string)) : option string :=
  match labels with
  | [] => None
  | (k, v) :: labels' =>
      if eq_ignore_ascii_case k (PREFIX +:+ name) then Some v else find_label name labels'
  end.

Definition parse_port (s : string) : result Error Z :=
  match parse_u32 (trim s) with
  | None => Err (LabelParse "invalid port")
  | Some n =>
      if negb ((1 <=? n) && (n <=? 65535)) then Err (LabelParse "port out of range")
      else Ok (as_u16 n)
  end.

Section labels.
Context `{Idna} `{UrlCrate}.

Definition labels_from_map (labels : list (string * string)) : option ServiceLabels :=
  enable ← find_label "enable" labels;
  if negb (eq_ignore_ascii_case enable "true") then None
  else
    hosts_raw ← find_label "hosts" labels;
    hosts ← ok (parse_host_list hosts_raw);
    let port := find_label "port" labels ≫= λ v, ok (parse_port v) in
    let backend := find_label "backend" labels ≫= λ v, ok (parse_backend_url v) in
    let network :=
      find_label "network" labels ≫= λ v,
        let s := trim v in if str_is_empty s then None else Some s in
    Some (mk_labels hosts port backend network).
End labels.

Definition validate_service_labels (labels : ServiceLabels) : result Error unit :=
  match hosts labels with
  | [] => Err (LabelParse "no hosts")
  | _ => Ok tt
  end.

(** ** Lemmas *)

(** No two keys of the map are equal up to case. *)
Definition keys_distinct (labels : list (string * string)) : Prop :=
  NoDup (to_ascii_lowercase ∘ fst <$> labels).

Lemma find_label_Some name labels v :
  find_label name labels = Some v →
  ∃ k, (k, v) ∈ labels ∧ to_ascii_lowercase k = to_ascii_lowercase (PREFIX +:+ name).
Proof.
  induction labels as [|[k w] labels IH]; cbn; [done|].
  unfold eq_ignore_ascii_case. case_bool_decide as Hk.
  - intros [= ->]. exists k. split; [by left | done].
  - intros (k' & ? & ?)%IH. exists k'. split; [by right | done].
Qed.

Lemma find_label_elem name labels k v :
  keys_distinct labels → (k, v) ∈ labels →
  to_ascii_lowercase k = to_ascii_lowercase (PREFIX +:+ name) → find_label name labels = Some v.
Proof.
  unfold keys_distinct. induction labels as [|[k' w] labels IH]; [by inversion 2|].
  cbn [fmap list_fmap]. intros [Hnin Hnd]%NoDup_cons Hin Hk. cbn.
  unfold eq_ignore_ascii_case. apply elem_of_cons in Hin as [[= -> ->] | Hin].
  - by rewrite bool_decide_true.
  - rewrite bool_decide_false; [by apply IH|]. intros Heq. apply Hnin.
    apply list_elem_of_fmap. exists (k, v). split; [|done]. unfold compose; simpl; congruence.
Qed.

Lemma find_label_perm name l l' :
  keys_distinct l → l ≡ₚ l' → find_label name l = find_label name l'.
Proof.
  intros Hd Hp. assert (keys_distinct l') as Hd' by (unfold keys_distinct; by rewrite <- Hp).
  destruct (find_label name l) as [v|] eqn:Hv.
  - apply find_label_Some in Hv as (k & Hin & Hk). symmetry.
    eapply find_label_elem; [done | by rewrite <- Hp | done].
  - destruct (find_label name l') as [v|] eqn:Hv'; [|done].
    apply find_label_Some in Hv' as (k & Hin & Hk). rewrite <- Hp in Hin.
    by rewrite (find_label_elem name l k v) in Hv.
Qed.

Lemma parse_port_Ok s p : parse_port s = Ok p → 1 <= p <= 65535 ∧ parse_u32 (trim s) = Some p.
Proof.
  unfold parse_port. destruct (parse_u32 (trim s)) as [n|]; [|done].
  destruct ((1 <=? n) && (n <=? 65535)) eqn:Hn; [cbn [negb]|done]. intros [= <-]. breflect.
  rewrite as_u16_id by (unfold in_u16, u16_max; lia). done.
Qed.

Section label_lemmas.
Context `{Idna} `{UrlCrate}.

Lemma labels_from_map_Some labels sl :
  labels_from_map labels = Some sl →
  ∃ en hs, find_label "enable" labels = Some en ∧ eq_ignore_ascii_case en "true" = true
    ∧ find_label "hosts" labels = Some hs ∧ parse_host_list hs = Ok (hosts sl)
    ∧ label_port sl = (find_label "port" labels ≫= λ v, ok (parse_port v))
    ∧ label_backend sl = (find_label "backend" labels ≫= λ v, ok (parse_backend_url v))
    ∧ (∀ n, label_network sl = Some n → n ≠ EmptyString).
Proof.
  unfold labels_from_map. intros (en & Hen & Hl)%bind_Some.
  destruct (eq_ignore_ascii_case en "true") eqn:Ht; [cbn [negb] in Hl|done].
  apply bind_Some in Hl as (hs & Hhs & (out & Ho%ok_Some & [= <-])%bind_Some).
  exists en, hs. do 6 (split; [done|]). cbn. intros n.
  destruct (find_label "network" labels) as [v|]; [cbn|done].
  destruct (trim v); [done|]. by intros [= <-].
Qed.

Lemma labels_from_map_perm l l' :
  keys_distinct l → l ≡ₚ l' → labels_from_map l = labels_from_map l'.
Proof.
  intros Hd Hp. unfold labels_from_map.
  assert (∀ name, find_label name l = find_label name l') as Hf
    by (intros; by apply find_label_perm).
  by rewrite !Hf.
Qed.
End label_lemmas.

(** ** Properties *)

(** When no two label keys are equal up to case, the parsed labels do not
    depend on the order in which the map is iterated. *)
Theorem labels_order_independent `{Idna} `{UrlCrate} l l' :
  keys_distinct l → l ≡ₚ l' → labels_from_map l = labels_from_map l'.
Proof. apply labels_from_map_perm. Qed.

(** With two keys that differ only in case, the same set of labels exposes
    the container or hides it, by iteration order alone. *)
Theorem labels_case_twins_ambiguous `{Idna} `{UrlCrate} hs out :
  parse_host_list hs = Ok out →
  is_Some (labels_from_map
    [("tailsvc.enable", "true"); ("tailsvc.Enable", "false"); ("tailsvc.hosts", hs)])
  ∧ labels_from_map
    [("tailsvc.Enable", "false"); ("tailsvc.enable", "true"); ("tailsvc.hosts", hs)] = None.
Proof.
  intros Ho. split; [|reflexivity]. set (l := [_; _; _]).
  assert (find_label "enable" l = Some "true") as He by reflexivity.
  assert (find_label "hosts" l = Some hs) as Hh by reflexivity.
  unfold labels_from_map. rewrite He, Hh. cbn. rewrite Ho. cbn. eauto.
Qed.

(** C34: a container is taken as a service only with an enable label equal to
    true up to case, and what is then parsed is well-formed: a non-empty list of
    distinct valid hostnames, a port of 1 to 65535, a non-empty network name;
    the later validation accepts it. *)
Theorem labels_from_map_sound `{Idna} `{UrlCrate} labels sl :
  labels_from_map labels = Some sl →
  (∃ k v, (k, v) ∈ labels ∧ eq_ignore_ascii_case k "tailsvc.enable" = true
     ∧ eq_ignore_ascii_case v "true" = true)
  ∧ hosts sl ≠ [] ∧ NoDup (hosts sl) ∧ Forall hostname_syntax (hosts sl)
  ∧ (∀ p, label_port sl = Some p → 1 <= p <= 65535)
  ∧ (∀ n, label_network sl = Some n → n ≠ EmptyString)
  ∧ validate_service_labels sl = Ok tt.
Proof.
  intros (en & hs & Hen & Ht & _ & Hp & Hport & _ & Hnet)%labels_from_map_Some.
  assert (hosts sl ≠ [] ∧ NoDup (hosts sl) ∧ Forall hostname_syntax (hosts sl))
    as (Hne & Hnd & Hv) by (by eapply parse_host_list_Ok).
  apply find_label_Some in Hen as (k & Hin & Hk).
  split; [exists k, en; unfold eq_ignore_ascii_case; by rewrite bool_decide_true|].
  do 3 (split; [done|]). split; [|split; [done|]].
  - rewrite Hport. intros p (v & _ & Hv'%ok_Some%parse_port_Ok)%bind_Some. tauto.
  - unfold validate_service_labels. by destruct (hosts sl).
Qed.

(** Witnesses: an [idna] that leaves ASCII alone, a [url] crate that rejects
    every URL. *)
Section witnesses.
#[local] Instance label_idna : Idna := λ s, Ok s.
#[local] Instance label_url : UrlCrate := λ _, Err "relative URL without a base".
#[local] Definition some_labels : list (string * string) :=
  [("Tailsvc.Enable", "TRUE"); ("tailsvc.port", " +3000 "); ("tailsvc.hosts", "a.b, C ,a.b")].

Lemma labels_order_independent_witness :
  keys_distinct some_labels ∧ labels_from_map some_labels = labels_from_map (rev some_labels).
Proof.
  assert (keys_distinct some_labels) as Hd by (unfold keys_distinct; apply (bool_decide_unpack _); vm_compute; exact I).
  split; [exact Hd|]. apply labels_order_independent; [exact Hd|].
  apply Permutation_rev.
Defined.

Lemma labels_case_twins_ambiguous_witness :
  parse_host_list "a.internal" = Ok ["a.internal"] ∧
  is_Some (labels_from_map
    [("tailsvc.enable", "true"); ("tailsvc.Enable", "false"); ("tailsvc.hosts", "a.internal")]).
Proof.
  assert (parse_host_list "a.internal" = Ok ["a.internal"]) as Ho by (vm_compute; reflexivity).
  split; [exact Ho|]. apply (labels_case_twins_ambiguous _ _ Ho).
Defined.

Lemma labels_from_map_sound_witness :
  labels_from_map some_labels = Some (mk_labels ["a.b"; "c"] (Some 3000) None None)
  ∧ hosts (mk_labels ["a.b"; "c"] (Some 3000) None None) ≠ [].
Proof.
  assert (labels_from_map some_labels = Some (mk_labels ["a.b"; "c"] (Some 3000) None None))
    as Hl by (vm_compute; reflexivity).
  split; [exact Hl|]. apply (labels_from_map_sound _ _ Hl).
Defined.
End witnesses.
