(* ===== verification/Store.v ===== *)
(** * The controller's database ([tailsvc-storage/src/store.rs])

    A table with a primary key is a finite map from the key to the rest of the
    row, the audit log is a list.  A statement without ORDER BY returns its rows
    in an order SQLite does not promise: here the order of [map_to_list], on
    which no theorem depends.  Constraint violations are errors; failures of the
    disk or of the connection are not modelled.  Every reading of the clock is
    an argument. *)
From S2P Require Import Prelude RustStr Net Externals Common.
From stdpp Require Import sorting.
#[local] Open Scope Z_scope.

(** ** Schema *)

Record AgentRow := mk_agent_row {
  ag_display_name : string;
  ag_tailscale_ipv4 : string;
  ag_docker_engine_id : string;
  ag_credential_hash : string;
  ag_created_at : string;
  ag_last_seen_at : option string;
  ag_revoked_at : option string;
}.
Record TokenRow := mk_token_row {
  tk_created_at : string;
  tk_used_at : option string;
  tk_expires_at : option string;
}.
Record RouteRow := mk_route_row {
  rt_agent_id : string;
  rt_backend : string;
  rt_container_id : option string;
  rt_container_name : option string;
  rt_updated_at : string;
}.
Record AuditRow := mk_audit_row { au_event_type : string; au_detail : string; au_created_at : string }.
Record SnapshotRow := mk_snapshot_row { sn_payload_json : string; sn_updated_at : string }.
Record EnabledRow := mk_enabled_row {
  eb_agent_id : string;
  eb_identity_key : string;
  eb_container_name : option string;
  eb_hostnames_json : string;
  eb_backend : string;
  eb_enabled : Z;
  eb_created_at : string;
  eb_updated_at : string;
}.

Record Db := mk_db {
  agents : gmap string AgentRow;
  enrollment_tokens : gmap string TokenRow;
  routes : gmap string RouteRow;
  audit_events : list AuditRow;
  discovery_snapshots : gmap string SnapshotRow;
  enabled_services : gmap string EnabledRow;
}.
Definition empty_db : Db := mk_db ∅ ∅ ∅ [] ∅ ∅.

Definition set_agents m db := mk_db m (enrollment_tokens db) (routes db) (audit_events db)
  (discovery_snapshots db) (enabled_services db).
Definition set_tokens m db := mk_db (agents db) m (routes db) (audit_events db)
  (discovery_snapshots db) (enabled_services db).
Definition set_routes m db := mk_db (agents db) (enrollment_tokens db) m (audit_events db)
  (discovery_snapshots db) (enabled_services db).
Definition set_audit m db := mk_db (agents db) (enrollment_tokens db) (routes db) m
  (discovery_snapshots db) (enabled_services db).
Definition set_snapshots m db := mk_db (agents db) (enrollment_tokens db) (routes db)
  (audit_events db) m (enabled_services db).
Definition set_enabled_rows m db := mk_db (agents db) (enrollment_tokens db) (routes db)
  (audit_events db) (discovery_snapshots db) m.

(** ** Errors and records *)

Inductive StorageError :=
| Sqlx (msg : string)
| Migrate (msg : string)
| NotFound
| StorageConflict
| StorageOther (msg : string).

Definition unique_violation : StorageError := Sqlx "UNIQUE constraint failed".
Definition foreign_key_violation : StorageError := Sqlx "FOREIGN KEY constraint failed".

Record Storage := mk_storage { pool : Db; agent_ttl : Z; sqlite_path : string }.
Record AgentRecord := mk_agent_record {
  ar_agent_id : string;
  ar_display_name : string;
  ar_tailscale_ipv4 : string;
  ar_docker_engine_id : string;
  ar_created_at : Z;
  ar_last_seen_at : option Z;
}.
Record DnsRoute := mk_dns_route { dr_hostname : string; dr_tailscale_ipv4 : string }.
Record PutRoutesOutcome := mk_outcome { accepted : list string; conflicts : list RouteConflict }.
Record EnrollmentTokenRecord := mk_token_record { token_plain : string }.
Record EnabledServiceRecord := mk_enabled_record {
  ev_id : string; ev_agent_id : string; ev_identity_key : string;
  ev_container_name : option string; ev_hostnames_json : string; ev_backend : string;
  ev_enabled : bool; ev_created_at : string; ev_updated_at : string;
}.

Abbreviation DbM := (SE Db StorageError).

(** [Storage::connect] on an opened and migrated database; [None] is the panic
    of [Duration::seconds]. *)
Definition connect (db : Db) (path : string) (agent_ttl_seconds : Z) : option Storage :=
  ttl ← duration_seconds (as_i64 agent_ttl_seconds);
  Some (mk_storage db ttl path).

Section store.
Context `{Argon2} `{Base64} `{Chrono}.

(** ** Enrollment tokens *)

Definition create_enrollment_token (buf : list Z) (salt : string) (now : Z)
    : DbM EnrollmentTokenRecord :=
  let token := generate_token buf in
  token_hash ← lift (map_err StorageOther (hash_token salt token));
  db ← get;
  match enrollment_tokens db !! token_hash with
  | Some _ => throw unique_violation
  | None =>
      _ ← modify (set_tokens
        (<[token_hash := mk_token_row (to_rfc3339 now) None None]> (enrollment_tokens db)));
      mret (mk_token_record token)
  end.

(** The hashes the first statement of [consume_enrollment_token] returns, and
    the statement that marks one as used. *)
Definition unused_token_hashes (db : Db) : list string :=
  fst <$> filter (λ kv, tk_used_at kv.2 = None) (map_to_list (enrollment_tokens db)).
Definition mark_token_used (hash : string) (now : Z) (db : Db) : Db :=
  set_tokens (alter (λ r, mk_token_row (tk_created_at r) (Some (to_rfc3339 now)) (tk_expires_at r))
    hash (enrollment_tokens db)) db.
(** The loop over the fetched rows, which stops at the first match. *)
Fixpoint consume_rows (rows : list string) (token : string) (now : Z) : DbM unit :=
  match rows with
  | [] => throw (StorageOther "invalid enrollment token")
  | hash :: rows' =>
      if verify_token hash token then modify (mark_token_used hash now)
      else consume_rows rows' token now
  end.
Definition consume_enrollment_token (token : string) (now : Z) : DbM unit :=
  rows ← gets unused_token_hashes;
  consume_rows rows token now.

(** ** Agents *)

Definition enroll_agent (display_name tailscale_ipv4 docker_engine_id : string)
    (id_buf token_buf : list Z) (salt : string) (now : Z) : DbM (string * string) :=
  let agent_id := "agt_" +:+ generate_token id_buf in
  let agent_token := generate_token token_buf in
  credential_hash ← lift (map_err StorageOther (hash_token salt agent_token));
  db ← get;
  match agents db !! agent_id with
  | Some _ => throw unique_violation
  | None =>
      let now_s := to_rfc3339 now in
      _ ← modify (set_agents (<[agent_id :=
        mk_agent_row display_name tailscale_ipv4 docker_engine_id credential_hash
          now_s (Some now_s) None]> (agents db)));
      mret (agent_id, agent_token)
  end.

Definition verify_agent_token (agent_id token : string) : DbM unit :=
  db ← get;
  match agents db !! agent_id with
  | None => throw NotFound
  | Some row =>
      if decide (is_Some (ag_revoked_at row)) then throw (StorageOther "revoked")
      else if verify_token (ag_credential_hash row) token then mret tt
      else throw (StorageOther "bad token")
  end.

Definition heartbeat (agent_id tailscale_ipv4 : string) (now : Z) : DbM unit :=
  db ← get;
  match agents db !! agent_id with
  | Some row =>
      if decide (ag_revoked_at row = None) then
        modify (set_agents (<[agent_id :=
          mk_agent_row (ag_display_name row) tailscale_ipv4 (ag_docker_engine_id row)
            (ag_credential_hash row) (ag_created_at row) (Some (to_rfc3339 now)) None]>
          (agents db)))
      else throw NotFound
  | None => throw NotFound
  end.

Definition row_to_agent (now : Z) (agent_id : string) (row : AgentRow) : AgentRecord :=
  mk_agent_record agent_id (ag_display_name row) (ag_tailscale_ipv4 row)
    (ag_docker_engine_id row)
    (default now (parse_from_rfc3339 (ag_created_at row)))
    (ag_last_seen_at row ≫= parse_from_rfc3339).

Definition get_agent (now : Z) (agent_id : string) : DbM AgentRecord :=
  db ← get;
  match agents db !! agent_id with
  | Some row =>
      if decide (ag_revoked_at row = None) then mret (row_to_agent now agent_id row)
      else throw NotFound
  | None => throw NotFound
  end.

Definition list_agents (now : Z) : DbM (list AgentRecord) :=
  gets (λ db, (λ kv, row_to_agent now kv.1 kv.2) <$>
    filter (λ kv, ag_revoked_at kv.2 = None) (map_to_list (agents db))).

(** ** Routes *)

(** [now - last_seen < ttl], false when the column is NULL or malformed. *)
Definition lease_alive (now ttl : Z) (last_seen : option string) : bool :=
  match last_seen ≫= parse_from_rfc3339 with
  | Some t => now - t <? ttl
  | None => false
  end.

(** The clock readings of one turn of the loop in [put_routes]. *)
Record EntryClock := mk_clock { at_check : Z; at_conflict : Z; at_write : Z }.

(** [SELECT ... FROM routes JOIN agents WHERE hostname = ?] *)
Definition route_owner (db : Db) (host : string) : option (string * AgentRow) :=
  r ← routes db !! host; a ← agents db !! rt_agent_id r; Some (rt_agent_id r, a).

(** [INSERT INTO routes ... ON CONFLICT(hostname) DO UPDATE] *)
Definition upsert_route (host : string) (row : RouteRow) (db : Db) : result StorageError Db :=
  match agents db !! rt_agent_id row with
  | None => Err foreign_key_violation
  | Some _ => Ok (set_routes (<[host := row]> (routes db)) db)
  end.

(** One turn of the loop, on the state of the transaction. *)
Definition put_entry (agent_id : string) (ttl : Z) (clk : EntryClock) (entry : RouteEntry)
    (tx : Db * PutRoutesOutcome) : result StorageError (Db * PutRoutesOutcome) :=
  let '(db, out) := tx in
  let host := to_ascii_lowercase (re_hostname entry) in
  let write :=
    db' ← upsert_route host
      (mk_route_row agent_id (re_backend entry) (re_container_id entry)
         (re_container_name entry) (to_rfc3339 (at_write clk))) db;
    Ok (db', mk_outcome (accepted out ++ [host]) (conflicts out)) in
  match route_owner db host with
  | Some (owner, a) =>
      let owner_last := ag_last_seen_at a in
      let owner_alive := lease_alive (at_check clk) ttl owner_last in
      if negb (bool_decide (owner = agent_id)) && owner_alive then
        let ls := default (at_conflict clk) (owner_last ≫= parse_from_rfc3339) in
        Ok (db, mk_outcome (accepted out)
                  (conflicts out ++ [mk_conflict host owner (ls + ttl)]))
      else write
  | None => write
  end.

Fixpoint put_entries (agent_id : string) (ttl : Z) (clk : nat → EntryClock) (i : nat)
    (entries : list RouteEntry) (tx : Db * PutRoutesOutcome)
    : result StorageError (Db * PutRoutesOutcome) :=
  match entries with
  | [] => Ok tx
  | entry :: entries' =>
      tx' ← put_entry agent_id ttl (clk i) entry tx;
      put_entries agent_id ttl clk (S i) entries' tx'
  end.

(** [DELETE FROM routes WHERE hostname = ? AND agent_id = ?] *)
Definition delete_owned (agent_id h : string) (m : gmap string RouteRow) : gmap string RouteRow :=
  match m !! h with
  | Some r => if decide (rt_agent_id r = agent_id) then delete h m else m
  | None => m
  end.
(** [SELECT hostname FROM routes WHERE agent_id = ?] *)
Definition owned_hosts (agent_id : string) (m : gmap string RouteRow) : list string :=
  fst <$> filter (λ kv, rt_agent_id kv.2 = agent_id) (map_to_list m).
Definition drop_undesired (agent_id : string) (desired : gset string) (m : gmap string RouteRow)
    : gmap string RouteRow :=
  foldl (λ m h, if decide (h ∈ desired) then m else delete_owned agent_id h m)
    m (owned_hosts agent_id m).

(** The transaction: an error rolls everything back. *)
Definition put_routes_tx (agent_id : string) (entries : list RouteEntry) (ttl : Z)
    (clk : nat → EntryClock) : DbM PutRoutesOutcome := λ db,
  let desired : gset string :=
    list_to_set ((λ e, to_ascii_lowercase (re_hostname e)) <$> entries) in
  match put_entries agent_id ttl clk 0 entries (db, mk_outcome [] []) with
  | Err e => (Err e, db)
  | Ok (db', out) => (Ok out, set_routes (drop_undesired agent_id desired (routes db')) db')
  end.

Definition put_routes (agent_id : string) (entries : list RouteEntry) (ttl : Z)
    (now : Z) (clk : nat → EntryClock) : DbM PutRoutesOutcome :=
  _ ← get_agent now agent_id;
  put_routes_tx agent_id entries ttl clk.

(** [FROM routes r JOIN agents a ON ... WHERE a.revoked_at IS NULL] *)
Definition joined_routes (db : Db) : list (string * RouteRow * AgentRow) :=
  omap (λ kv, a ← agents db !! rt_agent_id kv.2;
              if decide (ag_revoked_at a = None) then Some (kv.1, kv.2, a) else None)
    (map_to_list (routes db)).

Record AdminRoute := mk_admin_route {
  am_hostname : string; am_agent_id : string; am_backend : string;
  am_container_id : option string; am_container_name : option string; am_lease : Z;
}.
Definition list_routes_admin (ttl now : Z) : DbM (list AdminRoute) :=
  gets (λ db, omap (λ '(h, r, a),
    if lease_alive now ttl (ag_last_seen_at a) then
      let ls := default now (ag_last_seen_at a ≫= parse_from_rfc3339) in
      Some (mk_admin_route h (rt_agent_id r) (rt_backend r) (rt_container_id r)
              (rt_container_name r) (ls + ttl))
    else None) (joined_routes db)).

Definition active_dns_routes (ttl now : Z) : DbM (list DnsRoute) :=
  gets (λ db, omap (λ '(h, r, a),
    if lease_alive now ttl (ag_last_seen_at a)
    then Some (mk_dns_route h (ag_tailscale_ipv4 a)) else None) (joined_routes db)).

Definition delete_route (hostname : string) : DbM unit :=
  modify (λ db, set_routes (delete (to_ascii_lowercase hostname) (routes db)) db).

(** The two statements of [revoke_agent], which share no transaction. *)
Definition revoke_mark (agent_id : string) (now : Z) (db : Db) : Db :=
  set_agents (alter (λ a, mk_agent_row (ag_display_name a) (ag_tailscale_ipv4 a)
    (ag_docker_engine_id a) (ag_credential_hash a) (ag_created_at a) (ag_last_seen_at a)
    (Some (to_rfc3339 now))) agent_id (agents db)) db.
Definition revoke_delete_routes (agent_id : string) (db : Db) : Db :=
  set_routes (filter (λ kv, rt_agent_id kv.2 ≠ agent_id) (routes db)) db.
Definition revoke_agent (agent_id : string) (now : Z) : DbM unit :=
  _ ← modify (revoke_mark agent_id now);
  modify (revoke_delete_routes agent_id).

(** [last_seen_at < ? OR last_seen_at IS NULL], a comparison of strings. *)
Definition seen_before (cutoff : string) (last_seen : option string) : bool :=
  match last_seen with Some s => String.ltb s cutoff | None => true end.
Definition owner_seen_before (db : Db) (cutoff : string) (agent_id : string) : bool :=
  match agents db !! agent_id with
  | Some a => seen_before cutoff (ag_last_seen_at a)
  | None => false
  end.
Definition purge_expired_agents (ttl now : Z) : DbM Z :=
  db ← get;
  let cutoff := to_rfc3339 (now - ttl) in
  let kept :=
    filter (λ kv, owner_seen_before db cutoff (rt_agent_id kv.2) = false) (routes db) in
  _ ← modify (set_routes kept);
  mret (Z.of_nat (size (routes db)) - Z.of_nat (size kept)).

(** ** Discovery snapshots and enabled services *)

Definition put_discovery_snapshot (agent_id payload_json : string) (now : Z) : DbM unit :=
  db ← get;
  match agents db !! agent_id with
  | None => throw foreign_key_violation
  | Some _ =>
      modify (set_snapshots
        (<[agent_id := mk_snapshot_row payload_json (to_rfc3339 now)]> (discovery_snapshots db)))
  end.

Definition get_discovery_snapshot (agent_id : string) : DbM (option (string * string)) :=
  gets (λ db, (λ r, (sn_payload_json r, sn_updated_at r)) <$> discovery_snapshots db !! agent_id).

(** [ORDER BY agent_id] *)
Definition list_discovery_snapshots : DbM (list (string * string * string)) :=
  gets (λ db, (λ kv, (kv.1, sn_payload_json kv.2, sn_updated_at kv.2)) <$>
    merge_sort (λ a b, String.le a.1 b.1) (map_to_list (discovery_snapshots db))).

Definition row_to_enabled (id : string) (row : EnabledRow) : EnabledServiceRecord :=
  mk_enabled_record id (eb_agent_id row) (eb_identity_key row) (eb_container_name row)
    (eb_hostnames_json row) (eb_backend row) (negb (eb_enabled row =? 0))
    (eb_created_at row) (eb_updated_at row).

(** The row a pair [(agent_id, identity_key)] already has. *)
Definition enabled_for (db : Db) (agent_id identity_key : string) : option (string * EnabledRow) :=
  head (filter (λ kv, eb_agent_id kv.2 = agent_id ∧ eb_identity_key kv.2 = identity_key)
    (map_to_list (enabled_services db))).

Definition upsert_enabled_service (id agent_id identity_key : string)
    (container_name : option string) (hostnames_json backend : string) (now : Z) : DbM unit :=
  db ← get;
  let now_s := to_rfc3339 now in
  if decide (is_Some (enabled_services db !! id)) then throw unique_violation
  else match enabled_for db agent_id identity_key with
  | Some (id', row) =>
      modify (set_enabled_rows (<[id' := mk_enabled_row (eb_agent_id row) (eb_identity_key row)
        container_name hostnames_json backend 1 (eb_created_at row) now_s]> (enabled_services db)))
  | None =>
      match agents db !! agent_id with
      | None => throw foreign_key_violation
      | Some _ =>
          modify (set_enabled_rows (<[id := mk_enabled_row agent_id identity_key container_name
            hostnames_json backend 1 now_s now_s]> (enabled_services db)))
      end
  end.

Definition set_enabled_service (id : string) (enabled : bool) (now : Z) : DbM unit :=
  db ← get;
  match enabled_services db !! id with
  | None => throw NotFound
  | Some row =>
      modify (set_enabled_rows (<[id := mk_enabled_row (eb_agent_id row) (eb_identity_key row)
        (eb_container_name row) (eb_hostnames_json row) (eb_backend row)
        (if enabled then 1 else 0) (eb_created_at row) (to_rfc3339 now)]> (enabled_services db)))
  end.

Definition list_enabled_for_agent (agent_id : string) : DbM (list EnabledServiceRecord) :=
  gets (λ db, (λ kv, row_to_enabled kv.1 kv.2) <$>
    filter (λ kv, eb_agent_id kv.2 = agent_id ∧ eb_enabled kv.2 = 1)
      (map_to_list (enabled_services db))).

(** [ORDER BY agent_id, identity_key] *)
Definition enabled_order (a b : string * EnabledRow) : Prop :=
  String.ltb (eb_agent_id a.2) (eb_agent_id b.2) = true
  ∨ eb_agent_id a.2 = eb_agent_id b.2 ∧ String.le (eb_identity_key a.2) (eb_identity_key b.2).
#[export] Instance enabled_order_dec : RelDecision enabled_order.
Proof. intros a b. unfold enabled_order. apply _. Defined.
Definition list_all_enabled : DbM (list EnabledServiceRecord) :=
  gets (λ db, (λ kv, row_to_enabled kv.1 kv.2) <$>
    merge_sort enabled_order (map_to_list (enabled_services db))).

Definition get_enabled_by_id (id : string) : DbM (option EnabledServiceRecord) :=
  gets (λ db, row_to_enabled id <$> enabled_services db !! id).

Definition audit (event_type detail : string) (now : Z) : DbM unit :=
  modify (λ db, set_audit
    (audit_events db ++ [mk_audit_row event_type detail (to_rfc3339 now)]) db).
End store.
