(* ===== verification/CommonSpec.v ===== *)
(** * What [auth.rs] and [backend.rs] promise

    The comparison of secrets decides equality; an accepted backend is printed
    so that parsing gives it back, and its fingerprint identifies it. *)
From S2P Require Import Prelude RustStr Net Externals Common Concrete.
#[local] Open Scope Z_scope.

(** The constant-time comparison, a fold over all the bytes, decides the
    equality of the two strings. *)
Theorem constant_time_eq_decides a b : constant_time_eq a b = true ↔ a = b.
Proof.
  unfold constant_time_eq. destruct (str_len a =? str_len b) eqn:Hl; breflect; cbn [negb].
  - rewrite Z.eqb_eq, ct_fold_zero. rewrite !str_len_list in Hl. split.
    + intros [_ Hd]. apply combine_diag in Hd; [|lia].
      rewrite <- (String.string_of_list_ascii_of_string a), Hd.
      by rewrite String.string_of_list_ascii_of_string.
    + intros ->. split; [done|]. clear. induction (String.list_ascii_of_string b); by constructor.
  - split; [done|]. intros ->. lia.
Qed.

(** C38: a backend that [parse_backend_url] accepts has a port between 1 and
    65535, the form in which the controller stores it, [http://] and its
    authority, parses back to it, and its fingerprint is that of no other
    accepted backend. *)
Theorem backend_round_trip `{UrlLaws} raw b :
  parse_backend_url raw = Ok b →
  1 <= port b <= u16_max
  ∧ parse_backend_url ("http://" +:+ authority b) = Ok b
  ∧ ∀ raw' b', parse_backend_url raw' = Ok b' → fingerprint b' = fingerprint b → b' = b.
Proof.
  intros Hb. split; [by apply (parse_backend_url_parts raw)|].
  split; [by apply (parse_backend_authority raw)|].
  intros raw' b' Hb' Hf. unfold fingerprint in Hf.
  assert ("http://" +:+ authority b' = "http://" +:+ authority b) as Ha.
  { apply (sapp_inj_r "/"). by rewrite <- !sapp_assoc. }
  apply parse_backend_authority in Hb, Hb'. rewrite Ha, Hb in Hb'. by injection Hb'.
Qed.

Section witnesses.
#[local] Existing Instance plain_url.
#[local] Existing Instance plain_url_laws.
Lemma backend_round_trip_witness :
  parse_backend_url " http://127.0.0.1:8080/ " = Ok (mk_backend "127.0.0.1" 8080)
  ∧ parse_backend_url "http://127.0.0.1:8080" = Ok (mk_backend "127.0.0.1" 8080).
Proof.
  assert (parse_backend_url " http://127.0.0.1:8080/ " = Ok (mk_backend "127.0.0.1" 8080)) as Hb
    by (vm_compute; reflexivity).
  split; [exact Hb|]. apply (backend_round_trip _ _ Hb).
Defined.
End witnesses.
