(* ===== verification/StoreRoutes.v ===== *)
(** * Hostname ownership

    What [put_routes] does to the routes table, stated without its loops: who
    owns a hostname afterwards, which entries are accepted, which conflict.
    A hostname is [blocked] for an agent when another agent with a live lease
    owns it; the readings of the clock inside one call may differ, and each
    statement says which stability of that test it needs. *)
From S2P Require Import Prelude RustStr Net Externals Common Concrete Store.
#[local] Open Scope Z_scope.

(** ** Specification *)

Section spec.
Context `{Chrono}.

Definition owner_of (db : Db) (h : string) : option string := rt_agent_id <$> routes db !! h.

Definition live_at (db : Db) (ttl now : Z) (agent_id : string) : bool :=
  match agents db !! agent_id with
  | Some a => lease_alive now ttl (ag_last_seen_at a)
  | None => false
  end.

Definition blocked (agent_id : string) (ttl now : Z) (db : Db) (h : string) : bool :=
  match owner_of db h with
  | Some o => negb (bool_decide (o = agent_id)) && live_at db ttl now o
  | None => false
  end.

Definition entry_host (e : RouteEntry) : string := to_ascii_lowercase (re_hostname e).
Definition entry_row (agent_id : string) (clk : EntryClock) (e : RouteEntry) : RouteRow :=
  mk_route_row agent_id (re_backend e) (re_container_id e) (re_container_name e)
    (to_rfc3339 (at_write clk)).

(** The row the last entry for a hostname asks for. *)
Fixpoint last_row (agent_id : string) (clk : nat → EntryClock) (i : nat)
    (entries : list RouteEntry) (h : string) : option RouteRow :=
  match entries with
  | [] => None
  | e :: es =>
      match last_row agent_id clk (S i) es h with
      | Some r => Some r
      | None => if decide (entry_host e = h) then Some (entry_row agent_id (clk i) e) else None
      end
  end.

(** The conflict reported for a blocked hostname. *)
Definition conflict_of (ttl : Z) (clk : EntryClock) (db : Db) (h : string) : RouteConflict :=
  let o := default EmptyString (owner_of db h) in
  mk_conflict h o
    (default (at_conflict clk)
       ((agents db !! o ≫= ag_last_seen_at) ≫= parse_from_rfc3339) + ttl).

(** The abstract claim on one hostname: [live] says which agents hold a lease. *)
Definition claim (live : string → bool) (agent_id : string) (desired : gset string)
    (h : string) (owner : option string) : option string :=
  match owner with
  | Some o =>
      if decide (o = agent_id) then (if decide (h ∈ desired) then Some agent_id else None)
      else if live o then Some o
      else if decide (h ∈ desired) then Some agent_id else Some o
  | None => if decide (h ∈ desired) then Some agent_id else None
  end.
End spec.

(** ** Lemmas *)

Section lemmas.
Context `{Chrono}.
Implicit Types (db : Db) (clk : nat → EntryClock).

Definition push_accepted (h : string) (out : PutRoutesOutcome) : PutRoutesOutcome :=
  mk_outcome (accepted out ++ [h]) (conflicts out).
Definition push_conflict (c : RouteConflict) (out : PutRoutesOutcome) : PutRoutesOutcome :=
  mk_outcome (accepted out) (conflicts out ++ [c]).

Lemma set_routes_id db : set_routes (routes db) db = db.
Proof. by destruct db. Qed.

Lemma owner_of_insert db h row k :
  owner_of (set_routes (<[h:=row]> (routes db)) db) k =
  if decide (h = k) then Some (rt_agent_id row) else owner_of db k.
Proof.
  unfold owner_of. cbn. destruct (decide (h = k)) as [->|Hne].
  - by rewrite lookup_insert_eq.
  - by rewrite lookup_insert_ne.
Qed.

(** One turn of the loop. *)
Lemma put_entry_eq agent_id a ttl ck e db out :
  agents db !! agent_id = Some a →
  put_entry agent_id ttl ck e (db, out) =
  Ok (if blocked agent_id ttl (at_check ck) db (entry_host e)
      then (db, push_conflict (conflict_of ttl ck db (entry_host e)) out)
      else (set_routes (<[entry_host e := entry_row agent_id ck e]> (routes db)) db,
            push_accepted (entry_host e) out)).
Proof.
  intros Ha. unfold put_entry, blocked, route_owner, live_at, owner_of, conflict_of, upsert_route.
  cbn [rt_agent_id]. rewrite Ha. fold (entry_host e).
  unfold owner_of. destruct (routes db !! entry_host e) as [r|]; cbn; [|done].
  destruct (agents db !! rt_agent_id r) as [o|] eqn:Ho; cbn.
  - by destruct (negb _ && _).
  - by rewrite andb_false_r.
Qed.

Lemma put_entry_frame agent_id a ttl ck e db out db' out' :
  agents db !! agent_id = Some a →
  put_entry agent_id ttl ck e (db, out) = Ok (db', out') →
  db' = set_routes (routes db') db ∧ agents db' = agents db.
Proof.
  intros Ha. rewrite (put_entry_eq _ a) by done. intros [= Hx].
  case_match; simplify_eq; [by rewrite set_routes_id | done].
Qed.

(** The loop never fails, once the agent's row exists, and changes only routes. *)
Lemma put_entries_ok agent_id a ttl clk i es db out :
  agents db !! agent_id = Some a →
  ∃ db' out', put_entries agent_id ttl clk i es (db, out) = Ok (db', out')
    ∧ db' = set_routes (routes db') db.
Proof.
  revert i db out; induction es as [|e es IH]; intros i db out Ha; cbn [put_entries].
  { exists db, out. by rewrite set_routes_id. }
  destruct (put_entry agent_id ttl (clk i) e (db, out)) as [[db1 out1]|] eqn:He;
    [|by rewrite (put_entry_eq _ a) in He].
  destruct (put_entry_frame _ _ _ _ _ _ _ _ _ Ha He) as [Hdb Hag].
  destruct (IH (S i) db1 out1) as (db' & out' & Hp & Hr); [by rewrite Hag|].
  exists db', out'. cbn. split; [done|]. rewrite Hr, Hdb at 1. done.
Qed.

(** Writing one's own hostname does not change what blocks another. *)
Lemma blocked_insert agent_id ttl now db h row k :
  rt_agent_id row = agent_id → blocked agent_id ttl now db h = false →
  blocked agent_id ttl now (set_routes (<[h:=row]> (routes db)) db) k
  = blocked agent_id ttl now db k.
Proof.
  intros Hrow Hh. unfold blocked at 1. rewrite owner_of_insert.
  case_decide; [subst k | done].
  rewrite Hrow, Hh, bool_decide_true; done.
Qed.

Lemma blocked_insert_ne agent_id ttl now db h row k :
  h ≠ k →
  blocked agent_id ttl now (set_routes (<[h:=row]> (routes db)) db) k
  = blocked agent_id ttl now db k.
Proof. intros. unfold blocked at 1. by rewrite owner_of_insert, decide_False. Qed.

Lemma put_entries_lookup agent_id a ttl clk i es db out db' out' h b :
  agents db !! agent_id = Some a →
  put_entries agent_id ttl clk i es (db, out) = Ok (db', out') →
  (∀ j, blocked agent_id ttl (at_check (clk j)) db h = b) →
  routes db' !! h =
    if b then routes db !! h
    else match last_row agent_id clk i es h with Some r => Some r | None => routes db !! h end.
Proof.
  revert i db out; induction es as [|e es IH]; intros i db out Ha Hp Hb; cbn [put_entries] in Hp.
  { simplify_eq. by destruct b. }
  rewrite (put_entry_eq _ a) in Hp by done. cbn [mbind result_bind] in Hp.
  destruct (blocked agent_id ttl (at_check (clk i)) db (entry_host e)) eqn:Hbe.
  - rewrite (IH _ _ _ Ha Hp Hb). cbn [last_row]. destruct b; [done|].
    destruct (last_row _ _ _ _ _); [done|]. rewrite decide_False; [done|].
    intros <-. by rewrite Hb in Hbe.
  - assert (∀ j, blocked agent_id ttl (at_check (clk j))
      (set_routes (<[entry_host e := entry_row agent_id (clk i) e]> (routes db)) db) h = b) as Hb'.
    { intros j. destruct (decide (entry_host e = h)) as [<-|Hne].
      - rewrite blocked_insert; [done|done|]. by rewrite Hb, <- Hbe, Hb.
      - by rewrite blocked_insert_ne. }
    rewrite (IH (S i) (set_routes (<[entry_host e := entry_row agent_id (clk i) e]> (routes db)) db) _ Ha Hp Hb'). cbn [last_row routes set_routes].
    destruct (decide (entry_host e = h)) as [<-|Hne].
    + rewrite Hb in Hbe; subst b. destruct (last_row _ _ _ _ _); [done|].
      by rewrite lookup_insert_eq.
    + rewrite lookup_insert_ne by done. by destruct b, (last_row agent_id clk (S i) es h).
Qed.

(** The two lists of the answer, when the test is stable during the call. *)
Lemma put_entries_outcome agent_id a ttl clk i es db out db' out' (blk : string → bool) :
  agents db !! agent_id = Some a →
  put_entries agent_id ttl clk i es (db, out) = Ok (db', out') →
  (∀ j h, blocked agent_id ttl (at_check (clk j)) db h = blk h) →
  accepted out' = accepted out ++ filter (λ h, blk h = false) (entry_host <$> es)
  ∧ rc_hostname <$> conflicts out' =
      (rc_hostname <$> conflicts out) ++ filter (λ h, blk h = true) (entry_host <$> es)
  ∧ (∀ c, c ∈ conflicts out' → c ∈ conflicts out
       ∨ ∃ j, c = conflict_of ttl (clk j) db (rc_hostname c) ∧ blk (rc_hostname c) = true).
Proof.
  revert i db out; induction es as [|e es IH]; intros i db out Ha Hp Hb; cbn [put_entries] in Hp.
  { simplify_eq. cbn. rewrite !app_nil_r. eauto. }
  rewrite (put_entry_eq _ a) in Hp by done. cbn [mbind result_bind] in Hp. rewrite Hb in Hp.
  rewrite fmap_cons, !filter_cons.
  destruct (blk (entry_host e)) eqn:Hbe.
  - destruct (IH _ _ _ Ha Hp Hb) as (-> & -> & Hc).
    cbn [accepted conflicts push_conflict]. split; [done|]. split.
    + rewrite fmap_app, <- app_assoc. done.
    + intros c [Hin|?]%Hc; [|by right]. apply elem_of_app in Hin as [?|Hin]; [by left|].
      apply list_elem_of_singleton in Hin as ->. right. by exists i.
  - assert (∀ j h, blocked agent_id ttl (at_check (clk j))
      (set_routes (<[entry_host e := entry_row agent_id (clk i) e]> (routes db)) db) h = blk h)
      as Hb' by (intros; rewrite blocked_insert; [done..|by rewrite Hb]).
    destruct (IH (S i) (set_routes (<[entry_host e := entry_row agent_id (clk i) e]> (routes db)) db) _ Ha Hp Hb') as (-> & -> & Hc).
    cbn [accepted conflicts push_accepted]. split; [by rewrite <- app_assoc|]. split; [done|].
    intros c [?|(j & Hj & Hbj)]%Hc; [by left|]. right. exists j. split; [|done].
    rewrite Hj at 1. unfold conflict_of. rewrite owner_of_insert, decide_False; [done|].
    intros Heq. by rewrite <- Heq, Hbe in Hbj.
Qed.
End lemmas.

(** ** The deletion pass *)

Lemma delete_owned_lookup agent_id h m k :
  delete_owned agent_id h m !! k =
  if decide (k = h ∧ rt_agent_id <$> m !! k = Some agent_id) then None else m !! k.
Proof.
  unfold delete_owned. destruct (m !! h) as [r|] eqn:Hr.
  - destruct (decide (rt_agent_id r = agent_id)) as [Ho|Ho].
    + rewrite lookup_delete. destruct (decide (h = k)) as [<-|Hne].
      * rewrite decide_True; [done|]. by rewrite Hr, <- Ho.
      * by rewrite decide_False by naive_solver.
    + rewrite decide_False; [done|]. intros [-> Hk]. rewrite Hr in Hk. cbn in Hk. congruence.
  - rewrite decide_False; [done|]. intros [-> Hk]. by rewrite Hr in Hk.
Qed.

Lemma drop_fold_lookup agent_id (desired : gset string) l m k :
  foldl (λ m h, if decide (h ∈ desired) then m else delete_owned agent_id h m) m l !! k =
  if decide (k ∈ l ∧ k ∉ desired ∧ rt_agent_id <$> m !! k = Some agent_id) then None else m !! k.
Proof.
  revert m; induction l as [|h l IH]; intros m; cbn [foldl].
  { rewrite decide_False; [done|]. intros [Hk _]. by apply elem_of_nil in Hk. }
  rewrite IH. destruct (decide (h ∈ desired)) as [Hd|Hd].
  - apply decide_ext. rewrite elem_of_cons. naive_solver.
  - rewrite delete_owned_lookup.
    destruct (decide (k = h ∧ rt_agent_id <$> m !! k = Some agent_id)) as [[-> Hk]|Hk].
    + rewrite decide_False by (by intros (_ & _ & ?)).
      rewrite decide_True; [done|]. split; [by left | done].
    + apply decide_ext. rewrite elem_of_cons. naive_solver.
Qed.

Lemma elem_of_owned_hosts agent_id m h :
  h ∈ owned_hosts agent_id m ↔ rt_agent_id <$> m !! h = Some agent_id.
Proof.
  unfold owned_hosts. rewrite list_elem_of_fmap. split.
  - intros ([k r] & -> & Hin). apply list_elem_of_filter in Hin as [Ho Hin].
    apply elem_of_map_to_list in Hin. cbn in *. by rewrite Hin, <- Ho.
  - destruct (m !! h) as [r|] eqn:Hr; [|done]. intros [= Ho]. exists (h, r).
    split; [done|]. apply list_elem_of_filter. split; [done|]. by apply elem_of_map_to_list.
Qed.

(** The pass deletes exactly the agent's own hostnames that are not desired. *)
Lemma drop_undesired_lookup agent_id desired m h :
  drop_undesired agent_id desired m !! h =
  if decide (rt_agent_id <$> m !! h = Some agent_id ∧ h ∉ desired) then None else m !! h.
Proof.
  unfold drop_undesired. rewrite drop_fold_lookup. apply decide_ext.
  rewrite elem_of_owned_hosts. naive_solver.
Qed.

Section put_routes.
Context `{Chrono}.
Implicit Types (db : Db) (clk : nat → EntryClock).

Lemma last_row_Some agent_id clk i es h :
  is_Some (last_row agent_id clk i es h) ↔ h ∈ (entry_host <$> es).
Proof.
  revert i; induction es as [|e es IH]; intros i; cbn.
  { rewrite elem_of_nil. split; [by intros [] | done]. }
  rewrite elem_of_cons, <- (IH (S i)). unfold is_Some.
  destruct (last_row agent_id clk (S i) es h); [naive_solver|].
  case_decide; naive_solver.
Qed.
Lemma last_row_owner agent_id clk i es h r :
  last_row agent_id clk i es h = Some r → rt_agent_id r = agent_id.
Proof.
  revert i; induction es as [|e es IH]; intros i; cbn; [done|].
  destruct (last_row _ _ (S i) es h) eqn:Hl; [intros [= <-]; eauto|].
  case_decide; [by intros [= <-] | done].
Qed.

(** [put_routes] succeeds for every agent that is enrolled and not revoked. *)
Lemma put_routes_ok agent_id a es ttl now clk db :
  agents db !! agent_id = Some a → ag_revoked_at a = None →
  ∃ db1 out, put_entries agent_id ttl clk 0 es (db, mk_outcome [] []) = Ok (db1, out)
    ∧ db1 = set_routes (routes db1) db
    ∧ put_routes agent_id es ttl now clk db =
        (Ok out, set_routes (drop_undesired agent_id (list_to_set (entry_host <$> es)) (routes db1)) db).
Proof.
  intros Ha Hr.
  destruct (put_entries_ok agent_id a ttl clk 0 es db (mk_outcome [] []) Ha)
    as (db1 & out & Hp & Hdb).
  exists db1, out. split; [done|]. split; [done|].
  unfold put_routes, get_agent. se_run. rewrite Ha, decide_True by done. se_run.
  unfold put_routes_tx. rewrite Hp. f_equal. rewrite Hdb at 2. done.
Qed.

Lemma put_routes_refused agent_id es ttl now clk db :
  (∀ a, agents db !! agent_id = Some a → ag_revoked_at a ≠ None) →
  put_routes agent_id es ttl now clk db = (Err NotFound, db).
Proof.
  intros Ha. unfold put_routes, get_agent. se_run.
  destruct (agents db !! agent_id) as [a|]; [|done]. by rewrite decide_False by eauto.
Qed.

(** The row of one hostname afterwards. *)
Lemma put_routes_lookup agent_id a es ttl now clk db out db' h b :
  agents db !! agent_id = Some a → ag_revoked_at a = None →
  put_routes agent_id es ttl now clk db = (Ok out, db') →
  (∀ j, blocked agent_id ttl (at_check (clk j)) db h = b) →
  routes db' !! h =
    if b then routes db !! h
    else match last_row agent_id clk 0 es h with
         | Some r => Some r
         | None => if decide (owner_of db h = Some agent_id) then None else routes db !! h
         end.
Proof.
  intros Ha Hr Hput Hb.
  destruct (put_routes_ok agent_id a es ttl now clk db Ha Hr) as (db1 & out1 & Hp & _ & Heq).
  rewrite Heq in Hput. injection Hput as <- <-. cbn [routes set_routes].
  rewrite drop_undesired_lookup.
  rewrite (put_entries_lookup _ _ _ _ _ _ _ _ _ _ _ _ Ha Hp Hb).
  unfold owner_of. destruct b.
  - rewrite decide_False; [done|]. intros [Ho _]. specialize (Hb 0%nat).
    unfold blocked, owner_of in Hb. rewrite Ho, bool_decide_true in Hb; done.
  - destruct (last_row agent_id clk 0 es h) as [r|] eqn:Hl.
    + rewrite decide_False; [done|]. intros [_ Hn]. apply Hn, elem_of_list_to_set.
      apply (last_row_Some agent_id clk 0). by rewrite Hl.
    + apply decide_ext. split; [tauto|]. intros Ho; split; [done|].
      rewrite elem_of_list_to_set, <- (last_row_Some agent_id clk 0), Hl. by intros [].
Qed.
End put_routes.

Section more_lemmas.
Context `{Chrono}.
Implicit Types (db : Db) (clk : nat → EntryClock).

(** Whatever the clock does, a row that changed is the agent's. *)
Lemma put_entries_mine agent_id a ttl clk i es db out db' out' h :
  agents db !! agent_id = Some a →
  put_entries agent_id ttl clk i es (db, out) = Ok (db', out') →
  routes db' !! h = routes db !! h ∨ owner_of db' h = Some agent_id.
Proof.
  revert i db out; induction es as [|e es IH]; intros i db out Ha Hp; cbn [put_entries] in Hp.
  { simplify_eq. by left. }
  rewrite (put_entry_eq _ a) in Hp by done. cbn [mbind result_bind] in Hp.
  destruct (blocked agent_id ttl _ db (entry_host e)); [by eapply IH|].
  destruct (IH (S i) (set_routes (<[entry_host e := entry_row agent_id (clk i) e]> (routes db)) db)
              _ Ha Hp) as [Heq|]; [|by right].
  cbn [routes set_routes] in Heq. destruct (decide (entry_host e = h)) as [<-|Hne].
  - right. unfold owner_of. by rewrite Heq, lookup_insert_eq.
  - left. by rewrite Heq, lookup_insert_ne.
Qed.

(** A hostname the agent did not own and owns now is one of the entries. *)
Lemma put_entries_gain agent_id a ttl clk i es db out db' out' h :
  agents db !! agent_id = Some a →
  put_entries agent_id ttl clk i es (db, out) = Ok (db', out') →
  owner_of db h ≠ Some agent_id → owner_of db' h = Some agent_id → h ∈ entry_host <$> es.
Proof.
  revert i db out; induction es as [|e es IH]; intros i db out Ha Hp Hn Hh; cbn [put_entries] in Hp;
    [by simplify_eq|].
  rewrite (put_entry_eq _ a) in Hp by done. cbn [mbind result_bind] in Hp.
  rewrite fmap_cons, elem_of_cons. destruct (decide (h = entry_host e)); [by left|right].
  destruct (blocked _ _ _ _ _); [by eapply IH|].
  eapply IH; [|exact Hp| |done]; [exact Ha|]. by rewrite owner_of_insert, decide_False.
Qed.

Lemma put_routes_mine agent_id a es ttl now clk db out db' h :
  agents db !! agent_id = Some a → ag_revoked_at a = None →
  put_routes agent_id es ttl now clk db = (Ok out, db') →
  routes db' !! h = routes db !! h ∨ owner_of db' h = Some agent_id
  ∨ owner_of db h = Some agent_id ∧ routes db' !! h = None.
Proof.
  intros Ha Hr Hput.
  destruct (put_routes_ok agent_id a es ttl now clk db Ha Hr) as (db1 & out1 & Hp & _ & Heq).
  rewrite Heq in Hput. injection Hput as <- <-. unfold owner_of at 1. cbn [routes set_routes].
  rewrite drop_undesired_lookup. fold (owner_of db1 h).
  destruct (put_entries_mine _ _ _ _ _ _ _ _ _ _ h Ha Hp) as [Hh|Hh].
  - case_decide as Hd; [|by left]. right; right. destruct Hd as [Hd _].
    unfold owner_of in *. by rewrite <- Hh.
  - case_decide as Hd.
    + destruct Hd as [_ Hd]. right; right. split; [|done].
      apply dec_stable. intros Hn. apply Hd, elem_of_list_to_set.
      by eapply put_entries_gain.
    + right; left. done.
Qed.

Lemma blocked_live agent_id ttl now db h (live : string → bool) :
  (∀ o, live_at db ttl now o = live o) →
  blocked agent_id ttl now db h =
  match owner_of db h with
  | Some o => negb (bool_decide (o = agent_id)) && live o
  | None => false
  end.
Proof. intros Hl. unfold blocked. destruct (owner_of db h); [by rewrite Hl | done]. Qed.
End more_lemmas.

(** ** Properties *)

(** C6: [put_routes] refuses an agent that is not enrolled or is revoked, with
    the database unchanged; for any other agent it succeeds, changes the routes
    table only, and, when no lease runs out during the call, makes of every
    hostname's owner exactly what the abstract claim makes of it: the agent owns
    every requested hostname that no other live agent owns, gives up its
    hostnames that were not requested, and no other owner changes. *)
Theorem put_routes_refines_claim `{Chrono} agent_id es ttl now clk db (live : string → bool) :
  (∀ j o, live_at db ttl (at_check (clk j)) o = live o) →
  match agents db !! agent_id with
  | Some a =>
      if decide (ag_revoked_at a = None) then
        ∃ out db', put_routes agent_id es ttl now clk db = (Ok out, db')
          ∧ db' = set_routes (routes db') db
          ∧ ∀ h, owner_of db' h =
              claim live agent_id (list_to_set (entry_host <$> es)) h (owner_of db h)
      else put_routes agent_id es ttl now clk db = (Err NotFound, db)
  | None => put_routes agent_id es ttl now clk db = (Err NotFound, db)
  end.
Proof.
  intros Hlive. destruct (agents db !! agent_id) as [a|] eqn:Ha.
  2: { apply put_routes_refused. by rewrite Ha. }
  case_decide as Hr; [|apply put_routes_refused; rewrite Ha; congruence].
  destruct (put_routes_ok agent_id a es ttl now clk db Ha Hr) as (db1 & out & _ & _ & Heq).
  exists out, (set_routes (drop_undesired agent_id (list_to_set (entry_host <$> es)) (routes db1)) db).
  split; [done|]. split; [done|]. intros h.
  pose proof (put_routes_lookup _ _ _ _ _ _ _ _ _ h _ Ha Hr Heq
    (λ j, blocked_live agent_id ttl (at_check (clk j)) db h live (Hlive j))) as Hrow.
  unfold owner_of at 1. rewrite Hrow. clear Hrow Heq. unfold claim.
  destruct (last_row agent_id clk 0 es h) as [r|] eqn:Hl.
  - assert (h ∈@{gset string} list_to_set (entry_host <$> es)) as Hin
      by (by apply elem_of_list_to_set, (last_row_Some agent_id clk 0); rewrite Hl).
    apply last_row_owner in Hl. rewrite !(decide_True _ _ Hin).
    unfold owner_of. destruct (routes db !! h) as [r0|] eqn:Hh; cbn; [|by rewrite Hl].
    destruct (decide (rt_agent_id r0 = agent_id)) as [Ho|Ho].
    + rewrite bool_decide_true by done. cbn. by rewrite Hl.
    + rewrite bool_decide_false by done. cbn. destruct (live _); cbn; [done | by rewrite ?(decide_True _ _ Hin), Hl].
  - assert (h ∉@{gset string} list_to_set (entry_host <$> es)) as Hin.
    { rewrite elem_of_list_to_set, <- (last_row_Some agent_id clk 0), Hl. by intros []. }
    rewrite !(decide_False _ _ Hin).
    unfold owner_of. destruct (routes db !! h) as [r0|] eqn:Hh; cbn; [|done].
    destruct (decide (rt_agent_id r0 = agent_id)) as [Ho|Ho].
    + rewrite bool_decide_true by done. cbn. by rewrite decide_True by congruence.
    + rewrite bool_decide_false by done. cbn.
      by destruct (live _); cbn; rewrite ?decide_False by congruence.
Qed.


(** Whatever the clock reads during the call, a hostname whose owner is
    another agent, alive at each reading, keeps its row; and a row that changes
    either belongs to the caller afterwards or was the caller's and is gone. *)
Theorem put_routes_never_steals `{Chrono} agent_id a es ttl now clk db out db' h :
  agents db !! agent_id = Some a → ag_revoked_at a = None →
  put_routes agent_id es ttl now clk db = (Ok out, db') →
  (∀ o, owner_of db h = Some o → o ≠ agent_id →
     (∀ j, live_at db ttl (at_check (clk j)) o = true) → routes db' !! h = routes db !! h)
  ∧ (routes db' !! h ≠ routes db !! h →
     owner_of db' h = Some agent_id ∨ owner_of db h = Some agent_id ∧ routes db' !! h = None).
Proof.
  intros Ha Hr Hput. split.
  - intros o Ho Hne Hlive.
    refine (put_routes_lookup _ _ _ _ _ _ _ _ _ h true Ha Hr Hput _).
    intros j. unfold blocked. by rewrite Ho, bool_decide_false, Hlive.
  - intros Hch. destruct (put_routes_mine _ _ _ _ _ _ _ _ _ h Ha Hr Hput) as [?|?]; [done|done].
Qed.

(** A requested hostname that no other live agent owns ends with the row of
    the last entry that asks for it, so the last of several entries wins. *)
Theorem put_routes_last_entry_wins `{Chrono} agent_id a pre e post ttl now clk db out db' :
  agents db !! agent_id = Some a → ag_revoked_at a = None →
  put_routes agent_id (pre ++ e :: post) ttl now clk db = (Ok out, db') →
  (∀ j, blocked agent_id ttl (at_check (clk j)) db (entry_host e) = false) →
  entry_host e ∉ entry_host <$> post →
  routes db' !! entry_host e = Some (entry_row agent_id (clk (length pre)) e).
Proof.
  intros Ha Hr Hput Hb Hpost.
  rewrite (put_routes_lookup _ _ _ _ _ _ _ _ _ _ _ Ha Hr Hput Hb).
  assert (∀ i, last_row agent_id clk i (pre ++ e :: post) (entry_host e) =
    Some (entry_row agent_id (clk (i + length pre)%nat) e)) as Hl; [|by rewrite Hl].
  clear -Hpost. induction pre as [|e0 pre IH]; intros i; cbn [app last_row length].
  - destruct (last_row agent_id clk (S i) post (entry_host e)) eqn:Hp.
    + destruct Hpost. apply (last_row_Some agent_id clk (S i)). by rewrite Hp.
    + by rewrite decide_True, Nat.add_0_r.
  - rewrite IH. do 3 f_equal. lia.
Qed.

(** ** Witnesses: two agents, the second asks for hostnames of the first. *)
Section witnesses.
#[local] Existing Instance bits_chrono.

#[local] Definition agent_seen (t : Z) : AgentRow :=
  mk_agent_row "host" "100.64.0.1" "e" "plain$t" (to_rfc3339 0) (Some (to_rfc3339 t)) None.
#[local] Definition two_agents : Db :=
  set_routes {[ "a.internal" := mk_route_row "agt_1" "http://x:1/" None None "t";
                "old.internal" := mk_route_row "agt_2" "http://x:2/" None None "t";
                "free.internal" := mk_route_row "agt_0" "http://x:3/" None None "t" ]}
    (set_agents {[ "agt_0" := agent_seen 0; "agt_1" := agent_seen 100; "agt_2" := agent_seen 100 ]}
       empty_db).
#[local] Definition three_entries : list RouteEntry :=
  [mk_entry "A.internal" "http://y:1/" None None; mk_entry "free.internal" "http://y:2/" None None;
   mk_entry "Free.internal" "http://y:3/" None None].
#[local] Definition at_120 : nat → EntryClock := λ _, mk_clock 120 120 120.
#[local] Definition live_120 (o : string) : bool := live_at two_agents 90 120 o.

Lemma put_routes_refines_claim_witness :
  ∃ out db', put_routes "agt_2" three_entries 90 120 at_120 two_agents = (Ok out, db')
    ∧ owner_of db' "a.internal" = Some "agt_1" ∧ owner_of db' "free.internal" = Some "agt_2"
    ∧ owner_of db' "old.internal" = None.
Proof.
  destruct (put_routes_refines_claim "agt_2" three_entries 90 120 at_120 two_agents live_120
    (λ _ _, eq_refl)) as (out & db' & Hput & _ & Ho).
  exists out, db'. split; [exact Hput|]. rewrite !Ho. vm_compute. repeat split.
Defined.

#[local] Definition put_db : Db := (put_routes "agt_2" three_entries 90 120 at_120 two_agents).2.
#[local] Definition put_out : PutRoutesOutcome :=
  default (mk_outcome [] []) (ok (put_routes "agt_2" three_entries 90 120 at_120 two_agents).1).
Lemma put_eq :
  put_routes "agt_2" three_entries 90 120 at_120 two_agents = (Ok put_out, put_db).
Proof. vm_compute. reflexivity. Qed.


Lemma put_routes_never_steals_witness :
  routes put_db !! "a.internal" = routes two_agents !! "a.internal".
Proof.
  apply (proj1 (put_routes_never_steals "agt_2" (agent_seen 100) three_entries 90 120 at_120
    two_agents put_out put_db "a.internal" eq_refl eq_refl put_eq) "agt_1" eq_refl);
    [discriminate | intros; vm_compute; reflexivity].
Defined.

Lemma put_routes_last_entry_wins_witness :
  rt_backend <$> routes put_db !! "free.internal" = Some "http://y:3/".
Proof.
  pose proof (put_routes_last_entry_wins "agt_2" (agent_seen 100) (take 2 three_entries)
    (mk_entry "Free.internal" "http://y:3/" None None) [] 90 120 at_120 two_agents put_out put_db
    eq_refl eq_refl put_eq (λ _, eq_refl) (not_elem_of_nil _)) as Hrow.
  change (entry_host _) with "free.internal" in Hrow. rewrite Hrow. reflexivity.
Defined.
End witnesses.
