(* ===== verification/StoreInv.v ===== *)
(** * Invariants of the database

    The write operations of [Store] as steps of one state: [exec] runs a whole
    operation, [step] also runs alone the statements of the operations that use
    no transaction, so that a run of [step] interleaves them.  Every step is a
    short sequence of [effect]s, the changes of one table the statements make;
    the invariants are proved of the effects. *)
From S2P Require Import Prelude RustStr Net Externals Common Concrete Store StoreRoutes.
From stdpp Require Import relations.
#[local] Open Scope Z_scope.

(** ** Operations as steps *)

Section steps.
Context `{Argon2} `{Base64} `{Chrono}.

Inductive Op :=
| OpCreateToken (buf : list Z) (salt : string) (now : Z)
| OpConsumeToken (token : string) (now : Z)
| OpEnroll (name ip engine : string) (id_buf token_buf : list Z) (salt : string) (now : Z)
| OpHeartbeat (agent_id ip : string) (now : Z)
| OpPutRoutes (agent_id : string) (es : list RouteEntry) (ttl now : Z) (clk : nat → EntryClock)
| OpDeleteRoute (hostname : string)
| OpRevoke (agent_id : string) (now : Z)
| OpPurge (ttl now : Z)
| OpPutSnapshot (agent_id payload : string) (now : Z)
| OpUpsertEnabled (id agent_id key : string) (name : option string) (hosts backend : string) (now : Z)
| OpSetEnabled (id : string) (enabled : bool) (now : Z)
| OpAudit (event detail : string) (now : Z).

Definition exec (o : Op) (db : Db) : Db :=
  match o with
  | OpCreateToken buf salt now => (create_enrollment_token buf salt now db).2
  | OpConsumeToken token now => (consume_enrollment_token token now db).2
  | OpEnroll name ip engine ib tb salt now => (enroll_agent name ip engine ib tb salt now db).2
  | OpHeartbeat id ip now => (heartbeat id ip now db).2
  | OpPutRoutes id es ttl now clk => (put_routes id es ttl now clk db).2
  | OpDeleteRoute h => (delete_route h db).2
  | OpRevoke id now => (revoke_agent id now db).2
  | OpPurge ttl now => (purge_expired_agents ttl now db).2
  | OpPutSnapshot id payload now => (put_discovery_snapshot id payload now db).2
  | OpUpsertEnabled id ag key name hosts backend now =>
      (upsert_enabled_service id ag key name hosts backend now db).2
  | OpSetEnabled id b now => (set_enabled_service id b now db).2
  | OpAudit event detail now => (audit event detail now db).2
  end.

Definition op_step (db db' : Db) : Prop := ∃ o, db' = exec o db.

Inductive step : Db → Db → Prop :=
| step_op o db : step db (exec o db)
| step_mark_used hash now db : step db (mark_token_used hash now db)
| step_put_routes_tx id es ttl clk db : step db (put_routes_tx id es ttl clk db).2
| step_revoke_mark id now db : step db (revoke_mark id now db)
| step_revoke_delete id db : step db (revoke_delete_routes id db).
End steps.

(** ** Effects *)

Definition agents_ext (m m' : gmap string AgentRow) : Prop :=
  ∀ id a, m !! id = Some a → ∃ a', m' !! id = Some a'
    ∧ ag_credential_hash a' = ag_credential_hash a
    ∧ (ag_revoked_at a ≠ None → ag_revoked_at a' ≠ None).
Definition tokens_ext (m m' : gmap string TokenRow) : Prop :=
  ∀ h r, m !! h = Some r → ∃ r', m' !! h = Some r' ∧ (tk_used_at r ≠ None → tk_used_at r' ≠ None).
Definition same_service (r s : EnabledRow) : Prop :=
  eb_agent_id r = eb_agent_id s ∧ eb_identity_key r = eb_identity_key s.

#[export] Instance agents_ext_preorder : PreOrder agents_ext.
Proof.
  split; [intros m id a; eauto|]. intros m1 m2 m3 H12 H23 id a Ha.
  destruct (H12 _ _ Ha) as (a2 & Ha2 & ? & ?), (H23 _ _ Ha2) as (a3 & ? & ? & ?).
  exists a3. split; [done|]. split; [congruence | tauto].
Qed.
#[export] Instance tokens_ext_preorder : PreOrder tokens_ext.
Proof.
  split; [intros m h r; eauto|]. intros m1 m2 m3 H12 H23 h r Hr.
  destruct (H12 _ _ Hr) as (r2 & Hr2 & ?), (H23 _ _ Hr2) as (r3 & ? & ?). eauto.
Qed.

Inductive effect (db : Db) : Db → Prop :=
| eff_none : effect db db
| eff_tokens m : tokens_ext (enrollment_tokens db) m → effect db (set_tokens m db)
| eff_agents m : agents_ext (agents db) m → effect db (set_agents m db)
| eff_routes m :
    (∀ h r, m !! h = Some r → routes db !! h = Some r
       ∨ is_Some (agents db !! rt_agent_id r) ∧ to_ascii_lowercase h = h) →
    effect db (set_routes m db)
| eff_audit l : effect db (set_audit l db)
| eff_snapshot id row : is_Some (agents db !! id) →
    effect db (set_snapshots (<[id := row]> (discovery_snapshots db)) db)
| eff_enabled_update i r0 r : enabled_services db !! i = Some r0 → same_service r r0 →
    effect db (set_enabled_rows (<[i := r]> (enabled_services db)) db)
| eff_enabled_insert i r : enabled_services db !! i = None → is_Some (agents db !! eb_agent_id r) →
    (∀ j s, enabled_services db !! j = Some s → ¬ same_service s r) →
    effect db (set_enabled_rows (<[i := r]> (enabled_services db)) db).

Record db_wf (db : Db) : Prop := {
  wf_route_agent h r : routes db !! h = Some r → is_Some (agents db !! rt_agent_id r);
  wf_route_lower h r : routes db !! h = Some r → to_ascii_lowercase h = h;
  wf_snapshot_agent id r : discovery_snapshots db !! id = Some r → is_Some (agents db !! id);
  wf_enabled_agent i r : enabled_services db !! i = Some r → is_Some (agents db !! eb_agent_id r);
  wf_enabled_unique i j r s : enabled_services db !! i = Some r → enabled_services db !! j = Some s →
    same_service r s → i = j;
}.

Lemma effect_agents db db' : effect db db' → agents_ext (agents db) (agents db').
Proof. destruct 1; cbn; done. Qed.
Lemma effect_tokens db db' : effect db db' → tokens_ext (enrollment_tokens db) (enrollment_tokens db').
Proof. destruct 1; cbn; done. Qed.

Lemma agents_ext_some m m' id : agents_ext m m' → is_Some (m !! id) → is_Some (m' !! id).
Proof. intros Hm [a (a' & ? & _)%Hm]. eauto. Qed.

Lemma effect_wf db db' : effect db db' → db_wf db → db_wf db'.
Proof.
  intros He [Hra Hrl Hsa Hea Heu].
  destruct He as [|m Hm|m Hm|m Hm|l|id row Hid|i r0 r Hi [Hk1 Hk2]|i r Hi Ha Hnew];
    try (split; cbn; by eauto).
  - split; cbn; eauto using agents_ext_some.
  - split; cbn; eauto.
    + intros h r [?|[? ?]]%Hm; eauto.
    + intros h r [?|[? ?]]%Hm; eauto.
  - split; cbn; eauto. intros k r [[-> _]|[_ ?]]%lookup_insert_Some; eauto.
  - split; cbn; eauto.
    + intros k s [[-> <-]|[_ ?]]%lookup_insert_Some; [rewrite Hk1|]; eauto.
    + intros j k s t [[-> <-]|[_ ?]]%lookup_insert_Some [[-> <-]|[_ ?]]%lookup_insert_Some [??];
        eauto; eapply Heu; eauto; split; congruence.
  - split; cbn; eauto.
    + intros k s [[-> <-]|[_ ?]]%lookup_insert_Some; eauto.
    + intros j k s t [[-> <-]|[_ Hj]]%lookup_insert_Some [[-> <-]|[_ Hk]]%lookup_insert_Some Hs;
        eauto; exfalso.
      * apply (Hnew _ _ Hk). destruct Hs; split; congruence.
      * by apply (Hnew _ _ Hj).
Qed.

Section effects.
Context `{Argon2} `{Base64} `{Chrono}.

Lemma put_entry_inv agent_id ttl ck e db out db' out' :
  put_entry agent_id ttl ck e (db, out) = Ok (db', out') →
  db' = db ∨ is_Some (agents db !! agent_id)
    ∧ db' = set_routes (<[entry_host e := entry_row agent_id ck e]> (routes db)) db.
Proof.
  destruct (agents db !! agent_id) as [a|] eqn:Ha.
  - rewrite (put_entry_eq _ a) by done. intros [= Hx]. case_match; simplify_eq; eauto.
  - unfold put_entry, upsert_route. cbn [rt_agent_id]. rewrite Ha.
    intros. mcases; by left.
Qed.

Lemma put_entries_routes agent_id ttl clk i es db out db' out' :
  put_entries agent_id ttl clk i es (db, out) = Ok (db', out') →
  db' = set_routes (routes db') db ∧
  ∀ h r, routes db' !! h = Some r → routes db !! h = Some r
    ∨ rt_agent_id r = agent_id ∧ is_Some (agents db !! agent_id) ∧ to_ascii_lowercase h = h.
Proof.
  revert i db out; induction es as [|e es IH]; intros i db out; cbn [put_entries].
  { intros [= -> ->]. rewrite set_routes_id. eauto. }
  destruct (put_entry agent_id ttl (clk i) e (db, out)) as [[db1 out1]|] eqn:He; [|done].
  cbn [mbind result_bind]. intros Hp. destruct (IH _ _ _ Hp) as [Hdb Hr].
  apply put_entry_inv in He as [->|[Ha ->]]; [done|]. cbn in *. split; [done|].
  intros h r [[[<- <-]|[_ ?]]%lookup_insert_Some|?]%Hr; auto.
  right. cbn. split; [done|]. split; [done|]. apply to_ascii_lowercase_idemp.
Qed.

Lemma put_routes_tx_routes agent_id es ttl clk db :
  let db' := (put_routes_tx agent_id es ttl clk db).2 in
  db' = set_routes (routes db') db ∧
  ∀ h r, routes db' !! h = Some r → routes db !! h = Some r
    ∨ rt_agent_id r = agent_id ∧ is_Some (agents db !! agent_id) ∧ to_ascii_lowercase h = h.
Proof.
  unfold put_routes_tx. destruct (put_entries _ _ _ _ _ _) as [[db1 out]|] eqn:Hp; cbn.
  - destruct (put_entries_routes _ _ _ _ _ _ _ _ _ Hp) as [Hdb Hr]. rewrite Hdb. split; [done|].
    intros h r. rewrite drop_undesired_lookup. case_decide; [done | apply Hr].
  - rewrite set_routes_id. eauto.
Qed.

Lemma put_routes_tx_effect agent_id es ttl clk db :
  effect db (put_routes_tx agent_id es ttl clk db).2.
Proof.
  destruct (put_routes_tx_routes agent_id es ttl clk db) as [-> Hr].
  apply eff_routes. intros h r [?|(<- & ? & ?)]%Hr; auto.
Qed.

Lemma mark_token_used_effect hash now db : effect db (mark_token_used hash now db).
Proof.
  apply eff_tokens. intros h r Hr. rewrite lookup_alter. case_decide as Hd; [|by eauto].
  subst. rewrite Hr. eexists. split; [done|]. done.
Qed.

Lemma consume_rows_step rows token now db :
  (consume_rows rows token now db).2 = db ∨
  ∃ h, (consume_rows rows token now db).2 = mark_token_used h now db.
Proof.
  induction rows as [|h rows IH]; cbn [consume_rows]; [by left|].
  destruct (verify_token h token); [right; by exists h | done].
Qed.

Lemma revoke_mark_effect id now db : effect db (revoke_mark id now db).
Proof.
  apply eff_agents. intros k a Ha. rewrite lookup_alter. case_decide as Hd; [|by eauto].
  subst. rewrite Ha. eexists. split; [done|]. by split.
Qed.
Lemma filter_routes_effect P `{∀ x, Decision (P x)} db :
  effect db (set_routes (filter P (routes db)) db).
Proof. apply eff_routes. intros h r [? _]%map_lookup_filter_Some. by left. Qed.

Lemma enabled_for_None db agent_id key j s :
  enabled_for db agent_id key = None → enabled_services db !! j = Some s →
  eb_agent_id s = agent_id → eb_identity_key s ≠ key.
Proof.
  unfold enabled_for. intros Hn Hs Ha Hk.
  assert ((j, s) ∈ filter (λ kv, eb_agent_id kv.2 = agent_id ∧ eb_identity_key kv.2 = key)
    (map_to_list (enabled_services db))) as Hin.
  { apply list_elem_of_filter. split; [done|]. by apply elem_of_map_to_list. }
  destruct (filter _ _); [by apply elem_of_nil in Hin | done].
Qed.
Lemma enabled_for_Some db agent_id key i s :
  enabled_for db agent_id key = Some (i, s) →
  enabled_services db !! i = Some s ∧ eb_agent_id s = agent_id ∧ eb_identity_key s = key.
Proof.
  unfold enabled_for. intros Hs. apply head_Some_elem_of, list_elem_of_filter in Hs as [[? ?] Hin].
  apply elem_of_map_to_list in Hin. done.
Qed.

Lemma upsert_enabled_effect id agent_id key name hosts backend now db :
  effect db (upsert_enabled_service id agent_id key name hosts backend now db).2.
Proof.
  unfold upsert_enabled_service. se_run. case_decide as Hid; [constructor|].
  destruct (enabled_for db agent_id key) as [[i s]|] eqn:Hf.
  - apply enabled_for_Some in Hf as (Hi & <- & <-). by eapply eff_enabled_update.
  - destruct (agents db !! agent_id) eqn:Ha; [|constructor]. apply eff_enabled_insert; cbn; [|by eauto|].
    + by apply eq_None_not_Some.
    + intros j t Ht [??]. by eapply enabled_for_None.
Qed.

Lemma step_effects db db' : step db db' → rtc effect db db'.
Proof.
  intros Hs. destruct Hs as [o db|hash now db|id es ttl clk db|id now db|id db].
  2-5: apply rtc_once; first [apply mark_token_used_effect | apply put_routes_tx_effect
    | apply revoke_mark_effect | apply filter_routes_effect].
  destruct o; cbn [exec].
  7: { eapply rtc_l; [apply revoke_mark_effect | apply rtc_once, filter_routes_effect]. }
  all: apply rtc_once.
  - unfold create_enrollment_token. se_run. destruct (map_err _ _); [|constructor]. se_run.
    destruct (enrollment_tokens db !! _) eqn:Ht; [constructor|]. apply eff_tokens.
    intros h r Hr. exists r. split; [|done]. rewrite lookup_insert_ne; congruence.
  - unfold consume_enrollment_token. se_run.
    destruct (consume_rows_step (unused_token_hashes db) token now db) as [->|[h ->]];
      [constructor | apply mark_token_used_effect].
  - unfold enroll_agent. se_run. destruct (map_err _ _); [|constructor]. se_run.
    destruct (agents db !! _) eqn:Ha; [constructor|]. apply eff_agents.
    intros k b Hb. exists b. split; [|done]. rewrite lookup_insert_ne; congruence.
  - unfold heartbeat. se_run. destruct (agents db !! agent_id) as [a|] eqn:Ha; [|constructor].
    case_decide as Hr; [|constructor]. apply eff_agents. intros k b Hb. rewrite lookup_insert.
    case_decide; [|by eauto]. simplify_eq. eexists. split; [done|]. by split.
  - unfold put_routes, get_agent. se_run. destruct (agents db !! agent_id); [|constructor].
    case_decide; [|constructor]. se_run. apply put_routes_tx_effect.
  - apply eff_routes. intros h r [_ ?]%lookup_delete_Some. by left.
  - apply filter_routes_effect.
  - unfold put_discovery_snapshot. se_run. destruct (agents db !! agent_id) eqn:Ha; [|constructor].
    by apply eff_snapshot.
  - apply upsert_enabled_effect.
  - unfold set_enabled_service. se_run. destruct (enabled_services db !! id) eqn:Hi; [|constructor].
    by eapply eff_enabled_update.
  - constructor.
Qed.

Lemma rtc_effect_wf db db' : rtc effect db db' → db_wf db → db_wf db'.
Proof. induction 1; eauto using effect_wf. Qed.
Lemma steps_effects db db' : rtc step db db' → rtc effect db db'.
Proof. induction 1; [constructor|]. etrans; [by apply step_effects | done]. Qed.
Lemma steps_agents db db' : rtc step db db' → agents_ext (agents db) (agents db').
Proof.
  intros Hs%steps_effects. induction Hs; [done|]. etrans; [by apply effect_agents | done].
Qed.
Lemma steps_tokens db db' :
  rtc step db db' → tokens_ext (enrollment_tokens db) (enrollment_tokens db').
Proof.
  intros Hs%steps_effects. induction Hs; [done|]. etrans; [by apply effect_tokens | done].
Qed.
Lemma empty_db_wf : db_wf empty_db.
Proof. split; cbn; intros *; rewrite ?lookup_empty; done. Qed.
End effects.

(** ** Lemmas on leases and answers *)

Section leases.
Context `{Argon2} `{Base64} `{Chrono}.

(** Every route belongs to an agent that is enrolled and not revoked. *)
Definition routes_owned (db : Db) : Prop :=
  ∀ h r, routes db !! h = Some r → ∃ a, agents db !! rt_agent_id r = Some a ∧ ag_revoked_at a = None.

Lemma routes_owned_transfer db db' :
  (∀ h r, routes db' !! h = Some r → routes db !! h = Some r) →
  (∀ id a, agents db !! id = Some a → ag_revoked_at a = None →
     ∃ a', agents db' !! id = Some a' ∧ ag_revoked_at a' = None) →
  routes_owned db → routes_owned db'.
Proof. intros Hr Ha Ho h r (a & ? & ?)%Hr%Ho. eauto. Qed.

Lemma revoke_routes_owned id now db : routes_owned db → routes_owned (revoke_agent id now db).2.
Proof.
  intros Ho h r [Hr Hne]%map_lookup_filter_Some. destruct (Ho _ _ Hr) as (a & Ha & Hn).
  exists a. split; [|done]. unfold revoke_agent, revoke_delete_routes, revoke_mark. se_run.
  cbn [agents set_agents set_routes]. by rewrite lookup_alter_ne.
Qed.

Lemma put_routes_owned id es ttl now clk db :
  routes_owned db → routes_owned (put_routes id es ttl now clk db).2.
Proof.
  intros Ho. unfold put_routes, get_agent. se_run. destruct (agents db !! id) as [a|] eqn:Ha; [|done].
  case_decide as Hr; [|done]. se_run.
  destruct (put_routes_tx_routes id es ttl clk db) as [-> Hrt].
  intros h r [?|(-> & _ & _)]%Hrt; cbn; eauto.
Qed.

Lemma exec_routes_owned o db : routes_owned db → routes_owned (exec o db).
Proof.
  intros Ho. destruct o; cbn [exec].
  - unfold create_enrollment_token. se_run. destruct (map_err _ _); [|done]. se_run.
    by case_match.
  - unfold consume_enrollment_token. se_run.
    by destruct (consume_rows_step (unused_token_hashes db) token now db) as [->|[h ->]].
  - unfold enroll_agent. se_run. destruct (map_err _ _); [|done]. se_run.
    destruct (agents db !! _) eqn:Hn; [done|]. se_run.
    eapply routes_owned_transfer; [..|exact Ho]; cbn [agents routes set_agents set_routes snd]; [done|].
    intros k b Hk ?. exists b. split; [|done]. rewrite lookup_insert_ne; congruence.
  - unfold heartbeat. se_run. destruct (agents db !! _) as [a|] eqn:Ha; [|done].
    case_decide; [|done]. se_run. eapply routes_owned_transfer; [..|exact Ho]; cbn [agents routes set_agents set_routes snd]; [done|].
    intros k b Hk ?. rewrite lookup_insert. case_decide; eauto.
  - by apply put_routes_owned.
  - unfold delete_route. se_run.
    eapply routes_owned_transfer; [..|exact Ho]; cbn [agents routes set_agents set_routes snd]; [|by eauto].
    by intros h r Hr; apply lookup_delete_Some in Hr as [_ ?].
  - by apply revoke_routes_owned.
  - unfold purge_expired_agents. se_run.
    eapply routes_owned_transfer; [..|exact Ho]; cbn [agents routes set_agents set_routes snd]; [|by eauto].
    by intros h r Hr; apply map_lookup_filter_Some in Hr as [? _].
  - unfold put_discovery_snapshot. se_run. by case_match.
  - unfold upsert_enabled_service. se_run. by repeat case_match.
  - unfold set_enabled_service. se_run. by case_match.
  - done.
Qed.

(** The answer of [active_dns_routes], as a list and as a set. *)
Definition dns_answer (ttl now : Z) (db : Db) : list DnsRoute :=
  default [] (ok (active_dns_routes ttl now db).1).

Lemma elem_of_joined db h r a :
  (h, r, a) ∈ joined_routes db ↔
  routes db !! h = Some r ∧ agents db !! rt_agent_id r = Some a ∧ ag_revoked_at a = None.
Proof.
  unfold joined_routes. rewrite list_elem_of_omap. split.
  - intros ([k s] & Hin%elem_of_map_to_list & Hx). cbn in *.
    destruct (agents db !! rt_agent_id s) eqn:Ha; [|done]. cbn in Hx. case_decide; by simplify_eq.
  - intros (Hr & Ha & Hn). exists (h, r). split; [by apply elem_of_map_to_list|].
    cbn. rewrite Ha. cbn. by rewrite decide_True.
Qed.

Lemma elem_of_dns_answer ttl now db d :
  d ∈ dns_answer ttl now db ↔
  ∃ r a, routes db !! dr_hostname d = Some r ∧ agents db !! rt_agent_id r = Some a
    ∧ ag_revoked_at a = None ∧ lease_alive now ttl (ag_last_seen_at a) = true
    ∧ dr_tailscale_ipv4 d = ag_tailscale_ipv4 a.
Proof.
  unfold dns_answer. cbn. rewrite list_elem_of_omap. split.
  - intros ([[h r] a] & (Hr & Ha & Hn)%elem_of_joined & Hx).
    destruct (lease_alive _ _ _) eqn:Hl; [|done]. simplify_eq. cbn. eauto 10.
  - intros (r & a & Hr & Ha & Hn & Hl & Hip). exists (dr_hostname d, r, a).
    split; [by apply elem_of_joined|]. rewrite Hl, <- Hip. by destruct d.
Qed.

Lemma omap_key_sublist {A B K} (kA : A → K) (kB : B → K) (f : A → option B) (l : list A) :
  (∀ x y, f x = Some y → kB y = kA x) → (kB <$> omap f l) `sublist_of` (kA <$> l).
Proof.
  intros Hk. induction l as [|x l IH]; [constructor|]. cbn. destruct (f x) as [y|] eqn:Hx; cbn.
  - rewrite (Hk _ _ Hx). by constructor.
  - by constructor.
Qed.

Lemma dns_answer_NoDup ttl now db : NoDup (dr_hostname <$> dns_answer ttl now db).
Proof.
  unfold dns_answer. cbn. eapply sublist_NoDup; [apply (NoDup_fst_map_to_list (routes db))|].
  etrans; [apply (omap_key_sublist (λ x : string * RouteRow * AgentRow, x.1.1)) |
           apply (omap_key_sublist (fst : string * RouteRow → string))].
  - intros [[h r] a] y. destruct (lease_alive _ _ _); [|done]. by intros [= <-].
  - intros [h r] y. cbn. destruct (agents db !! rt_agent_id r); [|done]. cbn.
    case_decide; [|done]. by intros [= <-].
Qed.

(** A revoked row refuses its agent and hides its routes. *)
Lemma revoked_refused db id a now : agents db !! id = Some a → ag_revoked_at a ≠ None →
  (∀ token, verify_agent_token id token db = (Err (StorageOther "revoked"), db))
  ∧ (∀ ip, heartbeat id ip now db = (Err NotFound, db))
  ∧ (∀ es ttl clk, put_routes id es ttl now clk db = (Err NotFound, db)).
Proof.
  intros Ha Hr. split; [|split]; intros *.
  - unfold verify_agent_token. se_run. rewrite Ha, decide_True; [done|]. by apply not_eq_None_Some.
  - unfold heartbeat. se_run. by rewrite Ha, decide_False.
  - apply put_routes_refused. intros ? ?. by simplify_eq.
Qed.
Lemma revoked_hidden db id a h ttl now d : agents db !! id = Some a → ag_revoked_at a ≠ None →
  owner_of db h = Some id → d ∈ dns_answer ttl now db → dr_hostname d ≠ h.
Proof.
  intros Ha Hr Ho (r & b & Hd & Hb & Hn & _)%elem_of_dns_answer <-.
  unfold owner_of in Ho. rewrite Hd in Ho. by simplify_eq/=.
Qed.
Lemma revoke_agent_row id now db a : agents db !! id = Some a →
  ∃ a', agents (revoke_agent id now db).2 !! id = Some a' ∧ ag_revoked_at a' ≠ None
    ∧ ag_last_seen_at a' = ag_last_seen_at a.
Proof.
  intros Ha. unfold revoke_agent, revoke_delete_routes, revoke_mark. se_run.
  cbn [agents set_agents set_routes]. rewrite lookup_alter_eq, Ha. eexists. by repeat split.
Qed.
End leases.

Lemma lease_alive_printed `{ChronoLaws} now ttl t :
  chrono_range t → lease_alive now ttl (Some (to_rfc3339 t)) = (now - t <? ttl).
Proof. intros Ht. unfold lease_alive. cbn. by rewrite rfc3339_roundtrip. Qed.

Lemma printed_inj `{ChronoLaws} t u : chrono_range t → chrono_range u →
  Some (to_rfc3339 t) = Some (to_rfc3339 u) → t = u.
Proof.
  intros Ht Hu [= Heq]. pose proof (rfc3339_roundtrip t Ht) as Hr.
  rewrite Heq, rfc3339_roundtrip in Hr by done. by injection Hr.
Qed.

(** Every [last_seen_at] is NULL or an instant printed by the program. *)
Definition seen_printed `{Chrono} (db : Db) : Prop :=
  ∀ id a s, agents db !! id = Some a → ag_last_seen_at a = Some s →
    ∃ t, chrono_range t ∧ s = to_rfc3339 t.

Definition seen_by `{Chrono} (ts : list Z) (db : Db) : bool :=
  forallb (λ kv, bool_decide (ag_last_seen_at kv.2 ∈ (λ t, Some (to_rfc3339 t)) <$> ts))
    (map_to_list (agents db)).
Lemma seen_by_sound `{Chrono} ts db : Forall chrono_range ts → seen_by ts db = true → seen_printed db.
Proof.
  unfold seen_by. rewrite forallb_forall, Forall_forall. intros Ht Hall id a s Ha Hs.
  specialize (Hall (id, a)). rewrite bool_decide_eq_true in Hall. cbn [snd] in Hall.
  rewrite Hs, list_elem_of_fmap in Hall. destruct Hall as (t & [= ->] & Hin); [|by eauto].
  by apply list_elem_of_In, elem_of_map_to_list.
Qed.

(** [seen_before] with a printed cutoff compares instants. *)
Lemma seen_before_printed `{ChronoLaws} cutoff t : chrono_range t → chrono_range cutoff →
  seen_before (to_rfc3339 cutoff) (Some (to_rfc3339 t)) = (t <? cutoff).
Proof. intros. cbn. by apply rfc3339_order. Qed.

(** The rows that keep a route through [purge_expired_agents]. *)
Lemma purge_routes_lookup `{ChronoLaws} ttl now db h r :
  db_wf db → seen_printed db → chrono_range (now - ttl) →
  routes (purge_expired_agents ttl now db).2 !! h = Some r ↔
  routes db !! h = Some r ∧ ∃ a t, agents db !! rt_agent_id r = Some a
    ∧ ag_last_seen_at a = Some (to_rfc3339 t) ∧ chrono_range t ∧ now - t <= ttl.
Proof.
  intros Hwf Hseen Hc. unfold purge_expired_agents. se_run. cbn [routes set_routes].
  rewrite map_lookup_filter_Some. cbn [snd]. unfold owner_seen_before. split.
  - intros [Hr Hs]. split; [done|]. destruct (wf_route_agent _ Hwf _ _ Hr) as [a Ha].
    rewrite Ha in Hs. destruct (ag_last_seen_at a) as [s|] eqn:Hl; [|done].
    destruct (Hseen _ _ _ Ha Hl) as (t & Ht & ->). rewrite seen_before_printed in Hs by done.
    breflect. exists a, t. repeat split; try done; try apply Ht; lia.
  - intros (Hr & a & t & Ha & Hl & Ht & Hn). split; [done|].
    rewrite Ha, Hl, seen_before_printed by done. apply Z.ltb_ge. lia.
Qed.

(** ** Enrollment tokens *)

Section tokens.
Context `{Argon2} `{Base64} `{Chrono}.

(** The unused hashes a token verifies against, in the order they are tried. *)
Definition matching (token : string) (rows : list string) : list string :=
  filter (λ h, verify_token h token = true) rows.

Lemma consume_rows_matching rows token now db :
  consume_rows rows token now db =
  match matching token rows with
  | [] => (Err (StorageOther "invalid enrollment token"), db)
  | h :: _ => (Ok tt, mark_token_used h now db)
  end.
Proof.
  unfold matching. induction rows as [|h rows IH]; cbn [consume_rows]; [done|].
  rewrite filter_cons. destruct (verify_token h token) eqn:Hv.
  - by rewrite decide_True.
  - by rewrite decide_False, IH.
Qed.

Lemma elem_of_unused db k :
  k ∈ unused_token_hashes db ↔ ∃ r, enrollment_tokens db !! k = Some r ∧ tk_used_at r = None.
Proof.
  unfold unused_token_hashes. rewrite list_elem_of_fmap. split.
  - intros ([h r] & -> & [Hu Hin]%list_elem_of_filter). exists r.
    by rewrite <- elem_of_map_to_list.
  - intros (r & Hr & Hu). exists (k, r). split; [done|]. apply list_elem_of_filter.
    split; [done|]. by apply elem_of_map_to_list.
Qed.

Lemma elem_of_unused_marked db h now k :
  k ∈ unused_token_hashes (mark_token_used h now db) ↔ k ∈ unused_token_hashes db ∧ k ≠ h.
Proof.
  rewrite !elem_of_unused. unfold mark_token_used. cbn [enrollment_tokens set_tokens].
  rewrite lookup_alter. split.
  - intros (r & Hr & Hu). case_decide as Hd.
    + destruct (enrollment_tokens db !! h); by simplify_eq/=.
    + split; [by eauto | congruence].
  - intros [(r & Hr & Hu) Hne]. exists r. by rewrite decide_False.
Qed.
End tokens.

(** ** Properties *)

Section properties.
Context `{Argon2} `{Base64} `{Chrono}.

(** C17: any interleaving of the storage's operations and of the separate
    statements of those without a transaction keeps the database well formed:
    every route, snapshot and enabled service names an existing agent, route
    names are lower case, an agent has one enabled row per identity key; agents
    are never deleted, their credentials never change, a revoked agent stays
    revoked and a used token stays used. *)
Theorem storage_steps_preserve db db' :
  db_wf db → rtc step db db' →
  db_wf db' ∧ agents_ext (agents db) (agents db')
  ∧ tokens_ext (enrollment_tokens db) (enrollment_tokens db').
Proof.
  intros Hwf Hs. split; [|split].
  - eapply rtc_effect_wf; [by apply steps_effects | done].
  - by apply steps_agents.
  - by apply steps_tokens.
Qed.

(** When the operations run one after the other, every route in the table
    belongs to an agent that is enrolled and not revoked. *)
Theorem serial_operations_own_routes db : rtc op_step empty_db db → routes_owned db.
Proof.
  revert db. refine (rtc_ind_r (λ db, routes_owned db) empty_db _ _).
  - intros h r Hr. cbn in Hr. by rewrite lookup_empty in Hr.
  - intros y z _ [o ->] Ho. by apply exec_routes_owned.
Qed.


(** [put_routes] checks the agent before its transaction, and nothing in the
    transaction checks it again.  A revocation that runs in between is undone in
    part: the revoked agent owns the hostname again, no query is answered with
    it, and until the agent's lease runs out no other agent can take it. *)
Theorem revoke_during_put_routes id id2 a a2 e ttl t clk db :
  agents db !! id = Some a → ag_revoked_at a = None →
  agents db !! id2 = Some a2 → ag_revoked_at a2 = None → id ≠ id2 →
  routes db !! entry_host e = None → lease_alive t ttl (ag_last_seen_at a) = true →
  (∀ j, at_check (clk j) = t) →
  let db1 := (revoke_agent id t db).2 in
  let db2 := (put_routes_tx id [e] ttl clk db1).2 in
  is_ok (get_agent t id db).1 = true
  ∧ owner_of db2 (entry_host e) = Some id
  ∧ (∀ d, d ∈ dns_answer ttl t db2 → dr_hostname d ≠ entry_host e)
  ∧ owner_of (put_routes id2 [e] ttl t clk db2).2 (entry_host e) = Some id.
Proof.
  intros Ha Hr Ha2 Hr2 Hne Hh Hl Hclk db1 db2.
  destruct (revoke_agent_row id t db a Ha) as (a1 & Ha1 & Hr1 & Hl1). fold db1 in Ha1.
  assert (agents db1 !! id2 = Some a2) as Ha12.
  { unfold db1, revoke_agent, revoke_mark, revoke_delete_routes. se_run.
    cbn [agents set_agents set_routes]. by rewrite lookup_alter_ne. }
  assert (routes db1 !! entry_host e = None) as Hh1.
  { unfold db1, revoke_agent, revoke_mark, revoke_delete_routes. se_run.
    cbn [routes set_agents set_routes]. apply map_lookup_filter_None. by left. }
  destruct (put_entries_ok id a1 ttl clk 0 [e] db1 (mk_outcome [] []) Ha1) as (db' & out & Hp & Hdb).
  assert (owner_of db2 (entry_host e) = Some id ∧ agents db2 = agents db1) as [Ho Hag].
  { unfold db2, put_routes_tx. rewrite Hp. split; [|by rewrite Hdb].
    unfold owner_of. cbn [routes set_routes snd]. rewrite drop_undesired_lookup.
    assert (∀ j, blocked id ttl (at_check (clk j)) db1 (entry_host e) = false) as Hb.
    { intros j. unfold blocked, owner_of. by rewrite Hh1. }
    rewrite (put_entries_lookup _ _ _ _ _ _ _ _ _ _ _ _ Ha1 Hp Hb). cbn [last_row].
    rewrite (decide_True (P := entry_host e = entry_host e)) by done.
    rewrite decide_False; [done|]. intros [_ Hn]. apply Hn. cbn. set_solver. }
  split; [|split; [done|split]].
  - unfold get_agent. se_run. by rewrite Ha, decide_True.
  - intros d. apply (revoked_hidden _ id a1); [by rewrite Hag | done..].
  - rewrite <- Hag in Ha12, Ha1.
    destruct (put_routes_ok id2 a2 [e] ttl t clk db2 Ha12 Hr2) as (? & ? & _ & _ & Heq).
    assert (∀ j, blocked id2 ttl (at_check (clk j)) db2 (entry_host e) = true) as Hb.
    { intros j. unfold blocked, live_at. rewrite Ho, Ha1, Hl1, Hclk, Hl.
      by rewrite bool_decide_false by done. }
    pose proof (put_routes_lookup _ _ _ _ _ _ _ _ _ _ _ Ha12 Hr2 Heq Hb) as Hrt.
    rewrite Heq. cbn [snd]. unfold owner_of at 1. by rewrite Hrt.
Qed.

(** The DNS table of [active_dns_routes] holds exactly the hostnames whose
    owner is not revoked and holds a live lease, each once, with that owner's
    current address. *)
Theorem active_dns_routes_exact ttl now db :
  ∃ out, active_dns_routes ttl now db = (Ok out, db) ∧ NoDup (dr_hostname <$> out)
    ∧ ∀ h ip, mk_dns_route h ip ∈ out ↔ ∃ r a, routes db !! h = Some r
        ∧ agents db !! rt_agent_id r = Some a ∧ ag_revoked_at a = None
        ∧ lease_alive now ttl (ag_last_seen_at a) = true ∧ ip = ag_tailscale_ipv4 a.
Proof.
  exists (dns_answer ttl now db). split; [done|]. split; [apply dns_answer_NoDup|].
  intros h ip. apply (elem_of_dns_answer ttl now db (mk_dns_route h ip)).
Qed.
End properties.

Section lease_properties.
Context `{Argon2} `{Base64} `{ChronoLaws}.

(** A heartbeat at [t] from an enrolled agent that is not revoked renews the
    lease of all its routes: a hostname it owns is answered, with the address of
    that heartbeat, at exactly the instants less than the TTL after [t], and it
    changes no row of another agent. *)
Theorem heartbeat_renews_lease id a ip t ttl db :
  agents db !! id = Some a → ag_revoked_at a = None → chrono_range t →
  ∃ db', heartbeat id ip t db = (Ok tt, db') ∧ routes db' = routes db
    ∧ (∀ k, k ≠ id → agents db' !! k = agents db !! k)
    ∧ ∀ h now x, owner_of db h = Some id →
        mk_dns_route h x ∈ dns_answer ttl now db' ↔ now - t < ttl ∧ x = ip.
Proof.
  intros Ha Hr Ht. unfold heartbeat. se_run. rewrite Ha, decide_True by done.
  eexists. split; [reflexivity|]. split; [done|]. cbn [agents routes set_agents].
  split; [intros k Hk; by rewrite lookup_insert_ne|].
  intros h now x Ho. rewrite elem_of_dns_answer. cbn [agents routes set_agents dr_hostname dr_tailscale_ipv4].
  unfold owner_of in Ho. apply fmap_Some in Ho as (r & Hh & ->). split.
  - intros (r' & b & Hh' & Hb & _ & Hl & ->). simplify_eq.
    rewrite lookup_insert_eq in Hb. simplify_eq. cbn in *. rewrite lease_alive_printed in Hl by done.
    breflect. done.
  - intros [Hlt ->]. eexists r, _. rewrite lookup_insert_eq. repeat split; [done|].
    cbn [ag_last_seen_at]. rewrite lease_alive_printed by done. by apply Z.ltb_lt.
Qed.

(** The periodic purge deletes exactly the routes whose owner was last seen
    more than the TTL ago or never, and reports how many; it never removes a
    hostname the DNS table would answer at that instant. *)
Theorem purge_expired_agents_exact ttl now db :
  db_wf db → seen_printed db → chrono_range (now - ttl) →
  ∃ n db', purge_expired_agents ttl now db = (Ok n, db')
    ∧ n = Z.of_nat (size (routes db)) - Z.of_nat (size (routes db')) ∧ agents db' = agents db
    ∧ (∀ h r, routes db' !! h = Some r ↔ routes db !! h = Some r ∧
        ∃ a t, agents db !! rt_agent_id r = Some a ∧ ag_last_seen_at a = Some (to_rfc3339 t)
          ∧ chrono_range t ∧ now - t <= ttl)
    ∧ ∀ d, d ∈ dns_answer ttl now db' ↔ d ∈ dns_answer ttl now db.
Proof.
  intros Hwf Hseen Hc.
  exists (Z.of_nat (size (routes db)) - Z.of_nat (size (routes (purge_expired_agents ttl now db).2))),
    (purge_expired_agents ttl now db).2.
  split; [done|]. split; [done|]. split; [done|].
  split; [intros h r; by apply purge_routes_lookup|]. intros d. rewrite !elem_of_dns_answer.
  split; intros (r & a & Hh & Ha & Hn & Hl & Hip); exists r, a.
  - apply purge_routes_lookup in Hh as [? _]; [|done..]. done.
  - split; [|done]. apply purge_routes_lookup; [done..|]. split; [done|].
    destruct (ag_last_seen_at a) as [s|] eqn:Hs; [|done].
    destruct (Hseen _ _ _ Ha Hs) as (t & Ht & ->). exists a, t. rewrite lease_alive_printed in Hl by done.
    breflect. repeat split; try done; try apply Ht; lia.
Qed.
End lease_properties.

Section token_properties.
Context `{Argon2} `{Base64} `{Chrono}.

(** An enrollment token is accepted exactly when some unused hash matches
    it; accepting it uses up one such hash and no other, and a refusal changes
    nothing.  So a token that only one unused hash matches works once. *)
Theorem enrollment_token_once token now db :
  match matching token (unused_token_hashes db) with
  | [] => consume_enrollment_token token now db = (Err (StorageOther "invalid enrollment token"), db)
  | h :: _ => ∃ db', consume_enrollment_token token now db = (Ok tt, db')
      ∧ verify_token h token = true
      ∧ (∀ k, k ∈ unused_token_hashes db' ↔ k ∈ unused_token_hashes db ∧ k ≠ h)
      ∧ ((∀ k, k ∈ unused_token_hashes db → verify_token k token = true → k = h) →
         ∀ now', (consume_enrollment_token token now' db').1
           = Err (StorageOther "invalid enrollment token"))
  end.
Proof.
  unfold consume_enrollment_token. se_run. rewrite consume_rows_matching.
  destruct (matching token (unused_token_hashes db)) as [|h l] eqn:Hm; [done|].
  exists (mark_token_used h now db). split; [done|]. split; [|split].
  - assert (h ∈ matching token (unused_token_hashes db)) as Hin by (rewrite Hm; by left).
    by apply list_elem_of_filter in Hin as [? _].
  - intros k. apply elem_of_unused_marked.
  - intros Hu now'. se_run. rewrite consume_rows_matching.
    destruct (matching token (unused_token_hashes (mark_token_used h now db))) as [|k l'] eqn:Hm'; [done|].
    exfalso. assert (k ∈ matching token (unused_token_hashes (mark_token_used h now db))) as Hin
      by (rewrite Hm'; by left).
    apply list_elem_of_filter in Hin as [Hv Hin]. apply elem_of_unused_marked in Hin as [Hin Hne].
    by apply Hne, Hu.
Qed.

(** two enrollments that both read the unused hashes before either marks
    one are both accepted with the same token: the second UPDATE does not check
    that the token is still unused. *)
Theorem enrollment_token_race token now1 now2 db :
  matching token (unused_token_hashes db) ≠ [] →
  let rows := unused_token_hashes db in
  ∃ db1 db2, consume_rows rows token now1 db = (Ok tt, db1)
    ∧ consume_rows rows token now2 db1 = (Ok tt, db2).
Proof.
  intros Hm rows. unfold rows. setoid_rewrite consume_rows_matching.
  destruct (matching token (unused_token_hashes db)); [done|]. by do 2 eexists.
Qed.
End token_properties.

(** ** Witnesses: two agents enrol and claim hostnames. *)
Section witnesses.
#[local] Existing Instance bits_chrono.
#[local] Existing Instance bits_chrono_laws.
#[local] Existing Instance plain_argon2.
#[local] Existing Instance raw_base64.

#[local] Definition run (ops : list Op) (db : Db) : Db := foldl (λ db o, exec o db) db ops.
#[local] Definition op_clock (t : Z) : nat → EntryClock := λ _, mk_clock t t t.
#[local] Definition entry (h : string) : RouteEntry := mk_entry h "http://127.0.0.1:1/" None None.
#[local] Definition some_ops : list Op :=
  [OpCreateToken [65] "s" 1; OpEnroll "one" "100.64.0.1" "e" [49] [50] "s" 2;
   OpEnroll "two" "100.64.0.2" "e" [51] [52] "s" 3;
   OpPutRoutes "agt_1" [entry "A.internal"] 90 5 (op_clock 5)].
#[local] Definition some_db : Db := run some_ops empty_db.

Lemma run_steps ops db : rtc op_step db (run ops db).
Proof.
  revert db. induction ops as [|o ops IH]; intros db; [constructor|].
  eapply rtc_l; [by exists o | apply IH].
Qed.
Lemma run_db_steps ops db : rtc step db (run ops db).
Proof.
  revert db. induction ops as [|o ops IH]; intros db; [constructor|].
  eapply rtc_l; [apply step_op | apply IH].
Qed.
Lemma some_db_wf : db_wf some_db.
Proof. eapply rtc_effect_wf; [apply steps_effects, run_db_steps | apply empty_db_wf]. Qed.
Lemma some_db_printed : seen_printed some_db.
Proof.
  apply (seen_by_sound [2; 3]); [by repeat constructor; unfold chrono_range; lia|].
  vm_compute. reflexivity.
Qed.

Lemma storage_steps_preserve_witness : db_wf (run [OpRevoke "agt_1" 9] some_db).
Proof.
  apply (storage_steps_preserve some_db); [apply some_db_wf | apply run_db_steps].
Defined.

Lemma serial_operations_own_routes_witness : routes_owned some_db.
Proof. apply serial_operations_own_routes. apply run_steps. Defined.


#[local] Definition agent_in (id : string) : AgentRow :=
  default (mk_agent_row "" "" "" "" "" None None) (agents some_db !! id).
Lemma agent_in_1 : agents some_db !! "agt_1" = Some (agent_in "agt_1").
Proof. vm_compute. reflexivity. Qed.
Lemma agent_in_2 : agents some_db !! "agt_3" = Some (agent_in "agt_3").
Proof. vm_compute. reflexivity. Qed.

Lemma revoke_during_put_routes_witness :
  owner_of (put_routes "agt_3" [entry "b.internal"] 90 10 (op_clock 10)
    (put_routes_tx "agt_1" [entry "b.internal"] 90 (op_clock 10) (revoke_agent "agt_1" 10 some_db).2).2).2
    "b.internal" = Some "agt_1".
Proof.
  pose proof (revoke_during_put_routes "agt_1" "agt_3" _ _ (entry "b.internal") 90 10 (op_clock 10)
    some_db agent_in_1 eq_refl agent_in_2 eq_refl) as Hr.
  apply Hr; [discriminate | vm_compute; reflexivity | vm_compute; reflexivity | reflexivity].
Defined.

Lemma heartbeat_renews_lease_witness :
  mk_dns_route "a.internal" "100.64.0.9" ∈ dns_answer 90 99 (heartbeat "agt_1" "100.64.0.9" 10 some_db).2.
Proof.
  destruct (heartbeat_renews_lease "agt_1" _ "100.64.0.9" 10 90 some_db agent_in_1 eq_refl)
    as (db' & Hh & _ & _ & Hd); [unfold chrono_range; lia|].
  rewrite Hh. apply Hd; [vm_compute; reflexivity | split; [lia | reflexivity]].
Defined.

Lemma purge_expired_agents_exact_witness :
  routes (purge_expired_agents 90 93 some_db).2 !! "a.internal" = None.
Proof.
  destruct (purge_expired_agents_exact 90 93 some_db some_db_wf some_db_printed)
    as (n & db' & Hp & _ & _ & Hr & _); [unfold chrono_range; lia|].
  rewrite Hp. cbn [snd]. apply eq_None_not_Some. intros [r Hh]. apply Hr in Hh as (Hh & a & t & Ha & Hs & Ht & Hle).
  assert (rt_agent_id <$> routes some_db !! "a.internal" = Some "agt_1") as Ho by (vm_compute; reflexivity).
  rewrite Hh in Ho. injection Ho as Ho. rewrite Ho, agent_in_1 in Ha. injection Ha as <-.
  assert (ag_last_seen_at (agent_in "agt_1") = Some (to_rfc3339 2)) as H2 by (vm_compute; reflexivity).
  assert (2 = t) as <- by (eapply printed_inj; [unfold chrono_range; lia | done | congruence]).
  lia.
Defined.

Lemma enrollment_token_race_witness :
  ∃ db1 db2, consume_rows (unused_token_hashes some_db) "A" 20 some_db = (Ok tt, db1)
    ∧ consume_rows (unused_token_hashes some_db) "A" 21 db1 = (Ok tt, db2).
Proof. apply (enrollment_token_race "A" 20 21 some_db). vm_compute. discriminate. Defined.
End witnesses.
