(* ===== verification/Sessions.v ===== *)
(** * Admin sessions ([tailsvc-controller/src/sessions.rs])

    The map from session tokens to their expiry, behind its lock.  Instants are
    nanoseconds of the monotonic clock; an operation is given every reading it
    makes.  A poisoned lock is not modelled: no operation panics holding it. *)
From S2P Require Import Prelude RustStr Net Externals Common Concrete.
#[local] Open Scope Z_scope.

Record SessionStore := mk_sessions { ss_inner : gmap string Z; ss_ttl : Z }.

(** [SessionStore::new] *)
Definition new_sessions (ttl : Z) : SessionStore := mk_sessions ∅ ttl.

Definition purge_locked (now : Z) (m : gmap string Z) : gmap string Z :=
  filter (λ kv, now < kv.2) m.

(** [t_exp]: the reading the expiry is computed from; [t]: that of the purge. *)
Definition create `{Base64} (buf : list Z) (t_exp t : Z) (s : SessionStore) : string * SessionStore :=
  let token := generate_token buf in
  let exp := t_exp + ss_ttl s in
  (token, mk_sessions (<[token := exp]> (purge_locked t (ss_inner s))) (ss_ttl s)).

(** [t] is the reading of the purge, [t'] that of the test. *)
Definition valid (token : string) (t t' : Z) (s : SessionStore) : bool * SessionStore :=
  let g := purge_locked t (ss_inner s) in
  match g !! token with
  | Some exp =>
      if t' <? exp then (true, mk_sessions g (ss_ttl s))
      else (false, mk_sessions (delete token g) (ss_ttl s))
  | None => (false, mk_sessions g (ss_ttl s))
  end.

Definition revoke (token : string) (s : SessionStore) : SessionStore :=
  mk_sessions (delete token (ss_inner s)) (ss_ttl s).

(** ** The operations as steps at an instant *)

Inductive SessionOp :=
| SCreate (buf : list Z) (t_exp : Z)
| SValid (token : string) (t' : Z)
| SRevoke (token : string).

Definition session_exec `{Base64} (t : Z) (o : SessionOp) (s : SessionStore) : SessionStore :=
  match o with
  | SCreate buf t_exp => (create buf t_exp t s).2
  | SValid token t' => (valid token t t' s).2
  | SRevoke token => revoke token s
  end.
Definition session_run `{Base64} (ops : list (Z * SessionOp)) (s : SessionStore) : SessionStore :=
  foldl (λ s o, session_exec o.1 o.2 s) s ops.

(** The operations after which a session of [token] may be another one. *)
Definition touches `{Base64} (token : string) (o : SessionOp) : bool :=
  match o with
  | SCreate buf _ => bool_decide (generate_token buf = token)
  | SRevoke k => bool_decide (k = token)
  | SValid _ _ => false
  end.

(** ** Lemmas *)

Section lemmas.
Context `{Base64}.

Lemma purge_locked_lookup t m k :
  purge_locked t m !! k = (e ← m !! k; if decide (t < e) then Some e else None).
Proof.
  unfold purge_locked. rewrite map_lookup_filter. destruct (m !! k); [|done]. cbn.
  unfold guard. by destruct (decide (t < _)).
Qed.

(** What an operation at [t] that does not touch [token] leaves of its entry. *)
Lemma session_exec_entry t o s token e :
  touches token o = false → ss_inner s !! token = Some e →
  (∀ k t', o = SValid k t' → t <= t') →
  (t < e → (∀ t', o = SValid token t' → t' < e) → ss_inner (session_exec t o s) !! token = Some e)
  ∧ (ss_inner (session_exec t o s) !! token = Some e ∨ ss_inner (session_exec t o s) !! token = None).
Proof.
  intros Ht He Hm. destruct o as [buf t_exp|k t'|k]; cbn in *; breflect.
  - rewrite lookup_insert_ne, purge_locked_lookup, He by done. cbn. case_decide; auto.
    split; [done | by right].
  - unfold valid. destruct (purge_locked t (ss_inner s) !! k) as [x|] eqn:Hk; cbn.
    + destruct (t' <? x) eqn:Hx; cbn.
      * rewrite purge_locked_lookup, He. cbn. case_decide; split; auto; done.
      * rewrite lookup_delete. case_decide as Hd; [subst k|].
        -- split; [|by right]. intros _ Hlt. rewrite purge_locked_lookup, He in Hk. cbn in Hk.
           case_decide; simplify_eq. breflect. specialize (Hlt t' eq_refl). lia.
        -- rewrite purge_locked_lookup, He. cbn. case_decide; split; auto; done.
    + rewrite purge_locked_lookup, He. cbn. case_decide; split; auto; done.
  - rewrite lookup_delete_ne by done. auto.
Qed.
Lemma session_exec_none t o s token :
  touches token o = false → ss_inner s !! token = None →
  ss_inner (session_exec t o s) !! token = None.
Proof.
  intros Ht He. destruct o as [buf t_exp|k t'|k]; cbn in *; breflect.
  - by rewrite lookup_insert_ne, purge_locked_lookup, He.
  - unfold valid. repeat case_match; cbn; rewrite ?lookup_delete, purge_locked_lookup, He;
      by try case_decide.
  - rewrite lookup_delete, He. by case_decide.
Qed.

(** The test of a bearer depends on the entry only. *)
Lemma valid_eq token t t' s :
  (valid token t t' s).1 = true ↔ ∃ e, ss_inner s !! token = Some e ∧ t < e ∧ t' < e.
Proof.
  unfold valid. rewrite purge_locked_lookup. destruct (ss_inner s !! token) as [e|]; cbn.
  - case_decide; cbn; [|naive_solver lia]. destruct (t' <? e) eqn:Hx; breflect; cbn; naive_solver lia.
  - naive_solver.
Qed.

Lemma session_run_entry ops s token e t :
  Forall (λ o, touches token o.2 = false) ops →
  Forall (λ o, o.1 <= t ∧ ∀ k t', o.2 = SValid k t' → o.1 <= t' <= t) ops →
  ss_inner s !! token = Some e →
  (t < e → ss_inner (session_run ops s) !! token = Some e)
  ∧ (ss_inner (session_run ops s) !! token = Some e ∨ ss_inner (session_run ops s) !! token = None).
Proof.
  revert s. induction ops as [|[t0 o] ops IH]; intros s Ht Hb He; [by auto|].
  inversion_clear Ht as [|? ? Ht1 Ht2]. inversion_clear Hb as [|? ? [Hb1 Hb1'] Hb2].
  cbn in Ht1, Hb1, Hb1'. cbn [session_run foldl fst snd]. fold (session_run ops (session_exec t0 o s)).
  destruct (session_exec_entry t0 o s token e Ht1 He) as [Hlive [Hs|Hn]].
  - intros k t' Ho. specialize (Hb1' _ _ Ho). lia.
  - destruct (IH _ Ht2 Hb2 Hs) as [??]. auto.
  - assert (∀ ops s, Forall (λ o, touches token o.2 = false) ops → ss_inner s !! token = None →
      ss_inner (session_run ops s) !! token = None) as Hnone.
    { clear. intros ops. induction ops as [|[t0 o] ops IH]; intros s Ht Hs; [done|].
      inversion_clear Ht. cbn [session_run foldl]. apply IH; [done|]. by apply session_exec_none. }
    split; [|right; by apply Hnone]. intros Hlt.
    rewrite Hlive in Hn; [done|lia|]. intros t' ->. specialize (Hb1' _ _ eq_refl). lia.
Qed.
End lemmas.

(** ** Property *)

(** C32: a session lives exactly its time: the token of a login at [t0] is
    accepted at every later instant before [t0] plus the lifetime and at none
    from then on, whatever logins, checks and logouts of other tokens run in
    between; after its own logout it is refused. *)
Theorem session_lifetime `{Base64} buf t0 t1 t ops s :
  t0 <= t1 <= t → let token := generate_token buf in
  Forall (λ o, touches token o.2 = false) ops →
  Forall (λ o, t1 <= o.1 <= t ∧ ∀ k t', o.2 = SValid k t' → o.1 <= t' <= t) ops →
  let s1 := session_run ops (create buf t0 t1 s).2 in
  (valid token t t s1).1 = (t <? t0 + ss_ttl s)
  ∧ (valid token t t (revoke token s1)).1 = false.
Proof.
  intros Ht token Hno Hb s1.
  assert (ss_inner (create buf t0 t1 s).2 !! token = Some (t0 + ss_ttl s)) as Hc by apply lookup_insert_eq.
  assert (Forall (λ o, o.1 <= t ∧ ∀ k t', o.2 = SValid k t' → o.1 <= t' <= t) ops) as Hb'.
  { eapply Forall_impl; [exact Hb|]. cbn. intros o [? ?]. split; [lia|done]. }
  destruct (session_run_entry ops _ token _ t Hno Hb' Hc) as [Hlive Hor].
  fold s1 in Hlive, Hor. split.
  - apply eq_bool_prop_intro. rewrite !Is_true_true, valid_eq, Z.ltb_lt. split.
    + intros (e & He & ? & ?). destruct Hor as [Ho|Ho]; rewrite Ho in He; by simplify_eq.
    + intros Hlt. exists (t0 + ss_ttl s). auto.
  - apply not_true_iff_false. rewrite valid_eq. cbn. rewrite lookup_delete_eq. by intros (? & ? & _).
Qed.

Section witnesses.
#[local] Existing Instance raw_base64.
Lemma session_lifetime_witness :
  (valid "A" 30 30 (session_run [(25, SValid "A" 26); (27, SCreate [66] 27)] (create [65] 10 11 (new_sessions 300)).2)).1
  = true.
Proof.
  assert (Forall (λ o, 11 <= o.1 <= 30 ∧ ∀ k t', o.2 = SValid k t' → o.1 <= t' <= 30)
    [(25, SValid "A" 26); (27, SCreate [66] 27)]) as Hb.
  { rewrite !Forall_cons, Forall_nil. cbn. repeat split; intros; simplify_eq; lia. }
  apply (proj1 (session_lifetime [65] 10 11 30 [(25, SValid "A" 26); (27, SCreate [66] 27)]
    (new_sessions 300) ltac:(lia) ltac:(repeat constructor) Hb)).
Defined.
End witnesses.
