(* ===== verification/Config.v ===== *)
(** * The controller's configuration ([tailsvc-controller/src/config.rs])

    The records and their defaults, and the registration policy.  Reading them
    from a file and the environment is figment's work, which is an argument. *)
From S2P Require Import Prelude RustStr Net.
From Stdlib Require Import Ascii.
#[local] Open Scope Z_scope.

Record DnsConfig := mk_dns_config {
  dns_listen : SocketAddr; dns_upstreams : list SocketAddr; dns_service_ttl_seconds : Z;
  dns_upstream_timeout_ms : Z; dns_positive_cache_max_seconds : Z;
  dns_negative_cache_max_seconds : Z; dns_query_timeout_ms : Z;
}.
Record ApiConfig := mk_api_config {
  api_listen : SocketAddr; api_admin_password_file : option string;
  api_admin_token_file : string; api_admin_username : string; api_session_ttl_seconds : Z;
}.
Record StorageConfig := mk_storage_config { st_sqlite_path : string }.
Record LeaseConfig := mk_lease_config { heartbeat_interval_seconds : Z; agent_ttl_seconds : Z }.
Record BackupConfig := mk_backup_config {
  bk_enabled : bool; bk_dir : string; bk_interval_seconds : Z; bk_keep : Z;
}.
Record SecurityConfig := mk_security { allowed_suffixes : list string; blocked_names : list string }.
Record ControllerConfig := mk_controller_config {
  cfg_dns : DnsConfig; cfg_api : ApiConfig; cfg_storage : StorageConfig; cfg_leases : LeaseConfig;
  cfg_backup : BackupConfig; cfg_security : SecurityConfig;
}.

(** The values of the fields a file leaves out. *)
Definition default_service_ttl : Z := 5.
Definition default_upstream_timeout : Z := 2000.
Definition default_positive_cache : Z := 300.
Definition default_negative_cache : Z := 30.
Definition default_query_timeout : Z := 5000.
Definition default_admin_token_file : string := "/etc/tailsvc/admin_token".
Definition default_admin_username : string := "admin".
Definition default_session_ttl : Z := 86400.
Definition default_hb : Z := 20.
Definition default_ttl : Z := 90.
Definition default_backup : BackupConfig :=
  mk_backup_config true "/var/lib/tailsvc-controller/backups" 3600 48.

(** [ControllerConfig::load]: [figment] reads the file of that path and the
    variables that start with TAILSVC_; the first argument is TAILSVC_CONFIG. *)
Definition load_controller_config (path : option string)
    (figment : string → result string ControllerConfig) : result string ControllerConfig :=
  map_err (λ e, "config: " +:+ e) (figment (default "config/controller.toml" path)).

(** [blocked_names], then [allowed_suffixes]. *)
Definition name_blocked (h : string) (names : list string) : bool :=
  existsb (λ b, bool_decide (h = to_ascii_lowercase b)) names.
Definition suffix_allows (h suf : string) : bool :=
  let s := to_ascii_lowercase suf in
  bool_decide (h = trim_start_matches "."%char s) || ends_with s h.

Definition hostname_allowed (cfg : ControllerConfig) (host : string) : result string unit :=
  let h := to_ascii_lowercase host in
  let security := cfg_security cfg in
  if name_blocked h (blocked_names security) then Err ("hostname blocked by policy: " +:+ host)
  else match allowed_suffixes security with
       | [] => Ok tt
       | sufs =>
           if existsb (suffix_allows h) sufs then Ok tt
           else Err ("hostname not under allowed_suffixes: " +:+ host)
       end.

(** ** Property *)

Lemma trim_start_one (s : string) : strip_prefix "." s = None →
  trim_start_matches "."%char (String "." s) = s.
Proof.
  intros Hs. cbn [trim_start_matches]. rewrite decide_True by done.
  destruct s as [|c s]; [done|]. cbn in Hs |- *. case_decide as Hc; [|by rewrite decide_False by done].
  by subst.
Qed.

(** C33: the registration policy admits a hostname exactly when no blocked name
    is equal to it and, if there are suffixes, one of them ends it or is it
    without its leading dots, all up to ASCII case.  With a suffix written with
    one leading dot, [.d] with [d] not starting with a dot, that means the zone
    [d] and the names under it; a suffix written without the dot also admits the
    longer names that merely end with it. *)
Theorem hostname_allowed_policy cfg host :
  (hostname_allowed cfg host = Ok tt ↔
   (∀ b, b ∈ blocked_names (cfg_security cfg) → to_ascii_lowercase b ≠ to_ascii_lowercase host)
   ∧ (allowed_suffixes (cfg_security cfg) = [] ∨
      ∃ suf, suf ∈ allowed_suffixes (cfg_security cfg)
        ∧ suffix_allows (to_ascii_lowercase host) suf = true))
  ∧ (∀ d h, strip_prefix "." (to_ascii_lowercase d) = None →
      suffix_allows h ("." +:+ d) = true ↔
      h = to_ascii_lowercase d ∨ ∃ r, h = r +:+ "." +:+ to_ascii_lowercase d)
  ∧ ∀ d r, suffix_allows (r +:+ to_ascii_lowercase d) d = true.
Proof.
  split; [|split].
  - unfold hostname_allowed, name_blocked.
    destruct (existsb _ (blocked_names (cfg_security cfg))) eqn:Hb.
    + split; [done|]. intros [Hno _]. apply existsb_exists in Hb as (b & Hin & Hb). breflect.
      apply list_elem_of_In in Hin. by destruct (Hno b Hin).
    + assert (∀ b, b ∈ blocked_names (cfg_security cfg) → to_ascii_lowercase b ≠ to_ascii_lowercase host) as Hno.
      { intros b Hin Heq. apply not_true_iff_false in Hb. apply Hb, existsb_exists. exists b.
        split; [by apply list_elem_of_In | by apply bool_decide_eq_true]. }
      destruct (allowed_suffixes (cfg_security cfg)) as [|suf sufs] eqn:Hs; [by split; [split; [|left]|]|].
      rewrite <- Hs. destruct (existsb (suffix_allows _) _) eqn:Hx.
      * apply existsb_exists in Hx as (u & Hin & Hu). apply list_elem_of_In in Hin. split; [|done].
        split; [done|]. right. by exists u.
      * split; [done|]. intros [_ [?|(u & Hin & Hu)]]; [congruence|].
        apply not_true_iff_false in Hx. destruct Hx. apply existsb_exists. exists u.
        split; [by apply list_elem_of_In | done].
  - intros d h Hd. unfold suffix_allows. rewrite orb_true_iff, bool_decide_eq_true, ends_with_iff.
    change (to_ascii_lowercase ("." +:+ d)) with (String "." (to_ascii_lowercase d)).
    by rewrite trim_start_one.
  - intros d r. unfold suffix_allows. apply orb_true_iff. right. apply ends_with_iff. by exists r.
Qed.
