(* ===== verification/Backup.v ===== *)
(** * Backups ([tailsvc-controller/src/backup.rs], [Storage::backup_to_dir])

    The backup directory is a finite map from names to entries; a snapshot is the
    database it was made from.  [VACUUM INTO] writes a copy of the database to a
    file that must not exist or be empty; as in [Store], failures of the disk are
    not modelled.  An instant is in nanoseconds. *)
From S2P Require Import Prelude RustStr Net Externals Common Concrete Store Config.
From Stdlib Require Import Ascii.
#[local] Open Scope Z_scope.

(** [DateTime::format] with [%Y%m%dT%H%M%SZ]. *)
Class ChronoFormat := compact_time : Z → string.
(** The forms have one width and sort by the second they show. *)
Class ChronoFormatLaws `{ChronoFormat} : Prop := {
  compact_width t u : chrono_range t → chrono_range u → str_len (compact_time t) = str_len (compact_time u);
  compact_order t u : chrono_range t → chrono_range u →
    String.compare (compact_time t) (compact_time u) = (t / 1000000000 ?= u / 1000000000);
}.

Inductive DirEntry := Snapshot (db : Db) | PlainFile (bytes : string) | SubDir.
Abbreviation Dir := (gmap string DirEntry).

Section backup.
Context `{ChronoFormat}.

Definition backup_name (now : Z) : string := "controller-" +:+ compact_time now +:+ ".db".

Definition vacuum_into (name : string) (db : Db) (dir : Dir) : result StorageError Dir :=
  match dir !! name with
  | None | Some (PlainFile EmptyString) => Ok (<[name := Snapshot db]> dir)
  | Some _ => Err (Sqlx "output file already exists")
  end.
(** The name of the backup, in place of its path. *)
Definition backup_to_dir (now : Z) (db : Db) (dir : Dir) : result StorageError (string * Dir) :=
  let name := backup_name now in
  dir' ← vacuum_into name db dir;
  Ok (name, dir').

(** [starts_with("controller-") && ends_with(".db")] *)
Definition is_backup_name (n : string) : bool := starts_with "controller-" n && ends_with ".db" n.
(** [remove_file] fails on a directory; the failure is logged. *)
Definition remove_file (dir : Dir) (name : string) : Dir :=
  match dir !! name with Some SubDir => dir | _ => delete name dir end.
(** Sorted by the reverse of the path. *)
Definition backup_files (dir : Dir) : list string :=
  sort_by (λ a b, String.leb b a) (filter (λ n, is_backup_name n = true) (map_to_list dir).*1).
Definition prune_old_backups (keep : nat) (dir : Dir) : Dir :=
  foldl remove_file dir (drop keep (backup_files dir)).

(** One tick of the loop: nothing is pruned when the backup fails. *)
Definition backup_tick (keep : nat) (dir : Dir) (tick : Z * Db) : Dir :=
  match backup_to_dir tick.1 tick.2 dir with
  | Ok (_, dir') => if (0 <? keep)%nat then prune_old_backups keep dir' else dir'
  | Err _ => dir
  end.
(** [run_backup_loop]: without its directory the loop stays idle for ever. *)
Definition run_backup_loop (created : bool) (keep : nat) (ticks : list (Z * Db)) (dir : Dir) : Dir :=
  if created then foldl (backup_tick keep) dir ticks else dir.

(** The start of the task in [main]: whether it runs, its period in seconds and
    what it keeps. *)
Definition backup_task (c : BackupConfig) : option (Z * nat) :=
  if bk_enabled c then Some (Z.max (bk_interval_seconds c) 60, Z.to_nat (bk_keep c)) else None.

(** ** Specification *)

(** The directory with the snapshots of the given ticks in it. *)
Definition with_snapshots (dir : Dir) (l : list (Z * Db)) : Dir :=
  foldl (λ d x, <[backup_name x.1 := Snapshot x.2]> d) dir l.
Definition last_n {A} (n : nat) (l : list A) : list A := drop (length l - n) l.
(** One second or more apart. *)
Definition second_before (a b : Z * Db) : Prop := a.1 / 1000000000 < b.1 / 1000000000.
End backup.

(** ** Lemmas *)

Lemma str_compare_refl s : String.compare s s = Eq.
Proof.
  induction s as [|c s IH]; [done|]. cbn [String.compare].
  assert (Ascii.compare c c = Eq) as -> by apply N.compare_refl. exact IH.
Qed.
Lemma compare_app_l p s t : String.compare (p +:+ s) (p +:+ t) = String.compare s t.
Proof.
  induction p as [|c p IH]; [done|]. rewrite !sapp_cons. cbn [String.compare].
  assert (Ascii.compare c c = Eq) as -> by apply N.compare_refl. exact IH.
Qed.
Lemma compare_app_r s t x : str_len s = str_len t → String.compare (s +:+ x) (t +:+ x) = String.compare s t.
Proof.
  revert t. induction s as [|c s IH]; intros [|d t]; cbn [str_len]; intros Hl.
  - rewrite !sapp_nil_l. apply str_compare_refl.
  - pose proof (str_len_nonneg t). lia.
  - pose proof (str_len_nonneg s). lia.
  - rewrite !sapp_cons. cbn [String.compare]. destruct (Ascii.compare c d); [|done..]. apply IH. lia.
Qed.

Lemma StronglySorted_reverse {A} (R : relation A) l :
  StronglySorted R l → StronglySorted (flip R) (reverse l).
Proof.
  induction 1 as [|x l Hl IH Hx]; [constructor|]. rewrite reverse_cons. apply StronglySorted_app_2; [|done|].
  - intros y z Hy Hz%list_elem_of_singleton. subst z. rewrite elem_of_reverse in Hy.
    rewrite Forall_forall in Hx. by apply Hx.
  - by repeat constructor.
Qed.

Section lemmas.
Context `{ChronoFormatLaws}.
#[local] Abbreviation key x := (backup_name x.1).

Lemma backup_name_compare t u : chrono_range t → chrono_range u →
  String.compare (backup_name t) (backup_name u) = (t / 1000000000 ?= u / 1000000000).
Proof.
  intros. unfold backup_name. rewrite compare_app_l, compare_app_r by by apply compact_width.
  by apply compact_order.
Qed.
Lemma backup_name_is_backup t : is_backup_name (backup_name t) = true.
Proof.
  unfold is_backup_name, backup_name. apply andb_true_iff. split.
  - apply starts_with_iff. by eexists.
  - apply ends_with_iff. exists ("controller-" +:+ compact_time t). by rewrite sapp_assoc.
Qed.

(** In a sorted list of ticks the names are sorted and distinct. *)
Lemma second_before_name x y : chrono_range x.1 → chrono_range y.1 → second_before x y →
  String.le (key x) (key y) ∧ key x ≠ key y.
Proof.
  intros Hx Hy Hb. pose proof (backup_name_compare _ _ Hx Hy) as Hc.
  rewrite (proj2 (Z.compare_lt_iff _ _)) in Hc by done. split.
  - unfold String.le, String.leb. by rewrite Hc.
  - intros He. rewrite He, str_compare_refl in Hc. done.
Qed.
Lemma names_sorted l : Forall (λ x, chrono_range x.1) l → StronglySorted second_before l →
  StronglySorted String.le ((λ x, key x) <$> l) ∧ NoDup ((λ x, key x) <$> l).
Proof.
  intros Hr Hs. induction Hs as [|x l Hs IH Hx]; [split; constructor|].
  apply Forall_cons in Hr as [Hxr Hr]. destruct (IH Hr) as [IH1 IH2]. cbn.
  assert (Forall (λ n, String.le (key x) n ∧ key x ≠ n) ((λ x, key x) <$> l)) as Hall.
  { apply Forall_fmap. rewrite Forall_forall in *. intros y Hy. apply second_before_name; auto. }
  split; constructor; try done.
  - eapply Forall_impl; [exact Hall|]. by intros n [? _].
  - intros Hin. rewrite Forall_forall in Hall. by apply (Hall _ Hin).
Qed.

Lemma with_snapshots_insert dir k e l : k ∉ (λ x, key x) <$> l →
  with_snapshots (<[k := e]> dir) l = <[k := e]> (with_snapshots dir l).
Proof.
  revert dir. induction l as [|x l IH]; intros dir; [done|].
  rewrite fmap_cons, not_elem_of_cons. intros [Hne Hk]. cbn [with_snapshots foldl].
  unfold with_snapshots in IH. rewrite insert_insert_ne by done. by apply IH.
Qed.
Lemma with_snapshots_other dir l n : n ∉ (λ x, key x) <$> l → with_snapshots dir l !! n = dir !! n.
Proof.
  revert dir. induction l as [|x l IH]; intros dir; [done|].
  rewrite fmap_cons, not_elem_of_cons. intros [Hne Hk]. cbn [with_snapshots foldl].
  unfold with_snapshots in IH. rewrite IH by done. by rewrite lookup_insert_ne.
Qed.
Lemma with_snapshots_some dir l n : n ∈ (λ x, key x) <$> l → is_Some (with_snapshots dir l !! n).
Proof.
  induction l as [|x l IH] using rev_ind; [by intros ?%elem_of_nil|].
  unfold with_snapshots in *. rewrite fmap_app, foldl_app, elem_of_app. cbn [fmap list_fmap foldl].
  rewrite list_elem_of_singleton. intros [Hl| ->]; [|by rewrite lookup_insert_eq].
  rewrite lookup_insert. case_decide; [done | auto].
Qed.

(** The backups of such a directory, newest first. *)
Lemma backup_files_snapshots dir l : (∀ n, is_backup_name n = true → dir !! n = None) →
  Forall (λ x, chrono_range x.1) l → StronglySorted second_before l →
  backup_files (with_snapshots dir l) = reverse ((λ x, key x) <$> l).
Proof.
  intros Hdir Hr Hs. destruct (names_sorted l Hr Hs) as [Hsort Hnd].
  assert (AntiSymm (=) (flip String.le)) by (intros a b ??; by apply (anti_symm String.le)).
  apply (sort_by_unique (flip String.le)).
  - intros a b. unfold flip, String.le. destruct (String.leb b a) eqn:Hba; [done|].
    destruct (String.leb_total a b) as [Hab|?]; [by rewrite Hab | congruence].
  - rewrite reverse_Permutation. apply NoDup_Permutation; [|done|].
    { apply NoDup_filter, NoDup_fst_map_to_list. }
    intros n. rewrite list_elem_of_filter, list_elem_of_fmap. split.
    + intros [Hb ([k e] & -> & Hin%elem_of_map_to_list)]. cbn [fst] in *.
      destruct (decide (k ∈ (λ x, key x) <$> l)) as [?|Hn]; [done|].
      by rewrite with_snapshots_other, Hdir in Hin.
    + intros Hn. destruct (with_snapshots_some dir l n Hn) as [e He]. split.
      * apply list_elem_of_fmap in Hn as (x & -> & _). apply backup_name_is_backup.
      * exists (n, e). by rewrite elem_of_map_to_list.
  - by apply StronglySorted_reverse.
Qed.
End lemmas.

(** ** Property *)

Section property.
Context `{ChronoFormatLaws}.
#[local] Abbreviation key x := (backup_name x.1).

(** A tick that comes after those whose snapshots are there. *)
Lemma fresh_tick dir l x : (∀ n, is_backup_name n = true → dir !! n = None) →
  Forall (λ y, chrono_range y.1) (l ++ [x]) → StronglySorted second_before (l ++ [x]) →
  backup_to_dir x.1 x.2 (with_snapshots dir l) = Ok (key x, with_snapshots dir (l ++ [x])).
Proof.
  intros Hdir Hr Hs. destruct (names_sorted _ Hr Hs) as [_ Hnd].
  rewrite fmap_app in Hnd. apply NoDup_app in Hnd as (_ & Hnd & _).
  unfold backup_to_dir, vacuum_into. rewrite with_snapshots_other, Hdir.
  - unfold with_snapshots at 2. by rewrite foldl_app.
  - apply backup_name_is_backup.
  - intros Hin. apply (Hnd _ Hin). by left.
Qed.

(** Pruning takes the oldest snapshots away. *)
Lemma prune_snapshots keep dir l : (∀ n, is_backup_name n = true → dir !! n = None) →
  Forall (λ y, chrono_range y.1) l → StronglySorted second_before l → (length l <= S keep)%nat →
  prune_old_backups keep (with_snapshots dir l) = with_snapshots dir (last_n keep l).
Proof.
  intros Hdir Hr Hs Hlen. unfold prune_old_backups. rewrite backup_files_snapshots by done.
  unfold last_n. destruct (decide (length l <= keep)%nat) as [Hle|Hgt].
  { rewrite drop_ge by (by rewrite length_reverse, length_fmap).
    by replace (length l - keep)%nat with 0%nat by lia. }
  destruct l as [|x l]; [cbn in Hgt; lia|]. cbn [length] in *.
  replace (S (length l) - keep)%nat with 1%nat by lia. rewrite fmap_cons, reverse_cons.
  rewrite drop_app_length' by (rewrite length_reverse, length_fmap; lia). cbn [foldl drop skipn].
  destruct (names_sorted _ Hr Hs) as [_ Hnd]. rewrite fmap_cons in Hnd. apply NoDup_cons in Hnd as [Hnin _].
  change (with_snapshots dir (x :: l)) with (with_snapshots (<[key x := Snapshot x.2]> dir) l).
  rewrite with_snapshots_insert by done. unfold remove_file. rewrite lookup_insert_eq.
  apply delete_insert_id. rewrite with_snapshots_other by done. apply Hdir, backup_name_is_backup.
Qed.

Lemma last_n_snoc {A} keep (l : list A) x : (0 < keep)%nat →
  last_n keep (last_n keep l ++ [x]) = last_n keep (l ++ [x]).
Proof.
  intros Hk. unfold last_n. rewrite !length_app, length_drop. cbn [length].
  destruct (decide (length l <= keep)%nat) as [Hle|Hgt].
  - replace (length l - keep)%nat with 0%nat by lia. rewrite drop_0. do 2 f_equal. lia.
  - rewrite !drop_app_le by (rewrite ?length_drop; lia). rewrite drop_drop. do 2 f_equal. lia.
Qed.
Lemma last_n_length {A} keep (l : list A) : (length (last_n keep l) <= keep)%nat.
Proof. unfold last_n. rewrite length_drop. lia. Qed.

End property.

(** ** Witness: three ticks a minute apart, two backups kept. *)
Section witness.
Definition bits_format : ChronoFormat := λ t, bits 68 (t / 1000000000).
#[local] Existing Instance bits_format.
Lemma bits_format_laws : ChronoFormatLaws.
Proof.
  assert (∀ t, chrono_range t → 0 <= t / 1000000000 < 2 ^ Z.of_nat 68) as Hr.
  { intros t [Ht1 Ht2]. split; [apply Z.div_pos; lia|]. change (2 ^ Z.of_nat 68) with 295147905179352825856.
    apply Z.div_lt_upper_bound; lia. }
  split; intros t u Ht%Hr Hu%Hr; unfold compact_time, bits_format.
  - by rewrite !str_len_bits.
  - by apply bits_compare.
Qed.
#[local] Existing Instance bits_format_laws.

#[local] Definition some_dir : Dir := {["notes.txt" := PlainFile "x"; "controller-old.txt" := SubDir]}.
#[local] Definition minute (n : Z) : Z := n * 60000000000.
#[local] Definition named_db (s : string) : Db := set_audit [mk_audit_row s EmptyString EmptyString] empty_db.
#[local] Definition three_ticks : list (Z * Db) :=
  [(minute 1, named_db "one"); (minute 2, named_db "two"); (minute 3, named_db "three")].

Lemma some_dir_clear n : is_backup_name n = true → some_dir !! n = None.
Proof.
  intros Hn. unfold some_dir. destruct (decide (n = "notes.txt")) as [->|H1]; [by vm_compute in Hn|].
  destruct (decide (n = "controller-old.txt")) as [->|H2]; [by vm_compute in Hn|].
  by rewrite lookup_insert_ne, lookup_singleton_ne.
Qed.
End witness.
