(* ===== verification/Registry.v ===== *)
(** * The table of the DNS server ([tailsvc-dns/src/registry.rs])

    An atomically swapped map from lower-case hostnames to addresses; every read
    sees one whole map, here the value. *)
From S2P Require Import Prelude RustStr Net.
From Stdlib Require Import Ascii.

Definition DnsRegistry : Type := gmap string Ipv4Addr.

Definition new_registry : DnsRegistry := ∅.
Definition replace (routes : gmap string Ipv4Addr) (r : DnsRegistry) : DnsRegistry := routes.
Definition lookup_a (r : DnsRegistry) (hostname : string) : option Ipv4Addr :=
  let key := to_ascii_lowercase (trim_end_matches "."%char hostname) in
  r !! key.
Definition contains (r : DnsRegistry) (hostname : string) : bool :=
  bool_decide (is_Some (lookup_a r hostname)).
Definition snapshot (r : DnsRegistry) : gmap string Ipv4Addr := r.
