(* ===== verification/Probe.v ===== *)
(** * The HTTP probe of a route ([tailsvc-controller/src/probe.rs])

    The socket is its answers: what connecting, writing and reading returned,
    and the elapsed milliseconds at each return. *)
From S2P Require Import Prelude RustStr Net.
From Stdlib Require Import Ascii.
#[local] Open Scope Z_scope.

Record ProbeResult := mk_probe { pb_status : string; pb_ms : option Z; pb_detail : option string }.

(** [tokio::time::timeout] around an I/O call. *)
Inductive Timed (A : Type) := Done (a : A) | Failed (e : string) | TimedOut.
Arguments Done {A} a.
Arguments Failed {A} e.
Arguments TimedOut {A}.

Record ProbeIo := mk_probe_io {
  io_connect : Timed unit; io_connect_ms : Z;
  io_write : result string unit; io_write_ms : Z;
  (** the bytes read into the buffer of 256 *)
  io_read : Timed string; io_read_ms : Z;
}.

Definition crlf : string := String cr (String lf EmptyString).
Definition probe_addr (agent_ip : string) : string := agent_ip +:+ ":80".
Definition probe_request (hostname : string) : string :=
  "GET / HTTP/1.1" +:+ crlf +:+ "Host: " +:+ hostname +:+ crlf +:+ "Connection: close" +:+ crlf
  +:+ "User-Agent: tailsvc-admin-probe" +:+ crlf +:+ crlf.

(** The verdict on the bytes of an answer. *)
Definition probe_verdict (buf : string) (ms : Z) : ProbeResult :=
  let head := from_utf8_lossy buf in
  let line := trim (first_line head) in
  let bad := mk_probe "fail" (Some ms) (Some ("bad status line: " +:+ line)) in
  if starts_with "HTTP/1." line then
    let code := default EmptyString (split_whitespace line !! 1%nat) in
    let ok := starts_with "2" code || starts_with "3" code || starts_with "4" code in
    if starts_with "5" code then mk_probe "fail" (Some ms) (Some line)
    else if ok || negb (str_is_empty code) then mk_probe "ok" (Some ms) (Some line)
    else bad
  else bad.

(** [io addr request]: what the network answers. *)
Definition probe_via_agent (io : string → string → ProbeIo) (agent_ip hostname : string)
    (timeout_ms : Z) : ProbeResult :=
  let x := io (probe_addr agent_ip) (probe_request hostname) in
  match io_connect x with
  | Failed e => mk_probe "fail" (Some (io_connect_ms x)) (Some ("connect: " +:+ e))
  | TimedOut => mk_probe "timeout" (Some timeout_ms) (Some "connect timeout")
  | Done _ =>
      match io_write x with
      | Err e => mk_probe "fail" (Some (io_write_ms x)) (Some ("write: " +:+ e))
      | Ok _ =>
          match io_read x with
          | Failed e => mk_probe "fail" (Some (io_read_ms x)) (Some ("read: " +:+ e))
          | TimedOut => mk_probe "timeout" (Some timeout_ms) (Some "read timeout")
          | Done buf =>
              if str_is_empty buf then mk_probe "fail" (Some (io_read_ms x)) (Some "empty response")
              else probe_verdict buf (io_read_ms x)
          end
      end
  end.
