(* ===== verification/State.v ===== *)
(** * The controller's shared state ([tailsvc-controller/src/state.rs])

    One record behind an [Arc]: the storage, the DNS table, the configuration,
    the admin credentials, the sessions and the flag of the DNS listener. *)
From S2P Require Import Prelude RustStr Net Externals Common Store Config Registry Sessions.
#[local] Open Scope Z_scope.

Record AppState := mk_state {
  storage : Storage;
  registry : DnsRegistry;
  cfg : ControllerConfig;
  admin_password : string;
  admin_username : string;
  sessions : SessionStore;
  dns_up : bool;
}.

Definition set_storage (x : Storage) (st : AppState) : AppState :=
  mk_state x (registry st) (cfg st) (admin_password st) (admin_username st) (sessions st) (dns_up st).
Definition set_registry (x : DnsRegistry) (st : AppState) : AppState :=
  mk_state (storage st) x (cfg st) (admin_password st) (admin_username st) (sessions st) (dns_up st).
Definition set_sessions (x : SessionStore) (st : AppState) : AppState :=
  mk_state (storage st) (registry st) (cfg st) (admin_password st) (admin_username st) x (dns_up st).
Definition set_dns_up (x : bool) (st : AppState) : AppState :=
  mk_state (storage st) (registry st) (cfg st) (admin_password st) (admin_username st) (sessions st) x.
Definition db_of (st : AppState) : Db := pool (storage st).
Definition set_db (db : Db) (st : AppState) : AppState :=
  set_storage (mk_storage db (agent_ttl (storage st)) (sqlite_path (storage st))) st.

(** [read path]: the bytes of the file or the error; [dev_defaults]: the cargo
    feature that allows a missing file. *)
Definition load_admin_password (dev_defaults : bool) (read : string → result string string)
    (cfg : ControllerConfig) : result string string :=
  let path := default (api_admin_token_file (cfg_api cfg)) (api_admin_password_file (cfg_api cfg)) in
  match read path with
  | Ok bytes =>
      let s := from_utf8_lossy bytes in
      let t := trim s in
      if str_is_empty t then Err ("admin password file " +:+ path +:+ " is empty") else Ok t
  | Err _ =>
      if dev_defaults then Ok "dev-admin-token"
      else Err ("admin password file " +:+ path +:+ " required (or admin_token_file for compatibility)")
  end.

(** [AppState::new] *)
Definition new_state (dev_defaults : bool) (read : string → result string string)
    (storage : Storage) (registry : DnsRegistry) (cfg : ControllerConfig) : result string AppState :=
  admin_password ← load_admin_password dev_defaults read cfg;
  let admin_username := api_admin_username (cfg_api cfg) in
  let ttl := Z.max (api_session_ttl_seconds (cfg_api cfg)) 300 * 1000000000 in
  Ok (mk_state storage registry cfg admin_password admin_username (new_sessions ttl) false).

(** [t], [t']: the clock readings of the session test. *)
Definition admin_authorized (bearer : string) (t t' : Z) (st : AppState) : bool * AppState :=
  let '(b, ss) := valid bearer t t' (sessions st) in
  (if b then true else constant_time_eq (admin_password st) bearer, set_sessions ss st).

Definition verify_password (username password : string) (st : AppState) : bool :=
  if negb (constant_time_eq (admin_username st) username) then false
  else constant_time_eq (admin_password st) password.
