(* ===== verification/Controller.v ===== *)
(** * The controller's API ([tailsvc-controller/src/api.rs], [lib.rs], [main.rs])

    A handler is a computation on the shared state that fails with the error
    axum answers.  Handlers run concurrently in the program; here each runs to
    its end, and the interleavings that matter are those of the storage's
    statements ([StoreInv]).  [Router] maps requests to the handlers.  A handler is
    given the clock readings and random bytes it uses.  [Panicked] is the 500 of the panic layer: the only panic of
    a handler is that of [Duration::seconds] on an absurd lease. *)
From S2P Require Import Prelude RustStr Net Externals Common Hostname Store Config Registry Sessions State.
From S2P Require Import Probe.
From Stdlib Require Import Ascii.
#[local] Open Scope Z_scope.

Inductive ApiError :=
| Unauthorized
| Forbidden (msg : string)
| ApiStorage (e : StorageError).
Inductive Failure := Refused (e : ApiError) | Panicked.

(** The status code and body of [into_response]. *)
Definition api_error_response (f : Failure) : Z * string :=
  match f with
  | Refused Unauthorized => (401, "unauthorized")
  | Refused (Forbidden msg) => (403, msg)
  | Refused (ApiStorage _) => (500, "storage error")
  | Panicked => (500, "Service panicked")
  end.

Abbreviation HandlerM := (SE AppState Failure).

(** An operation of the storage, its error mapped by [f]. *)
Definition storage_op {A} (f : StorageError → ApiError) (m : SE Db StorageError A) : HandlerM A :=
  se_map_err (Refused ∘ f) (zoom db_of set_db m).
Definition refuse {A} (e : ApiError) : HandlerM A := throw (Refused e).
Definition or_refuse {E A} (f : E → ApiError) (m : result E A) : HandlerM A :=
  lift (map_err (Refused ∘ f) m).

(** [ChronoDuration::seconds(st.cfg.leases.agent_ttl_seconds as i64)] *)
Definition lease_ttl : HandlerM Z := λ st,
  (ok_or (duration_seconds (as_i64 (agent_ttl_seconds (cfg_leases (cfg st))))) Panicked, st).

(** ** The DNS table *)

Definition registry_map (routes : list DnsRoute) : gmap string Ipv4Addr :=
  collect_map (omap (λ r, ip ← parse_ipv4 (dr_tailscale_ipv4 r); Some (dr_hostname r, ip)) routes).

Section api.
Context `{Argon2} `{Base64} `{Chrono} `{HeaderCrate} `{UrlCrate} `{Idna}.
Context `{SerdeJson (list string)} `{SerdeJson (list DiscoveredContainerDto)}.

(** A refresh reads the storage, then swaps the table; other requests may run
    between the two. *)
Definition refresh_read (now : Z) : HandlerM (list DnsRoute) :=
  ttl ← lease_ttl;
  storage_op ApiStorage (active_dns_routes ttl now).
Definition refresh_swap (routes : list DnsRoute) : HandlerM unit :=
  modify (λ st, set_registry (replace (registry_map routes) (registry st)) st).
Definition refresh_dns (now : Z) : HandlerM unit :=
  routes ← refresh_read now;
  refresh_swap routes.

(** ** Plain pages *)

Definition root (headers : HeaderMap) : Z * string :=
  let accept := default EmptyString (hm_get "accept" headers ≫= hv_to_str) in
  if contains_str "text/html" accept then (307, "/admin/")
  else (200, "tailsvc-controller" +:+ String lf EmptyString).
Definition health : string := "ok".
Definition ready (now : Z) : SE AppState Z string :=
  _ ← se_map_err (λ _, 503) (zoom db_of set_db (list_agents now));
  st ← get;
  if negb (dns_up st) then throw 503 else mret "ready".

(** ** Authentication *)

Definition bearer_token (headers : HeaderMap) : option string :=
  v ← hm_get "authorization" headers;
  s ← hv_to_str v;
  strip_prefix "Bearer " s.

(** The guard of every agent endpoint. *)
Definition check_agent (agent_id : string) (headers : HeaderMap) : HandlerM unit :=
  token ← lift (ok_or (bearer_token headers) (Refused Unauthorized));
  storage_op (λ _, Unauthorized) (verify_agent_token agent_id token).

Definition check_bearer (token : string) (t t' : Z) : HandlerM unit := λ st,
  let '(b, st') := admin_authorized token t t' st in
  (if b then Ok tt else Err (Refused Unauthorized), st').
Definition check_admin (headers : HeaderMap) (t t' : Z) : HandlerM unit :=
  token ← lift (ok_or (bearer_token headers) (Refused Unauthorized));
  check_bearer token t t'.

(** ** Agent endpoints *)

Definition enroll (headers : HeaderMap) (body : EnrollRequest) (id_buf token_buf : list Z)
    (salt : string) (t_consume t_enroll : Z) : HandlerM EnrollResponse :=
  token ← lift (ok_or (bearer_token headers) (Refused Unauthorized));
  _ ← storage_op (λ _, Unauthorized) (consume_enrollment_token token t_consume);
  creds ← storage_op ApiStorage
    (enroll_agent (er_display_name body) (er_tailscale_ipv4 body) (er_docker_engine_id body)
       id_buf token_buf salt t_enroll);
  leases ← gets (λ st, cfg_leases (cfg st));
  mret {| en_agent_id := creds.1; en_agent_token := creds.2;
          en_heartbeat_interval_seconds := heartbeat_interval_seconds leases;
          en_lease_ttl_seconds := agent_ttl_seconds leases |}.

Definition heartbeat (agent_id : string) (headers : HeaderMap) (body : HeartbeatRequest)
    (t_beat t_dns : Z) : HandlerM Z :=
  _ ← check_agent agent_id headers;
  _ ← storage_op ApiStorage (Store.heartbeat agent_id (hr_tailscale_ipv4 body) t_beat);
  _ ← refresh_dns t_dns;
  mret 204.

Definition put_routes (agent_id : string) (headers : HeaderMap) (body : PutRoutesRequest)
    (t_get : Z) (clk : nat → EntryClock) (t_dns : Z) : HandlerM PutRoutesResponse :=
  _ ← check_agent agent_id headers;
  c ← gets cfg;
  _ ← lift (for_each (λ r, map_err (Refused ∘ Forbidden) (hostname_allowed c (re_hostname r)))
              (pr_routes body));
  ttl ← lease_ttl;
  out ← storage_op ApiStorage (Store.put_routes agent_id (pr_routes body) ttl t_get clk);
  _ ← refresh_dns t_dns;
  mret {| ps_accepted := accepted out; ps_conflicts := conflicts out |}.

Definition put_discovery (agent_id : string) (headers : HeaderMap) (body : DiscoveryReportRequest)
    (now : Z) : HandlerM Z :=
  _ ← check_agent agent_id headers;
  payload ← or_refuse (λ e, Forbidden ("serialize discovery: " +:+ e)) (to_json (dr_services body));
  _ ← storage_op ApiStorage (put_discovery_snapshot agent_id payload now);
  mret 204.

Definition desired_of (r : EnabledServiceRecord) : DesiredEnabledService :=
  let hostnames : list string := default [] (ok (from_json (ev_hostnames_json r))) in
  mk_desired (ev_id r) (ev_identity_key r) hostnames (ev_backend r) (ev_container_name r).
Definition desired_services (agent_id : string) (headers : HeaderMap)
    : HandlerM DesiredServicesResponse :=
  _ ← check_agent agent_id headers;
  rows ← storage_op ApiStorage (list_enabled_for_agent agent_id);
  mret {| ds_services := desired_of <$> rows |}.

(** ** Admin endpoints: discovery and click-to-enable *)

Definition discovery_item (agent_meta : gmap string AgentRecord)
    (enabled_by_key : gmap (string * string) EnabledServiceRecord)
    (agent_id updated_at : string) (s : DiscoveredContainerDto) : AdminDiscoveryItem :=
  let meta := agent_meta !! agent_id in
  let off := (false, None, [], None) in
  let '(enabled_flag, enabled_id, hostnames, backend) :=
    match enabled_by_key !! (agent_id, dc_identity_key s) with
    | Some e =>
        if ev_enabled e
        then (true, Some (ev_id e), default [] (ok (from_json (ev_hostnames_json e))), Some (ev_backend e))
        else off
    | None => off
    end in
  {| di_agent_id := agent_id;
     di_agent_name := default agent_id (ar_display_name <$> meta);
     di_tailscale_ipv4 := default EmptyString (ar_tailscale_ipv4 <$> meta);
     di_identity_key := dc_identity_key s; di_container_id := dc_container_id s;
     di_container_name := dc_container_name s; di_image := dc_image s;
     di_suggested_backend := dc_suggested_backend s; di_published_ports := dc_published_ports s;
     di_exposed_ports := dc_exposed_ports s; di_has_tailsvc_labels := dc_has_tailsvc_labels s;
     di_enabled := enabled_flag; di_enabled_id := enabled_id; di_hostnames := hostnames;
     di_backend := backend; di_discovery_updated_at := Some updated_at |}.

(** The order of the answer: by agent name, then container name. *)
Definition item_le (a b : AdminDiscoveryItem) : bool :=
  match String.compare (di_agent_name a) (di_agent_name b) with
  | Lt => true
  | Gt => false
  | Eq => String.leb (di_container_name a) (di_container_name b)
  end.

Definition admin_discovery (headers : HeaderMap) (t t' now : Z) : HandlerM (list AdminDiscoveryItem) :=
  _ ← check_admin headers t t';
  agents ← storage_op ApiStorage (list_agents now);
  enabled ← storage_op ApiStorage list_all_enabled;
  snaps ← storage_op ApiStorage list_discovery_snapshots;
  let agent_meta := collect_map ((λ a, (ar_agent_id a, a)) <$> agents) in
  let enabled_by_key := collect_map ((λ e, ((ev_agent_id e, ev_identity_key e), e)) <$> enabled) in
  let out := snaps ≫= λ '(agent_id, payload, updated_at),
    discovery_item agent_meta enabled_by_key agent_id updated_at
      <$> default [] (ok (from_json payload)) in
  mret (sort_by item_le out).

(** One turn of the loop over the requested hostnames. *)
Definition enable_host (c : ControllerConfig) (h : string) : result ApiError string :=
  n ← map_err (Forbidden ∘ error_to_string) (normalize_hostname h);
  _ ← map_err Forbidden (hostname_allowed c n);
  Ok n.

Definition admin_enable_service (headers : HeaderMap) (body : EnableServiceRequest)
    (id_buf : list Z) (t t' now t_audit : Z) : HandlerM EnableServiceResponse :=
  _ ← check_admin headers t t';
  if bool_decide (es_hostnames body = []) then refuse (Forbidden "at least one hostname required")
  else
    c ← gets cfg;
    hosts ← or_refuse id (try_map (enable_host c) (es_hostnames body));
    backend ← or_refuse (Forbidden ∘ error_to_string) (parse_backend_url (es_backend body));
    let backend_url := "http://" +:+ authority backend in
    let id_ := "en_" +:+ remove_chars (λ c, bool_decide (c = "+"%char) || bool_decide (c = "/"%char)
      || bool_decide (c = "="%char)) (generate_token id_buf) in
    hostnames_json ← or_refuse Forbidden (to_json hosts);
    _ ← storage_op ApiStorage (upsert_enabled_service id_ (es_agent_id body) (es_identity_key body)
          (es_container_name body) hostnames_json backend_url now);
    _ ← ignore (storage_op ApiStorage
          (audit "service_enable" (es_identity_key body +:+ " -> " +:+ join "," hosts) t_audit));
    all ← storage_op ApiStorage (list_enabled_for_agent (es_agent_id body));
    let final_id := match list_find (λ e, ev_identity_key e = es_identity_key body) all with
                    | Some (_, e) => ev_id e
                    | None => id_
                    end in
    mret {| ex_id := final_id |}.

Definition admin_disable_service (id_ : string) (headers : HeaderMap) (t t' now t_audit : Z)
    : HandlerM Z :=
  _ ← check_admin headers t t';
  _ ← storage_op ApiStorage (set_enabled_service id_ false now);
  _ ← ignore (storage_op ApiStorage (audit "service_disable" id_ t_audit));
  mret 204.

(** ** Admin endpoints: sessions *)

Record LoginRequest := { lr_username : string; lr_password : string }.
Record LoginResponse := { lo_token : string; lo_token_type : string; lo_expires_in_seconds : Z }.

Definition admin_login (body : LoginRequest) (buf : list Z) (t_exp t : Z) : HandlerM LoginResponse :=
  st ← get;
  if negb (verify_password (lr_username body) (lr_password body) st) then refuse Unauthorized
  else
    let '(token, ss) := create buf t_exp t (sessions st) in
    _ ← modify (set_sessions ss);
    mret {| lo_token := token; lo_token_type := "Bearer";
            lo_expires_in_seconds := api_session_ttl_seconds (cfg_api (cfg st)) |}.

Definition admin_logout (headers : HeaderMap) : HandlerM Z :=
  match bearer_token headers with
  | Some token => _ ← modify (λ st, set_sessions (revoke token (sessions st)) st); mret 204
  | None => mret 204
  end.

(** ** Admin endpoints: agents and routes *)

Definition agent_view (ttl now : Z) (a : AgentRecord) : AdminAgentView :=
  let status := match ar_last_seen_at a with
                | Some ls => if now - ls <? ttl then "healthy" else "stale"
                | None => "stale"
                end in
  {| av_agent_id := ar_agent_id a; av_display_name := ar_display_name a;
     av_tailscale_ipv4 := ar_tailscale_ipv4 a; av_docker_engine_id := ar_docker_engine_id a;
     av_created_at := ar_created_at a; av_last_seen_at := ar_last_seen_at a; av_status := status |}.

Definition admin_agents (headers : HeaderMap) (t t' t_list now : Z) : HandlerM (list AdminAgentView) :=
  _ ← check_admin headers t t';
  agents ← storage_op ApiStorage (list_agents t_list);
  ttl ← lease_ttl;
  mret (agent_view ttl now <$> agents).

Definition ip_by_agent (agents : list AgentRecord) : gmap string string :=
  collect_map ((λ a, (ar_agent_id a, ar_tailscale_ipv4 a)) <$> agents).

Definition admin_routes (headers : HeaderMap) (t t' now t_list : Z) : HandlerM (list AdminRouteView) :=
  _ ← check_admin headers t t';
  ttl ← lease_ttl;
  rows ← storage_op ApiStorage (list_routes_admin ttl now);
  agents ← storage_op ApiStorage (list_agents t_list);
  let ips := ip_by_agent agents in
  mret ((λ r, {| rv_hostname := am_hostname r; rv_agent_id := am_agent_id r;
                 rv_tailscale_ipv4 := default EmptyString (ips !! am_agent_id r);
                 rv_backend := am_backend r; rv_container_id := am_container_id r;
                 rv_container_name := am_container_name r; rv_lease_expires_at := am_lease r |})
        <$> rows).

Definition route_health (io : string → string → ProbeIo) (ips : gmap string string) (now : Z)
    (r : AdminRoute) : AdminRouteHealthView :=
  let ts_ip := default EmptyString (ips !! am_agent_id r) in
  let p := if str_is_empty ts_ip then mk_probe "skipped" None (Some "no agent ip")
           else probe_via_agent io ts_ip (am_hostname r) 1500 in
  {| rh_hostname := am_hostname r; rh_agent_id := am_agent_id r; rh_tailscale_ipv4 := ts_ip;
     rh_backend := am_backend r; rh_container_id := am_container_id r;
     rh_container_name := am_container_name r; rh_lease_expires_at := am_lease r;
     rh_registration := if now <? am_lease r then "healthy" else "stale";
     rh_http_probe := pb_status p; rh_probe_ms := pb_ms p; rh_probe_detail := pb_detail p |}.

(** The probes of one request; the network is read once per route. *)
Definition admin_dashboard (headers : HeaderMap) (io : string → string → ProbeIo)
    (t t' now t_list t_routes : Z) : HandlerM AdminDashboard :=
  _ ← check_admin headers t t';
  ttl ← lease_ttl;
  agents_raw ← storage_op ApiStorage (list_agents t_list);
  rows ← storage_op ApiStorage (list_routes_admin ttl t_routes);
  mret {| ad_routes := route_health io (ip_by_agent agents_raw) now <$> rows;
          ad_agents := agent_view ttl now <$> agents_raw |}.

Definition admin_delete_route (hostname : string) (headers : HeaderMap) (t t' t_dns : Z) : HandlerM Z :=
  _ ← check_admin headers t t';
  _ ← storage_op ApiStorage (delete_route hostname);
  _ ← refresh_dns t_dns;
  mret 204.

Definition admin_create_enrollment_token (headers : HeaderMap) (buf : list Z) (salt : string)
    (t t' now : Z) : HandlerM CreateEnrollmentTokenResponse :=
  _ ← check_admin headers t t';
  rec ← storage_op ApiStorage (create_enrollment_token buf salt now);
  mret {| ce_token := token_plain rec; ce_expires_at := None |}.

Definition admin_revoke_agent (agent_id : string) (headers : HeaderMap) (t t' now t_dns : Z)
    : HandlerM Z :=
  _ ← check_admin headers t t';
  _ ← storage_op ApiStorage (revoke_agent agent_id now);
  _ ← refresh_dns t_dns;
  mret 204.

(** ** The process ([main.rs]) *)

(** One tick of the cleanup task; errors are only logged. *)
Definition cleanup_tick (ttl t_purge t_dns : Z) : HandlerM unit :=
  _ ← ignore (storage_op ApiStorage (purge_expired_agents ttl t_purge));
  ignore (refresh_dns t_dns).

(** Startup, up to the first refresh of the DNS table. *)
Definition boot (dev_defaults : bool) (read : string → result string string) (db : Db)
    (c : ControllerConfig) (now : Z) : option (result string AppState) :=
  storage ← connect db (st_sqlite_path (cfg_storage c)) (agent_ttl_seconds (cfg_leases c));
  Some (st ← new_state dev_defaults read storage new_registry c;
        Ok (ignore (F := Failure) (refresh_dns now) st).2).

(** The task that keeps the DNS server running; the backoff is in seconds. *)
Inductive DnsTask :=
| Starting (backoff : Z)
| Serving
| Sleeping (backoff : Z).
Inductive DnsEvent := NewOk | NewErr | RunEnded | Slept.
Definition dns_task_step (e : DnsEvent) (s : DnsTask * bool) : option (DnsTask * bool) :=
  match e, s with
  | NewOk, (Starting _, _) => Some (Serving, true)
  | NewErr, (Starting b, _) => Some (Sleeping b, false)
  | RunEnded, (Serving, _) => Some (Sleeping 1, false)
  | Slept, (Sleeping b, up) => Some (Starting (Z.min (b * 2) 60), up)
  | _, _ => None
  end.
End api.
