(* ===== verification/Router.v ===== *)
(** * The controller's HTTP surface ([router] of [tailsvc-controller/src/api.rs])

    A request is dispatched by its path and method to one endpoint, its capture
    and body are extracted, and the handler of [Controller] runs on the state.
    Matching a path against a pattern, decoding a capture and reading the
    content type are axum's, so they are parameters; bodies are decoded by
    [serde_json].  Extraction fails before the handler runs. *)
From S2P Require Import Prelude RustStr Net Externals Common Store Config Registry Sessions.
From S2P Require Import State Probe Controller.
From Stdlib Require Import Ascii.
#[local] Open Scope Z_scope.

Class Axum `{HeaderCrate} := {
  (** pattern and path: no match, a capture that does not decode, or the capture
      (empty for a pattern without one) *)
  match_path : string → string → option (option string);
  (** whether the headers announce a JSON body *)
  json_type : HeaderMap → bool;
}.

(** Matching by segments: a segment in braces captures one that is not empty. *)
Fixpoint match_segments (ps ss : list string) : option (option string) :=
  match ps, ss with
  | [], [] => Some (Some EmptyString)
  | p :: ps', s :: ss' =>
      if starts_with "{" p then
        if decide (s = EmptyString) then None else (λ _, Some s) <$> match_segments ps' ss'
      else if decide (p = s) then match_segments ps' ss' else None
  | _, _ => None
  end.
(** What axum documents, for patterns with one capture: a path without escapes
    matches by its segments, and [application/json] announces JSON. *)
Class AxumLaws `{Axum} : Prop := {
  match_path_segments p s : sall (λ c, negb (bool_decide (c = "%"%char))) s = true →
    match_path p s = match_segments (split "/"%char p) (split "/"%char s);
  json_type_announced hs : hm_get "content-type" hs = Some "application/json" → json_type hs = true;
}.

(** The endpoints, with what their path captures. *)
Inductive Endpoint :=
| EHealth | EReady | ERoot | EAdminUi
| ELogin | ELogout | EEnroll
| EHeartbeat (agent_id : string) | EPutRoutes (agent_id : string)
| EPutDiscovery (agent_id : string) | EDesired (agent_id : string)
| EDiscovery | EEnable | EDisable (id : string)
| EAgents | ERoutes | EDashboard | EDeleteRoute (hostname : string)
| ECreateToken | ERevoke (agent_id : string).

Definition router : list (string * string * (string → Endpoint)) :=
  [ ("/health", "GET", λ _, EHealth);
    ("/ready", "GET", λ _, EReady);
    ("/", "GET", λ _, ERoot);
    ("/admin", "GET", λ _, EAdminUi);
    ("/admin/", "GET", λ _, EAdminUi);
    ("/v1/admin/login", "POST", λ _, ELogin);
    ("/v1/admin/logout", "POST", λ _, ELogout);
    ("/v1/agents/enroll", "POST", λ _, EEnroll);
    ("/v1/agents/{agent_id}/heartbeat", "POST", EHeartbeat);
    ("/v1/agents/{agent_id}/routes", "PUT", EPutRoutes);
    ("/v1/agents/{agent_id}/discovery", "PUT", EPutDiscovery);
    ("/v1/agents/{agent_id}/desired-services", "GET", EDesired);
    ("/v1/admin/discovery", "GET", λ _, EDiscovery);
    ("/v1/admin/services/enable", "POST", λ _, EEnable);
    ("/v1/admin/services/{id}/disable", "POST", EDisable);
    ("/v1/admin/agents", "GET", λ _, EAgents);
    ("/v1/admin/routes", "GET", λ _, ERoutes);
    ("/v1/admin/dashboard", "GET", λ _, EDashboard);
    ("/v1/admin/routes/{hostname}", "DELETE", EDeleteRoute);
    ("/v1/admin/enrollment-tokens", "POST", λ _, ECreateToken);
    ("/v1/admin/agents/{agent_id}", "DELETE", ERevoke) ].

(** [get] also answers HEAD. *)
Definition accepts (route_method method : string) : bool :=
  bool_decide (method = route_method)
  || bool_decide (route_method = "GET") && bool_decide (method = "HEAD").

Section router.
Context `{Argon2} `{Base64} `{Chrono} `{Axum} `{UrlCrate} `{Idna}.
Context `{SerdeJson (list string)} `{SerdeJson (list DiscoveredContainerDto)}.
Context `{SerdeJson EnrollRequest} `{SerdeJson HeartbeatRequest} `{SerdeJson PutRoutesRequest}.
Context `{SerdeJson DiscoveryReportRequest} `{SerdeJson EnableServiceRequest} `{SerdeJson LoginRequest}.

Inductive Dispatch :=
| NoRoute
| BadMethod
| BadCapture
| Found (e : Endpoint).
Fixpoint dispatch_in (routes : list (string * string * (string → Endpoint))) (method path : string)
    : Dispatch :=
  match routes with
  | [] => NoRoute
  | (pattern, m, e) :: routes' =>
      match match_path pattern path with
      | None => dispatch_in routes' method path
      | Some capture =>
          if accepts m method then
            match capture with Some c => Found (e c) | None => BadCapture end
          else BadMethod
      end
  end.
Definition dispatch : string → string → Dispatch := dispatch_in router.

Record HttpRequest := mk_http {
  hq_method : string; hq_path : string; hq_headers : HeaderMap; hq_body : string }.

(** What a request finds outside the state: its readings of the clock in order,
    its random bytes, the salt, the clocks of [put_routes] and the probes. *)
Record World := mk_world {
  w_now : nat → Z; w_random : nat → list Z; w_salt : string;
  w_clk : nat → EntryClock; w_probe : string → string → ProbeIo;
}.

(** The bodies of the successful answers. *)
Inductive Reply :=
| ReText (status : Z) (body : string)
| ReAdminUi
| ReStatus (status : Z)
| ReRejected
| ReNoRoute
| ReBadMethod
| ReLogin (r : LoginResponse) | ReEnroll (r : EnrollResponse) | ReRoutes (r : PutRoutesResponse)
| ReDesired (r : DesiredServicesResponse) | ReDiscovery (r : list AdminDiscoveryItem)
| ReEnable (r : EnableServiceResponse) | ReAgents (r : list AdminAgentView)
| ReAdminRoutes (r : list AdminRouteView) | ReDashboard (r : AdminDashboard)
| ReToken (r : CreateEnrollmentTokenResponse).

(** The answer of a handler, wrapped. *)
Definition reply {A} (f : A → Reply) (m : SE AppState Failure A) : SE AppState Failure Reply :=
  a ← m; mret (f a).
(** The [Json] extractor, then the handler. *)
Definition with_json {A} `{SerdeJson A} (r : HttpRequest)
    (h : A → SE AppState Failure Reply) : SE AppState Failure Reply :=
  match (if json_type (hq_headers r) then ok (from_json (hq_body r)) else None) with
  | Some body => h body
  | None => mret ReRejected
  end.
Definition ready_reply (now : Z) : SE AppState Failure Reply := λ st,
  let '(r, st') := ready now st in
  (Ok (match r with Ok s => ReText 200 s | Err code => ReText code EmptyString end), st').

Definition call (w : World) (e : Endpoint) (r : HttpRequest) : SE AppState Failure Reply :=
  let hs := hq_headers r in
  let t := w_now w in
  match e with
  | EHealth => mret (ReText 200 health)
  | EReady => ready_reply (t 0%nat)
  | ERoot => mret (let '(code, body) := root hs in ReText code body)
  | EAdminUi => mret ReAdminUi
  | ELogin => with_json r (λ b, reply ReLogin (admin_login b (w_random w 0%nat) (t 0%nat) (t 1%nat)))
  | ELogout => reply ReStatus (admin_logout hs)
  | EEnroll => with_json r (λ b,
      reply ReEnroll (enroll hs b (w_random w 0%nat) (w_random w 1%nat) (w_salt w) (t 0%nat) (t 1%nat)))
  | EHeartbeat id => with_json r (λ b, reply ReStatus (heartbeat id hs b (t 0%nat) (t 1%nat)))
  | EPutRoutes id => with_json r (λ b, reply ReRoutes (put_routes id hs b (t 0%nat) (w_clk w) (t 1%nat)))
  | EPutDiscovery id => with_json r (λ b, reply ReStatus (put_discovery id hs b (t 0%nat)))
  | EDesired id => reply ReDesired (desired_services id hs)
  | EDiscovery => reply ReDiscovery (admin_discovery hs (t 0%nat) (t 1%nat) (t 2%nat))
  | EEnable => with_json r (λ b,
      reply ReEnable (admin_enable_service hs b (w_random w 0%nat) (t 0%nat) (t 1%nat) (t 2%nat) (t 3%nat)))
  | EDisable id => reply ReStatus (admin_disable_service id hs (t 0%nat) (t 1%nat) (t 2%nat) (t 3%nat))
  | EAgents => reply ReAgents (admin_agents hs (t 0%nat) (t 1%nat) (t 2%nat) (t 3%nat))
  | ERoutes => reply ReAdminRoutes (admin_routes hs (t 0%nat) (t 1%nat) (t 2%nat) (t 3%nat))
  | EDashboard =>
      reply ReDashboard (admin_dashboard hs (w_probe w) (t 0%nat) (t 1%nat) (t 2%nat) (t 3%nat) (t 4%nat))
  | EDeleteRoute h => reply ReStatus (admin_delete_route h hs (t 0%nat) (t 1%nat) (t 2%nat))
  | ECreateToken =>
      reply ReToken (admin_create_enrollment_token hs (w_random w 0%nat) (w_salt w) (t 0%nat) (t 1%nat) (t 2%nat))
  | ERevoke id => reply ReStatus (admin_revoke_agent id hs (t 0%nat) (t 1%nat) (t 2%nat) (t 3%nat))
  end.

Definition serve (w : World) (r : HttpRequest) : SE AppState Failure Reply :=
  match dispatch (hq_method r) (hq_path r) with
  | NoRoute => mret ReNoRoute
  | BadMethod => mret ReBadMethod
  | BadCapture => mret ReRejected
  | Found e => call w e r
  end.
End router.
