(* ===== verification/ControllerSpec.v ===== *)
(** * What the controller's API promises

    Who may call what, that the DNS table follows the storage, that an
    enrollment gives working credentials, that an enabled service reaches its
    agent, and that no update registers a hostname the policy refuses. *)
From S2P Require Import Prelude RustStr Net Externals Common Concrete Hostname Store StoreRoutes StoreInv.
From S2P Require Import Config Registry Sessions State Probe Controller.
From Stdlib Require Import Ascii.
#[local] Open Scope Z_scope.

(** ** Running a handler *)

Lemma set_db_id st : set_db (db_of st) st = st.
Proof. by destruct st as [[] ? ? ? ? ? ?]. Qed.
Lemma db_of_set db st : db_of (set_db db st) = db.
Proof. done. Qed.

Lemma storage_op_run {A} (f : StorageError → ApiError) (m : SE Db StorageError A) st :
  storage_op f m st =
  match m (db_of st) with
  | (Ok a, db) => (Ok a, set_db db st)
  | (Err e, db) => (Err (Refused (f e)), set_db db st)
  end.
Proof. unfold storage_op, se_map_err, zoom. by destruct (m (db_of st)) as [[]]. Qed.

(** ** Specification *)

Section spec.
Context `{Argon2} `{Base64} `{Chrono} `{HeaderCrate}.

(** The bearer of the request is the credential of an agent that is enrolled
    and not revoked. *)
Definition agent_authorized (db : Db) (agent_id : string) (headers : HeaderMap) : bool :=
  match bearer_token headers, agents db !! agent_id with
  | Some token, Some a =>
      bool_decide (ag_revoked_at a = None) && verify_token (ag_credential_hash a) token
  | _, _ => false
  end.

(** The bearer is a live session, or the admin password. *)
Definition admin_bearer (st : AppState) (headers : HeaderMap) (t t' : Z) : bool :=
  match bearer_token headers with
  | Some token =>
      (valid token t t' (sessions st)).1 || constant_time_eq (admin_password st) token
  | None => false
  end.

(** The request is answered 401 and changes at most the sessions. *)
Definition admin_refused {A} (st : AppState) (m : SE AppState Failure A) : Prop :=
  ∃ ss, m st = (Err (Refused Unauthorized), set_sessions ss st).

(** What one hostname resolves to, from the storage: the address of its owner,
    when the owner is not revoked, is leased at [now] and its address parses. *)
Definition dns_entry (ttl now : Z) (db : Db) (h : string) : option Ipv4Addr :=
  r ← routes db !! h;
  a ← agents db !! rt_agent_id r;
  if bool_decide (ag_revoked_at a = None) && lease_alive now ttl (ag_last_seen_at a)
  then parse_ipv4 (ag_tailscale_ipv4 a) else None.

Definition ttl_of (st : AppState) : option Z :=
  duration_seconds (as_i64 (agent_ttl_seconds (cfg_leases (cfg st)))).

(** The DNS table is that of the storage at [now]. *)
Definition dns_in_sync (now : Z) (st : AppState) : Prop :=
  ∃ ttl, ttl_of st = Some ttl ∧ ∀ h, registry st !! h = dns_entry ttl now (db_of st) h.
End spec.

(** ** Lemmas *)

Section lemmas.
Context `{Argon2} `{Base64} `{Chrono} `{HeaderCrate}.

Lemma check_agent_run agent_id headers st :
  check_agent agent_id headers st =
  (if agent_authorized (db_of st) agent_id headers then Ok tt else Err (Refused Unauthorized), st).
Proof.
  unfold check_agent, agent_authorized. se_run. destruct (bearer_token headers) as [token|]; [|done].
  cbn [ok_or]. rewrite storage_op_run. unfold verify_agent_token. se_run.
  destruct (agents (db_of st) !! agent_id) as [a|]; se_run; rewrite ?set_db_id; [|done].
  destruct (ag_revoked_at a); cbn [bool_decide]; rewrite ?decide_True by done.
  - se_run. by rewrite set_db_id.
  - rewrite decide_False by (by intros []). rewrite bool_decide_true by done.
    destruct (verify_token _ _); se_run; by rewrite set_db_id.
Qed.

Lemma valid_ttl token t t' s : ss_ttl (valid token t t' s).2 = ss_ttl s.
Proof. unfold valid. by repeat case_match. Qed.

Lemma check_admin_run headers t t' st :
  ∃ ss, check_admin headers t t' st =
    (if admin_bearer st headers t t' then Ok tt else Err (Refused Unauthorized), set_sessions ss st).
Proof.
  unfold check_admin, admin_bearer. se_run. destruct (bearer_token headers) as [token|]; cbn [ok_or].
  - unfold check_bearer, admin_authorized. destruct (valid token t t' (sessions st)) as [b ss]. exists ss.
    cbn [fst]. by destruct b.
  - exists (sessions st). by destruct st.
Qed.

Lemma registry_map_lookup (routes : list DnsRoute) h : NoDup (dr_hostname <$> routes) →
  ∀ ip, registry_map routes !! h = Some ip ↔
    ∃ d, d ∈ routes ∧ dr_hostname d = h ∧ parse_ipv4 (dr_tailscale_ipv4 d) = Some ip.
Proof.
  intros Hd ip. unfold registry_map.
  set (f := λ r, ip ← parse_ipv4 (dr_tailscale_ipv4 r); Some (dr_hostname r, ip)).
  assert (∀ d x, f d = Some x ↔ x.1 = dr_hostname d ∧ parse_ipv4 (dr_tailscale_ipv4 d) = Some x.2) as Hf.
  { intros d [k i]. unfold f. destruct (parse_ipv4 _); naive_solver. }
  assert ((h, ip) ∈ omap f routes ↔
    ∃ d, d ∈ routes ∧ dr_hostname d = h ∧ parse_ipv4 (dr_tailscale_ipv4 d) = Some ip) as <-.
  { rewrite list_elem_of_omap. setoid_rewrite Hf. cbn. naive_solver. }
  split; [apply collect_map_elem|]. apply collect_map_NoDup.
  eapply sublist_NoDup; [exact Hd|]. apply (omap_key_sublist dr_hostname fst).
  intros d x Hx. by apply Hf in Hx as [? _].
Qed.

Lemma refresh_read_run now st :
  refresh_read now st =
  (match ttl_of st with Some ttl => Ok (dns_answer ttl now (db_of st)) | None => Err Panicked end, st).
Proof.
  unfold refresh_read, lease_ttl, ttl_of. rewrite SE_bind_run.
  destruct (duration_seconds _); cbn [ok_or]; [|done]. rewrite storage_op_run. by destruct st as [[] ? ? ? ? ? ?].
Qed.

(** The table built from the answer of the storage. *)
Lemma registry_of_answer ttl now db h :
  registry_map (dns_answer ttl now db) !! h = dns_entry ttl now db h.
Proof.
  apply option_eq. intros ip. rewrite registry_map_lookup by apply dns_answer_NoDup. unfold dns_entry. split.
  - intros (d & (r & a & Hr & Ha & Hn & Hl & Hip)%elem_of_dns_answer & <- & Hp).
    rewrite Hr. cbn [mbind option_bind]. rewrite Ha. cbn [mbind option_bind].
    rewrite bool_decide_true, Hl by done. cbn. by rewrite <- Hip.
  - intros (r & Hr & (a & Ha & Hx)%bind_Some)%bind_Some. case_match eqn:Hc; [|done]. breflect.
    exists (mk_dns_route h (ag_tailscale_ipv4 a)). split; [|done].
    apply elem_of_dns_answer. by exists r, a.
Qed.

Lemma refresh_dns_sync now st :
  (∃ st', refresh_dns now st = (Ok tt, st') ∧ db_of st' = db_of st ∧ cfg st' = cfg st
    ∧ sessions st' = sessions st ∧ dns_in_sync now st')
  ∨ ttl_of st = None ∧ refresh_dns now st = (Err Panicked, st).
Proof.
  unfold refresh_dns. rewrite SE_bind_run, refresh_read_run. unfold ttl_of.
  destruct (duration_seconds _) as [ttl|] eqn:Ht; [left|by right].
  eexists. split; [reflexivity|].
  do 3 (split; [done|]). exists ttl. split; [done|]. intros h. apply registry_of_answer.
Qed.

(** A handler that ends with a refresh leaves the table in sync. *)
Lemma refresh_then_sync {A} now (x : A) st r st' :
  (_ ← refresh_dns now; mret x) st = (Ok r, st') → dns_in_sync now st' ∧ db_of st' = db_of st.
Proof.
  intros ([] & st1 & Hr & Hx)%SE_bind_inv. injection Hx as _ <-.
  destruct (refresh_dns_sync now st) as [(st2 & Hr2 & Hdb & _ & _ & Hs)|[_ Hp]]; [|congruence].
  rewrite Hr in Hr2. by simplify_eq.
Qed.

Lemma check_agent_inv id headers st r st' :
  check_agent id headers st = (Ok r, st') →
  st' = st ∧ agent_authorized (db_of st) id headers = true.
Proof. rewrite check_agent_run. destruct (agent_authorized _ _ _); by intros [= <-]. Qed.

Lemma check_admin_inv headers t t' st r st' :
  check_admin headers t t' st = (Ok r, st') →
  db_of st' = db_of st ∧ cfg st' = cfg st ∧ registry st' = registry st
  ∧ admin_bearer st headers t t' = true.
Proof.
  destruct (check_admin_run headers t t' st) as [ss ->].
  destruct (admin_bearer _ _ _ _); by intros [= <- <-].
Qed.

Lemma agent_authorized_row db id headers : agent_authorized db id headers = true →
  ∃ token a, bearer_token headers = Some token ∧ agents db !! id = Some a
    ∧ ag_revoked_at a = None ∧ verify_token (ag_credential_hash a) token = true.
Proof.
  unfold agent_authorized. destruct (bearer_token headers) as [token|]; [|done].
  destruct (agents db !! id) as [a|]; [|done]. intros; breflect. by exists token, a.
Qed.

(** A storage operation that succeeded. *)
Lemma storage_op_Ok {A} (f : StorageError → ApiError) (m : SE Db StorageError A) st a st' :
  storage_op f m st = (Ok a, st') → m (db_of st) = (Ok a, db_of st') ∧ st' = set_db (db_of st') st.
Proof. rewrite storage_op_run. destruct (m (db_of st)) as [[]]; by intros [= <- <-]. Qed.
End lemmas.

Section enabled.
Context `{Argon2} `{Base64} `{Chrono}.

Lemma upsert_enabled_row id agent_id key name hosts backend now db r db' :
  upsert_enabled_service id agent_id key name hosts backend now db = (Ok r, db') →
  ∃ i s, enabled_services db' !! i = Some s ∧ eb_agent_id s = agent_id ∧ eb_identity_key s = key
    ∧ eb_container_name s = name ∧ eb_hostnames_json s = hosts ∧ eb_backend s = backend
    ∧ eb_enabled s = 1 ∧ agents db' = agents db.
Proof.
  unfold upsert_enabled_service. se_run. case_decide; [done|].
  destruct (enabled_for db agent_id key) as [[i s]|] eqn:Hf.
  - se_run. intros [= _ <-]. apply enabled_for_Some in Hf as (_ & <- & <-).
    eexists i, _. cbn [enabled_services agents set_enabled_rows]. by rewrite lookup_insert_eq.
  - destruct (agents db !! agent_id); [|done]. se_run. intros [= _ <-].
    eexists id, _. cbn [enabled_services agents set_enabled_rows]. by rewrite lookup_insert_eq.
Qed.

Definition enabled_rows (agent_id : string) (db : Db) : list EnabledServiceRecord :=
  default [] (ok (list_enabled_for_agent agent_id db).1).
Lemma elem_of_enabled_rows agent_id db e :
  e ∈ enabled_rows agent_id db ↔ ∃ i s, e = row_to_enabled i s
    ∧ enabled_services db !! i = Some s ∧ eb_agent_id s = agent_id ∧ eb_enabled s = 1.
Proof.
  unfold enabled_rows. cbn. rewrite list_elem_of_fmap. split.
  - intros ([i s] & -> & [[??] Hin]%list_elem_of_filter). exists i, s.
    by rewrite elem_of_map_to_list in Hin.
  - intros (i & s & -> & Hi & ? & ?). exists (i, s). split; [done|]. apply list_elem_of_filter.
    split; [done|]. by apply elem_of_map_to_list.
Qed.

(** The id the enable handler answers is that of the row it wrote. *)
Lemma final_id_row db agent_id key i s d : db_wf db →
  enabled_services db !! i = Some s → eb_agent_id s = agent_id → eb_identity_key s = key →
  eb_enabled s = 1 →
  match list_find (λ e, ev_identity_key e = key) (enabled_rows agent_id db) with
  | Some (_, e) => ev_id e | None => d end = i.
Proof.
  intros Hwf Hi Ha Hk Hen.
  assert (row_to_enabled i s ∈ enabled_rows agent_id db) as Hin by (apply elem_of_enabled_rows; eauto 10).
  destruct (list_find _ _) as [[n e]|] eqn:Hf.
  - apply list_find_Some in Hf as (Hn & He & _). apply list_elem_of_lookup_2 in Hn.
    apply elem_of_enabled_rows in Hn as (j & t & -> & Hj & Hja & _). cbn in *.
    eapply (wf_enabled_unique _ Hwf); [done..|]. split; congruence.
  - apply list_find_None in Hf. rewrite Forall_forall in Hf. by destruct (Hf _ Hin).
Qed.
End enabled.

Lemma put_routes_gain `{Chrono} id es ttl t clk db out db' h :
  Store.put_routes id es ttl t clk db = (Ok out, db') →
  owner_of db' h = Some id → owner_of db h ≠ Some id → h ∈ entry_host <$> es.
Proof.
  intros Hp Ho Hn. destruct (agents db !! id) as [a|] eqn:Ha.
  2: { rewrite put_routes_refused in Hp; [done|]. by rewrite Ha. }
  destruct (decide (ag_revoked_at a = None)) as [Hr|Hr].
  2: { rewrite put_routes_refused in Hp; [done|]. intros ??. by simplify_eq. }
  destruct (put_routes_ok id a es ttl t clk db Ha Hr) as (db1 & out1 & Hp1 & _ & Heq).
  rewrite Heq in Hp. injection Hp as <- <-. eapply put_entries_gain; [exact Ha|exact Hp1|done|].
  revert Ho. unfold owner_of. cbn [routes set_routes]. rewrite drop_undesired_lookup.
  by case_decide.
Qed.

Lemma hostname_allowed_lower c h :
  hostname_allowed c h = Ok tt → hostname_allowed c (to_ascii_lowercase h) = Ok tt.
Proof.
  unfold hostname_allowed. rewrite to_ascii_lowercase_idemp. by repeat case_match.
Qed.

Section enabling.
Context `{Argon2} `{Base64} `{Chrono} `{HeaderCrate} `{UrlCrate} `{Idna}.
Context `{SerdeJson (list string)} `{SerdeJson (list DiscoveredContainerDto)}.

Lemma enable_hosts_Ok c raw hosts : Forall2 (λ h n, enable_host c h = Ok n) raw hosts →
  Forall2 (λ h n, normalize_hostname h = Ok n) raw hosts
  ∧ Forall (λ n, hostname_allowed c n = Ok tt) hosts.
Proof.
  assert (∀ h n, enable_host c h = Ok n → normalize_hostname h = Ok n ∧ hostname_allowed c n = Ok tt) as He.
  { intros h n (m & Hm%map_err_Ok & ([] & Ha%map_err_Ok & [= <-])%result_bind_Ok)%result_bind_Ok. done. }
  induction 1 as [|h n raw hosts Hh _ [IH1 IH2]]; [done|]. apply He in Hh as [??]. split; by constructor.
Qed.

Lemma desired_services_run id hs st : agent_authorized (db_of st) id hs = true →
  desired_services id hs st = (Ok {| ds_services := desired_of <$> enabled_rows id (db_of st) |}, st).
Proof.
  intros Hauth. unfold desired_services. rewrite SE_bind_run, check_agent_run, Hauth.
  rewrite SE_bind_run, storage_op_run. unfold enabled_rows.
  cbn [list_enabled_for_agent gets ok default]. by rewrite set_db_id.
Qed.
Lemma admin_revoke_inv id headers t t' now t_dns st r st1 :
  admin_revoke_agent id headers t t' now t_dns st = (Ok r, st1) →
  dns_in_sync t_dns st1 ∧ db_of st1 = (revoke_agent id now (db_of st)).2.
Proof.
  intros ([] & st2 & Hadm & ([] & st3 & Hrev & Hrest)%SE_bind_inv)%SE_bind_inv.
  apply check_admin_inv in Hadm as (Hdb & _). apply storage_op_Ok in Hrev as [Hrev _].
  apply refresh_then_sync in Hrest as [Hsync Hdb1]. split; [done|]. by rewrite Hdb1, <- Hdb, Hrev.
Qed.
End enabling.

(** ** Properties *)

Section properties.
Context `{Argon2} `{Base64} `{Chrono} `{HeaderCrate} `{UrlCrate} `{Idna}.
Context `{SerdeJson (list string)} `{SerdeJson (list DiscoveredContainerDto)}.

(** C15: every agent endpoint answers 401 and changes nothing unless the bearer is
    the credential of that very agent, enrolled and not revoked; such an agent's
    heartbeat is answered 204. *)
Theorem agent_endpoints_authenticate id headers st :
  if agent_authorized (db_of st) id headers
  then ttl_of st ≠ None → ∀ body t t_dns, (heartbeat id headers body t t_dns st).1 = Ok 204
  else (∀ body t t_dns, heartbeat id headers body t t_dns st = (Err (Refused Unauthorized), st))
    ∧ (∀ body t clk t_dns, put_routes id headers body t clk t_dns st = (Err (Refused Unauthorized), st))
    ∧ (∀ body t, put_discovery id headers body t st = (Err (Refused Unauthorized), st))
    ∧ desired_services id headers st = (Err (Refused Unauthorized), st).
Proof.
  destruct (agent_authorized (db_of st) id headers) eqn:Hauth.
  - intros Httl body t t_dns. unfold heartbeat. rewrite SE_bind_run, check_agent_run, Hauth.
    apply agent_authorized_row in Hauth as (token & a & _ & Ha & Hr & _).
    rewrite SE_bind_run, storage_op_run. unfold Store.heartbeat. rewrite SE_bind_run. cbn [get].
    rewrite Ha, decide_True by done. cbn [modify]. rewrite SE_bind_run.
    match goal with |- context [refresh_dns t_dns ?x] =>
      destruct (refresh_dns_sync t_dns x) as [(st' & -> & _)|[Hn _]] end; [done|].
    by destruct Httl.
  - unfold heartbeat, put_routes, put_discovery, desired_services.
    repeat split; intros; by rewrite SE_bind_run, check_agent_run, Hauth.
Qed.


(** Whenever a heartbeat, a route update, the deletion of a route or the
    revocation of an agent is answered with success, and after every tick of the
    cleanup task, the DNS table resolves exactly the hostnames whose owner is
    not revoked and holds a live lease, each to that owner's address. *)
Theorem dns_table_follows_storage st st' t_dns :
  (∀ id headers body t r, heartbeat id headers body t t_dns st = (Ok r, st') → dns_in_sync t_dns st')
  ∧ (∀ id headers body t clk r,
       put_routes id headers body t clk t_dns st = (Ok r, st') → dns_in_sync t_dns st')
  ∧ (∀ h headers t t' r, admin_delete_route h headers t t' t_dns st = (Ok r, st') → dns_in_sync t_dns st')
  ∧ (∀ id headers t t' now r,
       admin_revoke_agent id headers t t' now t_dns st = (Ok r, st') → dns_in_sync t_dns st')
  ∧ (∀ ttl t r, ttl_of st ≠ None → cleanup_tick ttl t t_dns st = (r, st') → dns_in_sync t_dns st').
Proof.
  split; [|split; [|split; [|split]]].
  - intros * (? & ? & _ & (? & ? & _ & Hr)%SE_bind_inv)%SE_bind_inv. by eapply refresh_then_sync.
  - intros * (? & ? & _ & (? & ? & _ & (? & ? & _ & (? & ? & _ & (? & ? & _ & Hr)%SE_bind_inv)
      %SE_bind_inv)%SE_bind_inv)%SE_bind_inv)%SE_bind_inv. by eapply refresh_then_sync.
  - intros * (? & ? & _ & (? & ? & _ & Hr)%SE_bind_inv)%SE_bind_inv. by eapply refresh_then_sync.
  - intros * (? & ? & _ & (? & ? & _ & Hr)%SE_bind_inv)%SE_bind_inv. by eapply refresh_then_sync.
  - intros ttl t r Httl. unfold cleanup_tick. rewrite SE_bind_run. unfold ignore at 1.
    rewrite storage_op_run. cbn [snd].
    unfold ignore.
    match goal with |- context [refresh_dns t_dns ?x] =>
      destruct (refresh_dns_sync t_dns x) as [(st1 & -> & _ & _ & _ & Hs)|[Hn _]] end.
    + by intros [= <- <-].
    + by destruct Httl.
Qed.

(** C20: with a bearer that no unused hash matches an enrollment is answered 401
    and nothing changes.  With any other it uses such a hash up; on success the
    credentials it answers authenticate a new agent, whose lease is the
    configured one, and the only failures are those of the storage. *)
Theorem enroll_gives_credentials `{!Argon2Laws} headers body ib tb salt t t' st :
  match bearer_token headers with
  | Some token =>
      match matching token (unused_token_hashes (db_of st)),
            enroll headers body ib tb salt t t' st with
      | [], r => r = (Err (Refused Unauthorized), st)
      | h :: _, (r, st') =>
          verify_token h token = true ∧ h ∉ unused_token_hashes (db_of st')
          ∧ match r with
            | Ok resp =>
                (∀ hs, bearer_token hs = Some (en_agent_token resp) →
                   agent_authorized (db_of st') (en_agent_id resp) hs = true)
                ∧ agents (db_of st) !! en_agent_id resp = None
                ∧ en_lease_ttl_seconds resp = agent_ttl_seconds (cfg_leases (cfg st))
            | Err e => ∃ x, e = Refused (ApiStorage x)
            end
      end
  | None => enroll headers body ib tb salt t t' st = (Err (Refused Unauthorized), st)
  end.
Proof.
  unfold enroll. rewrite !SE_bind_run. cbn [lift].
  destruct (bearer_token headers) as [token|]; cbn [ok_or]; [|done].
  rewrite !SE_bind_run, !storage_op_run. unfold consume_enrollment_token. rewrite !SE_bind_run. cbn [gets].
  rewrite !consume_rows_matching.
  destruct (matching token (unused_token_hashes (db_of st))) as [|h l] eqn:Hm;
    [by rewrite set_db_id|].
  assert (h ∈ matching token (unused_token_hashes (db_of st))) as Hin by (rewrite Hm; by left).
  apply list_elem_of_filter in Hin as [Hv Hin].
  assert (h ∉ unused_token_hashes (mark_token_used h t (db_of st))) as Hused
    by (intros Hx; by apply elem_of_unused_marked in Hx as [_ ?]).
  rewrite SE_bind_run, storage_op_run, db_of_set. unfold enroll_agent. rewrite SE_bind_run. cbn [lift].
  destruct (hash_token salt (generate_token tb)) as [hash|e] eqn:Hh; cbn [map_err];
    [|rewrite db_of_set; by eauto].
  rewrite SE_bind_run. cbn [get]. cbn [agents mark_token_used set_tokens].
  destruct (agents (db_of st) !! _) eqn:Hnew; [cbn [throw]; rewrite db_of_set; by eauto|].
  rewrite SE_bind_run. cbn [modify mret SE_ret].
  cbn [en_agent_token en_agent_id en_lease_ttl_seconds fst snd]. split; [done|]. split; [done|].
  split; [|done].
  intros hs Hb. unfold agent_authorized. rewrite Hb. cbn [agents db_of set_db set_storage pool storage set_agents].
  rewrite lookup_insert_eq. cbn [ag_revoked_at ag_credential_hash].
  unfold hash_token in Hh. apply map_err_Ok in Hh.
  destruct (hash_verifies _ _ _ Hh) as (p & Hp & Hvp). unfold verify_token. rewrite Hp. exact Hvp.
Qed.

(** A route update that names a hostname the policy refuses is answered 403
    and changes nothing; so every hostname an agent gains by an update is one
    the policy allows. *)
Theorem put_routes_enforces_policy id headers body t clk t_dns st :
  agent_authorized (db_of st) id headers = true →
  (∀ e msg, e ∈ pr_routes body → hostname_allowed (cfg st) (re_hostname e) = Err msg →
     ∃ msg', put_routes id headers body t clk t_dns st = (Err (Refused (Forbidden msg')), st))
  ∧ ∀ r st', put_routes id headers body t clk t_dns st = (Ok r, st') →
      ∀ h, owner_of (db_of st') h = Some id → owner_of (db_of st) h ≠ Some id →
        hostname_allowed (cfg st) h = Ok tt.
Proof.
  intros Hauth. unfold put_routes. rewrite SE_bind_run, check_agent_run, Hauth.
  rewrite SE_bind_run. cbn [gets]. rewrite SE_bind_run. cbn [lift].
  set (allowed := λ r, map_err (Refused ∘ Forbidden) (hostname_allowed (cfg st) (re_hostname r))).
  split.
  - intros e msg Hin He. assert (∀ l, e ∈ l → ∃ msg', for_each allowed l = Err (Refused (Forbidden msg'))) as Hl.
    { induction l as [|x l IH]; [by rewrite elem_of_nil|]. rewrite elem_of_cons. cbn [for_each].
      intros [<-|Hl].
      - exists msg. assert (allowed e = Err (Refused (Forbidden msg))) as -> by (unfold allowed; by rewrite He).
        done.
      - destruct (allowed x) as [[]|m] eqn:Hx; [by apply IH|]. unfold allowed in Hx.
        destruct (hostname_allowed (cfg st) (re_hostname x)); [done|]. injection Hx as <-. by eexists. }
    destruct (Hl _ Hin) as [msg' ->]. by exists msg'.
  - intros r st'. destruct (for_each allowed (pr_routes body)) as [[]|] eqn:Hall; [|done].
    intros (ttl & st1 & Httl & (out & st2 & Hput & Hrest)%SE_bind_inv)%SE_bind_inv h Ho Hn.
    assert (st1 = st) as -> by (unfold lease_ttl in Httl; by injection Httl as _ <-).
    apply storage_op_Ok in Hput as [Hput _].
    assert (db_of st' = db_of st2) as Hdb.
    { apply (refresh_then_sync t_dns {| ps_accepted := accepted out; ps_conflicts := conflicts out |} _ r).
      exact Hrest. }
    rewrite Hdb in Ho. eapply put_routes_gain in Hput; [|done..].
    apply list_elem_of_fmap in Hput as (e & -> & Hin). apply hostname_allowed_lower.
    apply for_each_Ok in Hall. rewrite Forall_forall in Hall. specialize (Hall _ Hin).
    unfold allowed in Hall. by apply map_err_Ok in Hall.
Qed.

(** A refresh that read the storage before an agent was revoked and swaps the
    DNS table after the revocation was answered brings the agent's hostnames
    back: they do not resolve after the answer, they do after the swap, and they
    are gone again after the next refresh that is not overtaken. *)
Theorem stale_refresh_after_revoke id headers t t' now t_r t_dns st routes_read r st1 h a row ip ttl :
  agents (db_of st) !! id = Some a → ag_revoked_at a = None →
  routes (db_of st) !! h = Some row → rt_agent_id row = id →
  ttl_of st = Some ttl → lease_alive t_r ttl (ag_last_seen_at a) = true →
  parse_ipv4 (ag_tailscale_ipv4 a) = Some ip →
  refresh_read t_r st = (Ok routes_read, st) →
  admin_revoke_agent id headers t t' now t_dns st = (Ok r, st1) →
  let st2 := (refresh_swap routes_read st1).2 in
  registry st1 !! h = None ∧ registry st2 !! h = Some ip
  ∧ ∀ t_n st3, refresh_dns t_n st2 = (Ok tt, st3) → registry st3 !! h = None.
Proof.
  intros Ha Hr Hrow Hown Httl Hlive Hip Hread Hrev st2.
  rewrite refresh_read_run, Httl in Hread. injection Hread as <-.
  destruct (admin_revoke_inv _ _ _ _ _ _ _ _ _ Hrev) as [(ttl1 & _ & Hsync) Hdb].
  assert (routes (db_of st1) !! h = None) as Hgone.
  { rewrite Hdb. apply map_lookup_filter_None_2. right. intros x Hx.
    change (routes (db_of st) !! h = Some x) in Hx. rewrite Hrow in Hx. injection Hx as <-. cbn. tauto. }
  split; [|split].
  - rewrite Hsync. unfold dns_entry. by rewrite Hgone.
  - cbn [st2 refresh_swap modify snd registry set_registry]. unfold replace.
    apply registry_map_lookup; [apply dns_answer_NoDup|].
    exists (mk_dns_route h (ag_tailscale_ipv4 a)). split; [|done].
    apply elem_of_dns_answer. exists row, a. by rewrite Hown.
  - intros t_n st3 Hn. destruct (refresh_dns_sync t_n st2) as [(st4 & Hn' & Hdb4 & _ & _ & ttl2 & _ & Hs)|[_ Hp]];
      [|congruence]. rewrite Hn in Hn'. injection Hn' as <-.
    rewrite Hs. unfold dns_entry. rewrite Hdb4. change (db_of st2) with (db_of st1). by rewrite Hgone.
Qed.

(** C21: a service an admin enables reaches its agent: the agent's next request
    for its desired services lists, under the id the admin was given, the
    normalized hostnames, each allowed by the policy, the container's name and
    a backend that the agent parses to the one the admin entered. *)
Theorem enabled_service_reaches_agent `{!UrlLaws} `{!SerdeLaws (list string)}
    headers body buf t t' now t_a st resp st' :
  db_wf (db_of st) →
  admin_enable_service headers body buf t t' now t_a st = (Ok resp, st') →
  ∃ hosts b,
    Forall2 (λ h n, normalize_hostname h = Ok n) (es_hostnames body) hosts ∧ hosts ≠ []
    ∧ Forall (λ n, hostname_allowed (cfg st) n = Ok tt) hosts
    ∧ parse_backend_url (es_backend body) = Ok b
    ∧ ∀ hs, agent_authorized (db_of st') (es_agent_id body) hs = true →
        ∃ l d, desired_services (es_agent_id body) hs st' = (Ok {| ds_services := l |}, st')
          ∧ d ∈ l ∧ de_id d = ex_id resp ∧ de_identity_key d = es_identity_key body
          ∧ de_hostnames d = hosts ∧ de_container_name d = es_container_name body
          ∧ parse_backend_url (de_backend d) = Ok b.
Proof.
  intros Hwf. unfold admin_enable_service.
  intros (? & st1 & Hadm & Hrest)%SE_bind_inv.
  apply check_admin_inv in Hadm as (Hdb1 & Hcfg1 & _ & _).
  case_bool_decide as Hne; [done|].
  apply SE_bind_inv in Hrest as (c & st2 & Hc & Hrest). injection Hc as <- <-.
  apply SE_bind_inv in Hrest as (hosts & st2 & Hh & Hrest). unfold or_refuse, lift in Hh.
  injection Hh as Hh <-. apply map_err_Ok, try_map_Ok in Hh.
  apply SE_bind_inv in Hrest as (b & st2 & Hb & Hrest). injection Hb as Hb <-. apply map_err_Ok in Hb.
  apply SE_bind_inv in Hrest as (js & st2 & Hj & Hrest). injection Hj as Hj <-. apply map_err_Ok in Hj.
  apply SE_bind_inv in Hrest as (? & st2 & Hup & Hrest). apply storage_op_Ok in Hup as [Hup Hst2].
  rewrite Hdb1 in Hup.
  assert (db_wf (db_of st2)) as Hwf2.
  { eapply effect_wf; [|exact Hwf].
    match type of Hup with upsert_enabled_service ?i ?a ?k ?n ?h ?bk ?t ?d = _ =>
      pose proof (upsert_enabled_effect i a k n h bk t d) as He end. by rewrite Hup in He. }
  apply upsert_enabled_row in Hup as (i & s & Hi & Hsa & Hsk & Hsn & Hsh & Hsb & Hse & _).
  apply SE_bind_inv in Hrest as (? & st3 & Haud & Hrest).
  unfold ignore in Haud. rewrite storage_op_run in Haud. injection Haud as Haud.
  assert (enabled_services (db_of st3) = enabled_services (db_of st2)) as Hen3 by by subst st3.
  assert (db_wf (db_of st3)) as Hwf3 by (subst st3; destruct Hwf2; by split).
  apply SE_bind_inv in Hrest as (all & st4 & Hall & Hrest). apply storage_op_Ok in Hall as [Hall Hst4].
  assert (db_of st4 = db_of st3) as Hdb4 by by injection Hall as _ ->.
  assert (all = enabled_rows (es_agent_id body) (db_of st3)) as -> by (unfold enabled_rows; by rewrite Hall).
  injection Hrest as <- <-. cbn [ex_id]. rewrite <- Hen3 in Hi.
  rewrite (final_id_row _ _ _ i s _ Hwf3 Hi Hsa Hsk Hse).
  destruct (enable_hosts_Ok _ _ _ Hh) as [Hnorm Hal]. rewrite Hcfg1 in Hal.
  exists hosts, b. split; [done|]. split; [|split; [done|split; [done|]]].
  { intros ->. inversion Hh as [Heq|]. congruence. }
  intros hs Hauth. rewrite desired_services_run by done. rewrite Hdb4.
  exists (desired_of <$> enabled_rows (es_agent_id body) (db_of st3)), (desired_of (row_to_enabled i s)).
  split; [done|]. split; [apply list_elem_of_fmap_2, elem_of_enabled_rows; by exists i, s|].
  cbn. do 2 (split; [done|]). split; [by rewrite Hsh, (from_to_json _ _ Hj)|]. split; [done|].
  rewrite Hsb. by eapply parse_backend_authority.
Qed.
End properties.

(** ** Witnesses: a controller started on an empty database. *)
Section witnesses.
#[local] Existing Instance bits_chrono.
#[local] Existing Instance plain_argon2.
#[local] Existing Instance plain_argon2_laws.
#[local] Existing Instance raw_base64.
#[local] Existing Instance plain_headers.
#[local] Existing Instance plain_url.
#[local] Existing Instance plain_url_laws.
#[local] Existing Instance id_idna.
#[local] Existing Instance plain_strings.
#[local] Existing Instance plain_strings_laws.
#[local] Instance no_dto_json : SerdeJson (list DiscoveredContainerDto) := no_json _.

#[local] Definition local_addr (p : Z) : SocketAddr := mk_addr (V4 (mk_ipv4 127 0 0 1)) p.
#[local] Definition test_cfg : ControllerConfig :=
  mk_controller_config (mk_dns_config (local_addr 53) [] 5 2000 300 30 5000)
    (mk_api_config (local_addr 80) None "file" "admin" 86400) (mk_storage_config "db")
    (mk_lease_config 20 90) default_backup (mk_security [".internal"] []).
#[local] Definition no_state : AppState :=
  mk_state (mk_storage empty_db 0 EmptyString) ∅ test_cfg EmptyString EmptyString (new_sessions 0) false.
#[local] Definition st0 : AppState :=
  match boot false (λ _, Ok "secret") empty_db test_cfg 1 with Some (Ok st) => st | _ => no_state end.
#[local] Definition bearer (s : string) : HeaderMap := {[ "authorization" := "Bearer " +:+ s ]}.
#[local] Definition st1 : AppState :=
  (admin_create_enrollment_token (bearer "secret") [65] "salt" 2 2 2 st0).2.
#[local] Definition enroll_body : EnrollRequest :=
  {| er_display_name := "one"; er_tailscale_ipv4 := "100.64.0.1"; er_docker_engine_id := "e" |}.
#[local] Definition st2 : AppState := (enroll (bearer "A") enroll_body [49] [50] "salt" 3 3 st1).2.
#[local] Definition bodies (h : string) : PutRoutesRequest :=
  {| pr_routes := [mk_entry h "http://127.0.0.1:1/" None None] |}.
#[local] Definition clock4 : nat → EntryClock := λ _, mk_clock 4 4 4.
#[local] Definition st3 : AppState := (put_routes "agt_1" (bearer "2") (bodies "A.internal") 4 clock4 4 st2).2.
#[local] Definition enable_body : EnableServiceRequest :=
  {| es_agent_id := "agt_1"; es_identity_key := "name:web"; es_container_name := Some "web";
     es_hostnames := ["Web.internal"]; es_backend := "http://127.0.0.1:8080/" |}.
#[local] Definition st4 : AppState :=
  (admin_enable_service (bearer "secret") enable_body [51] 5 5 5 5 st2).2.


Lemma put_eq_ctl :
  put_routes "agt_1" (bearer "2") (bodies "A.internal") 4 clock4 4 st2 =
  (Ok {| ps_accepted := ["a.internal"]; ps_conflicts := [] |}, st3).
Proof. vm_compute. reflexivity. Qed.
Lemma dns_table_follows_storage_witness :
  registry st3 !! "a.internal" = Some (mk_ipv4 100 64 0 1).
Proof.
  destruct (dns_table_follows_storage st2 st3 4) as (_ & Hp & _).
  destruct (Hp _ _ _ _ _ _ put_eq_ctl) as (ttl & Ht & Hr). rewrite Hr.
  vm_compute in Ht. injection Ht as <-. vm_compute. reflexivity.
Defined.

#[local] Definition st5 : AppState := (admin_revoke_agent "agt_1" (bearer "secret") 5 5 5 5 st3).2.
#[local] Definition read3 : list DnsRoute := [mk_dns_route "a.internal" "100.64.0.1"].
Lemma stale_refresh_after_revoke_witness :
  registry st5 !! "a.internal" = None
  ∧ registry (refresh_swap read3 st5).2 !! "a.internal" = Some (mk_ipv4 100 64 0 1).
Proof.
  assert (∃ a row, agents (db_of st3) !! "agt_1" = Some a ∧ ag_revoked_at a = None
    ∧ routes (db_of st3) !! "a.internal" = Some row ∧ rt_agent_id row = "agt_1"
    ∧ lease_alive 5 90000000000 (ag_last_seen_at a) = true
    ∧ parse_ipv4 (ag_tailscale_ipv4 a) = Some (mk_ipv4 100 64 0 1)) as (a & row & Ha & Hr & Hrow & Ho & Hl & Hip).
  { eexists _, _. repeat split; vm_compute; reflexivity. }
  assert (refresh_read 5 st3 = (Ok read3, st3)) as Hread by (vm_compute; reflexivity).
  assert (admin_revoke_agent "agt_1" (bearer "secret") 5 5 5 5 st3 = (Ok 204, st5)) as Hrev
    by (vm_compute; reflexivity).
  destruct (stale_refresh_after_revoke "agt_1" (bearer "secret") 5 5 5 5 5 st3 read3 204 st5 "a.internal" a row
    (mk_ipv4 100 64 0 1) 90000000000 Ha Hr Hrow Ho) as (H1 & H2 & _);
    [vm_compute; reflexivity | exact Hl | exact Hip | exact Hread | exact Hrev |].
  by split.
Defined.

Lemma agent_endpoints_authenticate_witness :
  (heartbeat "agt_1" (bearer "2") {| hr_tailscale_ipv4 := "100.64.0.1"; hr_routes := [] |} 6 6 st2).1 = Ok 204.
Proof.
  pose proof (agent_endpoints_authenticate "agt_1" (bearer "2") st2) as Ha.
  assert (agent_authorized (db_of st2) "agt_1" (bearer "2") = true) as Hb by (vm_compute; reflexivity).
  rewrite Hb in Ha. apply Ha. vm_compute. discriminate.
Defined.

Lemma enroll_gives_credentials_witness :
  (∀ hs, bearer_token hs = Some "2" → agent_authorized (db_of st2) "agt_1" hs = true)
  ∧ (enroll (bearer "A") enroll_body [49] [50] "salt" 7 7 st2).1 = Err (Refused Unauthorized).
Proof.
  split.
  - pose proof (enroll_gives_credentials (bearer "A") enroll_body [49] [50] "salt" 3 3 st1) as He.
    assert (bearer_token (bearer "A") = Some "A") as Hb by (vm_compute; reflexivity). rewrite Hb in He.
    assert (matching "A" (unused_token_hashes (db_of st1)) = ["plain$A"]) as Hm by (vm_compute; reflexivity).
    rewrite Hm in He.
    assert (enroll (bearer "A") enroll_body [49] [50] "salt" 3 3 st1 =
      (Ok {| en_agent_id := "agt_1"; en_agent_token := "2"; en_heartbeat_interval_seconds := 20;
             en_lease_ttl_seconds := 90 |}, st2)) as Hr by (vm_compute; reflexivity).
    rewrite Hr in He. apply He.
  - vm_compute. reflexivity.
Defined.

Lemma put_routes_enforces_policy_witness :
  hostname_allowed (cfg st2) "a.internal" = Ok tt
  ∧ ∃ msg, put_routes "agt_1" (bearer "2") (bodies "evil.com") 4 clock4 4 st2
      = (Err (Refused (Forbidden msg)), st2).
Proof.
  assert (agent_authorized (db_of st2) "agt_1" (bearer "2") = true) as Hb by (vm_compute; reflexivity).
  split.
  - apply (proj2 (put_routes_enforces_policy "agt_1" (bearer "2") (bodies "A.internal") 4 clock4 4 st2 Hb)
      _ _ put_eq_ctl); vm_compute; [reflexivity | discriminate].
  - eapply (proj1 (put_routes_enforces_policy "agt_1" (bearer "2") (bodies "evil.com") 4 clock4 4 st2 Hb)
      (mk_entry "evil.com" "http://127.0.0.1:1/" None None)); [left | vm_compute; reflexivity].
Defined.

Lemma st2_wf : db_wf (db_of st2).
Proof.
  assert (db_of st2 = exec (OpEnroll "one" "100.64.0.1" "e" [49] [50] "salt" 3)
    (exec (OpConsumeToken "A" 3) (exec (OpCreateToken [65] "salt" 2) empty_db))) as ->
    by (vm_compute; reflexivity).
  eapply rtc_effect_wf; [|apply empty_db_wf].
  apply steps_effects. do 3 (eapply rtc_l; [apply step_op|]). constructor.
Qed.
Lemma enable_eq :
  admin_enable_service (bearer "secret") enable_body [51] 5 5 5 5 st2 = (Ok {| ex_id := "en_3" |}, st4).
Proof. vm_compute. reflexivity. Qed.
Lemma enabled_service_reaches_agent_witness :
  ∃ l d, desired_services "agt_1" (bearer "2") st4 = (Ok {| ds_services := l |}, st4)
    ∧ d ∈ l ∧ de_id d = "en_3" ∧ parse_backend_url (de_backend d) = Ok (mk_backend "127.0.0.1" 8080).
Proof.
  destruct (enabled_service_reaches_agent (bearer "secret") enable_body [51] 5 5 5 5 st2 _ _ st2_wf enable_eq)
    as (hosts & b & _ & _ & _ & Hb & Hd).
  destruct (Hd (bearer "2")) as (l & d & Hl & Hin & Hid & _ & _ & _ & Hp); [vm_compute; reflexivity|].
  exists l, d. split; [exact Hl|]. split; [exact Hin|]. split; [exact Hid|].
  rewrite Hp, <- Hb. vm_compute. reflexivity.
Defined.
End witnesses.
