(* ===== verification/ControllerSys.v ===== *)
(** * The controller as a whole: requests, ticks and the table between them

    [run_events] drives the controller through any sequence of requests to its
    HTTP surface, ticks of the cleanup task and changes of the listener's flag.
    The theorems hold for every such sequence: who can change the storage, that
    the DNS table is always that of the storage at some instant already read,
    and that the names of an agent whose lease ran out do not come back. *)
From S2P Require Import Prelude RustStr Net Externals Common Concrete Hostname Store StoreRoutes StoreInv.
From S2P Require Import Config Registry Sessions State Probe Controller ControllerSpec Router.
From Stdlib Require Import Ascii.
#[local] Open Scope Z_scope.

(** ** What a step may do *)

(** The row of the agent stays, with its credential, its last heartbeat and,
    once revoked, its revocation. *)
Definition seen_kept (id : string) (db db' : Db) : Prop :=
  ∀ a, agents db !! id = Some a → ∃ a', agents db' !! id = Some a'
    ∧ ag_last_seen_at a' = ag_last_seen_at a ∧ ag_credential_hash a' = ag_credential_hash a
    ∧ (ag_revoked_at a ≠ None → ag_revoked_at a' ≠ None).
#[export] Instance seen_kept_preorder id : PreOrder (seen_kept id).
Proof.
  split; [intros db a Ha; eauto|]. intros d1 d2 d3 H12 H23 a Ha.
  destruct (H12 _ Ha) as (a2 & Ha2 & ? & ? & ?), (H23 _ Ha2) as (a3 & ? & ? & ? & ?).
  exists a3. split; [done|]. split; [congruence|]. split; [congruence | tauto].
Qed.

(** The tables stay well formed and only the agents of [B] are heard from. *)
Definition db_sound (B : string → Prop) (db db' : Db) : Prop :=
  (db_wf db → db_wf db') ∧ ∀ id, ¬ B id → seen_kept id db db'.
#[export] Instance db_sound_preorder B : PreOrder (db_sound B).
Proof.
  split; [by split|]. intros d1 d2 d3 [? H1] [? H2]. split; [tauto|]. intros id Hid. etrans; eauto.
Qed.
Definition sound (B : string → Prop) (st st' : AppState) : Prop :=
  cfg st' = cfg st ∧ admin_password st' = admin_password st ∧ db_sound B (db_of st) (db_of st').
#[export] Instance sound_preorder B : PreOrder (sound B).
Proof.
  split; [done|]. intros s1 s2 s3 (? & ? & ?) (? & ? & ?).
  do 2 (split; [congruence|]). by etrans.
Qed.

(** The routes stay, and agents are at most added. *)
Definition grows (db db' : Db) : Prop := routes db' = routes db ∧ agents db ⊆ agents db'.
#[export] Instance grows_preorder : PreOrder grows.
Proof. split; [done|]. intros d1 d2 d3 [? ?] [? ?]. split; [congruence | by etrans]. Qed.
(** So does the table. *)
Definition quiet (st st' : AppState) : Prop :=
  cfg st' = cfg st ∧ registry st' = registry st ∧ grows (db_of st) (db_of st').
#[export] Instance quiet_preorder : PreOrder quiet.
Proof.
  split; [done|]. intros s1 s2 s3 (? & ? & ?) (? & ? & ?). do 2 (split; [congruence|]). by etrans.
Qed.
(** Nothing but the sessions changes. *)
Definition still (st st' : AppState) : Prop :=
  cfg st' = cfg st ∧ admin_password st' = admin_password st ∧ registry st' = registry st
  ∧ db_of st' = db_of st.
#[export] Instance still_preorder : PreOrder still.
Proof.
  split; [done|]. intros s1 s2 s3 (? & ? & ? & ?) (? & ? & ? & ?). repeat split; congruence.
Qed.

(** ** Storage operations *)

Section ops.
Context `{Argon2} `{Base64} `{Chrono}.

Definition op_beats (o : Op) (id : string) : Prop :=
  match o with OpHeartbeat i _ _ => i = id | _ => False end.

Lemma seen_kept_agents id db db' : agents db ⊆ agents db' → seen_kept id db db'.
Proof. intros Hs a Ha. exists a. split; [by eapply lookup_weaken | done]. Qed.

Lemma put_routes_agents id es ttl now clk db : agents (Store.put_routes id es ttl now clk db).2 = agents db.
Proof.
  unfold Store.put_routes, get_agent. se_run. destruct (agents db !! id); [|done]. case_decide; [|done].
  se_run. by destruct (put_routes_tx_routes id es ttl clk db) as [-> _].
Qed.
Lemma create_token_grows buf salt now db : grows db (create_enrollment_token buf salt now db).2.
Proof. unfold create_enrollment_token. se_run. destruct (map_err _ _); [|done]. se_run. by case_match. Qed.
Lemma consume_token_grows token now db : grows db (consume_enrollment_token token now db).2.
Proof.
  unfold consume_enrollment_token. se_run.
  by destruct (consume_rows_step (unused_token_hashes db) token now db) as [->|[h ->]].
Qed.
Lemma enroll_grows name ip engine ib tb salt now db :
  grows db (enroll_agent name ip engine ib tb salt now db).2.
Proof.
  unfold enroll_agent. se_run. destruct (map_err _ _); [|done]. se_run.
  destruct (agents db !! _) eqn:Ha; [done|]. split; [done|]. by apply insert_subseteq.
Qed.
Lemma snapshot_grows id payload now db : grows db (put_discovery_snapshot id payload now db).2.
Proof. unfold put_discovery_snapshot. se_run. by case_match. Qed.
Lemma upsert_grows id ag key name hosts backend now db :
  grows db (upsert_enabled_service id ag key name hosts backend now db).2.
Proof. unfold upsert_enabled_service. se_run. case_decide; [done|]. repeat case_match; done. Qed.
Lemma set_enabled_grows id b now db : grows db (set_enabled_service id b now db).2.
Proof. unfold set_enabled_service. se_run. by case_match. Qed.

Lemma exec_sound o db : db_sound (op_beats o) db (exec o db).
Proof.
  split.
  { apply rtc_effect_wf, step_effects. constructor. }
  intros id Hid. destruct o as [| | |i ip t|i es ttl t clk|h|i t| | | | |]; cbn [exec op_beats] in *;
    try apply seen_kept_agents, create_token_grows;
    try apply seen_kept_agents, consume_token_grows;
    try apply seen_kept_agents, enroll_grows;
    try apply seen_kept_agents, snapshot_grows;
    try apply seen_kept_agents, upsert_grows;
    try apply seen_kept_agents, set_enabled_grows; try (by apply seen_kept_agents).
  - intros a Ha. exists a. split; [|done]. unfold Store.heartbeat. se_run.
    destruct (agents db !! i); [|done]. case_decide; [|done]. cbn. by rewrite lookup_insert_ne.
  - apply seen_kept_agents. by rewrite put_routes_agents.
  - intros a Ha. unfold revoke_agent, revoke_delete_routes, revoke_mark. se_run.
    cbn [agents set_agents set_routes]. rewrite lookup_alter. case_decide as Hi; [|by eauto].
    subst. rewrite Ha. by eexists.
Qed.
Lemma op_sound {E A} o (B : string → Prop) (m : SE Db E A) :
  (∀ db, (m db).2 = exec o db) → (∀ id, op_beats o id → B id) → Moves (db_sound B) m.
Proof.
  intros Hm HB db. rewrite Hm. destruct (exec_sound o db) as [Hw Hk]. split; [done|].
  intros id Hid. apply Hk. naive_solver.
Qed.
End ops.

(** ** Handlers *)

Section handlers.
Context `{Argon2} `{Base64} `{Chrono} `{HeaderCrate} `{UrlCrate} `{Idna}.
Context `{SerdeJson (list string)} `{SerdeJson (list DiscoveredContainerDto)}.

Lemma storage_op_snd {A} (f : StorageError → ApiError) (m : SE Db StorageError A) st :
  (storage_op f m st).2 = set_db (m (db_of st)).2 st.
Proof. rewrite storage_op_run. by destruct (m (db_of st)) as [[]]. Qed.
Lemma storage_op_sound {A} B f (m : SE Db StorageError A) :
  Moves (db_sound B) m → Moves (sound B) (storage_op f m).
Proof. intros Hm st. rewrite storage_op_snd. do 2 (split; [done|]). apply Hm. Qed.
Lemma storage_op_quiet {A} f (m : SE Db StorageError A) :
  (∀ db, grows db (m db).2) → Moves quiet (storage_op f m).
Proof. intros Hm st. rewrite storage_op_snd. do 2 (split; [done|]). apply Hm. Qed.
Lemma storage_op_still {A} f (m : SE Db StorageError A) :
  (∀ db, (m db).2 = db) → Moves still (storage_op f m).
Proof. intros Hm st. rewrite storage_op_snd, Hm. by rewrite set_db_id. Qed.

Lemma still_quiet st st' : still st st' → quiet st st'.
Proof. intros (? & _ & ? & Hdb). do 2 (split; [done|]). by rewrite Hdb. Qed.
Lemma still_sound B st st' : still st st' → sound B st st'.
Proof. intros (? & ? & _ & Hdb). do 2 (split; [done|]). by rewrite Hdb. Qed.
Lemma check_still {A} (m : HandlerM A) : Moves still m → Moves quiet m.
Proof. intros Hm st. apply still_quiet, Hm. Qed.

#[export] Instance check_agent_still id hs : Moves still (check_agent id hs).
Proof. intros st. by rewrite check_agent_run. Qed.
#[export] Instance check_admin_still hs t t' : Moves still (check_admin hs t t').
Proof. intros st. destruct (check_admin_run hs t t' st) as [ss ->]. done. Qed.
#[export] Instance lease_ttl_still : Moves still lease_ttl.
Proof. by intros st. Qed.
#[export] Instance list_agents_still f now : Moves still (storage_op f (list_agents now)).
Proof. by apply storage_op_still. Qed.
#[export] Instance list_all_enabled_still f : Moves still (storage_op f list_all_enabled).
Proof. by apply storage_op_still. Qed.
#[export] Instance list_enabled_still f id : Moves still (storage_op f (list_enabled_for_agent id)).
Proof. by apply storage_op_still. Qed.
#[export] Instance list_snapshots_still f : Moves still (storage_op f list_discovery_snapshots).
Proof. by apply storage_op_still. Qed.
#[export] Instance list_routes_still f ttl now : Moves still (storage_op f (list_routes_admin ttl now)).
Proof. by apply storage_op_still. Qed.
#[export] Instance set_sessions_still ss : Moves (E := Failure) still (modify (set_sessions ss)).
Proof. by intros st. Qed.

Lemma desired_services_still id hs : Moves still (desired_services id hs).
Proof. unfold desired_services. moves. Qed.
Lemma admin_discovery_still hs t t' now : Moves still (admin_discovery hs t t' now).
Proof. unfold admin_discovery. moves. Qed.
Lemma admin_agents_still hs t t' t_l now : Moves still (admin_agents hs t t' t_l now).
Proof. unfold admin_agents. moves. Qed.
Lemma admin_routes_still hs t t' t_l now : Moves still (admin_routes hs t t' t_l now).
Proof. unfold admin_routes. moves. Qed.
Lemma admin_dashboard_still hs io t t' now t_l t_r : Moves still (admin_dashboard hs io t t' now t_l t_r).
Proof. unfold admin_dashboard. moves. Qed.
Lemma admin_login_still body buf t t' : Moves still (admin_login body buf t t').
Proof. unfold admin_login, refuse. moves. Qed.
Lemma admin_logout_still hs : Moves still (admin_logout hs).
Proof. unfold admin_logout. case_match; [|apply _]. apply moves_bind; [apply _| |intros; apply _]. by intros st. Qed.
Lemma ready_reply_still now : Moves still (ready_reply now).
Proof.
  intros st. unfold ready_reply, ready. se_run. unfold se_map_err, zoom. cbn [list_agents gets map_err].
  se_run. rewrite set_db_id. by destruct (negb (dns_up st)).
Qed.

(** The handlers that leave the routes alone. *)
#[local] Instance check_agent_quiet id hs : Moves quiet (check_agent id hs).
Proof. apply check_still, _. Qed.
#[local] Instance check_admin_quiet hs t t' : Moves quiet (check_admin hs t t').
Proof. apply check_still, _. Qed.
#[local] Instance lease_ttl_quiet : Moves quiet lease_ttl.
Proof. apply check_still, _. Qed.
#[local] Instance or_refuse_quiet {E A} (f : E → ApiError) (m : result E A) : Moves quiet (or_refuse f m).
Proof. unfold or_refuse. apply _. Qed.
#[local] Instance refuse_quiet {A} e : Moves quiet (refuse e : HandlerM A).
Proof. unfold refuse. apply _. Qed.
#[local] Instance consume_token_quiet f token now : Moves quiet (storage_op f (consume_enrollment_token token now)).
Proof. apply storage_op_quiet, consume_token_grows. Qed.
#[local] Instance enroll_agent_quiet f n ip e ib tb salt now :
  Moves quiet (storage_op f (enroll_agent n ip e ib tb salt now)).
Proof. apply storage_op_quiet. intros. apply enroll_grows. Qed.
#[local] Instance create_token_quiet f buf salt now :
  Moves quiet (storage_op f (Store.create_enrollment_token buf salt now)).
Proof. apply storage_op_quiet. intros. apply create_token_grows. Qed.
#[local] Instance snapshot_quiet f id p now : Moves quiet (storage_op f (put_discovery_snapshot id p now)).
Proof. apply storage_op_quiet. intros. apply snapshot_grows. Qed.
#[local] Instance upsert_quiet f i a k n h b now :
  Moves quiet (storage_op f (upsert_enabled_service i a k n h b now)).
Proof. apply storage_op_quiet. intros. apply upsert_grows. Qed.
#[local] Instance set_enabled_quiet f i b now : Moves quiet (storage_op f (set_enabled_service i b now)).
Proof. apply storage_op_quiet. intros. apply set_enabled_grows. Qed.
#[local] Instance audit_quiet f e d now : Moves quiet (storage_op f (audit e d now)).
Proof. by apply storage_op_quiet. Qed.
#[local] Instance list_enabled_quiet f id : Moves quiet (storage_op f (list_enabled_for_agent id)).
Proof. apply check_still, _. Qed.

Lemma enroll_quiet hs body ib tb salt t t' : Moves quiet (enroll hs body ib tb salt t t').
Proof. unfold enroll. moves. Qed.
Lemma put_discovery_quiet id hs body now : Moves quiet (put_discovery id hs body now).
Proof. unfold put_discovery. moves. Qed.
Lemma admin_enable_quiet hs body buf t t' now t_a : Moves quiet (admin_enable_service hs body buf t t' now t_a).
Proof. unfold admin_enable_service. moves. Qed.
Lemma admin_disable_quiet id hs t t' now t_a : Moves quiet (admin_disable_service id hs t t' now t_a).
Proof. unfold admin_disable_service. moves. Qed.
Lemma admin_create_token_quiet hs buf salt t t' now :
  Moves quiet (admin_create_enrollment_token hs buf salt t t' now).
Proof. unfold admin_create_enrollment_token. moves. Qed.

(** ** Handlers that change the routes end with a refresh *)

(** Nothing is changed in the table or what it is computed from, or the table is
    that of the storage at one of the instants [T]. *)
Definition settled (T : Z → Prop) (st st' : AppState) : Prop :=
  quiet st st' ∨ ∃ t, T t ∧ dns_in_sync t st'.
Definition Settles {A} (T : Z → Prop) (m : HandlerM A) : Prop :=
  ∀ st, ttl_of st ≠ None → settled T st (m st).2.

Lemma quiet_ttl st st' : quiet st st' → ttl_of st' = ttl_of st.
Proof. intros (Hc & _). unfold ttl_of. by rewrite Hc. Qed.
Lemma settles_quiet {A} T (m : HandlerM A) : Moves quiet m → Settles T m.
Proof. intros Hm st _. left. apply Hm. Qed.
Lemma settles_bind {A B} T (m : HandlerM A) (f : A → HandlerM B) :
  Moves quiet m → (∀ a, Settles T (f a)) → Settles T (m ≫= f).
Proof.
  intros Hm Hf st Httl. specialize (Hm st). rewrite SE_bind_run.
  destruct (m st) as [[a|e] st1]; cbn [snd] in *; [|by left].
  destruct (Hf a st1) as [Hq|Hs]; [by rewrite (quiet_ttl st)| |by right].
  left. by etrans.
Qed.

(** A mutation that does nothing when it fails, then a refresh. *)
Lemma settles_refresh {A B} T f (m : SE Db StorageError A) now (g : A → B) :
  (∀ db e db', m db = (Err e, db') → db' = db) → T now →
  Settles T (a ← storage_op f m; _ ← refresh_dns now; mret (g a)).
Proof.
  intros Hm HT st Httl. rewrite SE_bind_run, storage_op_run.
  destruct (m (db_of st)) as [[a|e] db] eqn:Hr.
  - rewrite SE_bind_run.
    destruct (refresh_dns_sync now (set_db db st)) as [(st' & -> & _ & _ & _ & Hs)|[Hn _]]; [|done].
    right. by exists now.
  - left. apply Hm in Hr as ->. cbn [snd]. by rewrite set_db_id.
Qed.

Lemma store_heartbeat_err id ip t db e db' : Store.heartbeat id ip t db = (Err e, db') → db' = db.
Proof.
  unfold Store.heartbeat. se_run. destruct (agents db !! id); [case_decide|]; by intros [= ? <-].
Qed.
Lemma store_put_routes_err id es ttl t clk db e db' :
  Store.put_routes id es ttl t clk db = (Err e, db') → db' = db.
Proof.
  unfold Store.put_routes, get_agent. se_run. destruct (agents db !! id); [|by intros [= ? <-]].
  case_decide; [|by intros [= ? <-]]. se_run. unfold put_routes_tx. by case_match; [case_match|]; intros [= ? <-].
Qed.

Lemma heartbeat_settles T id hs body t t_dns : T t_dns → Settles T (heartbeat id hs body t t_dns).
Proof.
  intros HT. unfold heartbeat. apply settles_bind; [apply _|]. intros _.
  apply (settles_refresh T ApiStorage _ t_dns (λ _, 204)); [apply store_heartbeat_err | done].
Qed.
Lemma put_routes_settles T id hs body t clk t_dns : T t_dns → Settles T (put_routes id hs body t clk t_dns).
Proof.
  intros HT. unfold put_routes. apply settles_bind; [apply _|]. intros _.
  apply settles_bind; [apply _|]. intros c. apply settles_bind; [apply _|]. intros _.
  apply settles_bind; [apply _|]. intros ttl.
  apply (settles_refresh T ApiStorage _ t_dns
    (λ out, {| ps_accepted := accepted out; ps_conflicts := conflicts out |})); [|done].
  apply store_put_routes_err.
Qed.
Lemma admin_delete_settles T h hs t t' t_dns : T t_dns → Settles T (admin_delete_route h hs t t' t_dns).
Proof.
  intros HT. unfold admin_delete_route. apply settles_bind; [apply _|]. intros _.
  by apply (settles_refresh T ApiStorage _ t_dns (λ _, 204)).
Qed.
Lemma admin_revoke_settles T id hs t t' now t_dns :
  T t_dns → Settles T (admin_revoke_agent id hs t t' now t_dns).
Proof.
  intros HT. unfold admin_revoke_agent. apply settles_bind; [apply _|]. intros _.
  by apply (settles_refresh T ApiStorage _ t_dns (λ _, 204)).
Qed.
Lemma cleanup_settled ttl t t_dns st : ttl_of st ≠ None → dns_in_sync t_dns (cleanup_tick ttl t t_dns st).2.
Proof.
  intros Httl. unfold cleanup_tick. rewrite SE_bind_run.
  unfold ignore at 1. rewrite storage_op_run. cbn [snd]. unfold ignore.
  match goal with |- context [refresh_dns t_dns ?x] =>
    destruct (refresh_dns_sync t_dns x) as [(st1 & -> & _ & _ & _ & Hs)|[Hn _]] end; done.
Qed.
Lemma cleanup_settles T ttl t t_dns : T t_dns → Settles T (cleanup_tick ttl t t_dns).
Proof. intros HT st Httl. right. exists t_dns. split; [done|]. by apply cleanup_settled. Qed.
End handlers.

Create HintDb settles.

(** ** Requests and events *)

Section events.
Context `{Argon2} `{Base64} `{Chrono} `{Axum} `{UrlCrate} `{Idna}.
Context `{SerdeJson (list string)} `{SerdeJson (list DiscoveredContainerDto)}.
Context `{SerdeJson EnrollRequest} `{SerdeJson HeartbeatRequest} `{SerdeJson PutRoutesRequest}.
Context `{SerdeJson DiscoveryReportRequest} `{SerdeJson EnableServiceRequest} `{SerdeJson LoginRequest}.

(** What happens to a running controller. *)
Inductive Event :=
| Request (w : World) (r : HttpRequest)
| Tick (t_purge t_dns : Z)
| DnsFlag (up : bool).
Definition run_event (st : AppState) (e : Event) : AppState :=
  match e with
  | Request w r => (serve w r st).2
  | Tick t_purge t_dns =>
      match ttl_of st with Some ttl => (cleanup_tick ttl t_purge t_dns st).2 | None => st end
  | DnsFlag up => set_dns_up up st
  end.
Definition run_events (es : list Event) (st : AppState) : AppState := foldl run_event st es.

(** The instants an event reads. *)
Definition reads (e : Event) (t : Z) : Prop :=
  match e with
  | Request w _ => ∃ i, w_now w i = t
  | Tick _ t_dns => t_dns = t
  | DnsFlag _ => False
  end.
(** The agents heard from. *)
Definition beats (e : Event) (id : string) : Prop :=
  match e with
  | Request _ r => dispatch (hq_method r) (hq_path r) = Found (EHeartbeat id)
  | _ => False
  end.

(** Who a request must be, when it changes the storage or the DNS table. *)
Definition entitled (w : World) (r : HttpRequest) (st : AppState) : Prop :=
  let hs := hq_headers r in
  match dispatch (hq_method r) (hq_path r) with
  | Found (EHeartbeat id | EPutRoutes id | EPutDiscovery id) => agent_authorized (db_of st) id hs = true
  | Found EEnroll =>
      ∃ token h, bearer_token hs = Some token ∧ h ∈ unused_token_hashes (db_of st)
        ∧ verify_token h token = true
  | Found (EEnable | EDisable _ | EDeleteRoute _ | ECreateToken | ERevoke _) =>
      admin_bearer st hs (w_now w 0%nat) (w_now w 1%nat) = true
  | _ => False
  end.

Lemma reply_snd {A} (f : A → Reply) (m : SE AppState Failure A) st : (reply f m st).2 = (m st).2.
Proof. unfold reply. rewrite SE_bind_run. by destruct (m st) as [[]]. Qed.
Lemma reply_moves {A} (R : relation AppState) (f : A → Reply) (m : SE AppState Failure A) :
  Moves R m → Moves R (reply f m).
Proof. intros Hm st. rewrite reply_snd. apply Hm. Qed.
Lemma reply_settles {A} T (f : A → Reply) (m : SE AppState Failure A) :
  Settles T m → Settles T (reply f m).
Proof. intros Hm st. rewrite reply_snd. apply Hm. Qed.
Lemma with_json_moves {A} `{SerdeJson A} (R : relation AppState) `{!PreOrder R} r h :
  (∀ b : A, Moves R (h b)) → Moves R (with_json r h).
Proof. intros Hh. unfold with_json. case_match; apply _. Qed.
Lemma with_json_settles {A} `{SerdeJson A} T r h :
  (∀ b : A, Settles T (h b)) → Settles T (with_json r h).
Proof. intros Hh. unfold with_json. case_match; [done|]. apply settles_quiet, _. Qed.

Lemma still_as_quiet {A} T (m : HandlerM A) : Moves still m → Settles T m.
Proof. intros Hm. apply settles_quiet, check_still, Hm. Qed.
#[local] Hint Resolve desired_services_still admin_discovery_still admin_agents_still admin_routes_still
  admin_dashboard_still admin_login_still admin_logout_still enroll_quiet put_discovery_quiet
  admin_enable_quiet admin_disable_quiet admin_create_token_quiet heartbeat_settles put_routes_settles
  admin_delete_settles admin_revoke_settles reply_settles with_json_settles : settles.
#[local] Hint Extern 5 (Settles _ _) => apply settles_quiet : settles.
#[local] Hint Extern 4 (Settles _ _) => apply still_as_quiet : settles.
#[local] Hint Extern 3 => progress intros : settles.

Lemma serve_settles w r : Settles (λ t, ∃ i, w_now w i = t) (serve w r).
Proof.
  unfold serve. destruct (dispatch _ _) as [| | |e]; try (apply settles_quiet, _).
  destruct e; cbn [call]; try (apply settles_quiet, _); try (by eauto 10 with settles).
  apply settles_quiet, check_still, ready_reply_still.
Qed.

(** Every request is [sound], but for the heartbeats it delivers. *)
Lemma op_sound_st {A} o (B : string → Prop) f (m : SE Db StorageError A) :
  (∀ db, (m db).2 = exec o db) → (∀ id, op_beats o id → B id) → Moves (sound B) (storage_op f m).
Proof. intros Hm HB. by eapply storage_op_sound, op_sound. Qed.
Lemma refresh_sound B now : Moves (sound B) (refresh_dns now).
Proof.
  intros st. unfold refresh_dns. rewrite SE_bind_run, refresh_read_run. by destruct (ttl_of st).
Qed.
Lemma still_moves {A} B (m : HandlerM A) : Moves still m → Moves (sound B) m.
Proof. intros Hm st. apply still_sound, Hm. Qed.
(** The operation of [Op] a storage call is. *)
Ltac op_sound :=
  match goal with |- Moves (sound _) (storage_op _ ?m) =>
    let o := match m with
    | consume_enrollment_token ?k ?t => constr:(OpConsumeToken k t)
    | enroll_agent ?n ?i ?e ?b1 ?b2 ?s ?t => constr:(OpEnroll n i e b1 b2 s t)
    | Store.create_enrollment_token ?b ?s ?t => constr:(OpCreateToken b s t)
    | Store.heartbeat ?i ?ip ?t => constr:(OpHeartbeat i ip t)
    | Store.put_routes ?i ?es ?ttl ?t ?c => constr:(OpPutRoutes i es ttl t c)
    | delete_route ?h => constr:(OpDeleteRoute h)
    | revoke_agent ?i ?t => constr:(OpRevoke i t)
    | purge_expired_agents ?l ?t => constr:(OpPurge l t)
    | put_discovery_snapshot ?i ?p ?t => constr:(OpPutSnapshot i p t)
    | upsert_enabled_service ?i ?a ?k ?n ?h ?b ?t => constr:(OpUpsertEnabled i a k n h b t)
    | set_enabled_service ?i ?b ?t => constr:(OpSetEnabled i b t)
    | audit ?e ?d ?t => constr:(OpAudit e d t)
    end in apply (op_sound_st o); [done | cbn [op_beats beats]; by intros; subst]
  end.
Ltac sound :=
  lazymatch goal with
  | |- Moves _ (mbind _ _) => apply moves_bind; [apply _| |intros ?]; sound
  | |- Moves _ (ignore _) => apply moves_ignore; sound
  | |- Moves _ (refresh_dns _) => apply refresh_sound
  | |- Moves _ (storage_op _ _) => first [op_sound | apply still_moves, _]
  | |- Moves _ (match ?x with _ => _ end) => destruct x; sound
  | |- _ => first [apply _ | apply still_moves, _]
  end.

Lemma serve_sound w r : Moves (sound (beats (Request w r))) (serve w r).
Proof.
  unfold serve. destruct (dispatch _ _) as [| | |e] eqn:Hd; try apply _.
  destruct e; cbn [call]; try apply _;
    try (apply with_json_moves; [apply _|intros b]); try apply reply_moves;
    try (apply still_moves; by eauto using desired_services_still, admin_discovery_still,
      admin_agents_still, admin_routes_still, admin_dashboard_still, admin_login_still,
      admin_logout_still, ready_reply_still).
  - unfold enroll. sound.
  - unfold heartbeat. sound.
  - unfold put_routes. sound.
  - unfold put_discovery, or_refuse. sound.
  - unfold admin_enable_service, or_refuse, refuse. sound.
  - unfold admin_disable_service. sound.
  - unfold admin_delete_route. sound.
  - unfold admin_create_enrollment_token. sound.
  - unfold admin_revoke_agent. sound.
Qed.
Lemma run_event_sound e st : sound (beats e) st (run_event st e).
Proof.
  destruct e as [w r|t_purge t_dns|up]; cbn [run_event]; [apply serve_sound| |].
  - destruct (ttl_of st) as [ttl|]; [|reflexivity].
    assert (Moves (sound (beats (Tick t_purge t_dns))) (cleanup_tick ttl t_purge t_dns)) as Hm; [|apply Hm].
    unfold cleanup_tick. sound.
  - by do 2 (split; [done|]).
Qed.

Lemma run_event_settled e st : ttl_of st ≠ None → settled (reads e) st (run_event st e).
Proof.
  intros Httl. destruct e as [w r|t_purge t_dns|up]; cbn [run_event]; [by apply serve_settles| |by left].
  destruct (ttl_of st) as [ttl|] eqn:Ht; [|done]. apply cleanup_settles; [done | congruence].
Qed.

Lemma lease_alive_later t t' ttl ls : t <= t' → lease_alive t ttl ls = false → lease_alive t' ttl ls = false.
Proof. intros Hle. unfold lease_alive. case_match; [|done]. rewrite !Z.ltb_ge. lia. Qed.

(** The table stays that of the storage, at an instant that was read. *)
Lemma dns_entry_grows ttl now db db' h :
  db_wf db → grows db db' → dns_entry ttl now db' h = dns_entry ttl now db h.
Proof.
  intros Hwf [Hr Ha]. unfold dns_entry. rewrite Hr. destruct (routes db !! h) as [r|] eqn:Hh; [|done].
  cbn [mbind option_bind]. destruct (wf_route_agent _ Hwf _ _ Hh) as [a Hra].
  by rewrite Hra, (lookup_weaken _ _ _ _ Hra Ha).
Qed.
Lemma settled_sync T t st st' : db_wf (db_of st) → dns_in_sync t st → settled T st st' →
  ∃ t', (t' = t ∨ T t') ∧ dns_in_sync t' st'.
Proof.
  intros Hwf (ttl & Httl & Hs) [Hq|(t' & ? & ?)]; [|by eauto]. exists t. split; [by left|].
  exists ttl. split; [by rewrite (quiet_ttl st)|]. intros h. destruct Hq as (_ & -> & Hg).
  by rewrite (dns_entry_grows _ _ _ _ h Hwf Hg).
Qed.

(** What holds of the controller at all times, [T] being the instants allowed. *)
Record tracking (T : Z → Prop) (st : AppState) : Prop := {
  tr_wf : db_wf (db_of st);
  tr_sync : ∃ t, T t ∧ dns_in_sync t st;
}.
Lemma run_event_tracking (T : Z → Prop) e st :
  (∀ t, reads e t → T t) → tracking T st → tracking T (run_event st e).
Proof.
  intros HT [Hwf (t & Ht & Hs)]. split.
  { apply (run_event_sound e st). done. }
  destruct (settled_sync (reads e) t st (run_event st e) Hwf Hs) as (t' & Ht' & Hs').
  - apply run_event_settled. destruct Hs as (ttl & Httl & _). congruence.
  - exists t'. split; [naive_solver | done].
Qed.
Lemma run_events_tracking (T : Z → Prop) es st :
  Forall (λ e, ∀ t, reads e t → T t) es → tracking T st → tracking T (run_events es st).
Proof.
  intros Hes. revert st. induction Hes as [|e es He _ IH]; intros st Hst; [done|].
  by apply IH, run_event_tracking.
Qed.
Lemma run_events_kept es st id :
  Forall (λ e, ¬ beats e id) es → seen_kept id (db_of st) (db_of (run_events es st)).
Proof.
  intros Hes. revert st. induction Hes as [|e es He _ IH]; intros st; [reflexivity|].
  etrans; [by apply (run_event_sound e st) | apply IH].
Qed.
Lemma run_events_cfg es st : cfg (run_events es st) = cfg st
  ∧ admin_password (run_events es st) = admin_password st.
Proof.
  revert st. induction es as [|e es IH]; intros st; [done|]. cbn [run_events foldl].
  destruct (IH (run_event st e)) as [Hc Hp]. unfold run_events in *. rewrite Hc, Hp.
  by destruct (run_event_sound e st) as (? & ? & _).
Qed.

(** A request that is not entitled changes at most the sessions. *)
Lemma guard_still {A B} (m : HandlerM A) (f : A → HandlerM B) st e :
  Moves still m → (m st).1 = Err e → still st ((m ≫= f) st).2.
Proof.
  intros Hm He. specialize (Hm st). rewrite SE_bind_run. by destruct (m st) as [[a|] st'].
Qed.
End events.

(** ** Properties *)

Section properties.
Context `{Argon2} `{Base64} `{Chrono} `{Axum} `{UrlCrate} `{Idna}.
Context `{SerdeJson (list string)} `{SerdeJson (list DiscoveredContainerDto)}.
Context `{SerdeJson EnrollRequest} `{SerdeJson HeartbeatRequest} `{SerdeJson PutRoutesRequest}.
Context `{SerdeJson DiscoveryReportRequest} `{SerdeJson EnableServiceRequest} `{SerdeJson LoginRequest}.

Lemma agent_guard {A} id hs (f : unit → HandlerM A) st :
  still st ((check_agent id hs ≫= f) st).2 ∨ agent_authorized (db_of st) id hs = true.
Proof.
  destruct (agent_authorized (db_of st) id hs) eqn:Ha; [by right|left].
  apply (guard_still _ _ _ (Refused Unauthorized)); [apply _ | by rewrite check_agent_run, Ha].
Qed.
Lemma admin_guard {A} hs t t' (f : unit → HandlerM A) st :
  still st ((check_admin hs t t' ≫= f) st).2 ∨ admin_bearer st hs t t' = true.
Proof.
  destruct (admin_bearer st hs t t') eqn:Ha; [by right|left].
  apply (guard_still _ _ _ (Refused Unauthorized)); [apply _|].
  destruct (check_admin_run hs t t' st) as [ss ->]. by rewrite Ha.
Qed.
Lemma enroll_guard hs body ib tb salt t t' st :
  still st (enroll hs body ib tb salt t t' st).2
  ∨ ∃ token h, bearer_token hs = Some token ∧ h ∈ unused_token_hashes (db_of st)
      ∧ verify_token h token = true.
Proof.
  unfold enroll. se_run. destruct (bearer_token hs) as [token|]; [|by left]. cbn [ok_or].
  rewrite SE_bind_run, storage_op_run. unfold consume_enrollment_token. se_run.
  rewrite consume_rows_matching.
  destruct (matching token (unused_token_hashes (db_of st))) as [|h l] eqn:Hm.
  - left. cbn [snd]. by rewrite set_db_id.
  - right. exists token, h. split; [done|].
    apply and_comm, (list_elem_of_filter (λ h, verify_token h token = true)).
    change (h ∈ matching token (unused_token_hashes (db_of st))). rewrite Hm. by left.
Qed.
Lemma still_left {A} (m : HandlerM A) (P : Prop) st : Moves still m → still st (m st).2 ∨ P.
Proof. intros Hm. left. apply Hm. Qed.
Lemma with_json_guard {A} `{SerdeJson A} r (h : A → HandlerM Reply) (P : Prop) st :
  (∀ b, still st (h b st).2 ∨ P) → still st (with_json r h st).2 ∨ P.
Proof. intros Hh. unfold with_json. case_match; [done | by left]. Qed.

Lemma serve_guard w r st : still st (serve w r st).2 ∨ entitled w r st.
Proof.
  unfold serve, entitled. destruct (dispatch _ _) as [| | |e]; try (by left).
  destruct e; cbn [call]; try (by left); try (apply with_json_guard; intros b); rewrite ?reply_snd;
    try (apply still_left; by eauto using desired_services_still, admin_discovery_still,
      admin_agents_still, admin_routes_still, admin_dashboard_still, admin_login_still,
      admin_logout_still, ready_reply_still);
    first [apply agent_guard | apply admin_guard | apply enroll_guard].
Qed.

(** A request changes the storage or the DNS table only if it dispatches to an
    endpoint it is entitled to: an agent's endpoint with that agent's live
    credential, an admin's with a live session or the admin password, the
    enrollment with a token that an unused hash matches.  No request, whatever
    its path, method, headers and body, changes the configuration or the admin
    password. *)
Theorem only_entitled_requests_change w r st :
  let st' := (serve w r st).2 in
  cfg st' = cfg st ∧ admin_password st' = admin_password st
  ∧ (db_of st' ≠ db_of st ∨ registry st' ≠ registry st → entitled w r st).
Proof.
  intros st'. destruct (serve_sound w r st) as (Hc & Hp & _). do 2 (split; [done|]).
  destruct (serve_guard w r st) as [(_ & _ & Hr & Hd)|He]; [|done]. fold st' in Hr, Hd. tauto.
Qed.

(** A start leaves the configuration and the database, and fills the table. *)
Lemma boot_sync dev_defaults read db c now st0 :
  boot dev_defaults read db c now = Some (Ok st0) →
  cfg st0 = c ∧ db_of st0 = db ∧ dns_in_sync now st0.
Proof.
  intros Hboot. unfold boot, connect in Hboot. destruct (duration_seconds _) as [ttl|] eqn:Ht; [|done].
  cbn [mbind option_bind] in Hboot. injection Hboot as Hboot.
  apply result_bind_Ok in Hboot as (st1 & Hn & [= <-]). unfold new_state in Hn.
  apply result_bind_Ok in Hn as (pw & _ & [= <-]). unfold ignore. cbn [snd].
  match goal with |- context [refresh_dns now ?x] =>
    destruct (refresh_dns_sync now x) as [(st2 & -> & ? & ? & _ & ?)|[Hn _]] end; [done|].
  unfold ttl_of in Hn. cbn in Hn. congruence.
Qed.

(** From its start on, whatever requests, cleanup ticks and failures of the
    listener follow, the controller's tables stay well formed and its DNS table is
    that of the storage at the start or at an instant some event has read:  no
    sequence of operations leaves a hostname resolving to an agent that did not
    own it then. *)
Theorem controller_tracks_storage dev_defaults read db c now st0 es :
  db_wf db → boot dev_defaults read db c now = Some (Ok st0) →
  let st := run_events es st0 in
  db_wf (db_of st) ∧ cfg st = c
  ∧ ∃ t, (t = now ∨ ∃ e, e ∈ es ∧ reads e t) ∧ dns_in_sync t st.
Proof.
  intros Hwf Hboot st. destruct (boot_sync _ _ _ _ _ _ Hboot) as (Hc & Hdb & Hs).
  set (T := λ t, t = now ∨ ∃ e, e ∈ es ∧ reads e t).
  destruct (run_events_tracking T es st0) as [Hw (t & Ht & Hst)].
  - apply Forall_forall. intros e He t Ht. right. by exists e.
  - split; [by rewrite Hdb|]. exists now. split; [by left | done].
  - destruct (run_events_cfg es st0) as [Hcfg _]. split; [done|]. split; [|by exists t].
    unfold st. by rewrite Hcfg.
Qed.

End properties.

(** ** Witnesses: an agent enrols, publishes a name and falls silent. *)
Section witnesses.
#[local] Existing Instance bits_chrono.
#[local] Existing Instance plain_argon2.
#[local] Existing Instance raw_base64.
#[local] Existing Instance plain_headers.
#[local] Existing Instance plain_url.
#[local] Existing Instance id_idna.
#[local] Existing Instance plain_strings.
#[local] Instance dtos_json : SerdeJson (list DiscoveredContainerDto) := no_json _.
#[local] Instance enroll_json : SerdeJson EnrollRequest :=
  {| to_json _ := Err EmptyString; from_json _ := Ok ControllerSpec.enroll_body |}.
#[local] Instance beat_json : SerdeJson HeartbeatRequest := no_json _.
#[local] Instance put_json : SerdeJson PutRoutesRequest :=
  {| to_json _ := Err EmptyString; from_json h := Ok (ControllerSpec.bodies h) |}.
#[local] Instance report_json : SerdeJson DiscoveryReportRequest := no_json _.
#[local] Instance enable_json : SerdeJson EnableServiceRequest := no_json _.
#[local] Instance login_json : SerdeJson LoginRequest := no_json _.
#[local] Instance plain_axum : Axum :=
  {| match_path p s := match_segments (split "/"%char p) (split "/"%char s); json_type _ := true |}.

#[local] Definition world (t : Z) (b0 b1 : list Z) : World :=
  mk_world (λ _, t) (λ i, match i with O => b0 | _ => b1 end) "salt" (λ _, mk_clock t t t)
    (λ _ _, mk_probe_io TimedOut 0 (Ok tt) 0 TimedOut 0).
#[local] Definition http (m p bearer body : string) : HttpRequest :=
  mk_http m p (ControllerSpec.bearer bearer) body.
#[local] Definition demo_events : list Event :=
  [Request (world 2 [65] []) (http "POST" "/v1/admin/enrollment-tokens" "secret" "");
   Request (world 3 [49] [50]) (http "POST" "/v1/agents/enroll" "A" "");
   Tick 4 4;
   Request (world 5 [] []) (http "PUT" "/v1/agents/agt_1/routes" "2" "A.internal")].
#[local] Definition demo_state : AppState := run_events demo_events ControllerSpec.st0.

Example demo_published : registry demo_state !! "a.internal" = Some (mk_ipv4 100 64 0 1).
Proof. vm_compute. reflexivity. Qed.

Lemma boot_eq :
  boot false (λ _, Ok "secret") empty_db ControllerSpec.test_cfg 1 = Some (Ok ControllerSpec.st0).
Proof. vm_compute. reflexivity. Qed.
Lemma controller_tracks_storage_witness :
  db_wf (db_of demo_state) ∧ ∃ t, (t = 1 ∨ ∃ e, e ∈ demo_events ∧ reads e t) ∧ dns_in_sync t demo_state.
Proof.
  destruct (controller_tracks_storage false (λ _, Ok "secret") empty_db ControllerSpec.test_cfg 1
    ControllerSpec.st0 demo_events empty_db_wf boot_eq) as (Hwf & _ & Ht).
  split; [exact Hwf | exact Ht].
Defined.

Lemma only_entitled_requests_change_witness :
  agent_authorized (db_of demo_state) "agt_1" (ControllerSpec.bearer "2") = true.
Proof.
  destruct (only_entitled_requests_change (world 6 [] []) (http "PUT" "/v1/agents/agt_1/routes" "2" "b.internal")
    demo_state) as (_ & _ & He).
  apply He. right. intros Hr.
  assert (registry (serve (world 6 [] []) (http "PUT" "/v1/agents/agt_1/routes" "2" "b.internal") demo_state).2
    !! "b.internal" = registry demo_state !! "b.internal") as Hn by (by rewrite Hr).
  vm_compute in Hn. discriminate.
Defined.

(** The lease ends at 90 seconds after the enrollment; the agent tries again. *)
#[local] Definition later : Z := 90000000003.
#[local] Definition late_events : list Event :=
  [DnsFlag true; Request (world (later + 5) [] []) (http "PUT" "/v1/agents/agt_1/routes" "2" "A.internal")].
Lemma demo_wf : db_wf (db_of demo_state).
Proof.
  apply (run_events_tracking (λ _, True) demo_events ControllerSpec.st0).
  - by apply Forall_true.
  - split; [apply empty_db_wf|]. exists 1. split; [done|]. eexists. split; [reflexivity|].
    intros h. vm_compute. destruct h; reflexivity.
Qed.
#[local] Definition demo_agent : AgentRow :=
  default (StoreRoutes.agent_seen 0) (agents (db_of demo_state) !! "agt_1").
Lemma late_events_ok :
  Forall (λ e, ¬ beats e "agt_1" ∧ ∀ t', reads e t' → later <= t') late_events.
Proof.
  apply Forall_cons_2; [split; [intros [] | intros t' []]|].
  apply Forall_cons_2; [|apply Forall_nil_2]. split; [vm_compute; discriminate|].
  intros t' [i <-]. cbn. unfold later. lia.
Qed.
End witnesses.
