(* ===== verification/Threads.v ===== *)
(** * Requests as sequences of atomic steps

    A handler of the controller is an [async fn]: between two awaits it runs
    alone, and at every await other requests may run, the statement it waits for
    may fail, or the client may hang up, after which hyper never resumes it.  A
    [Thread] is such a computation.  [alone] runs one without interruption, and
    [wp] is a small program logic for threads among others: an invariant of the
    shared state, indexed by a world that only grows, holds between the steps. *)
From S2P Require Import Prelude RustStr Net Externals Common Store Config Registry Sessions State Controller.
#[local] Open Scope Z_scope.

(** [Local] is code that runs without an await, [Stmt] one statement of the
    database with the mapping of its errors. *)
Inductive Thread (A : Type) : Type :=
| Ret (r : result Failure A)
| Local {B : Type} (m : HandlerM B) (k : result Failure B → Thread A)
| Stmt {B : Type} (f : StorageError → ApiError) (m : SE Db StorageError B)
    (k : result Failure B → Thread A).
Arguments Ret {A} r.
Arguments Local {A B} m k.
Arguments Stmt {A B} f m k.

Fixpoint t_bind {A B} (f : A → Thread B) (t : Thread A) : Thread B :=
  match t with
  | Ret (Ok a) => f a
  | Ret (Err e) => Ret (Err e)
  | Local m k => Local m (λ r, t_bind f (k r))
  | Stmt g m k => Stmt g m (λ r, t_bind f (k r))
  end.
#[global] Instance thread_ret : MRet Thread := λ A a, Ret (Ok a).
#[global] Instance thread_bind : MBind Thread := @t_bind.

Definition local {A} (m : HandlerM A) : Thread A := Local m Ret.
Definition stmt {A} (f : StorageError → ApiError) (m : SE Db StorageError A) : Thread A := Stmt f m Ret.
(** The outcome as a value, for a caller that does not give up on an error. *)
Fixpoint catch {A} (t : Thread A) : Thread (result Failure A) :=
  match t with
  | Ret r => Ret (Ok r)
  | Local m k => Local m (λ r, catch (k r))
  | Stmt g m k => Stmt g m (λ r, catch (k r))
  end.

(** ** Steps *)

(** The next step; [fails] is the error of a statement that does not succeed. *)
Definition advance {A} (fails : option StorageError) (t : Thread A) (st : AppState)
    : option (AppState * Thread A) :=
  match t, fails with
  | Ret _, _ => None
  | Local m k, None => let '(r, st') := m st in Some (st', k r)
  | Local _ _, Some _ => None
  | Stmt f m k, None => let '(r, st') := storage_op f m st in Some (st', k r)
  | Stmt f _ k, Some e => Some (st, k (Err (Refused (f e))))
  end.

(** All steps in a row. *)
Fixpoint alone {A} (t : Thread A) : HandlerM A :=
  match t with
  | Ret r => lift r
  | Local m k => λ st, let '(r, st') := m st in alone (k r) st'
  | Stmt f m k => λ st, let '(r, st') := storage_op f m st in alone (k r) st'
  end.

(** ** Running alone *)

(** Computations that agree on every state. *)
Definition se_eq {S E A} : relation (SE S E A) := λ m m', ∀ s, m s = m' s.
#[export] Instance se_eq_equiv {S E A} : Equivalence (@se_eq S E A).
Proof.
  split; [by intros m s | by intros m m' Hm s | intros m1 m2 m3 H12 H23 s; by rewrite H12].
Qed.
Lemma se_eq_bind {S E A B} (m m' : SE S E A) (f f' : A → SE S E B) :
  se_eq m m' → (∀ a, se_eq (f a) (f' a)) → se_eq (m ≫= f) (m' ≫= f').
Proof.
  intros Hm Hf s. rewrite !SE_bind_run, Hm. destruct (m' s) as [[a|e] s']; [apply Hf | done].
Qed.

Lemma alone_bind {A B} (t : Thread A) (f : A → Thread B) :
  se_eq (alone (t ≫= f)) (alone t ≫= λ a, alone (f a)).
Proof.
  intros st. revert st. induction t as [[a|e]|C m k IH|C g m k IH]; intros st; [done..| |].
  all: rewrite SE_bind_run; cbn [mbind thread_bind t_bind alone];
    match goal with |- context [let '(r, st') := ?x in _] => destruct x as [r st'] end; by rewrite <- SE_bind_run, <- IH.
Qed.
Lemma alone_local {A} (m : HandlerM A) : se_eq (alone (local m)) m.
Proof. intros st. unfold local. cbn [alone]. by destruct (m st) as [r st']. Qed.
Lemma alone_stmt {A} f (m : SE Db StorageError A) : se_eq (alone (stmt f m)) (storage_op f m).
Proof. intros st. unfold stmt. cbn [alone]. by destruct (storage_op f m st) as [r st']. Qed.
Lemma alone_ret {A} (a : A) : se_eq (alone (mret a)) (mret a).
Proof. by intros st. Qed.
Lemma alone_catch {A} (t : Thread A) st :
  alone (catch t) st = (Ok (alone t st).1, (alone t st).2).
Proof.
  revert st. induction t as [r|C m k IH|C g m k IH]; intros st; [done| |].
  all: cbn [catch alone]; match goal with |- context [let '(r, st') := ?x in _] => destruct x as [r st'] end;
    apply IH.
Qed.
Lemma alone_ignore {A} (t : Thread A) (m : HandlerM A) :
  se_eq (alone t) m → se_eq (alone (_ ← catch t; mret tt)) (ignore m).
Proof.
  intros Hm. etrans; [apply alone_bind|]. intros st. rewrite SE_bind_run, alone_catch, Hm. done.
Qed.
(** Two statements of the storage are one computation of it when nothing runs
    between them. *)
Lemma storage_op_bind {A B} f (m : SE Db StorageError A) (g : A → SE Db StorageError B) :
  se_eq (storage_op f m ≫= λ a, storage_op f (g a)) (storage_op f (m ≫= g)).
Proof.
  intros st. rewrite SE_bind_run. unfold storage_op, se_map_err, zoom. rewrite SE_bind_run.
  destruct (m (db_of st)) as [[a|e] db]; [|done]. cbn [map_err].
  change (db_of (set_db db st)) with db. by destruct (g a db).
Qed.

(** ** A logic for threads among others *)

Section wp.
(** How the world grows, and how a step of the thread itself may make it grow. *)
Context {W : Type} (le G : relation W) `{!PreOrder le} `{!PreOrder G} (G_le : ∀ w w', G w w' → le w w').
(** The invariant of the shared state in a world, and what else may be assumed of
    the state before a step. *)
Context (I : W → AppState → Prop) (P : AppState → Prop).

(** Whatever the other threads do to the state and the world, every step keeps
    the invariant, and the result satisfies [Q]. *)
Fixpoint wp {A} (w : W) (t : Thread A) (Q : W → result Failure A → Prop) : Prop :=
  match t with
  | Ret r => ∀ w', le w w' → Q w' r
  | Local m k => ∀ w' st, le w w' → I w' st → P st →
      ∃ w'', G w' w'' ∧ I w'' (m st).2 ∧ wp w'' (k (m st).1) Q
  | Stmt f m k => ∀ w' st, le w w' → I w' st → P st →
      (∃ w'', G w' w'' ∧ I w'' (storage_op f m st).2 ∧ wp w'' (k (storage_op f m st).1) Q)
      ∧ ∀ e, wp w' (k (Err (Refused (f e)))) Q
  end.

Lemma wp_world {A} (t : Thread A) w w' Q : le w w' → wp w t Q → wp w' t Q.
Proof.
  intros Hw. destruct t as [r|B m k|B f m k]; cbn [wp]; intros Ht.
  - intros w2 H2. apply Ht. by etrans.
  - intros w2 st H2. apply Ht. by etrans.
  - intros w2 st H2. apply Ht. by etrans.
Qed.
Lemma wp_mono {A} (t : Thread A) w (Q Q' : W → result Failure A → Prop) :
  (∀ w' r, le w w' → Q w' r → Q' w' r) → wp w t Q → wp w t Q'.
Proof.
  revert w. induction t as [r|B m k IH|B f m k IH]; intros w HQ; cbn [wp].
  - eauto.
  - intros Ht w' st Hw Hi Hp. destruct (Ht w' st Hw Hi Hp) as (w2 & H2 & Hi2 & Hk).
    exists w2. split; [done|]. split; [done|]. apply IH; [|done].
    intros w3 r H3. apply HQ. etrans; [exact Hw|]. etrans; [by apply G_le | done].
  - intros Ht w' st Hw Hi Hp. destruct (Ht w' st Hw Hi Hp) as [(w2 & H2 & Hi2 & Hk) He]. split.
    + exists w2. split; [done|]. split; [done|]. apply IH; [|done].
      intros w3 r H3. apply HQ. etrans; [exact Hw|]. etrans; [by apply G_le | done].
    + intros e. apply IH; [|done]. intros w3 r H3. apply HQ. by etrans.
Qed.
Lemma wp_bind {A B} (t : Thread A) (f : A → Thread B) w Q :
  wp w t (λ w' r, match r with Ok a => wp w' (f a) Q | Err e => wp w' (Ret (Err e)) Q end) →
  wp w (t ≫= f) Q.
Proof.
  revert w. induction t as [[a|e]|C m k IH|C g m k IH]; intros w; cbn [mbind thread_bind t_bind wp].
  - intros Ht. apply (Ht w). reflexivity.
  - intros Ht w' Hw. apply (Ht w' Hw w'). reflexivity.
  - intros Ht w' st Hw Hi Hp. destruct (Ht w' st Hw Hi Hp) as (w2 & H2 & Hi2 & Hk).
    exists w2. split; [done|]. split; [done|]. by apply IH.
  - intros Ht w' st Hw Hi Hp. destruct (Ht w' st Hw Hi Hp) as [(w2 & H2 & Hi2 & Hk) He]. split.
    + exists w2. split; [done|]. split; [done|]. by apply IH.
    + intros e. by apply IH.
Qed.
Lemma wp_catch {A} (t : Thread A) w Q : wp w t (λ w' r, Q w' (Ok r)) → wp w (catch t) Q.
Proof.
  revert w. induction t as [r|C m k IH|C g m k IH]; intros w; cbn [catch wp]; [done| |].
  - intros Ht w' st Hw Hi Hp. destruct (Ht w' st Hw Hi Hp) as (w2 & H2 & Hi2 & Hk). eauto 6.
  - intros Ht w' st Hw Hi Hp. destruct (Ht w' st Hw Hi Hp) as [(w2 & H2 & Hi2 & Hk) He]. eauto 8.
Qed.

(** A step keeps the invariant and what the thread promises. *)
Lemma advance_wp {A} fails (t t' : Thread A) w st st' Q :
  I w st → P st → wp w t Q → advance fails t st = Some (st', t') →
  ∃ w', G w w' ∧ I w' st' ∧ wp w' t' Q.
Proof.
  intros Hi Hp Ht. destruct t as [r|B m k|B f m k]; cbn [advance wp] in *; [done|..].
  - destruct fails; [done|]. destruct (Ht w st (reflexivity _) Hi Hp) as (w2 & H2 & Hi2 & Hk).
    destruct (m st) as [r st2]. intros [= <- <-]. by eauto.
  - destruct (Ht w st (reflexivity _) Hi Hp) as [(w2 & H2 & Hi2 & Hk) He]. destruct fails as [e|].
    + intros [= <- <-]. exists w. split; [done|]. split; [done|]. apply He.
    + destruct (storage_op f m st) as [r st2]. intros [= <- <-]. by eauto.
Qed.
End wp.
(** A thread promises no more when its steps may do more. *)
Lemma wp_sub {W} (le G G' : relation W) I P {A} (t : Thread A) w Q :
  (∀ w w', G w w' → G' w w') → wp le G I P w t Q → wp le G' I P w t Q.
Proof.
  intros HG. revert w. induction t as [r|B m k IH|B f m k IH]; intros w; cbn [wp]; [done| |].
  - intros Ht w' st Hw Hi Hp. destruct (Ht w' st Hw Hi Hp) as (w2 & H2 & Hi2 & Hk). eauto 6.
  - intros Ht w' st Hw Hi Hp. destruct (Ht w' st Hw Hi Hp) as [(w2 & H2 & Hi2 & Hk) He]. eauto 8.
Qed.

(** ** Threads that do one kind of thing until something has been the case *)

Section until.
Context (E Pre : AppState → Prop) (R : relation AppState).

(** In states that satisfy [Pre], every step satisfies [R], up to and including
    the first that is taken in a state where [E] holds; the result is as [Q] says
    unless [E] has held. *)
Fixpoint until {A} (t : Thread A) (Q : result Failure A → Prop) : Prop :=
  match t with
  | Ret r => Q r
  | Local m k => ∀ st, Pre st → R st (m st).2 ∧ (E st ∨ until (k (m st).1) Q)
  | Stmt f m k => (∀ st, Pre st → R st (storage_op f m st).2 ∧ (E st ∨ until (k (storage_op f m st).1) Q))
      ∧ ∀ e, until (k (Err (Refused (f e)))) Q
  end.

Lemma until_mono {A} (t : Thread A) (Q Q' : result Failure A → Prop) :
  (∀ r, Q r → Q' r) → until t Q → until t Q'.
Proof.
  intros HQ. induction t as [r|B m k IH|B f m k IH]; cbn [until]; [apply HQ| |].
  - intros Ht st Hp. destruct (Ht st Hp) as [HR [He|Hk]]; eauto.
  - intros [Ht He]. split; [|by eauto]. intros st Hp. destruct (Ht st Hp) as [HR [HE|Hk]]; eauto.
Qed.
Lemma until_bind {A B} (t : Thread A) (f : A → Thread B) Q Q' :
  until t Q → (∀ a, Q (Ok a) → until (f a) Q') → (∀ e, Q (Err e) → Q' (Err e)) → until (t ≫= f) Q'.
Proof.
  intros Ht Hf He. revert Ht. induction t as [[a|e]|C m k IH|C g m k IH]; cbn [mbind thread_bind t_bind until].
  - apply Hf.
  - apply He.
  - intros Ht st Hp. destruct (Ht st Hp) as [HR [HE|Hk]]; [by auto|]. split; [done|]. right. by apply IH.
  - intros [Ht Hx]. split; [|intros e; by apply IH]. intros st Hp. destruct (Ht st Hp) as [HR [HE|Hk]]; [by auto|].
    split; [done|]. right. by apply IH.
Qed.
Lemma until_catch {A} (t : Thread A) Q : until t (λ r, Q (Ok r)) → until (catch t) Q.
Proof.
  induction t as [r|C m k IH|C g m k IH]; cbn [catch until]; [done| |].
  - intros Ht st Hp. destruct (Ht st Hp) as [HR [HE|Hk]]; eauto.
  - intros [Ht Hx]. split; [|by eauto]. intros st Hp. destruct (Ht st Hp) as [HR [HE|Hk]]; eauto.
Qed.
Lemma advance_until `{!Reflexive R} {A} fails (t t' : Thread A) st st' Q :
  until t Q → Pre st → advance fails t st = Some (st', t') → R st st' ∧ (E st ∨ until t' Q).
Proof.
  intros Ht Hp. destruct t as [r|B m k|B f m k]; cbn [advance until] in *; [done|..].
  - destruct fails; [done|]. specialize (Ht st Hp). destruct (m st) as [r st2]. by intros [= <- <-].
  - destruct Ht as [Ht He]. destruct fails as [e|].
    + intros [= <- <-]. split; [done|]. right. apply He.
    + specialize (Ht st Hp). destruct (storage_op f m st) as [r st2]. by intros [= <- <-].
Qed.
End until.
