(* ===== verification/Concurrent.v ===== *)
(** * Requests that run at the same time

    The handlers of [Controller] as threads: every await is a step, every
    statement of the database a step of its own.  [alone_serve] shows that a
    thread that is not interrupted is the handler.  A [Pool] is the controller
    with the requests in flight: they take turns in any order, a statement may
    fail, a client may hang up between two steps, and the cleanup task ticks. *)
From S2P Require Import Prelude RustStr Net Externals Common Concrete Hostname Store StoreInv Config Registry.
From S2P Require Import Sessions State Probe Controller ControllerSpec Router ControllerSys Threads.
From Stdlib Require Import Ascii.
#[local] Open Scope Z_scope.

(** ** The handlers *)

Section handlers.
Context `{Argon2} `{Base64} `{Chrono} `{Axum} `{UrlCrate} `{Idna}.
Context `{SerdeJson (list string)} `{SerdeJson (list DiscoveredContainerDto)}.

Definition refresh_dns_t (now : Z) : Thread unit :=
  ttl ← local lease_ttl;
  routes ← stmt ApiStorage (active_dns_routes ttl now);
  local (refresh_swap routes).

Definition check_agent_t (agent_id : string) (headers : HeaderMap) : Thread unit :=
  token ← local (lift (ok_or (bearer_token headers) (Refused Unauthorized)));
  stmt (λ _, Unauthorized) (verify_agent_token agent_id token).
Definition check_admin_t (headers : HeaderMap) (t t' : Z) : Thread unit :=
  local (check_admin headers t t').

(** The statements of the operations of [Storage] that have more than one. *)
Definition consume_enrollment_token_t (f : StorageError → ApiError) (token : string) (now : Z) : Thread unit :=
  rows ← stmt f (gets unused_token_hashes);
  stmt f (consume_rows rows token now).
Definition store_put_routes_t (agent_id : string) (es : list RouteEntry) (ttl now : Z)
    (clk : nat → EntryClock) : Thread PutRoutesOutcome :=
  _ ← stmt ApiStorage (get_agent now agent_id);
  stmt ApiStorage (put_routes_tx agent_id es ttl clk).
Definition revoke_agent_t (agent_id : string) (now : Z) : Thread unit :=
  _ ← stmt ApiStorage (modify (revoke_mark agent_id now));
  stmt ApiStorage (modify (revoke_delete_routes agent_id)).
(** [let _ = st.storage.audit(..).await] *)
Definition audit_t (event detail : string) (now : Z) : Thread unit :=
  _ ← catch (stmt ApiStorage (audit event detail now));
  mret tt.

Definition enroll_t (headers : HeaderMap) (body : EnrollRequest) (id_buf token_buf : list Z)
    (salt : string) (t_consume t_enroll : Z) : Thread EnrollResponse :=
  token ← local (lift (ok_or (bearer_token headers) (Refused Unauthorized)));
  _ ← consume_enrollment_token_t (λ _, Unauthorized) token t_consume;
  creds ← stmt ApiStorage
    (enroll_agent (er_display_name body) (er_tailscale_ipv4 body) (er_docker_engine_id body)
       id_buf token_buf salt t_enroll);
  leases ← local (gets (λ st, cfg_leases (cfg st)));
  mret {| en_agent_id := creds.1; en_agent_token := creds.2;
          en_heartbeat_interval_seconds := heartbeat_interval_seconds leases;
          en_lease_ttl_seconds := agent_ttl_seconds leases |}.
Definition heartbeat_t (agent_id : string) (headers : HeaderMap) (body : HeartbeatRequest)
    (t_beat t_dns : Z) : Thread Z :=
  _ ← check_agent_t agent_id headers;
  _ ← stmt ApiStorage (Store.heartbeat agent_id (hr_tailscale_ipv4 body) t_beat);
  _ ← refresh_dns_t t_dns;
  mret 204.
Definition put_routes_t (agent_id : string) (headers : HeaderMap) (body : PutRoutesRequest)
    (t_get : Z) (clk : nat → EntryClock) (t_dns : Z) : Thread PutRoutesResponse :=
  _ ← check_agent_t agent_id headers;
  c ← local (gets cfg);
  _ ← local (lift (for_each (λ r, map_err (Refused ∘ Forbidden) (hostname_allowed c (re_hostname r)))
              (pr_routes body)));
  ttl ← local lease_ttl;
  out ← store_put_routes_t agent_id (pr_routes body) ttl t_get clk;
  _ ← refresh_dns_t t_dns;
  mret {| ps_accepted := accepted out; ps_conflicts := conflicts out |}.
Definition put_discovery_t (agent_id : string) (headers : HeaderMap) (body : DiscoveryReportRequest)
    (now : Z) : Thread Z :=
  _ ← check_agent_t agent_id headers;
  payload ← local (or_refuse (λ e, Forbidden ("serialize discovery: " +:+ e)) (to_json (dr_services body)));
  _ ← stmt ApiStorage (put_discovery_snapshot agent_id payload now);
  mret 204.
Definition desired_services_t (agent_id : string) (headers : HeaderMap) : Thread DesiredServicesResponse :=
  _ ← check_agent_t agent_id headers;
  rows ← stmt ApiStorage (list_enabled_for_agent agent_id);
  mret {| ds_services := desired_of <$> rows |}.

Definition admin_discovery_t (headers : HeaderMap) (t t' now : Z) : Thread (list AdminDiscoveryItem) :=
  _ ← check_admin_t headers t t';
  agents ← stmt ApiStorage (list_agents now);
  enabled ← stmt ApiStorage list_all_enabled;
  snaps ← stmt ApiStorage list_discovery_snapshots;
  let agent_meta := collect_map ((λ a, (ar_agent_id a, a)) <$> agents) in
  let enabled_by_key := collect_map ((λ e, ((ev_agent_id e, ev_identity_key e), e)) <$> enabled) in
  let out := snaps ≫= λ '(agent_id, payload, updated_at),
    discovery_item agent_meta enabled_by_key agent_id updated_at
      <$> default [] (ok (from_json payload)) in
  mret (sort_by item_le out).
Definition admin_enable_service_t (headers : HeaderMap) (body : EnableServiceRequest)
    (id_buf : list Z) (t t' now t_audit : Z) : Thread EnableServiceResponse :=
  _ ← check_admin_t headers t t';
  if bool_decide (es_hostnames body = []) then local (refuse (Forbidden "at least one hostname required"))
  else
    c ← local (gets cfg);
    hosts ← local (or_refuse id (try_map (enable_host c) (es_hostnames body)));
    backend ← local (or_refuse (Forbidden ∘ error_to_string) (parse_backend_url (es_backend body)));
    let backend_url := "http://" +:+ authority backend in
    let id_ := "en_" +:+ remove_chars (λ c, bool_decide (c = "+"%char) || bool_decide (c = "/"%char)
      || bool_decide (c = "="%char)) (generate_token id_buf) in
    hostnames_json ← local (or_refuse Forbidden (to_json hosts));
    _ ← stmt ApiStorage (upsert_enabled_service id_ (es_agent_id body) (es_identity_key body)
          (es_container_name body) hostnames_json backend_url now);
    _ ← audit_t "service_enable" (es_identity_key body +:+ " -> " +:+ join "," hosts) t_audit;
    all ← stmt ApiStorage (list_enabled_for_agent (es_agent_id body));
    let final_id := match list_find (λ e, ev_identity_key e = es_identity_key body) all with
                    | Some (_, e) => ev_id e
                    | None => id_
                    end in
    mret {| ex_id := final_id |}.
Definition admin_disable_service_t (id_ : string) (headers : HeaderMap) (t t' now t_audit : Z) : Thread Z :=
  _ ← check_admin_t headers t t';
  _ ← stmt ApiStorage (set_enabled_service id_ false now);
  _ ← audit_t "service_disable" id_ t_audit;
  mret 204.
Definition admin_agents_t (headers : HeaderMap) (t t' t_list now : Z) : Thread (list AdminAgentView) :=
  _ ← check_admin_t headers t t';
  agents ← stmt ApiStorage (list_agents t_list);
  ttl ← local lease_ttl;
  let views : list AdminAgentView := agent_view ttl now <$> agents in
  mret views.
Definition admin_routes_t (headers : HeaderMap) (t t' now t_list : Z) : Thread (list AdminRouteView) :=
  _ ← check_admin_t headers t t';
  ttl ← local lease_ttl;
  rows ← stmt ApiStorage (list_routes_admin ttl now);
  agents ← stmt ApiStorage (list_agents t_list);
  let ips := ip_by_agent agents in
  let views : list AdminRouteView := (λ r, {| rv_hostname := am_hostname r; rv_agent_id := am_agent_id r;
                 rv_tailscale_ipv4 := default EmptyString (ips !! am_agent_id r);
                 rv_backend := am_backend r; rv_container_id := am_container_id r;
                 rv_container_name := am_container_name r; rv_lease_expires_at := am_lease r |})
        <$> rows in
  mret views.
Definition admin_dashboard_t (headers : HeaderMap) (io : string → string → ProbeIo)
    (t t' now t_list t_routes : Z) : Thread AdminDashboard :=
  _ ← check_admin_t headers t t';
  ttl ← local lease_ttl;
  agents_raw ← stmt ApiStorage (list_agents t_list);
  rows ← stmt ApiStorage (list_routes_admin ttl t_routes);
  mret {| ad_routes := route_health io (ip_by_agent agents_raw) now <$> rows;
          ad_agents := agent_view ttl now <$> agents_raw |}.
Definition admin_delete_route_t (hostname : string) (headers : HeaderMap) (t t' t_dns : Z) : Thread Z :=
  _ ← check_admin_t headers t t';
  _ ← stmt ApiStorage (delete_route hostname);
  _ ← refresh_dns_t t_dns;
  mret 204.
Definition admin_create_enrollment_token_t (headers : HeaderMap) (buf : list Z) (salt : string)
    (t t' now : Z) : Thread CreateEnrollmentTokenResponse :=
  _ ← check_admin_t headers t t';
  rec ← stmt ApiStorage (create_enrollment_token buf salt now);
  mret {| ce_token := token_plain rec; ce_expires_at := None |}.
Definition admin_revoke_agent_t (agent_id : string) (headers : HeaderMap) (t t' now t_dns : Z) : Thread Z :=
  _ ← check_admin_t headers t t';
  _ ← revoke_agent_t agent_id now;
  _ ← refresh_dns_t t_dns;
  mret 204.
(** The storage's answer decides the code. *)
Definition ready_t (now : Z) : Thread Reply :=
  agents ← catch (stmt ApiStorage (list_agents now));
  match agents with
  | Err _ => mret (ReText 503 EmptyString)
  | Ok _ =>
      up ← local (gets dns_up);
      mret (if negb up then ReText 503 EmptyString else ReText 200 "ready")
  end.

(** One tick of the cleanup task, with the errors it logs. *)
Definition logged (r : result Failure unit) : list Failure :=
  match r with Ok _ => [] | Err e => [e] end.
Definition cleanup_tick_t (ttl t_purge t_dns : Z) : Thread (list Failure) :=
  purged ← catch (_ ← stmt ApiStorage (purge_expired_agents ttl t_purge); mret tt);
  refreshed ← catch (refresh_dns_t t_dns);
  mret (logged purged ++ logged refreshed).
End handlers.

(** ** Requests *)

Section requests.
Context `{Argon2} `{Base64} `{Chrono} `{Axum} `{UrlCrate} `{Idna}.
Context `{SerdeJson (list string)} `{SerdeJson (list DiscoveredContainerDto)}.
Context `{SerdeJson EnrollRequest} `{SerdeJson HeartbeatRequest} `{SerdeJson PutRoutesRequest}.
Context `{SerdeJson DiscoveryReportRequest} `{SerdeJson EnableServiceRequest} `{SerdeJson LoginRequest}.

Definition reply_t {A} (f : A → Reply) (t : Thread A) : Thread Reply := a ← t; mret (f a).
Definition with_json_t {A} `{SerdeJson A} (r : HttpRequest) (h : A → Thread Reply) : Thread Reply :=
  match (if json_type (hq_headers r) then ok (from_json (hq_body r)) else None) with
  | Some body => h body
  | None => mret ReRejected
  end.

Definition call_t (w : World) (e : Endpoint) (r : HttpRequest) : Thread Reply :=
  let hs := hq_headers r in
  let t := w_now w in
  match e with
  | EHealth => mret (ReText 200 health)
  | EReady => ready_t (t 0%nat)
  | ERoot => mret (let '(code, body) := root hs in ReText code body)
  | EAdminUi => mret ReAdminUi
  | ELogin => with_json_t r (λ b,
      reply_t ReLogin (local (admin_login b (w_random w 0%nat) (t 0%nat) (t 1%nat))))
  | ELogout => reply_t ReStatus (local (admin_logout hs))
  | EEnroll => with_json_t r (λ b,
      reply_t ReEnroll (enroll_t hs b (w_random w 0%nat) (w_random w 1%nat) (w_salt w) (t 0%nat) (t 1%nat)))
  | EHeartbeat id => with_json_t r (λ b, reply_t ReStatus (heartbeat_t id hs b (t 0%nat) (t 1%nat)))
  | EPutRoutes id => with_json_t r (λ b, reply_t ReRoutes (put_routes_t id hs b (t 0%nat) (w_clk w) (t 1%nat)))
  | EPutDiscovery id => with_json_t r (λ b, reply_t ReStatus (put_discovery_t id hs b (t 0%nat)))
  | EDesired id => reply_t ReDesired (desired_services_t id hs)
  | EDiscovery => reply_t ReDiscovery (admin_discovery_t hs (t 0%nat) (t 1%nat) (t 2%nat))
  | EEnable => with_json_t r (λ b,
      reply_t ReEnable (admin_enable_service_t hs b (w_random w 0%nat) (t 0%nat) (t 1%nat) (t 2%nat) (t 3%nat)))
  | EDisable id => reply_t ReStatus (admin_disable_service_t id hs (t 0%nat) (t 1%nat) (t 2%nat) (t 3%nat))
  | EAgents => reply_t ReAgents (admin_agents_t hs (t 0%nat) (t 1%nat) (t 2%nat) (t 3%nat))
  | ERoutes => reply_t ReAdminRoutes (admin_routes_t hs (t 0%nat) (t 1%nat) (t 2%nat) (t 3%nat))
  | EDashboard =>
      reply_t ReDashboard (admin_dashboard_t hs (w_probe w) (t 0%nat) (t 1%nat) (t 2%nat) (t 3%nat) (t 4%nat))
  | EDeleteRoute h => reply_t ReStatus (admin_delete_route_t h hs (t 0%nat) (t 1%nat) (t 2%nat))
  | ECreateToken =>
      reply_t ReToken (admin_create_enrollment_token_t hs (w_random w 0%nat) (w_salt w) (t 0%nat) (t 1%nat) (t 2%nat))
  | ERevoke id => reply_t ReStatus (admin_revoke_agent_t id hs (t 0%nat) (t 1%nat) (t 2%nat) (t 3%nat))
  end.

Definition serve_t (w : World) (r : HttpRequest) : Thread Reply :=
  match dispatch (hq_method r) (hq_path r) with
  | NoRoute => mret ReNoRoute
  | BadMethod => mret ReBadMethod
  | BadCapture => mret ReRejected
  | Found e => call_t w e r
  end.

(** ** The controller and what it is doing *)

(** A task is a request or a tick of the cleanup task; its number is never used
    again. *)
Inductive TaskResult := Answer (r : Reply) | Warnings (l : list Failure).
Record Task := mk_task { tk_request : option HttpRequest; tk_thread : Thread TaskResult }.
Record Pool := mk_pool { pl_st : AppState; pl_tasks : gmap nat Task; pl_next : nat }.

Definition request_task (w : World) (r : HttpRequest) : Task :=
  mk_task (Some r) (rep ← serve_t w r; mret (Answer rep)).
Definition cleanup_task (ttl t_purge t_dns : Z) : Task :=
  mk_task None (l ← cleanup_tick_t ttl t_purge t_dns; mret (Warnings l)).

(** A request arrives, the cleanup task ticks, task [i] takes its next step, the
    statement it is at fails, its client is gone, the listener's flag changes. *)
Inductive Move :=
| Arrive (w : World) (r : HttpRequest)
| StartTick (t_purge t_dns : Z)
| Advance (i : nat)
| StmtFails (i : nat) (e : StorageError)
| HangUp (i : nat)
| SetFlag (up : bool).

Definition add_task (t : Task) (p : Pool) : Pool :=
  mk_pool (pl_st p) (<[pl_next p := t]> (pl_tasks p)) (S (pl_next p)).
Definition step_task (i : nat) (fails : option StorageError) (p : Pool) : option Pool :=
  t ← pl_tasks p !! i;
  x ← advance fails (tk_thread t) (pl_st p);
  Some (mk_pool x.1 (<[i := mk_task (tk_request t) x.2]> (pl_tasks p)) (pl_next p)).
Definition pool_step (p : Pool) (m : Move) : option Pool :=
  match m with
  | Arrive w r => Some (add_task (request_task w r) p)
  | StartTick t_purge t_dns => ttl ← ttl_of (pl_st p); Some (add_task (cleanup_task ttl t_purge t_dns) p)
  | Advance i => step_task i None p
  | StmtFails i e => step_task i (Some e) p
  | HangUp i => Some (mk_pool (pl_st p) (delete i (pl_tasks p)) (pl_next p))
  | SetFlag up => Some (mk_pool (set_dns_up up (pl_st p)) (pl_tasks p) (pl_next p))
  end.
Fixpoint pool_run (ms : list Move) (p : Pool) : option Pool :=
  match ms with
  | [] => Some p
  | m :: ms' => p' ← pool_step p m; pool_run ms' p'
  end.
Definition pool_start (st : AppState) : Pool := mk_pool st ∅ 0.

(** The instants a move brings in. *)
Definition brings (m : Move) (t : Z) : Prop :=
  match m with
  | Arrive w _ => ∃ i, w_now w i = t
  | StartTick _ t_dns => t_dns = t
  | _ => False
  end.
(** The answers a request gets after a refresh, and the ticks without a warning. *)
Definition refreshed (req : option HttpRequest) (r : TaskResult) : Prop :=
  match req, r with
  | None, Warnings l => l = []
  | Some req, Answer rep =>
      match dispatch (hq_method req) (hq_path req), rep with
      | Found (EHeartbeat _ | EDeleteRoute _ | ERevoke _), ReStatus 204 => True
      | Found (EPutRoutes _), ReRoutes _ => True
      | _, _ => False
      end
  | _, _ => False
  end.
End requests.

(** ** A task alone is the handler *)

Section alone.
Context `{Argon2} `{Base64} `{Chrono} `{Axum} `{UrlCrate} `{Idna}.
Context `{SerdeJson (list string)} `{SerdeJson (list DiscoveredContainerDto)}.
Context `{SerdeJson EnrollRequest} `{SerdeJson HeartbeatRequest} `{SerdeJson PutRoutesRequest}.
Context `{SerdeJson DiscoveryReportRequest} `{SerdeJson EnableServiceRequest} `{SerdeJson LoginRequest}.

Lemma alone_refresh now : se_eq (alone (refresh_dns_t now)) (refresh_dns now).
Proof.
  etrans; [apply alone_bind|].
  etrans; [apply se_eq_bind; [apply alone_local | intros ttl; apply alone_bind]|].
  intros st. unfold refresh_dns, refresh_read. se_run. destruct (lease_ttl st) as [[ttl|e] st1]; [|done].
  rewrite SE_bind_run, (alone_stmt ApiStorage _ st1).
  destruct (storage_op ApiStorage (active_dns_routes ttl now) st1) as [[l|e] st2]; [apply alone_local | done].
Qed.
Lemma alone_check_agent id hs : se_eq (alone (check_agent_t id hs)) (check_agent id hs).
Proof. etrans; [apply alone_bind|]. apply se_eq_bind; [apply alone_local | intros; apply alone_stmt]. Qed.
Lemma alone_consume f token now :
  se_eq (alone (consume_enrollment_token_t f token now)) (storage_op f (consume_enrollment_token token now)).
Proof.
  etrans; [apply alone_bind|]. etrans; [apply se_eq_bind; [apply alone_stmt | intros; apply alone_stmt]|].
  apply storage_op_bind.
Qed.
Lemma alone_put_routes id es ttl now clk :
  se_eq (alone (store_put_routes_t id es ttl now clk)) (storage_op ApiStorage (Store.put_routes id es ttl now clk)).
Proof.
  etrans; [apply alone_bind|]. etrans; [apply se_eq_bind; [apply alone_stmt | intros; apply alone_stmt]|].
  apply storage_op_bind.
Qed.
Lemma alone_revoke id now :
  se_eq (alone (revoke_agent_t id now)) (storage_op ApiStorage (revoke_agent id now)).
Proof.
  etrans; [apply alone_bind|]. etrans; [apply se_eq_bind; [apply alone_stmt | intros; apply alone_stmt]|].
  apply storage_op_bind.
Qed.
Lemma alone_audit event detail now :
  se_eq (alone (audit_t event detail now)) (ignore (storage_op ApiStorage (audit event detail now))).
Proof. apply alone_ignore, alone_stmt. Qed.
Lemma alone_ready now : se_eq (alone (ready_t now)) (ready_reply now).
Proof.
  intros st. unfold ready_t. rewrite (alone_bind _ _ st), SE_bind_run, alone_catch, (alone_stmt ApiStorage _ st).
  unfold ready_reply, ready, storage_op. se_run. unfold se_map_err, zoom. cbn [list_agents gets map_err fst snd].
  rewrite (alone_bind _ _ _), SE_bind_run, (alone_local _ _). se_run. rewrite set_db_id.
  by destruct (negb (dns_up st)).
Qed.

(** The pieces, from left to right. *)
Ltac alone :=
  repeat first
    [ apply alone_refresh | apply alone_check_agent | apply alone_consume | apply alone_put_routes
    | apply alone_revoke | apply alone_audit | apply alone_local | apply alone_stmt | apply alone_ret
    | etrans; [apply alone_bind|]; apply se_eq_bind; [|intros ?] ].

Lemma alone_reply {A} (f : A → Reply) t m : se_eq (alone t) m → se_eq (alone (reply_t f t)) (reply f m).
Proof. intros Hm. unfold reply_t. alone. exact Hm. Qed.
Lemma alone_with_json {A} `{SerdeJson A} r (h : A → Thread Reply) h' :
  (∀ b, se_eq (alone (h b)) (h' b)) → se_eq (alone (with_json_t r h)) (with_json r h').
Proof. intros Hh. unfold with_json_t, with_json. case_match; [apply Hh | apply alone_ret]. Qed.

(** Without interruption a request does what its handler does. *)
Lemma alone_serve w r : se_eq (alone (serve_t w r)) (serve w r).
Proof.
  unfold serve_t, serve. destruct (dispatch _ _) as [| | |e]; try apply alone_ret.
  destruct e; cbn [call_t call]; try apply alone_ret; try apply alone_ready;
    try (apply alone_with_json; intros b); apply alone_reply; try apply alone_local.
  - unfold enroll_t, enroll. alone.
  - unfold heartbeat_t, heartbeat. alone.
  - unfold put_routes_t, put_routes. alone.
  - unfold put_discovery_t, put_discovery. alone.
  - unfold desired_services_t, desired_services. alone.
  - unfold admin_discovery_t, admin_discovery. alone.
  - unfold admin_enable_service_t, admin_enable_service. alone. case_match; alone.
  - unfold admin_disable_service_t, admin_disable_service. alone.
  - unfold admin_agents_t, admin_agents. alone.
  - unfold admin_routes_t, admin_routes. alone.
  - unfold admin_dashboard_t, admin_dashboard. alone.
  - unfold admin_delete_route_t, admin_delete_route. alone.
  - unfold admin_create_enrollment_token_t, admin_create_enrollment_token. alone.
  - unfold admin_revoke_agent_t, admin_revoke_agent. alone.
Qed.
End alone.

(** ** What every task does to an invariant *)

Class Writes `{Argon2} `{Base64} `{Chrono} {E A} (m : SE Db E A) : Prop :=
  writes db : (m db).2 = db ∨ step db (m db).2.

Section writes.
Context `{Argon2} `{Base64} `{Chrono}.

Lemma writes_reads {E A} (f : Db → A) : Writes (E := E) (gets f).
Proof. intros db. by left. Qed.
Lemma writes_op {E A} o (m : SE Db E A) : (∀ db, (m db).2 = exec o db) → Writes m.
Proof. intros Hm db. right. rewrite Hm. constructor. Qed.
#[export] Instance verify_writes id token : Writes (verify_agent_token id token).
Proof. intros db. left. unfold verify_agent_token. se_run. repeat case_match; done. Qed.
#[export] Instance get_agent_writes now id : Writes (get_agent now id).
Proof. intros db. left. unfold get_agent. se_run. repeat case_match; done. Qed.
#[export] Instance consume_rows_writes rows token now : Writes (consume_rows rows token now).
Proof.
  intros db. destruct (consume_rows_step rows token now db) as [->|[h ->]]; [by left | right; constructor].
Qed.
#[export] Instance put_tx_writes id es ttl clk : Writes (put_routes_tx id es ttl clk).
Proof. intros db. right. constructor. Qed.
#[export] Instance mark_writes id now : Writes (E := StorageError) (modify (revoke_mark id now)).
Proof. intros db. right. constructor. Qed.
#[export] Instance delete_routes_writes id : Writes (E := StorageError) (modify (revoke_delete_routes id)).
Proof. intros db. right. constructor. Qed.
#[export] Instance create_token_writes buf salt now : Writes (create_enrollment_token buf salt now).
Proof. by apply (writes_op (OpCreateToken buf salt now)). Qed.
#[export] Instance enroll_writes n ip e ib tb salt now : Writes (enroll_agent n ip e ib tb salt now).
Proof. by apply (writes_op (OpEnroll n ip e ib tb salt now)). Qed.
#[export] Instance heartbeat_writes id ip now : Writes (Store.heartbeat id ip now).
Proof. by apply (writes_op (OpHeartbeat id ip now)). Qed.
#[export] Instance delete_route_writes h : Writes (delete_route h).
Proof. by apply (writes_op (OpDeleteRoute h)). Qed.
#[export] Instance purge_writes ttl now : Writes (purge_expired_agents ttl now).
Proof. by apply (writes_op (OpPurge ttl now)). Qed.
#[export] Instance snapshot_writes id p now : Writes (put_discovery_snapshot id p now).
Proof. by apply (writes_op (OpPutSnapshot id p now)). Qed.
#[export] Instance upsert_writes i a k n h b now : Writes (upsert_enabled_service i a k n h b now).
Proof. by apply (writes_op (OpUpsertEnabled i a k n h b now)). Qed.
#[export] Instance set_enabled_writes i b now : Writes (set_enabled_service i b now).
Proof. by apply (writes_op (OpSetEnabled i b now)). Qed.
#[export] Instance audit_writes e d now : Writes (audit e d now).
Proof. by apply (writes_op (OpAudit e d now)). Qed.
End writes.
#[export] Hint Extern 5 (Writes _) => apply writes_reads : typeclass_instances.

Section tasks.
Context `{Argon2} `{Base64} `{Chrono} `{Axum} `{UrlCrate} `{Idna}.
Context `{SerdeJson (list string)} `{SerdeJson (list DiscoveredContainerDto)}.
Context `{SerdeJson EnrollRequest} `{SerdeJson HeartbeatRequest} `{SerdeJson PutRoutesRequest}.
Context `{SerdeJson DiscoveryReportRequest} `{SerdeJson EnableServiceRequest} `{SerdeJson LoginRequest}.

(** An invariant of the table and the storage, which every statement keeps and
    every refresh at an instant of [T] takes to a world that is [Done]. *)
Context {W : Type} (le G : relation W) `{!PreOrder le} `{!PreOrder G} (G_le : ∀ w w', G w w' → le w w').
Context (I : W → AppState → Prop) (P : AppState → Prop).
Context (T : Z → Prop) (Done : W → Prop).
Definition post {A} (S : W → A → Prop) (w : W) (r : result Failure A) : Prop :=
  match r with Ok a => S w a | Err _ => True end.
Hypothesis Done_le : ∀ w w', le w w' → Done w → Done w'.
Hypothesis I_still : ∀ w st st', still st st' → I w st → I w st'.
Hypothesis I_step : ∀ w st db, I w st → P st → step (db_of st) db → ∃ w', G w w' ∧ I w' (set_db db st).
Hypothesis I_refresh : ∀ w now, T now → wp le G I P w (refresh_dns_t now) (post (λ w' _, Done w')).

Definition Safe {A} (t : Thread A) : Prop := ∀ w, wp le G I P w t (post (λ _ _, True)).
Definition Refreshes {A} (t : Thread A) : Prop := ∀ w, wp le G I P w t (post (λ w' _, Done w')).

Lemma post_bind {A B} (t : Thread A) (f : A → Thread B) w S S' :
  wp le G I P w t (post S) → (∀ w' a, S w' a → wp le G I P w' (f a) (post S')) →
  wp le G I P w (t ≫= f) (post S').
Proof.
  intros Ht Hf. apply wp_bind; [done|]. eapply wp_mono; [done|exact G_le| |exact Ht].
  intros w' [a|e] _; cbn [post]; [apply Hf | done].
Qed.
Lemma post_ret {A} (a : A) w (S : W → A → Prop) : (∀ w', le w w' → S w' a) → wp le G I P w (mret a) (post S).
Proof. done. Qed.
Lemma safe_ret {A} (a : A) : Safe (mret a).
Proof. done. Qed.
Lemma safe_bind {A B} (t : Thread A) (f : A → Thread B) : Safe t → (∀ a, Safe (f a)) → Safe (t ≫= f).
Proof. intros Ht Hf w. eapply post_bind; [apply Ht | intros; apply Hf]. Qed.
Lemma safe_local {A} (m : HandlerM A) : Moves still m → Safe (local m).
Proof.
  intros Hm w w' st Hw Hi Hp. exists w'. split; [done|]. split; [eapply I_still; [apply Hm | exact Hi]|].
  intros w2 _. unfold post. by destruct (m st).1.
Qed.
Lemma safe_stmt {A} f (m : SE Db StorageError A) : Writes m → Safe (stmt f m).
Proof.
  intros Hm w w' st Hw Hi Hp. split; [|done]. rewrite storage_op_snd.
  assert (∃ w'', G w' w'' ∧ I w'' (set_db (m (db_of st)).2 st)) as (w'' & ? & ?).
  { destruct (Hm (db_of st)) as [->|Hs]; [|by eauto]. exists w'. by rewrite set_db_id. }
  exists w''. split; [done|]. split; [done|]. intros w2 _. unfold post. by destruct (storage_op f m st).1.
Qed.
Lemma safe_catch {A} (t : Thread A) : Safe t → Safe (catch t).
Proof. intros Ht w. apply wp_catch. eapply wp_mono; [done|exact G_le| |apply Ht]. done. Qed.
Lemma refreshes_safe {A} (t : Thread A) : Refreshes t → Safe t.
Proof. intros Ht w. eapply wp_mono; [done|exact G_le| |apply Ht]. by intros w' []. Qed.
Lemma refreshes_bind {A B} (t : Thread A) (f : A → Thread B) :
  Safe t → (∀ a, Refreshes (f a)) → Refreshes (t ≫= f).
Proof. intros Ht Hf w. eapply post_bind; [apply Ht | intros; apply Hf]. Qed.
Lemma refreshes_ret {A B} (t : Thread A) (g : A → B) : Refreshes t → Refreshes (a ← t; mret (g a)).
Proof.
  intros Ht w. eapply post_bind; [apply Ht|]. intros w' a Hd. apply post_ret. eauto.
Qed.

Ltac safe :=
  lazymatch goal with
  | |- Safe (mbind _ _) => apply safe_bind; [|intros ?]; safe
  | |- Safe (mret _) => apply safe_ret
  | |- Safe (local _) => apply safe_local; apply _
  | |- Safe (stmt _ _) => apply safe_stmt; apply _
  | |- Safe (catch _) => apply safe_catch; safe
  | |- Safe (match ?x with _ => _ end) => destruct x; safe
  | |- Safe (let _ := _ in _) => cbv zeta; safe
  | |- Safe (audit_t _ _ _) => unfold audit_t; safe
  | |- Safe (check_agent_t _ _) => unfold check_agent_t; safe
  | |- Safe (check_admin_t _ _ _) => apply safe_local, _
  | |- Safe (consume_enrollment_token_t _ _ _) => unfold consume_enrollment_token_t; safe
  | |- Safe (store_put_routes_t _ _ _ _ _) => unfold store_put_routes_t; safe
  | |- Safe (revoke_agent_t _ _) => unfold revoke_agent_t; safe
  end.

Lemma refresh_refreshes now : T now → Refreshes (refresh_dns_t now).
Proof. intros HT w. by apply I_refresh. Qed.
Lemma heartbeat_refreshes id hs body t t_dns : T t_dns → Refreshes (heartbeat_t id hs body t t_dns).
Proof.
  intros HT. do 2 (apply refreshes_bind; [safe | intros]). by apply refreshes_ret, refresh_refreshes.
Qed.
Lemma put_routes_refreshes id hs body t clk t_dns : T t_dns → Refreshes (put_routes_t id hs body t clk t_dns).
Proof.
  intros HT. do 5 (apply refreshes_bind; [safe | intros]). by apply refreshes_ret, refresh_refreshes.
Qed.
Lemma admin_delete_refreshes h hs t t' t_dns : T t_dns → Refreshes (admin_delete_route_t h hs t t' t_dns).
Proof.
  intros HT. do 2 (apply refreshes_bind; [safe | intros]). by apply refreshes_ret, refresh_refreshes.
Qed.
Lemma admin_revoke_refreshes id hs t t' now t_dns : T t_dns → Refreshes (admin_revoke_agent_t id hs t t' now t_dns).
Proof.
  intros HT. do 2 (apply refreshes_bind; [safe | intros]). by apply refreshes_ret, refresh_refreshes.
Qed.

Lemma reply_safe {A} (f : A → Reply) t : Safe t → Safe (reply_t f t).
Proof. intros Ht. apply safe_bind; [done | intros; apply safe_ret]. Qed.
Lemma with_json_wp {A} `{SerdeJson A} r (h : A → Thread Reply) w (S : W → Reply → Prop) :
  (∀ w', S w' ReRejected) → (∀ b, wp le G I P w (h b) (post S)) → wp le G I P w (with_json_t r h) (post S).
Proof. intros Hr Hh. unfold with_json_t. case_match; [apply Hh | by apply post_ret]. Qed.
Lemma reply_refreshes {A} (f : A → Reply) t w (S : W → Reply → Prop) :
  Refreshes t → (∀ w' a, Done w' → S w' (f a)) → wp le G I P w (reply_t f t) (post S).
Proof.
  intros Ht HS. eapply post_bind; [apply Ht|]. intros w' a Hd. apply post_ret. eauto.
Qed.
Lemma call_safe w e r : match e with EHeartbeat _ | EPutRoutes _ | EDeleteRoute _ | ERevoke _ => False | _ => True end →
  Safe (call_t w e r).
Proof.
  intros He w0. destruct e; cbn [call_t]; try done; try (apply with_json_wp; [done|intros b]);
    match goal with |- wp _ _ _ _ ?w ?t _ => cut (Safe t); [intros Hs; exact (Hs w)|] end; try apply reply_safe.
  - unfold ready_t. safe.
  - apply safe_local, admin_login_still.
  - apply safe_local, admin_logout_still.
  - unfold enroll_t. safe.
  - unfold put_discovery_t, or_refuse. safe.
  - unfold desired_services_t. safe.
  - unfold admin_discovery_t. safe.
  - unfold admin_enable_service_t, or_refuse, refuse. safe.
  - unfold admin_disable_service_t. safe.
  - unfold admin_agents_t. safe.
  - unfold admin_routes_t. safe.
  - unfold admin_dashboard_t. safe.
  - unfold admin_create_enrollment_token_t. safe.
Qed.

(** A request that is answered so has refreshed. *)
Lemma request_wp w r w0 : (∀ i, T (w_now w i)) →
  wp le G I P w0 (tk_thread (request_task w r)) (post (λ w' x, refreshed (Some r) x → Done w')).
Proof.
  intros HT. cbn [request_task tk_thread].
  cut (wp le G I P w0 (serve_t w r) (post (λ w' rep, refreshed (Some r) (Answer rep) → Done w'))).
  { intros Hs. eapply post_bind; [exact Hs|]. intros w' rep Hd. apply post_ret. eauto. }
  unfold serve_t. cbn [refreshed]. destruct (dispatch _ _) as [| | |e]; try (apply post_ret; by intros w' _ []).
  destruct e; try (eapply wp_mono; [done|exact G_le| |by apply call_safe]; intros w' [rep|] _ _; [intros [] | done]); cbn [call_t].
  - apply with_json_wp; [done|]. intros b. apply reply_refreshes; [by apply heartbeat_refreshes | done].
  - apply with_json_wp; [done|]. intros b. apply reply_refreshes; [by apply put_routes_refreshes | done].
  - apply reply_refreshes; [by apply admin_delete_refreshes | done].
  - apply reply_refreshes; [by apply admin_revoke_refreshes | done].
Qed.
(** So has a tick without warnings. *)
Lemma cleanup_wp ttl t_purge t_dns w0 : T t_dns →
  wp le G I P w0 (tk_thread (cleanup_task ttl t_purge t_dns)) (post (λ w' x, refreshed None x → Done w')).
Proof.
  intros HT. cbn [cleanup_task tk_thread]. unfold cleanup_tick_t.
  eapply post_bind with (S := λ w' l, l = [] → Done w');
    [|intros w' l Hl; apply post_ret; cbn; eauto].
  eapply post_bind; [apply (safe_catch (_ ← stmt ApiStorage (purge_expired_agents ttl t_purge); mret tt)); safe|].
  intros w1 purged _. eapply post_bind with (S := λ w' r, r = Ok tt → Done w').
  - apply wp_catch. eapply wp_mono; [done|exact G_le| |by apply I_refresh]. intros w' [[]|e] _ Hr; cbn in *; [done|].
    by intros [=].
  - intros w2 r Hr. apply post_ret. intros w3 Hw [_ Hl]%app_nil. destruct r as [[]|]; [|done]. eauto.
Qed.
End tasks.

(** ** What every pool does to an invariant *)

Section pools.
Context `{Argon2} `{Base64} `{Chrono} `{Axum} `{UrlCrate} `{Idna}.
Context `{SerdeJson (list string)} `{SerdeJson (list DiscoveredContainerDto)}.
Context `{SerdeJson EnrollRequest} `{SerdeJson HeartbeatRequest} `{SerdeJson PutRoutesRequest}.
Context `{SerdeJson DiscoveryReportRequest} `{SerdeJson EnableServiceRequest} `{SerdeJson LoginRequest}.
Context {W : Type} (le G : relation W) `{!PreOrder le} `{!PreOrder G} (G_le : ∀ w w', G w w' → le w w').
Context (I : W → AppState → Prop) (P : AppState → Prop) (T : Z → Prop) (Done : nat → W → Prop).
Hypothesis Done_le : ∀ i w w', le w w' → Done i w → Done i w'.
Hypothesis I_still : ∀ w st st', still st st' → I w st → I w st'.
Hypothesis I_step : ∀ w st db, I w st → P st → step (db_of st) db → ∃ w', G w w' ∧ I w' (set_db db st).
Hypothesis I_refresh : ∀ i w now, T now → wp le G I P w (refresh_dns_t now) (post (λ w' _, Done i w')).

Definition task_ok (i : nat) (w : W) (tk : Task) : Prop :=
  wp le G I P w (tk_thread tk) (post (λ w' x, refreshed (tk_request tk) x → Done i w')).
(** The invariant holds, and the tasks from number [base] on keep it. *)
Definition pool_ok (base : nat) (w : W) (p : Pool) : Prop :=
  I w (pl_st p) ∧ ∀ i tk, (base <= i)%nat → pl_tasks p !! i = Some tk → task_ok i w tk.

Lemma pool_ok_add base w tk p :
  pool_ok base w p → (∀ i, task_ok i w tk) → pool_ok base w (add_task tk p).
Proof.
  intros [Hi Ht] Htk. split; [done|]. cbn [add_task pl_tasks].
  intros i tk' Hb [[<- <-]|[_ ?]]%lookup_insert_Some; [apply Htk | by apply Ht].
Qed.
Lemma step_task_ok base w i fails p p' :
  pool_ok base w p → P (pl_st p) → (base <= i)%nat → step_task i fails p = Some p' →
  ∃ w', G w w' ∧ pool_ok base w' p'.
Proof.
  intros [Hi Ht] Hp Hb. unfold step_task. intros (tk & Htk & ([st' t'] & Ha & [= <-])%bind_Some)%bind_Some.
  destruct (advance_wp le G I P _ _ _ _ _ _ _ Hi Hp (Ht i tk Hb Htk) Ha) as (w' & Hw & Hi' & Ht').
  exists w'. split; [done|]. split; [done|]. cbn [pl_tasks].
  intros j tk' Hj [[<- <-]|[_ Hl]]%lookup_insert_Some; [done|].
  eapply wp_world; [done|by apply G_le|]. by apply Ht.
Qed.
(** A task below [base] is harmless where the invariant says nothing. *)
Lemma step_task_old base w i fails p p' :
  pool_ok base w p → (∀ st, I w st) → (i < base)%nat → step_task i fails p = Some p' → pool_ok base w p'.
Proof.
  intros [Hi Ht] Hall Hb. unfold step_task. intros (tk & Htk & ([st' t'] & Ha & [= <-])%bind_Some)%bind_Some.
  split; [apply Hall|]. cbn [pl_tasks].
  intros j tk' Hj [[-> _]|[_ Hl]]%lookup_insert_Some; [lia|]. by apply Ht.
Qed.
Lemma pool_step_ok base w p m p' :
  pool_ok base w p → P (pl_st p) → (∀ t, brings m t → T t) → base = 0%nat ∨ (∀ st, I w st) →
  pool_step p m = Some p' → ∃ w', G w w' ∧ pool_ok base w' p'.
Proof.
  intros Hok Hp HT Hold.
  assert (∀ i fails, step_task i fails p = Some p' → ∃ w', G w w' ∧ pool_ok base w' p') as Hstep.
  { intros i fails Hs. destruct (decide (base <= i)%nat) as [Hb|Hb]; [by eapply step_task_ok|].
    destruct Hold as [->|Hall]; [lia|]. exists w. split; [done|]. eapply step_task_old; [done..| |done]. lia. }
  destruct m as [wd r|t_purge t_dns|i|i e|i|up]; cbn [pool_step brings] in *.
  - intros [= <-]. exists w. split; [done|]. apply pool_ok_add; [done|]. intros i.
    apply (request_wp le G G_le I P T); eauto.
  - intros (ttl & _ & [= <-])%bind_Some. exists w. split; [done|]. apply pool_ok_add; [done|]. intros i.
    apply (cleanup_wp le G G_le I P T); eauto.
  - apply Hstep.
  - apply Hstep.
  - intros [= <-]. exists w. split; [done|]. destruct Hok as [Hi Ht]. split; [done|].
    cbn [pl_tasks]. intros j tk Hj [_ Hl]%lookup_delete_Some. by apply Ht.
  - intros [= <-]. exists w. split; [done|]. destruct Hok as [Hi Ht]. split; [|done].
    eapply I_still; [|exact Hi]. by repeat split.
Qed.
End pools.

(** ** Runs *)

Section runs.
Context `{Argon2} `{Base64} `{Chrono} `{Axum} `{UrlCrate} `{Idna}.
Context `{SerdeJson (list string)} `{SerdeJson (list DiscoveredContainerDto)}.
Context `{SerdeJson EnrollRequest} `{SerdeJson HeartbeatRequest} `{SerdeJson PutRoutesRequest}.
Context `{SerdeJson DiscoveryReportRequest} `{SerdeJson EnableServiceRequest} `{SerdeJson LoginRequest}.

(** [Q] holds of every state of the run [ms] from [p], the first and the last
    included. *)
Definition during (Q : AppState → Prop) (ms : list Move) (p : Pool) : Prop :=
  ∀ ms1 ms2 q, ms = ms1 ++ ms2 → pool_run ms1 p = Some q → Q (pl_st q).
Lemma pool_run_app ms ms' p : pool_run (ms ++ ms') p = (pool_run ms p ≫= pool_run ms').
Proof.
  revert p. induction ms as [|m ms IH]; intros p; [done|]. cbn [app pool_run].
  destruct (pool_step p m); [apply IH | done].
Qed.
Lemma during_cons Q m ms p q : during Q (m :: ms) p → pool_step p m = Some q → during Q ms q.
Proof.
  intros Hd Hs ms1 ms2 r -> Hr. apply (Hd (m :: ms1) ms2); [done|]. cbn [pool_run]. by rewrite Hs.
Qed.

Section steps.
Context {W : Type} (le G : relation W) `{!PreOrder le} `{!PreOrder G} (G_le : ∀ w w', G w w' → le w w').
Context (I : W → AppState → Prop) (P : AppState → Prop) (T : Z → Prop) (Done : nat → W → Prop).

Lemma pool_run_ok base w ms p p' :
  (∀ i w w', le w w' → Done i w → Done i w') →
  (∀ w st st', still st st' → I w st → I w st') →
  (∀ w st db, I w st → P st → step (db_of st) db → ∃ w', G w w' ∧ I w' (set_db db st)) →
  (∀ i w now, T now → wp le G I P w (refresh_dns_t now) (post (λ w' _, Done i w'))) →
  pool_ok le G I P Done base w p → during P ms p → (∀ m t, m ∈ ms → brings m t → T t) →
  base = 0%nat ∨ (∀ w', G w w' → ∀ st, I w' st) →
  pool_run ms p = Some p' → ∃ w', G w w' ∧ pool_ok le G I P Done base w' p'.
Proof.
  intros HD Hst Hdb Hre. revert w p. induction ms as [|m ms IH]; intros w p Hok Hd HT Hold.
  { intros [= <-]. by exists w. }
  cbn [pool_run]. intros (q & Hq & Hr)%bind_Some.
  assert (∃ w1, G w w1 ∧ pool_ok le G I P Done base w1 q) as (w1 & Hw1 & Hq').
  { eapply (pool_step_ok le G G_le I P T Done HD Hst Hdb Hre base w p m q); [done| | | |done].
    - by apply (Hd [] (m :: ms)).
    - intros t. apply HT. by left.
    - destruct Hold as [|Hold]; [by left|]. right. by apply Hold. }
  destruct (IH w1 q Hq') as (w2 & Hw2 & Hok2); [| | |done|].
  - by eapply during_cons.
  - intros m' t Hm'. apply HT. by right.
  - destruct Hold as [|Hold]; [by left|]. right. intros w' Hw'. apply Hold. by etrans.
  - exists w2. split; [by etrans | done].
Qed.

(** A refresh reads a list of which [K] holds, and its swap keeps the invariant. *)
Lemma refresh_wp (K : list DnsRoute → Prop) (S : W → Prop) w now :
  (∀ w1 st1 w2 st2 ttl, I w1 st1 → P st1 → ttl_of st1 = Some ttl → I w2 st2 → P st2 →
     K (dns_answer ttl now (db_of st2))) →
  (∀ w1 st l, K l → I w1 st → P st →
     ∃ w2, G w1 w2 ∧ I w2 (set_registry (registry_map l) st) ∧ ∀ w3, le w2 w3 → S w3) →
  wp le G I P w (refresh_dns_t now) (post (λ w' _, S w')).
Proof.
  intros Hread Hswap. unfold refresh_dns_t.
  eapply (post_bind le G G_le I P) with (S := λ _ ttl, ∃ w1 st1, I w1 st1 ∧ P st1 ∧ ttl_of st1 = Some ttl).
  { intros w1 st Hw Hi Hp. exists w1. split; [done|]. split; [done|]. intros w2 _. cbn [lease_ttl fst].
    unfold post. destruct (duration_seconds _) as [ttl|] eqn:Ht; [|done]. cbn [ok_or]. by exists w1, st. }
  intros w1 ttl (w0 & st0 & Hi0 & Hp0 & Httl).
  eapply (post_bind le G G_le I P) with (S := λ _ l, K l).
  { intros w2 st Hw Hi Hp. split; [|done]. exists w2. split; [done|]. rewrite storage_op_run.
    cbn [active_dns_routes gets fst snd map_err]. rewrite set_db_id. split; [done|]. intros w3 _.
    change (K (dns_answer ttl now (db_of st))). exact (Hread w0 st0 w2 st ttl Hi0 Hp0 Httl Hi Hp). }
  intros w2 l Hl w3 st Hw Hi Hp. destruct (Hswap w3 st l Hl Hi Hp) as (w4 & Hw4 & Hi4 & HS).
  exists w4. split; [done|]. split; [done|]. intros w5 Hw5. by apply HS.
Qed.
End steps.

Lemma pool_start_ok {W} (le G : relation W) I P Done w st : I w st → pool_ok le G I P Done 0 w (pool_start st).
Proof. intros Hi. split; [done|]. intros i tk _. cbn [pool_start pl_tasks]. by rewrite lookup_empty. Qed.
(** What no statement, swap or session touches stays. *)
Lemma run_kept {A} (f : AppState → A) ms st p :
  (∀ x y, still x y → f y = f x) → (∀ db x, f (set_db db x) = f x) → (∀ rg x, f (set_registry rg x) = f x) →
  pool_run ms (pool_start st) = Some p → f (pl_st p) = f st.
Proof.
  intros Hst Hdb Hrg Hr. set (I := λ (_ : unit) x, f x = f st).
  destruct (pool_run_ok eq eq (λ _ _ e, e) I (λ _, True) (λ _, True) (λ _ _, True) 0 tt ms (pool_start st) p)
    as (? & _ & Hi & _); [done| | | | |done|done|by left|done|exact Hi].
  - intros w x y Hs Hi. unfold I. rewrite (Hst x y Hs). exact Hi.
  - intros w x db Hi _ _. exists w. split; [done|]. unfold I. by rewrite Hdb.
  - intros i w now _. apply (refresh_wp eq eq (λ _ _ e, e) I (λ _, True) (λ _, True)); [done|].
    intros w1 x l _ Hi _. exists w1. split; [done|]. split; [|done]. unfold I. by rewrite Hrg.
  - apply pool_start_ok. reflexivity.
Qed.
Lemma run_cfg ms st p : pool_run ms (pool_start st) = Some p → cfg (pl_st p) = cfg st.
Proof. apply run_kept; [by intros x y (? & _) | done..]. Qed.
Lemma run_password ms st p : pool_run ms (pool_start st) = Some p → admin_password (pl_st p) = admin_password st.
Proof. apply run_kept; [by intros x y (_ & ? & _) | done..]. Qed.
Lemma run_ttl ms st p : pool_run ms (pool_start st) = Some p → ttl_of (pl_st p) = ttl_of st.
Proof. intros Hr. unfold ttl_of. by rewrite (run_cfg _ _ _ Hr). Qed.
Lemma during_app Q ms ms' p q :
  during Q (ms ++ ms') p → pool_run ms p = Some q → during Q ms p ∧ during Q ms' q.
Proof.
  intros Hd Hq. split.
  - intros a b r -> Hr. apply (Hd a (b ++ ms')); [by rewrite app_assoc | done].
  - intros a b r -> Hr. apply (Hd (ms ++ a) b); [by rewrite app_assoc|]. by rewrite pool_run_app, Hq.
Qed.
(** Numbers are given out in order. *)
Lemma run_next ms p q : pool_run ms p = Some q →
  (∀ i tk, pl_tasks p !! i = Some tk → (i < pl_next p)%nat) →
  (pl_next p <= pl_next q)%nat ∧ ∀ i tk, pl_tasks q !! i = Some tk → (i < pl_next q)%nat.
Proof.
  revert p. induction ms as [|m ms IH]; intros p; [by intros [= <-]|].
  cbn [pool_run]. intros (p1 & Hs & Hr)%bind_Some Hp.
  assert ((pl_next p <= pl_next p1)%nat ∧ ∀ i tk, pl_tasks p1 !! i = Some tk → (i < pl_next p1)%nat) as [Hn Hp1].
  { destruct m as [wd r|a b|i|i e|i|up]; cbn [pool_step] in Hs.
    3,4: unfold step_task in Hs; apply bind_Some in Hs as (tk0 & Htk & (y & _ & [= <-])%bind_Some);
      split; [done|]; cbn; intros j tk [[<- _]|[_ ?]]%lookup_insert_Some; by eauto.
    2: apply bind_Some in Hs as (ttl & _ & Hs).
    1,2: injection Hs as <-; cbn; split; [lia|]; intros j tk [[<- _]|[_ ?%Hp]]%lookup_insert_Some; lia.
    - injection Hs as <-. cbn. split; [lia|]. intros j tk [_ ?%Hp]%lookup_delete_Some. lia.
    - injection Hs as <-. by split. }
  destruct (IH p1 Hr Hp1) as [Hn' Hq]. split; [lia | done].
Qed.
Lemma step_wf db db' : step db db' → db_wf db → db_wf db'.
Proof. intros Hs. by apply rtc_effect_wf, step_effects. Qed.
End runs.

(** ** Properties *)

Section properties.
Context `{Argon2} `{Base64} `{Chrono} `{Axum} `{UrlCrate} `{Idna}.
Context `{SerdeJson (list string)} `{SerdeJson (list DiscoveredContainerDto)}.
Context `{SerdeJson EnrollRequest} `{SerdeJson HeartbeatRequest} `{SerdeJson PutRoutesRequest}.
Context `{SerdeJson DiscoveryReportRequest} `{SerdeJson EnableServiceRequest} `{SerdeJson LoginRequest}.

(** What a run keeps, from a state whose table is that of its storage at [now]. *)
Lemma table_from_past st0 ttl now ms p :
  db_wf (db_of st0) → ttl_of st0 = Some ttl → (∀ h, registry st0 !! h = dns_entry ttl now (db_of st0) h) →
  pool_run ms (pool_start st0) = Some p →
  db_wf (db_of (pl_st p))
  ∧ ∃ t ms1 ms2 q, ms = ms1 ++ ms2 ∧ pool_run ms1 (pool_start st0) = Some q
    ∧ (t = now ∨ ∃ m, m ∈ ms ∧ brings m t) ∧ ∀ h, registry (pl_st p) !! h = dns_entry ttl t (db_of (pl_st q)) h.
Proof.
  intros Hwf Httl Hs Hr.
  set (T := λ t, t = now ∨ ∃ m, m ∈ ms ∧ brings m t).
  set (P := λ st, ttl_of st = Some ttl
    ∧ ∃ ms1 ms2 q, ms = ms1 ++ ms2 ∧ pool_run ms1 (pool_start st0) = Some q ∧ pl_st q = st).
  set (from := λ (rg : DnsRegistry) st, ∃ t, T t ∧ ∀ h, rg !! h = dns_entry ttl t (db_of st) h).
  set (I := λ (_ : unit) st, db_wf (db_of st) ∧ ∃ st', P st' ∧ from (registry st) st').
  assert (during P ms (pool_start st0)) as Hd.
  { intros ms1 ms2 q Hms Hq. split; [|by eauto 6]. by rewrite (run_ttl _ _ _ Hq). }
  destruct (pool_run_ok eq eq (λ _ _ e, e) I P T (λ _ _, True) 0 tt ms (pool_start st0) p)
    as (? & _ & [Hw (st' & (_ & ms1 & ms2 & q & Hms & Hq & <-) & t & HT & Hreg)] & _); try done.
  - intros w x y (_ & _ & Hrg & Hdbe) [Hw Hp]. split; [by rewrite Hdbe | by rewrite Hrg].
  - intros w x db' [Hw Hp] _ Hstep. exists w. split; [done|]. split; [by eapply step_wf | done].
  - intros i w t HT. apply (refresh_wp eq eq (λ _ _ e, e) I P (λ l, ∃ st', P st' ∧ from (registry_map l) st')).
    + intros w1 x w2 y ttl' _ [Hx _] Hx' _ Hy. exists y. split; [done|]. exists t. split; [done|].
      assert (ttl' = ttl) as -> by congruence. apply registry_of_answer.
    + intros w1 x l Hl [Hw _] _. by exists w1.
  - apply pool_start_ok. split; [done|]. exists st0. split; [by apply (Hd [] ms (pool_start st0))|].
    exists now. split; [by left | done].
  - intros m t Hm Hb. right. by exists m.
  - by left.
  - split; [done|]. by exists t, ms1, ms2, q.
Qed.

(** C4: whatever requests run at the same time, however their statements
    interleave, whichever statements fail and whichever clients hang up, the
    tables of the controller stay well formed and its DNS table is, as a whole,
    the one of the storage at an earlier moment of the run: a name never resolves
    to an address that was not then that of its live, unrevoked owner, and two
    names never mix two moments. *)
Theorem concurrent_table_from_past dev_defaults read db c now st0 ms p :
  db_wf db → boot dev_defaults read db c now = Some (Ok st0) →
  pool_run ms (pool_start st0) = Some p →
  db_wf (db_of (pl_st p)) ∧ cfg (pl_st p) = c
  ∧ ∃ ttl t ms1 ms2 q, ms = ms1 ++ ms2 ∧ pool_run ms1 (pool_start st0) = Some q
    ∧ (t = now ∨ ∃ m, m ∈ ms ∧ brings m t) ∧ ttl_of (pl_st p) = Some ttl
    ∧ ∀ h, registry (pl_st p) !! h = dns_entry ttl t (db_of (pl_st q)) h.
Proof.
  intros Hwf Hboot Hr. destruct (boot_sync _ _ _ _ _ _ Hboot) as (Hc & Hdb & ttl & Httl & Hs).
  destruct (table_from_past st0 ttl now ms p) as (Hw & t & ms1 & ms2 & q & Hms & Hq & Ht & Hreg); [by rewrite Hdb | done..|].
  split; [done|]. split; [by rewrite (run_cfg _ _ _ Hr)|]. exists ttl, t, ms1, ms2, q.
  split; [done|]. split; [done|]. split; [done|]. split; [by rewrite (run_ttl _ _ _ Hr) | done].
Qed.

(** Nothing of the task is left to run. *)
Definition ended (p : Pool) (i : nat) : Prop :=
  ∀ tk, pl_tasks p !! i = Some tk → ∃ r, tk_thread tk = Ret r.

(** The logic of convergence to the answer [v]: in world 0 tasks that hold an old
    answer are still about, from world 2 on the table gives [v]. *)
Section convergence.
Context (ttl : Z) (T : Z → Prop) (h : string) (v : option Ipv4Addr) (next : nat).
Definition drains (w w' : nat) : Prop := (w <= w')%nat ∧ (w = 0%nat → w' = 0%nat).
Definition stable (st : AppState) : Prop :=
  ttl_of st = Some ttl ∧ ∀ t, T t → dns_entry ttl t (db_of st) h = v.
Definition settled_in (w : nat) (st : AppState) : Prop := (2 <= w)%nat → registry st !! h = v.
(** A task numbered from [next] on has refreshed from world 2 on only. *)
Definition done_in (i w : nat) : Prop := (next <= i)%nat → (2 <= w)%nat.
#[export] Instance drains_preorder : PreOrder drains.
Proof. unfold drains. split; [intros w; lia | intros w1 w2 w3; lia]. Qed.

Lemma converge_still w st st' : still st st' → settled_in w st → settled_in w st'.
Proof. intros (_ & _ & Hr & _) Hi. unfold settled_in. by rewrite Hr. Qed.
Lemma converge_step (G : relation nat) `{!PreOrder G} w st db :
  settled_in w st → stable st → step (db_of st) db → ∃ w', G w w' ∧ settled_in w' (set_db db st).
Proof. intros Hi _ _. by exists w. Qed.
Lemma refresh_converges (G : relation nat) (S : nat → Prop) t w :
  PreOrder G → (∀ w w', G w w' → (w <= w')%nat) → T t →
  (∀ w1, ∃ w2, G w1 w2 ∧ ∀ w3, (w2 <= w3)%nat → S w3) →
  wp le G settled_in stable w (refresh_dns_t t) (post (λ w' _, S w')).
Proof.
  intros ? G_le HT HS. apply (refresh_wp le G G_le settled_in stable (λ l, registry_map l !! h = v)).
  - intros w1 x w2 y ttl' _ [Hx _] Hx' _ [_ Hv]. assert (ttl' = ttl) as -> by congruence.
    rewrite registry_of_answer. by apply Hv.
  - intros w1 x l Hl _ _. destruct (HS w1) as (w2 & Hw2 & HS2). exists w2. split; [done|].
    split; [|done]. intros _. exact Hl.
Qed.
End convergence.

(** While old tasks are about: the tasks started since keep to world 0. *)
Lemma drain_ok p0 p1 ms T ttl h v :
  pool_run ms p0 = Some p1 → (∀ m t, m ∈ ms → brings m t → T t) → during (stable ttl T h v) ms p0 →
  (∀ i tk, pl_tasks p0 !! i = Some tk → (i < pl_next p0)%nat) →
  pool_ok le drains (settled_in h v) (stable ttl T h v) (λ _ _, True) (pl_next p0) 0%nat p1.
Proof.
  intros Hr HT Hd Hn.
  destruct (pool_run_ok le drains (λ w w' Hw, proj1 Hw) (settled_in h v) (stable ttl T h v) T (λ _ _, True)
    (pl_next p0) 0%nat ms p0 p1) as (w1 & [_ Hw1] & Hok); [done|apply converge_still| | | |done..| |done|].
  - intros w st db. by apply converge_step, _.
  - intros _ w t HTt. apply (refresh_converges ttl T h v drains (λ _, True)); [apply _|by intros w1 w2 []|done|].
    intros w3. exists w3. by split.
  - split; [intros Hw; lia|]. intros i tk Hi Htk%Hn. lia.
  - right. intros w' [_ Hw'] st Hw. rewrite Hw' in Hw by done. lia.
  - by rewrite Hw1 in Hok.
Qed.
(** Afterwards: every task keeps the answer, and those numbered from [next] on
    bring it. *)
Lemma converge_ok next w p p' ms T ttl h v :
  pool_ok le le (settled_in h v) (stable ttl T h v) (done_in next) 0 w p →
  pool_run ms p = Some p' → (∀ m t, m ∈ ms → brings m t → T t) → during (stable ttl T h v) ms p →
  ∃ w', (w <= w')%nat ∧ pool_ok le le (settled_in h v) (stable ttl T h v) (done_in next) 0 w' p'.
Proof.
  intros Hok Hr HT Hd.
  destruct (pool_run_ok le le (λ w w' Hw, Hw) (settled_in h v) (stable ttl T h v) T (done_in next)
    0%nat w ms p p') as (w1 & Hw1 & Hok1); [|apply converge_still| | |done..|by left|done|by exists w1].
  - intros i w0 w1 Hw Hn Hi. etrans; [by apply Hn | done].
  - intros w0 st db. by apply converge_step, _.
  - intros i w0 t HTt. apply (refresh_converges ttl T h v le (done_in next i)); [apply _|done|done|].
    intros w2. exists (w2 `max` 2)%nat. split; [lia|]. unfold done_in. lia.
Qed.

(** C7: the table converges.  Let the storage's answer for a name be [v] from some
    moment on, for every reading of the clock (a revoked or deleted name, or one
    whose owner stays alive).  Once the requests that were in flight at that
    moment are over, and then a tick of the cleanup task runs without a warning,
    or a heartbeat, an update, a deletion or a revocation started later is
    answered with success, the table gives [v], and goes on to, whatever other
    requests are running, failing or abandoned. *)
Theorem table_converges st0 ttl ms0 p0 ms1 p1 ms2 p2 ms3 p3 (T : Z → Prop) (h : string) v i req x :
  pool_run ms0 (pool_start st0) = Some p0 → pool_run ms1 p0 = Some p1 →
  pool_run ms2 p1 = Some p2 → pool_run ms3 p2 = Some p3 →
  ttl_of st0 = Some ttl → (∀ m t, m ∈ ms1 ++ ms2 ++ ms3 → brings m t → T t) →
  during (λ st, ∀ t, T t → dns_entry ttl t (db_of st) h = v) (ms1 ++ ms2 ++ ms3) p0 →
  (∀ j, (j < pl_next p0)%nat → ended p1 j) →
  (pl_next p1 <= i)%nat → pl_tasks p2 !! i = Some (mk_task req (Ret (Ok x))) → refreshed req x →
  registry (pl_st p2) !! h = v ∧ registry (pl_st p3) !! h = v.
Proof.
  intros Hr0 Hr1 Hr2 Hr3 Httl HT Hd Hend Hi Htask Hre.
  set (next := pl_next p1). set (P := stable ttl T h v). set (I := settled_in h v).
  assert (during P (ms1 ++ ms2 ++ ms3) p0) as Hdp.
  { intros a b q Hab Hq. split; [|by apply (Hd a b q)]. rewrite <- Httl. apply (run_ttl (ms0 ++ a)).
    rewrite pool_run_app, Hr0. exact Hq. }
  rewrite app_assoc in Hdp. destruct (during_app _ _ _ p0 p2 Hdp) as [Hd12 Hd3].
  { by rewrite pool_run_app, Hr1. }
  destruct (during_app _ _ _ _ _ Hd12 Hr1) as [Hd1 Hd2].
  destruct (run_next _ _ _ Hr0) as [_ Hn0]; [by intros j tk; cbn; rewrite lookup_empty|].
  destruct (run_next _ _ _ Hr1 Hn0) as [Hle Hn1].
  destruct (drain_ok p0 p1 ms1 T ttl h v) as [_ Ht1]; [done| |done..|]; [set_solver|].
  assert (pool_ok le le I P (done_in next) 0 1%nat p1) as Hok1.
  { split; [intros ?; lia|]. intros j tk _ Htk. destruct (decide (j < pl_next p0)%nat) as [Hj|Hj].
    - destruct (Hend j Hj tk Htk) as [r Hrt]. unfold task_ok. rewrite Hrt. intros w _.
      destruct r; [|done]. intros _ Hn. unfold next in Hn. lia.
    - eapply (wp_sub le drains le); [by intros w w' []|]. eapply wp_world with (w := 0%nat); [apply _|lia|].
      eapply wp_mono; [apply _|by intros w w' []| |apply (Ht1 j tk); [lia|exact Htk]].
      intros w [y|] _ _; [|done]. intros _ Hn. pose proof (Hn1 _ _ Htk). unfold next in Hn. lia. }
  destruct (converge_ok next 1%nat p1 p2 ms2 T ttl h v) as (w2 & Hw2 & Hok2); [done|done|set_solver|done|].
  assert (2 <= w2)%nat as Hw. { apply (proj2 Hok2 i _ (Nat.le_0_l _) Htask w2); [done|done|]. exact Hi. }
  destruct (converge_ok next w2 p2 p3 ms3 T ttl h v) as (w3 & Hw3 & Hok3); [done|done|set_solver|done|].
  split; [by apply (proj1 Hok2) | apply (proj1 Hok3); lia].
Qed.
End properties.

(** The concrete world of the witnesses. *)
Module Demo.
#[export] Existing Instance bits_chrono.
#[export] Existing Instance plain_argon2.
#[export] Existing Instance raw_base64.
#[export] Existing Instance plain_headers.
#[export] Existing Instance plain_url.
#[export] Existing Instance id_idna.
#[export] Existing Instance plain_strings.
#[export] Existing Instance ControllerSys.dtos_json.
#[export] Existing Instance ControllerSys.enroll_json.
#[export] Existing Instance ControllerSys.beat_json.
#[export] Existing Instance ControllerSys.put_json.
#[export] Existing Instance ControllerSys.report_json.
#[export] Existing Instance ControllerSys.enable_json.
#[export] Existing Instance ControllerSys.login_json.
#[export] Existing Instance ControllerSys.plain_axum.
End Demo.

(** ** Witnesses: an update holds the answer it read while its agent is revoked. *)
Section witnesses.
Import Demo.

#[local] Abbreviation start := (pool_start ControllerSpec.st0).
#[local] Definition ran (ms : list Move) (p : Pool) : Pool := default p (pool_run ms p).
(** Up to the deletion of the agent's routes; then the answer of the revocation,
    after which the update swaps its table in; then a tick. *)
#[local] Definition moves0 : list Move :=
  Arrive (ControllerSys.world 2 [65] []) (ControllerSys.http "POST" "/v1/admin/enrollment-tokens" "secret" "")
  :: replicate 2 (Advance 0)
  ++ Arrive (ControllerSys.world 3 [49] [50]) (ControllerSys.http "POST" "/v1/agents/enroll" "A" "")
  :: replicate 5 (Advance 1)
  ++ Arrive (ControllerSys.world 4 [] []) (ControllerSys.http "PUT" "/v1/agents/agt_1/routes" "2" "A.internal")
  :: replicate 9 (Advance 2)
  ++ Arrive (ControllerSys.world 5 [] []) (ControllerSys.http "DELETE" "/v1/admin/agents/agt_1" "secret" "")
  :: replicate 3 (Advance 3).
#[local] Definition moves1 : list Move := replicate 3 (Advance 3) ++ [Advance 2].
#[local] Definition moves2 : list Move := StartTick 6 6 :: replicate 4 (Advance 4).
#[local] Definition moves3 : list Move :=
  [Arrive (ControllerSys.world 7 [] []) (ControllerSys.http "PUT" "/v1/agents/agt_1/routes" "2" "A.internal");
   Advance 5; StmtFails 5 (Sqlx "database is locked"); HangUp 5].

Example revoked_name_returns :
  let p := ran moves1 (ran moves0 start) in
  tk_thread <$> pl_tasks p !! 3%nat = Some (Ret (Ok (Answer (ReStatus 204))))
  ∧ registry (pl_st p) !! "a.internal" = Some (mk_ipv4 100 64 0 1)
  ∧ routes (db_of (pl_st p)) !! "a.internal" = None.
Proof. vm_compute. done. Qed.

Lemma ran_eq ms p : bool_decide (is_Some (pool_run ms p)) = true → pool_run ms p = Some (ran ms p).
Proof. intros [q Hq]%bool_decide_eq_true. unfold ran. by rewrite Hq. Qed.
(** The states of a run. *)
#[local] Fixpoint trace (ms : list Move) (p : Pool) : list AppState :=
  pl_st p :: match ms with
             | [] => []
             | m :: ms' => match pool_step p m with Some q => trace ms' q | None => [] end
             end.
Lemma during_trace Q ms p : Forall Q (trace ms p) → during Q ms p.
Proof.
  revert p. induction ms as [|m ms IH]; intros p; cbn [trace]; intros [Hp Hq]%Forall_cons.
  - intros ms1 ms2 q [-> _]%eq_sym%app_nil [= <-]. done.
  - intros [|m' ms1] ms2 q Hms; [by intros [= <-]|]. injection Hms as <- ->. cbn [pool_run].
    intros (r & Hr & Hq')%bind_Some. rewrite Hr in Hq. by eapply IH.
Qed.
#[local] Definition endedb (p : Pool) (n : nat) : bool :=
  forallb (λ j, match pl_tasks p !! j with
                | Some tk => match tk_thread tk with Ret _ => true | _ => false end
                | None => true
                end) (seq 0 n).
Lemma endedb_ended p n j : endedb p n = true → (j < n)%nat → ended p j.
Proof.
  unfold endedb. rewrite forallb_forall. intros Hb Hj tk Htk.
  specialize (Hb j (proj2 (in_seq _ _ _) (conj (Nat.le_0_l _) Hj))). rewrite Htk in Hb.
  destruct (tk_thread tk); [by eexists | done..].
Qed.
Lemma gone_stable ttl ms p h :
  forallb (λ st, bool_decide (routes (db_of st) !! h = None)) (trace ms p) = true →
  during (λ st, ∀ t, True → dns_entry ttl t (db_of st) h = None) ms p.
Proof.
  intros Hb. apply during_trace, Forall_forall. intros st Hin t _. rewrite forallb_forall in Hb.
  assert (bool_decide (routes (db_of st) !! h = None) = true) as Hn by (apply Hb; by apply list_elem_of_In).
  apply bool_decide_eq_true in Hn. unfold dns_entry. by rewrite Hn.
Qed.

Lemma concurrent_table_from_past_witness :
  registry (pl_st (ran (moves0 ++ moves1) start)) !! "a.internal" = Some (mk_ipv4 100 64 0 1)
  ∧ routes (db_of (pl_st (ran (moves0 ++ moves1) start))) !! "a.internal" = None
  ∧ ∃ ttl t ms1 ms2 q, moves0 ++ moves1 = ms1 ++ ms2 ∧ pool_run ms1 start = Some q
    ∧ (t = 1 ∨ ∃ m, m ∈ moves0 ++ moves1 ∧ brings m t)
    ∧ dns_entry ttl t (db_of (pl_st q)) "a.internal" = Some (mk_ipv4 100 64 0 1).
Proof.
  assert (registry (pl_st (ran (moves0 ++ moves1) start)) !! "a.internal" = Some (mk_ipv4 100 64 0 1)) as Hr
    by (vm_compute; reflexivity).
  assert (pool_run (moves0 ++ moves1) start = Some (ran (moves0 ++ moves1) start)) as Hrun
    by (apply ran_eq; vm_compute; reflexivity).
  split; [exact Hr|]. split; [vm_compute; reflexivity|].
  destruct (concurrent_table_from_past false (λ _, Ok "secret") empty_db ControllerSpec.test_cfg 1
    ControllerSpec.st0 (moves0 ++ moves1) (ran (moves0 ++ moves1) start) empty_db_wf ControllerSys.boot_eq Hrun)
    as (_ & _ & ttl & t & ms1 & ms2 & q & Hms & Hq & Ht & _ & Hreg).
  exists ttl, t, ms1, ms2, q. split; [exact Hms|]. split; [exact Hq|]. split; [exact Ht|].
  rewrite <- Hreg. exact Hr.
Defined.

Lemma table_converges_witness :
  let p1 := ran moves1 (ran moves0 start) in
  registry (pl_st p1) !! "a.internal" = Some (mk_ipv4 100 64 0 1)
  ∧ registry (pl_st (ran moves2 p1)) !! "a.internal" = None
  ∧ registry (pl_st (ran moves3 (ran moves2 p1))) !! "a.internal" = None.
Proof.
  intros p1. split; [vm_compute; reflexivity|].
  apply (table_converges ControllerSpec.st0 90000000000 moves0 (ran moves0 start) moves1 p1 moves2
    (ran moves2 p1) moves3 (ran moves3 (ran moves2 p1)) (λ _, True) "a.internal" None 4 None (Warnings [])).
  - apply ran_eq. vm_compute. reflexivity.
  - apply ran_eq. vm_compute. reflexivity.
  - apply ran_eq. vm_compute. reflexivity.
  - apply ran_eq. vm_compute. reflexivity.
  - vm_compute. reflexivity.
  - intros m t _ _. exact Logic.I.
  - apply gone_stable. vm_compute. reflexivity.
  - intros j. apply endedb_ended. vm_compute. reflexivity.
  - apply Nat.leb_le. vm_compute. reflexivity.
  - vm_compute. reflexivity.
  - reflexivity.
Defined.
End witnesses.
