(* ===== verification/ConcurrentAuth.v ===== *)
(** * Who may change what, while requests run at the same time

    Two theorems about every run of a [Pool] of [Concurrent]: a step that changes
    the storage or the DNS table belongs to a request that was entitled to it at
    some moment since it arrived, and every row of the routes table is one an
    update of its agent asked for, for a hostname the policy allows.  Both follow
    from what single threads do ([until] of [Threads]). *)
From S2P Require Import Prelude RustStr Net Externals Common Concrete Hostname Store StoreRoutes StoreInv Config Registry.
From S2P Require Import Sessions State Probe Controller ControllerSpec Router ControllerSys Threads Concurrent.
#[local] Open Scope Z_scope.

(** ** Threads all of whose steps are of one kind *)

Section does.
Context (E Pre : AppState → Prop) (R : relation AppState).

Definition Does {A} (t : Thread A) : Prop := until E Pre R t (λ _, True).
(** The first part of a thread, which goes on only when [E] has held. *)
Definition Guards {A} (t : Thread A) : Prop := until E Pre R t (λ r, ∃ e, r = Err e).

Lemma does_ret {A} (r : result Failure A) : Does (Ret r).
Proof. done. Qed.
Lemma does_bind {A B} (t : Thread A) (f : A → Thread B) : Does t → (∀ a, Does (f a)) → Does (t ≫= f).
Proof. intros Ht Hf. eapply until_bind; [exact Ht | intros; apply Hf | done]. Qed.
Lemma does_local {A} (m : HandlerM A) : Moves R m → Does (local m).
Proof. intros Hm st _. split; [apply Hm | by right]. Qed.
Lemma does_stmt {A} f (m : SE Db StorageError A) : Moves R (storage_op f m) → Does (stmt f m).
Proof. intros Hm. split; [|done]. intros st _. split; [apply Hm | by right]. Qed.
Lemma does_catch {A} (t : Thread A) : Does t → Does (catch t).
Proof. apply (until_catch E Pre R t (λ _, True)). Qed.
Lemma guards_bind {A B} (t : Thread A) (f : A → Thread B) : Guards t → Does (t ≫= f).
Proof. intros Ht. eapply until_bind; [exact Ht | by intros a [] | done]. Qed.
Lemma guards_reply {A} (f : A → Reply) t : Does t → Does (reply_t f t).
Proof. intros Ht. by apply does_bind. Qed.
Lemma does_with_json {A} `{Axum} `{SerdeJson A} r (h : A → Thread Reply) : (∀ b, Does (h b)) → Does (with_json_t r h).
Proof. intros Hh. unfold with_json_t. by case_match. Qed.
End does.
Lemma does_weaken (E Pre : AppState → Prop) (R R' : relation AppState) {A} (t : Thread A) :
  (∀ st st', R st st' → R' st st') → Does E Pre R t → Does E Pre R' t.
Proof.
  unfold Does. intros HR. induction t as [r|B m k IH|B f m k IH]; cbn [until]; [done| |].
  - intros Ht st Hp. destruct (Ht st Hp) as [? [?|?]]; eauto.
  - intros [Ht He]. split; [|by eauto]. intros st Hp. destruct (Ht st Hp) as [? [?|?]]; eauto.
Qed.

(** Every thread does something. *)
Definition anything : relation AppState := λ _ _, True.
#[export] Instance anything_refl : Reflexive anything.
Proof. done. Qed.
Lemma does_anything (E Pre : AppState → Prop) {A} (t : Thread A) : Does E Pre anything t.
Proof.
  unfold Does in *. induction t as [r|B m k IH|B f m k IH]; cbn [until]; [done| |split; [|by intros e]].
  all: intros st _; split; [done | by right].
Qed.

Ltac does :=
  lazymatch goal with
  | |- Does _ _ _ (mbind _ _) => apply does_bind; [|intros ?]; does
  | |- Does _ _ _ (mret _) => apply does_ret
  | |- Does _ _ _ (local _) => apply does_local; apply _
  | |- Does _ _ _ (stmt _ _) => apply does_stmt; apply _
  | |- Does _ _ _ (catch _) => apply does_catch; does
  | |- Does _ _ _ (match ?x with _ => _ end) => destruct x; does
  | |- Does _ _ _ (let _ := _ in _) => cbv zeta; does
  | |- Does _ _ _ (audit_t _ _ _) => unfold audit_t; does
  | |- Does _ _ _ (check_agent_t _ _) => unfold check_agent_t; does
  | |- Does _ _ _ (check_admin_t _ _ _) => apply does_local, _
  | |- Does _ _ _ (refresh_dns_t _) => unfold refresh_dns_t; does
  | |- Does _ _ _ (consume_enrollment_token_t _ _ _) => unfold consume_enrollment_token_t; does
  | |- Does _ _ _ (revoke_agent_t _ _) => unfold revoke_agent_t; does
  end.

(** ** Entitlement *)

Section entitlement.
Context `{Argon2} `{Base64} `{Chrono} `{Axum} `{UrlCrate} `{Idna}.
Context `{SerdeJson (list string)} `{SerdeJson (list DiscoveredContainerDto)}.
Context `{SerdeJson EnrollRequest} `{SerdeJson HeartbeatRequest} `{SerdeJson PutRoutesRequest}.
Context `{SerdeJson DiscoveryReportRequest} `{SerdeJson EnableServiceRequest} `{SerdeJson LoginRequest}.

Lemma verify_agent_run id hs token st : bearer_token hs = Some token →
  storage_op (λ _, Unauthorized) (verify_agent_token id token) st =
  (if agent_authorized (db_of st) id hs then Ok tt else Err (Refused Unauthorized), st).
Proof.
  intros Hb. pose proof (check_agent_run id hs st) as Hc. unfold check_agent in Hc.
  rewrite SE_bind_run, Hb in Hc. exact Hc.
Qed.
#[export] Instance verify_agent_still id token f : Moves still (storage_op f (verify_agent_token id token)).
Proof.
  apply storage_op_still. intros db. unfold verify_agent_token. se_run. by repeat case_match.
Qed.
#[export] Instance gets_still {A} f (g : Db → A) : Moves still (storage_op f (gets g)).
Proof. by apply storage_op_still. Qed.

Section guards.
Context (E : AppState → Prop).
#[local] Abbreviation Guards := (Guards E (λ _, True) still).
#[local] Abbreviation Does := (Does E (λ _, True) still).

Lemma check_agent_guards id hs : (∀ st, agent_authorized (db_of st) id hs = true → E st) → Guards (check_agent_t id hs).
Proof.
  intros HE. apply (until_bind _ _ _ _ _ (λ r, ∀ t, r = Ok t → bearer_token hs = Some t)).
  - intros st _. split; [done|]. right. intros t. cbn. by destruct (bearer_token hs); intros [= <-].
  - intros t Ht. specialize (Ht t eq_refl). split; [|intros e; by eexists]. intros st _.
    rewrite (verify_agent_run id hs t st Ht). split; [done|].
    destruct (agent_authorized (db_of st) id hs) eqn:Ha; [left; by apply HE | right; cbn; by eauto].
  - by eauto.
Qed.
Lemma check_admin_guards hs t t' : (∀ st, admin_bearer st hs t t' = true → E st) → Guards (check_admin_t hs t t').
Proof.
  intros HE st _. split; [apply check_admin_still|]. destruct (check_admin_run hs t t' st) as [ss ->].
  destruct (admin_bearer st hs t t') eqn:Hb; [left; by apply HE | right; cbn; by eauto].
Qed.
(** The token is looked for in the hashes one statement read; another writes. *)
Lemma consume_guards f token now :
  (∀ st h, h ∈ unused_token_hashes (db_of st) → verify_token h token = true → E st) →
  Guards (consume_enrollment_token_t f token now).
Proof.
  intros HE. apply (until_bind _ _ _ _ _ (λ r, ∀ rows, r = Ok rows → matching token rows = [])).
  - split; [|done]. intros st _. split; [apply gets_still|]. rewrite storage_op_run. cbn [gets fst snd map_err].
    destruct (matching token (unused_token_hashes (db_of st))) as [|h l] eqn:Hm; [right|left].
    + by intros rows [= <-].
    + assert (h ∈ matching token (unused_token_hashes (db_of st))) as Hin by (rewrite Hm; by left).
      apply list_elem_of_filter in Hin as [Hv Hin]. by eapply HE.
  - intros rows Hm. specialize (Hm rows eq_refl). split; [|intros e; by eexists]. intros st _.
    rewrite storage_op_run, consume_rows_matching, Hm. cbn. rewrite set_db_id. split; [done|]. right. by eauto.
  - by eauto.
Qed.
Lemma enroll_does hs body ib tb salt t t' :
  (∀ st token h, bearer_token hs = Some token → h ∈ unused_token_hashes (db_of st) →
     verify_token h token = true → E st) →
  Does (enroll_t hs body ib tb salt t t').
Proof.
  intros HE. apply (until_bind _ _ _ _ _ (λ r, ∀ t, r = Ok t → bearer_token hs = Some t)); [| |done].
  - intros st _. split; [done|]. right. intros tk. cbn. by destruct (bearer_token hs); intros [= <-].
  - intros token Ht. apply guards_bind, consume_guards. intros st h. by apply HE, Ht.
Qed.
End guards.

(** Until the request has been entitled, its steps change the sessions at most. *)
Lemma serve_until w r : Does (entitled w r) (λ _, True) still (serve_t w r).
Proof.
  unfold serve_t. destruct (dispatch (hq_method r) (hq_path r)) as [| | |e] eqn:Hd; try apply does_ret.
  assert (∀ P : AppState → Prop, (∀ st, match e with
    | EHeartbeat id | EPutRoutes id | EPutDiscovery id => agent_authorized (db_of st) id (hq_headers r) = true
    | EEnroll => ∃ token h, bearer_token (hq_headers r) = Some token ∧ h ∈ unused_token_hashes (db_of st)
        ∧ verify_token h token = true
    | EEnable | EDisable _ | EDeleteRoute _ | ECreateToken | ERevoke _ =>
        admin_bearer st (hq_headers r) (w_now w 0%nat) (w_now w 1%nat) = true
    | _ => False end → P st) → Does P (λ _, True) still (call_t w e r)) as Hcall; last first.
  { apply Hcall. intros st He. unfold entitled. rewrite Hd. exact He. }
  intros P HP. destruct e; cbn [call_t]; try apply does_ret; try (apply does_with_json; intros b);
    try apply guards_reply;
    try (apply guards_bind; first [by apply check_agent_guards | by apply check_admin_guards]).
  - unfold ready_t. does.
  - apply does_local, admin_login_still.
  - apply does_local, admin_logout_still.
  - apply enroll_does. intros st token h Hb Hin Hv. apply HP. by exists token, h.
  - unfold desired_services_t. does.
  - unfold admin_discovery_t. does.
  - unfold admin_agents_t. does.
  - unfold admin_routes_t. does.
  - unfold admin_dashboard_t. does.
Qed.
Lemma request_until w r : Does (entitled w r) (λ _, True) still (tk_thread (request_task w r)).
Proof. apply does_bind; [apply serve_until | intros; apply does_ret]. Qed.
End entitlement.

(** ** What leaves the routes alone *)

Section same_routes.
Context `{Argon2} `{Base64} `{Chrono} `{Axum} `{UrlCrate} `{Idna}.
Context `{SerdeJson (list string)} `{SerdeJson (list DiscoveredContainerDto)}.
Context `{SerdeJson EnrollRequest} `{SerdeJson HeartbeatRequest} `{SerdeJson PutRoutesRequest}.
Context `{SerdeJson DiscoveryReportRequest} `{SerdeJson EnableServiceRequest} `{SerdeJson LoginRequest}.

Definition same_routes (st st' : AppState) : Prop := routes (db_of st') = routes (db_of st).
#[export] Instance same_routes_preorder : PreOrder same_routes.
Proof. split; [done|]. unfold same_routes. intros s1 s2 s3. congruence. Qed.

Lemma still_same {A} (m : HandlerM A) : Moves still m → Moves same_routes m.
Proof. intros Hm st. unfold same_routes. by destruct (Hm st) as (_ & _ & _ & ->). Qed.
Lemma op_same {A} f (m : SE Db StorageError A) :
  (∀ db, routes (m db).2 = routes db) → Moves same_routes (storage_op f m).
Proof. intros Hm st. unfold same_routes. rewrite storage_op_snd. apply Hm. Qed.
#[export] Instance consume_same f rows token now : Moves same_routes (storage_op f (consume_rows rows token now)).
Proof. apply op_same. intros db. by destruct (consume_rows_step rows token now db) as [->|[x ->]]. Qed.
#[export] Instance create_token_same f buf salt now : Moves same_routes (storage_op f (create_enrollment_token buf salt now)).
Proof. apply op_same. intros db. apply create_token_grows. Qed.
#[export] Instance enroll_same f n ip e ib tb salt now : Moves same_routes (storage_op f (enroll_agent n ip e ib tb salt now)).
Proof. apply op_same. intros db. apply enroll_grows. Qed.
#[export] Instance snapshot_same f i p now : Moves same_routes (storage_op f (put_discovery_snapshot i p now)).
Proof. apply op_same. intros db. apply snapshot_grows. Qed.
#[export] Instance upsert_same f i a k n hs b now : Moves same_routes (storage_op f (upsert_enabled_service i a k n hs b now)).
Proof. apply op_same. intros db. apply upsert_grows. Qed.
#[export] Instance set_enabled_same f i b now : Moves same_routes (storage_op f (set_enabled_service i b now)).
Proof. apply op_same. intros db. apply set_enabled_grows. Qed.
#[export] Instance audit_same f e d now : Moves same_routes (storage_op f (audit e d now)).
Proof. by apply op_same. Qed.
#[export] Instance mark_same f id now : Moves same_routes (storage_op f (modify (revoke_mark id now))).
Proof. by apply op_same. Qed.
#[export] Instance beat_same f id ip now : Moves same_routes (storage_op f (Store.heartbeat id ip now)).
Proof.
  apply op_same. intros db. unfold Store.heartbeat. se_run. destruct (agents db !! id); [by case_decide | done].
Qed.
#[export] Instance get_agent_same f now id : Moves same_routes (storage_op f (get_agent now id)).
Proof. apply op_same. intros db. unfold get_agent. se_run. by repeat case_match. Qed.
#[export] Instance swap_same l : Moves same_routes (refresh_swap l).
Proof. by intros st. Qed.
#[local] Hint Extern 6 (Moves same_routes _) => apply still_same : typeclass_instances.

(** Every request but an update, a deletion and a revocation. *)
Lemma call_same E Pre w e r :
  match e with EPutRoutes _ | EDeleteRoute _ | ERevoke _ => False | _ => True end → Does E Pre same_routes (call_t w e r).
Proof.
  intros He. destruct e; cbn [call_t]; try done; try apply does_ret;
    try (apply does_with_json; intros b); try apply guards_reply.
  - unfold ready_t. does.
  - apply does_local, still_same, admin_login_still.
  - apply does_local, still_same, admin_logout_still.
  - unfold enroll_t. does.
  - unfold heartbeat_t. does.
  - unfold put_discovery_t, or_refuse. does.
  - unfold desired_services_t. does.
  - unfold admin_discovery_t. does.
  - unfold admin_enable_service_t, or_refuse, refuse. does.
  - unfold admin_disable_service_t. does.
  - unfold admin_agents_t. does.
  - unfold admin_routes_t. does.
  - unfold admin_dashboard_t. does.
  - unfold admin_create_enrollment_token_t. does.
Qed.
End same_routes.
#[export] Hint Extern 6 (Moves same_routes _) => apply still_same : typeclass_instances.

(** ** Where the rows come from *)

Section provenance.
Context `{Argon2} `{Base64} `{Chrono} `{Axum} `{UrlCrate} `{Idna}.
Context `{SerdeJson (list string)} `{SerdeJson (list DiscoveredContainerDto)}.
Context `{SerdeJson EnrollRequest} `{SerdeJson HeartbeatRequest} `{SerdeJson PutRoutesRequest}.
Context `{SerdeJson DiscoveryReportRequest} `{SerdeJson EnableServiceRequest} `{SerdeJson LoginRequest}.

(** The request is an update of the row's agent that asks for the row, and the
    policy of [c] allows its hostname. *)
Definition asks_for (c : ControllerConfig) (r : HttpRequest) (h : string) (row : RouteRow) : Prop :=
  dispatch (hq_method r) (hq_path r) = Found (EPutRoutes (rt_agent_id row))
  ∧ hostname_allowed c h = Ok tt
  ∧ ∃ body e, from_json (hq_body r) = Ok body ∧ e ∈ pr_routes body
      ∧ h = entry_host e ∧ rt_backend row = re_backend e.
(** Every new row is one of [new]. *)
Definition rows_from (new : string → RouteRow → Prop) (st st' : AppState) : Prop :=
  ∀ h row, routes (db_of st') !! h = Some row → routes (db_of st) !! h = Some row ∨ new h row.
Definition no_row (_ : string) (_ : RouteRow) : Prop := False.
#[export] Instance rows_from_preorder new : PreOrder (rows_from new).
Proof.
  split; [by left|]. intros s1 s2 s3 Hs Hs' h row [Hr|?]%Hs'; [by apply Hs | by right].
Qed.

Lemma same_rows new st st' : same_routes st st' → rows_from new st st'.
Proof. intros Hs h row. rewrite Hs. by left. Qed.
Lemma moves_rows {A} new (m : HandlerM A) : Moves same_routes m → Moves (rows_from new) m.
Proof. intros Hm st. apply same_rows, Hm. Qed.
Lemma op_rows {A} new f (m : SE Db StorageError A) :
  (∀ db h row, routes (m db).2 !! h = Some row → routes db !! h = Some row ∨ new h row) →
  Moves (rows_from new) (storage_op f m).
Proof. intros Hm st h row. rewrite storage_op_snd. apply Hm. Qed.
(** The statements that write; none but the update adds a row. *)
Lemma put_entries_rows id ttl clk i es db out db' out' h row :
  put_entries id ttl clk i es (db, out) = Ok (db', out') → routes db' !! h = Some row →
  routes db !! h = Some row
  ∨ rt_agent_id row = id ∧ ∃ e, e ∈ es ∧ h = entry_host e ∧ rt_backend row = re_backend e.
Proof.
  revert i db out. induction es as [|e es IH]; intros i db out; cbn [put_entries]; [intros [= -> _]; by left|].
  destruct (put_entry id ttl (clk i) e (db, out)) as [[db2 out2]|] eqn:He; [|done]. cbn [mbind result_bind].
  intros Hp Hrow. destruct (IH (S i) db2 out2 Hp Hrow) as [Hr|(Hid & e' & Hin & He')].
  - apply put_entry_inv in He as [->|[_ ->]]; [by left|]. cbn in Hr.
    apply lookup_insert_Some in Hr as [[<- <-]|[_ ?]]; [right | by left].
    split; [done|]. exists e. split; [by left | done].
  - right. split; [done|]. exists e'. split; [by right | done].
Qed.
Lemma put_tx_rows id es ttl clk db h row :
  routes (put_routes_tx id es ttl clk db).2 !! h = Some row →
  routes db !! h = Some row
  ∨ rt_agent_id row = id ∧ ∃ e, e ∈ es ∧ h = entry_host e ∧ rt_backend row = re_backend e.
Proof.
  unfold put_routes_tx. destruct (put_entries _ _ _ _ _ _) as [[db1 out]|] eqn:Hp; cbn; [|by left].
  rewrite drop_undesired_lookup. case_decide; [done|]. by eapply put_entries_rows.
Qed.
#[export] Instance delete_rows new f h0 : Moves (rows_from new) (storage_op f (delete_route h0)).
Proof.
  apply op_rows. intros db h row. unfold delete_route. se_run. cbn. intros [_ ?]%lookup_delete_Some. by left.
Qed.
#[export] Instance revoke_rows new f id : Moves (rows_from new) (storage_op f (modify (revoke_delete_routes id))).
Proof.
  apply op_rows. intros db h row. cbn. intros [? _]%map_lookup_filter_Some. by left.
Qed.
#[export] Instance purge_rows new f ttl now : Moves (rows_from new) (storage_op f (purge_expired_agents ttl now)).
Proof.
  apply op_rows. intros db h row. unfold purge_expired_agents. se_run. cbn. intros [? _]%map_lookup_filter_Some. by left.
Qed.
End provenance.
#[export] Hint Extern 6 (Moves (rows_from _) _) => apply moves_rows : typeclass_instances.

Section tasks.
Context `{Argon2} `{Base64} `{Chrono} `{Axum} `{UrlCrate} `{Idna}.
Context `{SerdeJson (list string)} `{SerdeJson (list DiscoveredContainerDto)}.
Context `{SerdeJson EnrollRequest} `{SerdeJson HeartbeatRequest} `{SerdeJson PutRoutesRequest}.
Context `{SerdeJson DiscoveryReportRequest} `{SerdeJson EnableServiceRequest} `{SerdeJson LoginRequest}.
Context (c : ControllerConfig).
#[local] Abbreviation Rows new := (Does (λ _, False) (λ st, cfg st = c) (rows_from new)).

Lemma rows_weaken (new : string → RouteRow → Prop) {A} (t : Thread A) : Rows no_row t → Rows new t.
Proof. apply does_weaken. intros st st' Hs h row [?|[]]%Hs. by left. Qed.
Lemma put_routes_rows id hs body t clk t_dns :
  Rows (λ h row, rt_agent_id row = id ∧ hostname_allowed c h = Ok tt
          ∧ ∃ e, e ∈ pr_routes body ∧ h = entry_host e ∧ rt_backend row = re_backend e)
    (put_routes_t id hs body t clk t_dns).
Proof.
  unfold put_routes_t. apply does_bind; [apply rows_weaken; does | intros _].
  apply (until_bind _ _ _ _ _ (λ r, ∀ c', r = Ok c' → c' = c)); [| |done].
  { intros st Hc. split; [done|]. right. intros c' [= <-]. exact Hc. }
  intros c' Hc'. specialize (Hc' c' eq_refl) as ->.
  apply (until_bind _ _ _ _ _ (λ r, r = Ok tt → Forall (λ e, hostname_allowed c (re_hostname e) = Ok tt) (pr_routes body)));
    [| |done].
  { intros st _. split; [done|]. right. cbn [lift fst]. intros Hf%for_each_Ok. eapply Forall_impl; [exact Hf|].
    intros e He. cbn in He. destruct (hostname_allowed c (re_hostname e)) as [[]|]; done. }
  intros [] Hall. specialize (Hall eq_refl). apply does_bind; [does | intros ttl].
  apply does_bind; [|intros out; apply rows_weaken; does].
  apply does_bind; [does | intros _].
  apply does_stmt, op_rows. intros db h row [?|(Hid & e & Hin & -> & Hb)]%put_tx_rows; [by left | right].
  split; [done|]. split; [|by eauto]. rewrite Forall_forall in Hall. by apply hostname_allowed_lower, Hall.
Qed.
Lemma call_rows w e r : match e with EPutRoutes _ => False | _ => True end → Rows no_row (call_t w e r).
Proof.
  intros He. destruct e; try done;
    try (eapply does_weaken; [intros st st'; apply same_rows | by apply call_same]); cbn [call_t]; apply guards_reply.
  - unfold admin_delete_route_t. does.
  - unfold admin_revoke_agent_t. does.
Qed.
Lemma request_rows w r : Rows (asks_for c r) (tk_thread (request_task w r)).
Proof.
  cbn [request_task tk_thread]. apply does_bind; [|intros; apply does_ret]. unfold serve_t.
  destruct (dispatch (hq_method r) (hq_path r)) as [| | |e] eqn:Hd; try apply does_ret.
  destruct e as [| | | | | | | |id| | | | | | | | | | |]; try by (apply rows_weaken, call_rows).
  cbn [call_t]. unfold with_json_t. destruct (json_type _); [|apply does_ret].
  destruct (from_json (hq_body r)) as [body|] eqn:Hb; cbn [ok]; [|apply does_ret].
  apply guards_reply. eapply does_weaken; [|apply put_routes_rows].
  intros st st' Hs h row [?|(<- & Ha & e & Hin & He)]%Hs; [by left | right].
  split; [done|]. split; [done|]. by exists body, e.
Qed.
Lemma cleanup_rows ttl t_purge t_dns : Rows no_row (tk_thread (cleanup_task ttl t_purge t_dns)).
Proof. cbn [cleanup_task tk_thread]. unfold cleanup_tick_t. does. Qed.
End tasks.

(** ** Runs *)

Section runs.
Context `{Argon2} `{Base64} `{Chrono} `{Axum} `{UrlCrate} `{Idna}.
Context `{SerdeJson (list string)} `{SerdeJson (list DiscoveredContainerDto)}.
Context `{SerdeJson EnrollRequest} `{SerdeJson HeartbeatRequest} `{SerdeJson PutRoutesRequest}.
Context `{SerdeJson DiscoveryReportRequest} `{SerdeJson EnableServiceRequest} `{SerdeJson LoginRequest}.
Context (st0 : AppState).
#[local] Abbreviation start := (pool_start st0).

(** [q] is a moment of the run [ms] after the request [r] arrived, as task [i]. *)
Definition since_arrival (ms : list Move) (i : nat) (w : World) (r : HttpRequest) (q : Pool) : Prop :=
  ∃ ms0 ms1 ms2 q0, ms = ms0 ++ Arrive w r :: ms1 ++ ms2 ∧ pool_run ms0 start = Some q0 ∧ pl_next q0 = i
    ∧ pool_run (ms0 ++ Arrive w r :: ms1) start = Some q.
Definition was_entitled (ms : list Move) (i : nat) (w : World) (r : HttpRequest) : Prop :=
  ∃ q, since_arrival ms i w r q ∧ entitled w r (pl_st q).

Lemma since_later ms ms' i w r q : since_arrival ms i w r q → since_arrival (ms ++ ms') i w r q.
Proof.
  intros (a & b & d & q0 & -> & Hq0 & Hi & Hq). exists a, b, (d ++ ms'), q0. split; [|done].
  by rewrite <- app_assoc, <- app_comm_cons, <- app_assoc.
Qed.
Lemma since_now ms i w r q p : since_arrival ms i w r q → pool_run ms start = Some p → since_arrival ms i w r p.
Proof.
  intros (a & b & d & q0 & -> & Hq0 & Hi & Hq) Hp. exists a, (b ++ d), [], q0. by rewrite app_nil_r.
Qed.
Lemma was_later ms ms' i w r : was_entitled ms i w r → was_entitled (ms ++ ms') i w r.
Proof. intros (q & Hs & He). exists q. split; [by apply since_later | done]. Qed.

(** What is known of the tasks when every request does [ByRequest w r], in its
    world, and every tick [ByTick t_purge t_dns]. *)
Section causes.
Context (ByRequest : World → HttpRequest → relation AppState) (ByTick : Z → Z → relation AppState).
Context `{!∀ w r, Reflexive (ByRequest w r)} `{!∀ t_purge t_dns, Reflexive (ByTick t_purge t_dns)}.
#[local] Abbreviation Doing R := (Does (λ _, False) (λ st, cfg st = cfg st0) R).
Hypothesis request_doing : ∀ w r, Doing (ByRequest w r) (tk_thread (request_task w r)).
Hypothesis tick_doing : ∀ ttl t_purge t_dns, ttl_of st0 = Some ttl →
  Doing (ByTick t_purge t_dns) (tk_thread (cleanup_task ttl t_purge t_dns)).

Definition task_known (ms : list Move) (i : nat) (tk : Task) : Prop :=
  match tk_request tk with
  | None => ∃ t_purge t_dns, StartTick t_purge t_dns ∈ ms ∧ Doing (ByTick t_purge t_dns) (tk_thread tk)
  | Some r => ∃ w, (∃ q, since_arrival ms i w r q) ∧ Doing (ByRequest w r) (tk_thread tk)
      ∧ (was_entitled ms i w r ∨ Does (entitled w r) (λ _, True) still (tk_thread tk))
  end.
Definition tasks_known (ms : list Move) (p : Pool) : Prop :=
  ∀ i tk, pl_tasks p !! i = Some tk → task_known ms i tk.
(** The step of task [i] from [st] to [st'] is a tick's, or one of a request that
    has been entitled to it. *)
Definition caused (ms : list Move) (i : nat) (tk : Task) (st st' : AppState) : Prop :=
  match tk_request tk with
  | None => ∃ t_purge t_dns, StartTick t_purge t_dns ∈ ms ∧ ByTick t_purge t_dns st st'
  | Some r => ∃ w, was_entitled ms i w r ∧ ByRequest w r st st'
  end.

Lemma task_later ms ms' i tk : task_known ms i tk → task_known (ms ++ ms') i tk.
Proof.
  unfold task_known. destruct (tk_request tk) as [r|].
  - intros (w & (q & Hq) & Hr & Hw). exists w. split; [exists q; by apply since_later|]. split; [done|].
    destruct Hw; [left; by apply was_later | by right].
  - intros (a & b & Hin & Hd). exists a, b. split; [|done]. apply elem_of_app. by left.
Qed.

(** One step of a known task. *)
Lemma advance_known ms p i tk fails st' t' :
  pool_run ms start = Some p → task_known ms i tk → advance fails (tk_thread tk) (pl_st p) = Some (st', t') →
  task_known ms i (mk_task (tk_request tk) t') ∧ (still (pl_st p) st' ∨ caused ms i tk (pl_st p) st').
Proof.
  intros Hp Hk Ha. pose proof (run_cfg _ _ _ Hp) as Hcfg. unfold task_known, caused in *. cbn [tk_request tk_thread].
  destruct (tk_request tk) as [r|].
  - destruct Hk as (w & (q & Hq) & Hr & Hw).
    destruct (advance_until _ _ _ _ _ _ _ _ _ Hr Hcfg Ha) as [HR [[]|Hr']].
    assert ((still (pl_st p) st' ∨ was_entitled ms i w r)
      ∧ (was_entitled ms i w r ∨ Does (entitled w r) (λ _, True) still t')) as [Hs Hw'].
    { destruct Hw as [Hw|Hd]; [by split; [right | left]|].
      destruct (advance_until _ _ _ _ _ _ _ _ _ Hd Logic.I Ha) as [Hs He]. split; [by left|].
      destruct He as [He|?]; [left | by right]. exists p. split; [by eapply since_now | done]. }
    split; [exists w; by eauto|]. destruct Hs; [by left | right]. by exists w.
  - destruct Hk as (a & b & Hin & Hd). destruct (advance_until _ _ _ _ _ _ _ _ _ Hd Hcfg Ha) as [HR [[]|Hr']].
    split; [|right]; by exists a, b.
Qed.

Lemma step_known ms p m p' :
  pool_run ms start = Some p → tasks_known ms p → pool_step p m = Some p' →
  tasks_known (ms ++ [m]) p'
  ∧ (still (pl_st p) (pl_st p')
     ∨ ∃ i tk, m = Advance i ∧ pl_tasks p !! i = Some tk ∧ caused ms i tk (pl_st p) (pl_st p')).
Proof.
  intros Hp Ht Hs.
  assert (∀ i tk, pl_tasks p !! i = Some tk → task_known (ms ++ [m]) i tk) as Ht' by (intros; by apply task_later, Ht).
  assert (∀ i fails, step_task i fails p = Some p' → tasks_known (ms ++ [m]) p'
    ∧ (still (pl_st p) (pl_st p') ∨ ∃ tk, pl_tasks p !! i = Some tk ∧ caused ms i tk (pl_st p) (pl_st p'))) as Hstep.
  { intros i fails. unfold step_task. intros (tk & Htk & ([st' t'] & Ha & [= <-])%bind_Some)%bind_Some.
    destruct (advance_known ms p i tk fails st' t' Hp (Ht _ _ Htk) Ha) as [Hk Hw]. cbn [pl_st fst snd].
    split; [|destruct Hw; [by left | right; by eauto]]. intros j tk'. cbn [pl_tasks snd].
    intros [[<- <-]|[_ ?]]%lookup_insert_Some; [by apply task_later | by apply Ht']. }
  destruct m as [w r|a b|i|i e|i|up]; cbn [pool_step] in Hs.
  - injection Hs as <-. split; [|by left]. intros j tk. cbn [add_task pl_tasks].
    intros [[<- <-]|[_ ?]]%lookup_insert_Some; [|by apply Ht']. unfold task_known. cbn [request_task tk_request].
    exists w. split; [|split; [apply request_doing | right; apply request_until]].
    exists (add_task (request_task w r) p), ms, [], [], p. split; [done|]. split; [done|]. split; [done|].
    by rewrite pool_run_app, Hp.
  - apply bind_Some in Hs as (ttl & Httl & [= <-]). split; [|by left]. intros j tk. cbn [add_task pl_tasks].
    intros [[<- <-]|[_ ?]]%lookup_insert_Some; [|by apply Ht']. exists a, b.
    split; [apply elem_of_app; right; by left|]. apply tick_doing. by rewrite <- (run_ttl _ _ _ Hp).
  - destruct (Hstep _ _ Hs) as [Hk [?|(tk & Htk & Hw)]]; split; [done|by left|done|right; by exists i, tk].
  - destruct (Hstep _ _ Hs) as [Hk _]. split; [done|left]. unfold step_task in Hs.
    apply bind_Some in Hs as (tk & Htk & ([st' t'] & Ha & [= <-])%bind_Some). cbn [pl_st fst].
    assert (st' = pl_st p) as -> by (destruct (tk_thread tk); [done..|]; by injection Ha as <- _). by repeat split.
  - injection Hs as <-. split; [|by left]. intros j tk. cbn [pl_tasks]. intros [_ Hl]%lookup_delete_Some. by apply Ht'.
  - injection Hs as <-. split; [done|left]. by repeat split.
Qed.
Lemma run_known ms p : pool_run ms start = Some p → tasks_known ms p.
Proof.
  revert p. induction ms as [|m ms IH] using rev_ind; intros p.
  { intros [= <-] i tk. cbn. by rewrite lookup_empty. }
  rewrite pool_run_app. intros (q & Hq & (p' & Hs & [= <-])%bind_Some)%bind_Some.
  by destruct (step_known ms q m p' Hq (IH q Hq) Hs).
Qed.
Lemma step_caused ms p m p' : pool_run ms start = Some p → pool_step p m = Some p' →
  still (pl_st p) (pl_st p')
  ∨ ∃ i tk, m = Advance i ∧ pl_tasks p !! i = Some tk ∧ caused ms i tk (pl_st p) (pl_st p').
Proof. intros Hp Hs. apply (step_known ms p m p' Hp); [by apply run_known | done]. Qed.
End causes.

(** Every row is one of the start or was asked for by a request that was entitled. *)
Definition row_known (ms : list Move) (h : string) (row : RouteRow) : Prop :=
  routes (db_of st0) !! h = Some row
  ∨ ∃ i w r, was_entitled ms i w r ∧ asks_for (cfg st0) r h row.
Lemma row_later ms ms' h row : row_known ms h row → row_known (ms ++ ms') h row.
Proof. intros [?|(i & w & r & Hw & Ha)]; [by left | right]. exists i, w, r. split; [by apply was_later | done]. Qed.
Lemma run_rows ms p h row :
  pool_run ms start = Some p → routes (db_of (pl_st p)) !! h = Some row → row_known ms h row.
Proof.
  revert p. induction ms as [|m ms IH] using rev_ind; intros p; [by intros [= <-]; left|].
  rewrite pool_run_app. intros (q & Hq & (p' & Hs & [= <-])%bind_Some)%bind_Some Hrow.
  destruct (step_caused (λ _ r, rows_from (asks_for (cfg st0) r)) (λ _ _, rows_from no_row) (λ w r, request_rows (cfg st0) w r)
    (λ ttl a b _, cleanup_rows (cfg st0) ttl a b) ms q m p' Hq Hs) as [(_ & _ & _ & Hd)|(i & tk & -> & Htk & Hc)].
  { apply row_later, (IH q Hq). by rewrite Hd in Hrow. }
  unfold caused in Hc. destruct (tk_request tk) as [r|].
  - destruct Hc as (w & Hw & Hr). destruct (Hr h row Hrow) as [?|Ha]; [by apply row_later, (IH q Hq)|].
    right. exists i, w, r. split; [by apply was_later | done].
  - destruct Hc as (a & b & _ & Hr). destruct (Hr h row Hrow) as [?|[]]. by apply row_later, (IH q Hq).
Qed.
End runs.

(** ** Properties *)

Section properties.
Context `{Argon2} `{Base64} `{Chrono} `{Axum} `{UrlCrate} `{Idna}.
Context `{SerdeJson (list string)} `{SerdeJson (list DiscoveredContainerDto)}.
Context `{SerdeJson EnrollRequest} `{SerdeJson HeartbeatRequest} `{SerdeJson PutRoutesRequest}.
Context `{SerdeJson DiscoveryReportRequest} `{SerdeJson EnableServiceRequest} `{SerdeJson LoginRequest}.

(** C9: whatever requests run at the same time, a step that changes the storage or
    the DNS table is one of the cleanup task's or one of a request that was
    entitled to it at some moment since it arrived: an agent's endpoint with that
    agent's live credential, an admin's with a live session or the admin password,
    the enrollment with a token that an unused hash matched.  No step changes the
    configuration or the admin password. *)
Theorem concurrent_changes_entitled st0 ms p m p' :
  pool_run ms (pool_start st0) = Some p → pool_step p m = Some p' →
  cfg (pl_st p') = cfg st0 ∧ admin_password (pl_st p') = admin_password st0
  ∧ (db_of (pl_st p') ≠ db_of (pl_st p) ∨ registry (pl_st p') ≠ registry (pl_st p) →
     ∃ i tk, m = Advance i ∧ pl_tasks p !! i = Some tk
       ∧ ∀ r, tk_request tk = Some r →
           ∃ w q, since_arrival st0 ms i w r q ∧ entitled w r (pl_st q)).
Proof.
  intros Hp Hs. assert (pool_run (ms ++ [m]) (pool_start st0) = Some p') as Hp'.
  { rewrite pool_run_app, Hp. cbn. by rewrite Hs. }
  split; [by eapply run_cfg|]. split; [by eapply run_password|]. intros Hch.
  destruct (step_caused st0 (λ _ _, anything) (λ _ _, anything) (λ w r, does_anything _ _ _) (λ _ _ _ _, does_anything _ _ _)
    ms p m p' Hp Hs) as [(_ & _ & Hr & Hd)|(i & tk & Hm & Htk & Hc)]; [by destruct Hch|].
  exists i, tk. split; [done|]. split; [done|]. intros r Hreq. unfold caused in Hc. rewrite Hreq in Hc.
  destruct Hc as (w & (q & Hq) & _). by exists w, q.
Qed.

(** C10: whatever requests run at the same time, every row of the routes table was
    there at the start or was asked for by an update of its agent that ran with
    that agent's live credential, and for a hostname the policy allows. *)
Theorem concurrent_route_provenance st0 ms p h row :
  pool_run ms (pool_start st0) = Some p → routes (db_of (pl_st p)) !! h = Some row →
  routes (db_of st0) !! h = Some row
  ∨ hostname_allowed (cfg st0) h = Ok tt
    ∧ ∃ i w r q body e, since_arrival st0 ms i w r q
      ∧ dispatch (hq_method r) (hq_path r) = Found (EPutRoutes (rt_agent_id row))
      ∧ agent_authorized (db_of (pl_st q)) (rt_agent_id row) (hq_headers r) = true
      ∧ from_json (hq_body r) = Ok body ∧ e ∈ pr_routes body
      ∧ h = to_ascii_lowercase (re_hostname e) ∧ rt_backend row = re_backend e.
Proof.
  intros Hp Hrow. destruct (run_rows st0 ms p h row Hp Hrow) as [?|(i & w & r & (q & Hq & He) & Hd & Ha & body & e & Hb & Hin & -> & Hbk)]; [by left | right].
  split; [done|]. exists i, w, r, q, body, e. unfold entitled in He. rewrite Hd in He. done.
Qed.
End properties.

(** ** Witnesses: an agent is revoked between the check of its credential and the
    transaction of its update. *)
Section witnesses.
Import Concurrent.Demo.

#[local] Definition update : HttpRequest := ControllerSys.http "PUT" "/v1/agents/agt_1/routes" "2" "A.internal".
#[local] Definition revoked_between : list Move :=
  Arrive (ControllerSys.world 2 [65] []) (ControllerSys.http "POST" "/v1/admin/enrollment-tokens" "secret" "")
  :: replicate 2 (Advance 0)
  ++ Arrive (ControllerSys.world 3 [49] [50]) (ControllerSys.http "POST" "/v1/agents/enroll" "A" "")
  :: replicate 5 (Advance 1)
  ++ Arrive (ControllerSys.world 4 [] []) update
  :: replicate 6 (Advance 2)
  ++ Arrive (ControllerSys.world 5 [] []) (ControllerSys.http "DELETE" "/v1/admin/agents/agt_1" "secret" "")
  :: replicate 6 (Advance 3).
#[local] Abbreviation start := (pool_start ControllerSpec.st0).
#[local] Definition before : Pool := Concurrent.ran revoked_between start.
#[local] Definition stepped (m : Move) (p : Pool) : Pool := default p (pool_step p m).
#[local] Definition after : Pool := stepped (Advance 2) before.
#[local] Definition written : RouteRow := default (mk_route_row "" "" None None "") (routes (db_of (pl_st after)) !! "a.internal").

Lemma stepped_eq m p : bool_decide (is_Some (pool_step p m)) = true → pool_step p m = Some (stepped m p).
Proof. intros [q Hq]%bool_decide_eq_true. unfold stepped. by rewrite Hq. Qed.

Lemma concurrent_changes_entitled_witness :
  agent_authorized (db_of (pl_st before)) "agt_1" (hq_headers update) = false
  ∧ ∃ w q, since_arrival ControllerSpec.st0 revoked_between 2 w update q ∧ entitled w update (pl_st q).
Proof.
  split; [vm_compute; reflexivity|].
  assert (pool_run revoked_between start = Some before) as Hrun by (apply Concurrent.ran_eq; vm_compute; reflexivity).
  assert (pool_step before (Advance 2) = Some after) as Hstep by (apply stepped_eq; vm_compute; reflexivity).
  destruct (concurrent_changes_entitled ControllerSpec.st0 revoked_between before (Advance 2) after Hrun Hstep)
    as (_ & _ & Hch).
  destruct Hch as (i & tk & Hi & Htk & Hreq).
  - left. intros Heq. assert (routes (db_of (pl_st after)) !! "a.internal" = routes (db_of (pl_st before)) !! "a.internal") as Hn
      by (by rewrite Heq). vm_compute in Hn. discriminate.
  - injection Hi as <-. apply Hreq.
    assert (tk_request <$> pl_tasks before !! 2%nat = Some (Some update)) as Ht by (vm_compute; reflexivity).
    rewrite Htk in Ht. injection Ht as Ht. exact Ht.
Defined.

Lemma concurrent_route_provenance_witness :
  routes (db_of (pl_st after)) !! "a.internal" = Some written
  ∧ hostname_allowed (cfg ControllerSpec.st0) "a.internal" = Ok tt
  ∧ ∃ i w r q, since_arrival ControllerSpec.st0 (revoked_between ++ [Advance 2]) i w r q
    ∧ agent_authorized (db_of (pl_st q)) "agt_1" (hq_headers r) = true.
Proof.
  assert (routes (db_of (pl_st after)) !! "a.internal" = Some written) as Hrow by (vm_compute; reflexivity).
  split; [exact Hrow|].
  assert (pool_run (revoked_between ++ [Advance 2]) start = Some (Concurrent.ran (revoked_between ++ [Advance 2]) start))
    as Hrun by (apply Concurrent.ran_eq; vm_compute; reflexivity).
  assert (routes (db_of (pl_st (Concurrent.ran (revoked_between ++ [Advance 2]) start))) !! "a.internal" = Some written)
    as Hrow' by (vm_compute; reflexivity).
  assert (rt_agent_id written = "agt_1") as Hid by (vm_compute; reflexivity).
  destruct (concurrent_route_provenance ControllerSpec.st0 (revoked_between ++ [Advance 2]) _ "a.internal" written Hrun Hrow')
    as [Hr|(Ha & i & w & r & q & body & e & Hs & _ & Hauth & _)].
  - vm_compute in Hr. discriminate.
  - split; [exact Ha|]. rewrite Hid in Hauth. exists i, w, r, q. split; [exact Hs | exact Hauth].
Defined.
End witnesses.
