(* ===== verification/ConcurrentLease.v ===== *)
(** * A live owner keeps its name, while requests run at the same time

    Whatever other agents and the admin ask of the controller, at the same time
    and in any order, a hostname stays with its owner as long as the owner's lease
    is alive by the two tests of the code (the one of an update and the one of the
    purge), and neither the owner gives the name up nor the admin takes it. *)
From S2P Require Import Prelude RustStr Net Externals Common Concrete Hostname Store StoreRoutes StoreInv Config Registry.
From S2P Require Import Sessions State Probe Controller ControllerSpec Router ControllerSys Threads Concurrent ConcurrentAuth.
#[local] Open Scope Z_scope.

(** The lease of the agent is alive at [t], for [put_routes] and for the purge. *)
Definition fresh `{Chrono} (ttl t : Z) (db : Db) (id : string) : bool :=
  live_at db ttl t id && negb (owner_seen_before db (to_rfc3339 (t - ttl)) id).

(** ** The statements *)

Section statements.
Context `{Argon2} `{Base64} `{Chrono} `{Axum} `{UrlCrate} `{Idna}.
Context `{SerdeJson (list string)} `{SerdeJson (list DiscoveredContainerDto)}.
Context (ttl : Z) (T : Z → Prop) (id h : string).

(** While the lease is alive at all the instants of [T], a step keeps the owner. *)
Definition owner_kept (st st' : AppState) : Prop :=
  (∀ t, T t → fresh ttl t (db_of st) id = true) → owner_of (db_of st) h = Some id → owner_of (db_of st') h = Some id.
#[export] Instance owner_kept_refl : Reflexive owner_kept.
Proof. by intros st _ Ho. Qed.

Lemma same_kept st st' : same_routes st st' → owner_kept st st'.
Proof. intros Hs _. unfold owner_of. by rewrite Hs. Qed.
Lemma moves_kept {A} (m : HandlerM A) : Moves same_routes m → Moves owner_kept m.
Proof. intros Hm st. apply same_kept, Hm. Qed.
Lemma op_kept {A} f (m : SE Db StorageError A) :
  (∀ db, (∀ t, T t → fresh ttl t db id = true) → owner_of db h = Some id → owner_of (m db).2 h = Some id) →
  Moves owner_kept (storage_op f m).
Proof. intros Hm st. unfold owner_kept. rewrite storage_op_snd. apply Hm. Qed.
(** Another agent's update. *)
Lemma put_entries_other id' clk i es db out db' out' :
  id' ≠ id → (∀ j, live_at db ttl (at_check (clk j)) id = true) →
  put_entries id' ttl clk i es (db, out) = Ok (db', out') → owner_of db h = Some id → owner_of db' h = Some id.
Proof.
  intros Hne. revert i db out. induction es as [|e es IH]; intros i db out Hlive; cbn [put_entries]; [by intros [= <- _]|].
  destruct (put_entry id' ttl (clk i) e (db, out)) as [[db1 out1]|] eqn:He; [|done]. cbn [mbind result_bind].
  intros Hp Ho. destruct (put_entry_inv _ _ _ _ _ _ _ _ He) as [->|[[a Ha] Hdb]]; [by eapply IH|].
  eapply (IH (S i)); [|exact Hp|].
  - intros j. specialize (Hlive j). unfold live_at in *. by rewrite Hdb.
  - rewrite (put_entry_eq _ a) in He by done. unfold blocked in He.
    destruct (decide (entry_host e = h)) as [Hh|Hh].
    + rewrite Hh, Ho, bool_decide_false, Hlive in He by congruence. cbn in He. injection He as <- _. done.
    + rewrite Hdb, owner_of_insert. by rewrite decide_False.
Qed.
Lemma put_tx_other f id' es clk :
  id' ≠ id → (∀ j, T (at_check (clk j))) → Moves owner_kept (storage_op f (put_routes_tx id' es ttl clk)).
Proof.
  intros Hne HT. apply op_kept. intros db Hf Ho. unfold put_routes_tx.
  destruct (put_entries _ _ _ _ _ _) as [[db1 out]|] eqn:Hp; [|done]. cbn [snd].
  assert (owner_of db1 h = Some id) as Ho1.
  { eapply put_entries_other; [done| |exact Hp|exact Ho]. intros j. specialize (Hf _ (HT j)).
    unfold fresh in Hf. by apply andb_true_iff in Hf as [? _]. }
  unfold owner_of in *. cbn [routes set_routes]. rewrite drop_undesired_lookup. rewrite decide_False; [done|].
  intros [Hx _]. congruence.
Qed.
(** The owner's own, which asks for the name. *)
Lemma put_entries_own clk i es db out db' out' :
  put_entries id ttl clk i es (db, out) = Ok (db', out') → owner_of db h = Some id → owner_of db' h = Some id.
Proof.
  revert i db out. induction es as [|e es IH]; intros i db out; cbn [put_entries]; [by intros [= <- _]|].
  destruct (put_entry id ttl (clk i) e (db, out)) as [[db1 out1]|] eqn:He; [|done]. cbn [mbind result_bind].
  intros Hp Ho. apply (IH _ _ _ Hp). apply put_entry_inv in He as [->|[_ ->]]; [done|].
  rewrite owner_of_insert. by case_decide.
Qed.
Lemma put_tx_own f es clk :
  h ∈ entry_host <$> es → Moves owner_kept (storage_op f (put_routes_tx id es ttl clk)).
Proof.
  intros Hin. apply op_kept. intros db _ Ho. unfold put_routes_tx.
  destruct (put_entries _ _ _ _ _ _) as [[db1 out]|] eqn:Hp; [|done]. cbn [snd].
  apply put_entries_own in Hp; [|done]. unfold owner_of in *. cbn [routes set_routes].
  rewrite drop_undesired_lookup. rewrite decide_False; [done|]. intros [_ Hn]. apply Hn, elem_of_list_to_set. exact Hin.
Qed.
Lemma purge_kept f now : T now → Moves owner_kept (storage_op f (purge_expired_agents ttl now)).
Proof.
  intros HT. apply op_kept. intros db Hf Ho. unfold purge_expired_agents. se_run. unfold owner_of in *. cbn [routes set_routes].
  destruct (routes db !! h) as [row|] eqn:Hr; [|done]. injection Ho as Ho.
  specialize (Hf _ HT). unfold fresh in Hf. apply andb_true_iff in Hf as [_ Hs%negb_true_iff].
  assert (filter (λ kv, owner_seen_before db (to_rfc3339 (now - ttl)) (rt_agent_id kv.2) = false) (routes db) !! h = Some row) as Hx.
  { apply map_lookup_filter_Some. split; [done|]. cbn [snd]. by rewrite Ho. }
  rewrite Hx. cbn. by rewrite Ho.
Qed.
Lemma delete_other_kept f h' : to_ascii_lowercase h' ≠ h → Moves owner_kept (storage_op f (delete_route h')).
Proof.
  intros Hne. apply op_kept. intros db _. unfold delete_route, owner_of. se_run. intros Ho. cbn. rewrite lookup_delete_ne by exact Hne. exact Ho.
Qed.
Lemma revoke_other_kept f id' : id' ≠ id → Moves owner_kept (storage_op f (modify (revoke_delete_routes id'))).
Proof.
  intros Hne. apply op_kept. intros db _ Ho. unfold owner_of in *. cbn.
  destruct (routes db !! h) as [row|] eqn:Hr; [|done]. injection Ho as Ho.
  rewrite (map_lookup_filter_Some_2 _ _ _ row Hr); cbn; congruence.
Qed.
End statements.
#[export] Hint Extern 6 (Moves (owner_kept _ _ _ _) _) => apply moves_kept : typeclass_instances.

(** ** The tasks *)

Section tasks.
Context `{Argon2} `{Base64} `{Chrono} `{Axum} `{UrlCrate} `{Idna}.
Context `{SerdeJson (list string)} `{SerdeJson (list DiscoveredContainerDto)}.
Context `{SerdeJson EnrollRequest} `{SerdeJson HeartbeatRequest} `{SerdeJson PutRoutesRequest}.
Context `{SerdeJson DiscoveryReportRequest} `{SerdeJson EnableServiceRequest} `{SerdeJson LoginRequest}.
Context (ttl : Z) (T : Z → Prop) (id h : string).
#[local] Abbreviation Keeps := (Does (λ _, False) (λ st, ttl_of st = Some ttl) (owner_kept ttl T id h)).

(** The request does not take the name from its owner: it is no update of the
    owner without the name, no deletion of the name, no revocation of the owner. *)
Definition leaves (r : HttpRequest) : Prop :=
  match dispatch (hq_method r) (hq_path r) with
  | Found (EPutRoutes i) => i = id → ∀ body, from_json (hq_body r) = Ok body → h ∈ entry_host <$> pr_routes body
  | Found (EDeleteRoute h') => to_ascii_lowercase h' ≠ h
  | Found (ERevoke i) => i ≠ id
  | _ => True
  end.

Lemma put_routes_keeps i hs body t clk t_dns :
  (i = id → h ∈ entry_host <$> pr_routes body) → (∀ j, T (at_check (clk j))) → Keeps (put_routes_t i hs body t clk t_dns).
Proof.
  intros Hown HT. unfold put_routes_t. apply does_bind; [does | intros _]. apply does_bind; [does | intros c].
  apply does_bind; [does | intros _].
  apply (until_bind _ _ _ _ _ (λ r, ∀ x, r = Ok x → x = ttl)); [| |done].
  { intros st Hst. split; [apply same_kept; by apply still_same|]. right. intros x. cbn [lease_ttl fst].
    unfold ttl_of in Hst. destruct (duration_seconds _); [|done]. injection Hst as ->. by intros [= <-]. }
  intros x Hx. specialize (Hx x eq_refl) as ->. apply does_bind; [|intros out; does].
  apply does_bind; [does | intros _]. apply does_stmt.
  destruct (decide (i = id)) as [->|Hne]; [by apply put_tx_own, Hown | by apply put_tx_other].
Qed.
Lemma request_keeps w r : leaves r → (∀ j, T (at_check (w_clk w j))) → Keeps (tk_thread (request_task w r)).
Proof.
  intros Hl HT. cbn [request_task tk_thread]. apply does_bind; [|intros; apply does_ret]. unfold serve_t.
  unfold leaves in Hl. destruct (dispatch (hq_method r) (hq_path r)) as [| | |e]; try apply does_ret.
  destruct e; try (eapply does_weaken; [intros st st'; apply same_kept | by apply call_same]); cbn [call_t].
  - unfold with_json_t. destruct (json_type _); [|apply does_ret].
    destruct (from_json (hq_body r)) as [body|]; cbn [ok]; [|apply does_ret].
    apply guards_reply, put_routes_keeps; [|done]. intros Hi. by apply Hl.
  - apply guards_reply. unfold admin_delete_route_t. apply does_bind; [does | intros _].
    apply does_bind; [by apply does_stmt, delete_other_kept | intros _]. does.
  - apply guards_reply. unfold admin_revoke_agent_t. apply does_bind; [does | intros _].
    apply does_bind; [|intros _; does]. unfold revoke_agent_t. apply does_bind; [does | intros _].
    by apply does_stmt, revoke_other_kept.
Qed.
Lemma cleanup_keeps t_purge t_dns : T t_purge → Keeps (tk_thread (cleanup_task ttl t_purge t_dns)).
Proof.
  intros HT. cbn [cleanup_task tk_thread]. unfold cleanup_tick_t.
  apply does_bind; [apply does_bind; [apply does_catch|intros; does] | intros; does].
  apply does_bind; [by apply does_stmt, purge_kept | intros; does].
Qed.
End tasks.

(** ** Runs *)

Section runs.
Context `{Argon2} `{Base64} `{Chrono} `{Axum} `{UrlCrate} `{Idna}.
Context `{SerdeJson (list string)} `{SerdeJson (list DiscoveredContainerDto)}.
Context `{SerdeJson EnrollRequest} `{SerdeJson HeartbeatRequest} `{SerdeJson PutRoutesRequest}.
Context `{SerdeJson DiscoveryReportRequest} `{SerdeJson EnableServiceRequest} `{SerdeJson LoginRequest}.

(** The instants at which a move makes a lease be tested. *)
Definition checks (m : Move) (t : Z) : Prop :=
  match m with
  | Arrive w _ => ∃ j, at_check (w_clk w j) = t
  | StartTick t_purge _ => t_purge = t
  | _ => False
  end.
(** The task is over, or its request does not take the name from its owner. *)
Definition harmless (id h : string) (tk : Task) : Prop :=
  (∃ x, tk_thread tk = Ret x) ∨ match tk_request tk with Some r => leaves id h r | None => True end.

Section steps.
Context (ttl : Z) (T : Z → Prop) (id h : string).
#[local] Abbreviation Keeps := (Does (λ _, False) (λ st, ttl_of st = Some ttl) (owner_kept ttl T id h)).

Definition task_keeps (tk : Task) : Prop :=
  match tk_request tk with Some r => leaves id h r → Keeps (tk_thread tk) | None => Keeps (tk_thread tk) end.
Definition tasks_keep (p : Pool) : Prop := ∀ i tk, pl_tasks p !! i = Some tk → task_keeps tk.

Lemma step_tasks_keep p m p' :
  ttl_of (pl_st p) = Some ttl → (∀ t, checks m t → T t) → tasks_keep p → pool_step p m = Some p' → tasks_keep p'.
Proof.
  intros Httl HT Hk.
  assert (∀ i fails, step_task i fails p = Some p' → tasks_keep p') as Hstep.
  { intros i fails (tk & Htk & ([st' t'] & Ha & [= <-])%bind_Some)%bind_Some j tk'. cbn [pl_tasks].
    intros [[<- <-]|[_ ?]]%lookup_insert_Some; [|by eapply Hk]. specialize (Hk _ _ Htk). unfold task_keeps in *. cbn.
    destruct (tk_request tk); [intros Hl; specialize (Hk Hl)|];
      by destruct (advance_until _ _ _ _ _ _ _ _ _ Hk Httl Ha) as [_ [[]|?]]. }
  destruct m as [w r|a b|i|i e|i|up]; cbn [pool_step checks] in *; [| |by apply Hstep..| |].
  - intros [= <-] j tk. cbn. intros [[<- <-]|[_ ?]]%lookup_insert_Some; [|by eapply Hk].
    intros Hl. apply request_keeps; [done|]. intros k. apply HT. by exists k.
  - intros (ttl' & Ht & [= <-])%bind_Some j tk. cbn. intros [[<- <-]|[_ ?]]%lookup_insert_Some; [|by eapply Hk].
    unfold task_keeps. cbn [cleanup_task tk_request]. assert (ttl' = ttl) as -> by congruence. apply cleanup_keeps. by apply HT.
  - intros [= <-] j tk. cbn. intros [_ ?]%lookup_delete_Some. by eapply Hk.
  - by intros [= <-].
Qed.
Lemma run_tasks_keep st0 ms p :
  ttl_of st0 = Some ttl → (∀ m t, m ∈ ms → checks m t → T t) → pool_run ms (pool_start st0) = Some p → tasks_keep p.
Proof.
  intros Httl. revert p. induction ms as [|m ms IH] using rev_ind; intros p HT.
  { intros [= <-] i tk. cbn. by rewrite lookup_empty. }
  rewrite pool_run_app. intros (q & Hq & (p' & Hs & [= <-])%bind_Some)%bind_Some.
  eapply step_tasks_keep; [|by intros t; apply HT, elem_of_app; right; left|apply IH; [|done]|done].
  - by rewrite (run_ttl _ _ _ Hq).
  - intros m' t Hm'. apply HT, elem_of_app. by left.
Qed.

(** One step among harmless tasks. *)
Lemma step_harmless p m p' :
  match m with Arrive _ r => leaves id h r | _ => True end →
  (∀ i tk, pl_tasks p !! i = Some tk → harmless id h tk) → pool_step p m = Some p' →
  ∀ i tk, pl_tasks p' !! i = Some tk → harmless id h tk.
Proof.
  intros Hm Hh Hs.
  assert (∀ i fails, step_task i fails p = Some p' → ∀ j tk, pl_tasks p' !! j = Some tk → harmless id h tk) as Hstep.
  { intros i fails (tk & Htk & ([st' t'] & Ha & [= <-])%bind_Some)%bind_Some j tk'. cbn [pl_tasks].
    intros [[<- <-]|[_ ?]]%lookup_insert_Some; [|by eapply Hh].
    destruct (Hh _ _ Htk) as [[x Hx]|?]; [by rewrite Hx in Ha | by right]. }
  destruct m as [w r|a b|i|i e|i|up]; cbn [pool_step] in *; [| |by eapply Hstep..| |].
  - injection Hs as <-. cbn. intros j tk [[<- <-]|[_ ?]]%lookup_insert_Some; [by right | by eapply Hh].
  - apply bind_Some in Hs as (? & _ & [= <-]). cbn.
    intros j tk [[<- <-]|[_ ?]]%lookup_insert_Some; [by right | by eapply Hh].
  - injection Hs as <-. cbn. intros j tk [_ ?]%lookup_delete_Some. by eapply Hh.
  - by injection Hs as <-.
Qed.
Lemma step_owner p m p' :
  ttl_of (pl_st p) = Some ttl → tasks_keep p → (∀ i tk, pl_tasks p !! i = Some tk → harmless id h tk) →
  (∀ t, T t → fresh ttl t (db_of (pl_st p)) id = true) → owner_of (db_of (pl_st p)) h = Some id →
  pool_step p m = Some p' → owner_of (db_of (pl_st p')) h = Some id.
Proof.
  intros Httl Hk Hh Hf Ho.
  assert (∀ i fails, step_task i fails p = Some p' → owner_of (db_of (pl_st p')) h = Some id) as Hstep.
  { intros i fails (tk & Htk & ([st' t'] & Ha & [= <-])%bind_Some)%bind_Some. cbn [pl_st fst].
    specialize (Hk _ _ Htk). unfold task_keeps in Hk. destruct (Hh _ _ Htk) as [[x Hx]|Hl]; [by rewrite Hx in Ha|].
    destruct (tk_request tk); [specialize (Hk Hl)|];
      by destruct (advance_until _ _ _ _ _ _ _ _ _ Hk Httl Ha) as [Hkept _]; apply Hkept. }
  destruct m as [w r|a b|i|i e|i|up]; cbn [pool_step]; [by intros [= <-]| |by apply Hstep..|by intros [= <-]|by intros [= <-]].
  by intros (? & _ & [= <-])%bind_Some.
Qed.
End steps.
End runs.

(** ** Property *)

Section property.
Context `{Argon2} `{Base64} `{Chrono} `{Axum} `{UrlCrate} `{Idna}.
Context `{SerdeJson (list string)} `{SerdeJson (list DiscoveredContainerDto)}.
Context `{SerdeJson EnrollRequest} `{SerdeJson HeartbeatRequest} `{SerdeJson PutRoutesRequest}.
Context `{SerdeJson DiscoveryReportRequest} `{SerdeJson EnableServiceRequest} `{SerdeJson LoginRequest}.

(** C11: a live owner keeps its name.  Let an agent own a hostname, with a lease that
    is alive at every instant at which a lease is tested, and let nobody who may
    take the name from it do so: no update of its own without the name, no deletion
    of the name, no revocation of the agent, neither in flight nor arriving.  Then
    it owns the hostname as long as this lasts, whatever other agents claim at the
    same time, whatever the cleanup task purges, whichever statements fail. *)
Theorem live_owner_keeps_name st0 ttl (T : Z → Prop) id h ms0 p0 ms p :
  pool_run ms0 (pool_start st0) = Some p0 → pool_run ms p0 = Some p → ttl_of st0 = Some ttl →
  (∀ m t, m ∈ ms0 ++ ms → checks m t → T t) →
  (∀ i tk, pl_tasks p0 !! i = Some tk → harmless id h tk) → (∀ w r, Arrive w r ∈ ms → leaves id h r) →
  during (λ st, ∀ t, T t → fresh ttl t (db_of st) id = true) ms p0 →
  owner_of (db_of (pl_st p0)) h = Some id → owner_of (db_of (pl_st p)) h = Some id.
Proof.
  intros Hr0 Hr Httl HT Hh Hl Hd Ho. assert (tasks_keep ttl T id h p0) as Hk.
  { apply (run_tasks_keep ttl T id h st0 ms0); [done| |done]. intros m t Hm. apply HT, elem_of_app. by left. }
  assert (ttl_of (pl_st p0) = Some ttl) as Ht by (by rewrite (run_ttl _ _ _ Hr0)).
  clear Httl. assert (∀ m t, m ∈ ms → checks m t → T t) as HTm.
  { intros m t Hm. apply HT, elem_of_app. by right. }
  clear HT. revert ms0 p0 Hr0 Hr Hh Hd Ho Hk Ht. induction ms as [|m ms IH]; intros ms0 p0 Hr0 Hr Hh Hd Ho Hk Ht.
  { by injection Hr as <-. }
  cbn [pool_run] in Hr. apply bind_Some in Hr as (p1 & Hs & Hr).
  assert (pool_run (ms0 ++ [m]) (pool_start st0) = Some p1) as Hr1.
  { rewrite pool_run_app, Hr0. cbn. by rewrite Hs. }
  apply (IH ltac:(intros w r Hin; apply (Hl w); by right) ltac:(intros m' t Hm'; apply HTm; by right) (ms0 ++ [m]) p1);
    [done|done| |by eapply during_cons| | |].
  - eapply step_harmless; [|exact Hh|exact Hs]. destruct m; try done. by eapply Hl; left.
  - eapply (step_owner ttl T id h p0 m p1); [done|done|exact Hh| |done|done]. by apply (Hd [] (m :: ms)).
  - eapply step_tasks_keep; [done| |exact Hk|exact Hs]. intros t. apply HTm. by left.
  - rewrite (run_ttl _ _ _ Hr1). by rewrite <- (run_ttl _ _ _ Hr0).
Qed.
End property.

(** ** Witness: another agent claims the name while a tick of the cleanup runs. *)
Section witness.
Import Concurrent.Demo.

#[local] Definition two_agents : list Move :=
  Arrive (ControllerSys.world 2 [65] []) (ControllerSys.http "POST" "/v1/admin/enrollment-tokens" "secret" "")
  :: replicate 2 (Advance 0)
  ++ Arrive (ControllerSys.world 3 [49] [50]) (ControllerSys.http "POST" "/v1/agents/enroll" "A" "")
  :: replicate 5 (Advance 1)
  ++ Arrive (ControllerSys.world 2 [66] []) (ControllerSys.http "POST" "/v1/admin/enrollment-tokens" "secret" "")
  :: replicate 2 (Advance 2)
  ++ Arrive (ControllerSys.world 3 [51] [52]) (ControllerSys.http "POST" "/v1/agents/enroll" "B" "")
  :: replicate 5 (Advance 3)
  ++ Arrive (ControllerSys.world 4 [] []) (ControllerSys.http "PUT" "/v1/agents/agt_1/routes" "2" "A.internal")
  :: replicate 10 (Advance 4).
#[local] Definition a_claim : list Move :=
  Arrive (ControllerSys.world 5 [] []) (ControllerSys.http "PUT" "/v1/agents/agt_3/routes" "4" "A.internal")
  :: replicate 6 (Advance 5) ++ StartTick 6 6 :: replicate 2 (Advance 6) ++ replicate 4 (Advance 5).
#[local] Definition instants : list Z := [2; 3; 4; 5; 6].
#[local] Definition owned : Pool := Concurrent.ran two_agents (pool_start ControllerSpec.st0).
#[local] Definition over (tk : Task) : bool := match tk_thread tk with Ret _ => true | _ => false end.
Lemma over_harmless id h p : forallb (λ x, over x.2) (map_to_list (pl_tasks p)) = true →
  ∀ i tk, pl_tasks p !! i = Some tk → harmless id h tk.
Proof.
  rewrite forallb_forall. intros Hall i tk Htk. left.
  assert (over tk = true) as Ho by (apply (Hall (i, tk)), list_elem_of_In, elem_of_map_to_list, Htk).
  unfold over in Ho. destruct (tk_thread tk) as [x| |]; [by exists x | done..].
Qed.
Lemma trace_fresh ttl id ms p :
  forallb (λ st, forallb (λ t, fresh ttl t (db_of st) id) instants) (Concurrent.trace ms p) = true →
  during (λ st, ∀ t, t ∈ instants → fresh ttl t (db_of st) id = true) ms p.
Proof.
  rewrite forallb_forall. intros Hall. apply Concurrent.during_trace, Forall_forall. intros st Hst t Ht.
  apply list_elem_of_In in Hst. specialize (Hall st Hst). rewrite forallb_forall in Hall. by apply Hall, list_elem_of_In.
Qed.
Lemma instants_checked m t : m ∈ two_agents ++ a_claim → checks m t → t ∈ instants.
Proof.
  intros Hm. revert m Hm t. apply (Forall_forall (λ m, ∀ t, checks m t → t ∈ instants)). unfold two_agents, a_claim. cbn [replicate app].
  repeat (apply Forall_cons_2;
    [intros t; cbn [checks]; try done;
     (intros [j <-] || intros <-); unfold instants; cbn [ControllerSys.world w_clk at_check]; set_solver|]).
  apply Forall_nil_2.
Qed.

Lemma live_owner_keeps_name_witness :
  owner_of (db_of (pl_st (Concurrent.ran a_claim owned))) "a.internal" = Some "agt_1"
  ∧ (tk_thread <$> pl_tasks (Concurrent.ran a_claim owned) !! 5%nat)
    = Some (Ret (Ok (Answer (ReRoutes {| ps_accepted := []; ps_conflicts := [mk_conflict "a.internal" "agt_1" 90000000003] |})))).
Proof.
  split; [|vm_compute; reflexivity].
  apply (live_owner_keeps_name ControllerSpec.st0 90000000000 (λ t, t ∈ instants) "agt_1" "a.internal" two_agents owned a_claim).
  - apply Concurrent.ran_eq. vm_compute. reflexivity.
  - apply Concurrent.ran_eq. vm_compute. reflexivity.
  - vm_compute. reflexivity.
  - exact instants_checked.
  - apply over_harmless. vm_compute. reflexivity.
  - intros w r Hin. unfold a_claim in Hin. cbn [replicate app] in Hin.
    apply elem_of_cons in Hin as [Heq|Hin].
    + injection Heq as _ ->. vm_compute. discriminate.
    + exfalso. repeat (apply elem_of_cons in Hin as [Hin|Hin]; [discriminate|]). by apply elem_of_nil in Hin.
  - apply trace_fresh. vm_compute. reflexivity.
  - vm_compute. reflexivity.
Defined.
End witness.
