(* ===== verification/NameService.v ===== *)
(** * The name service the controller implements

    An abstract service of names: who owns each hostname, the agents with their
    addresses and when they were last seen, and the published table.  Its actions
    are functions on that state alone, without HTTP, SQL, tasks or clocks.  Every
    step of the controller, among whatever requests run at the same time, is one
    action of the service or none, and the action is one that the request it
    belongs to may ask for. *)
From S2P Require Import Prelude RustStr Net Externals Common Concrete Hostname Store StoreRoutes StoreInv Config Registry.
From S2P Require Import Sessions State Probe Controller ControllerSpec Router ControllerSys Threads Concurrent ConcurrentAuth.
#[local] Open Scope Z_scope.

(** ** The abstract service *)

Record Member := mk_member { mb_address : string; mb_seen : option string; mb_retired : bool }.
Record Names := mk_names {
  nm_owner : gmap string string;
  nm_members : gmap string Member;
  nm_table : DnsRegistry;
}.
(** [Claim id desired when_]: the agent asks for the hostnames [desired] and gives
    up its others; [when_ h] is the instant at which the lease of the present
    owner of [h] decides.  [Publish n t]: the table becomes the view that the
    service had of its names in the state [n], with the leases of the instant [t]. *)
Inductive Act :=
| Stay
| Join (id address : string) (t : Z)
| Seen (id address : string) (t : Z)
| Retire (id : string)
| DropAll (id : string)
| Claim (id : string) (desired : gset string) (when_ : string → Z)
| Purge (t : Z)
| Release (h : string)
| Publish (n : Names) (t : Z).

Section service.
Context `{Chrono}.
Context (ttl : Z).

Definition holder_live (n : Names) (t : Z) (id : string) : bool :=
  match nm_members n !! id with Some m => lease_alive t ttl (mb_seen m) | None => false end.
Definition holder_stale (n : Names) (t : Z) (id : string) : bool :=
  match nm_members n !! id with Some m => seen_before (to_rfc3339 (t - ttl)) (mb_seen m) | None => false end.
(** Where the names lead: the addresses of their owners that are alive. *)
Definition view (t : Z) (n : Names) : gmap string Ipv4Addr :=
  omap (λ id, m ← nm_members n !! id;
          if negb (mb_retired m) && lease_alive t ttl (mb_seen m) then parse_ipv4 (mb_address m) else None)
    (nm_owner n).
Definition claim_all (n : Names) (id : string) (desired : gset string) (when_ : string → Z) : gmap string string :=
  map_imap (λ h _, claim (holder_live n (when_ h)) id desired h (nm_owner n !! h))
    (gset_to_gmap tt (dom (nm_owner n) ∪ desired)).

Definition do_act (a : Act) (n : Names) : Names :=
  let '(mk_names owner members table) := n in
  match a with
  | Stay => n
  | Join id address t => mk_names owner (<[id := mk_member address (Some (to_rfc3339 t)) false]> members) table
  | Seen id address t =>
      mk_names owner (alter (λ m, mk_member address (Some (to_rfc3339 t)) (mb_retired m)) id members) table
  | Retire id => mk_names owner (alter (λ m, mk_member (mb_address m) (mb_seen m) true) id members) table
  | DropAll id => mk_names (filter (λ kv, kv.2 ≠ id) owner) members table
  | Claim id desired when_ => mk_names (claim_all n id desired when_) members table
  | Purge t => mk_names (filter (λ kv, holder_stale n t kv.2 = false) owner) members table
  | Release h => mk_names (delete h owner) members table
  | Publish n' t => mk_names owner members (view t n')
  end.

(** The service remembers the states it has been in. *)
Record Service := mk_service { sv_now : Names; sv_past : list Names }.
Definition service_start (n : Names) : Service := mk_service n [n].
Definition service_act (a : Act) (s : Service) : Service :=
  let n := do_act a (sv_now s) in mk_service n (n :: sv_past s).
(** A new agent is new, a retired one is not seen again, what is published has
    been the case. *)
Definition applicable (n : Names) (a : Act) : Prop :=
  match a with
  | Join id _ _ => nm_members n !! id = None
  | Seen id _ _ => mb_retired <$> nm_members n !! id = Some false
  | Publish _ _ => False
  | _ => True
  end.
Definition possible (s : Service) (a : Act) : Prop :=
  match a with Publish n _ => n ∈ sv_past s | _ => applicable (sv_now s) a end.

Lemma claim_all_lookup n id desired when_ h :
  claim_all n id desired when_ !! h = claim (holder_live n (when_ h)) id desired h (nm_owner n !! h).
Proof.
  unfold claim_all. rewrite map_lookup_imap.
  destruct (decide (h ∈ dom (nm_owner n) ∪ desired)) as [Hin|Hn].
  - by rewrite (proj2 (lookup_gset_to_gmap_Some _ _ _ _)) by done.
  - rewrite (proj2 (lookup_gset_to_gmap_None _ _ _)) by done. cbn.
    apply not_elem_of_union in Hn as [->%not_elem_of_dom Hd]. unfold claim. by rewrite decide_False.
Qed.
End service.

(** ** What the controller's state is of it *)

Section abstraction.
Context `{Argon2} `{Base64} `{Chrono} `{Axum} `{UrlCrate} `{Idna}.
Context `{SerdeJson (list string)} `{SerdeJson (list DiscoveredContainerDto)}.
Context `{SerdeJson EnrollRequest} `{SerdeJson HeartbeatRequest} `{SerdeJson PutRoutesRequest}.
Context `{SerdeJson DiscoveryReportRequest} `{SerdeJson EnableServiceRequest} `{SerdeJson LoginRequest}.

Definition member_of (a : AgentRow) : Member :=
  mk_member (ag_tailscale_ipv4 a) (ag_last_seen_at a) (negb (bool_decide (ag_revoked_at a = None))).
Definition names_of (st : AppState) : Names :=
  mk_names (rt_agent_id <$> routes (db_of st)) (member_of <$> agents (db_of st)) (registry st).

Lemma names_owner st h : nm_owner (names_of st) !! h = owner_of (db_of st) h.
Proof. apply lookup_fmap. Qed.
Lemma names_live ttl st t id : holder_live ttl (names_of st) t id = live_at (db_of st) ttl t id.
Proof. unfold holder_live, live_at. cbn. rewrite lookup_fmap. by destruct (agents (db_of st) !! id). Qed.
Lemma names_stale ttl st t id :
  holder_stale ttl (names_of st) t id = owner_seen_before (db_of st) (to_rfc3339 (t - ttl)) id.
Proof. unfold holder_stale, owner_seen_before. cbn. rewrite lookup_fmap. by destruct (agents (db_of st) !! id). Qed.
(** The view is what the query of the DNS refresh gives. *)
Lemma view_entry ttl t st h : view ttl t (names_of st) !! h = dns_entry ttl t (db_of st) h.
Proof.
  unfold view, dns_entry. rewrite lookup_omap, names_owner. unfold owner_of.
  destruct (routes (db_of st) !! h) as [row|]; cbn; [|done]. rewrite lookup_fmap.
  destruct (agents (db_of st) !! rt_agent_id row) as [a|]; cbn; [|done]. by rewrite negb_involutive.
Qed.
Lemma names_eq n n' :
  nm_owner n = nm_owner n' → nm_members n = nm_members n' → nm_table n = nm_table n' → n = n'.
Proof. destruct n, n'. cbn. by intros -> -> ->. Qed.

(** ** Who may ask for what *)

(** The requests that end with a refresh of the table. *)
Definition publishes (r : HttpRequest) : Prop :=
  match dispatch (hq_method r) (hq_path r) with
  | Found (EHeartbeat _ | EPutRoutes _ | EDeleteRoute _ | ERevoke _) => True
  | _ => False
  end.
Definition may (c : ControllerConfig) (w : World) (r : HttpRequest) (a : Act) : Prop :=
  match a, dispatch (hq_method r) (hq_path r) with
  | Stay, _ => True
  | Join id address t, Found EEnroll =>
      id = "agt_" +:+ generate_token (w_random w 0%nat) ∧ t = w_now w 1%nat
      ∧ ∃ body, from_json (hq_body r) = Ok body ∧ address = er_tailscale_ipv4 body
  | Seen id address t, Found (EHeartbeat id') =>
      id' = id ∧ t = w_now w 0%nat ∧ ∃ body, from_json (hq_body r) = Ok body ∧ address = hr_tailscale_ipv4 body
  | Claim id desired when_, Found (EPutRoutes id') =>
      id' = id ∧ (∃ body, from_json (hq_body r) = Ok body ∧ desired = list_to_set (entry_host <$> pr_routes body))
      ∧ (∀ h, h ∈ desired → hostname_allowed c h = Ok tt) ∧ ∀ h, ∃ j, when_ h = at_check (w_clk w j)
  | Release h, Found (EDeleteRoute h') => h = to_ascii_lowercase h'
  | Retire id, Found (ERevoke id') | DropAll id, Found (ERevoke id') => id' = id
  | Publish _ _, _ => publishes r
  | _, _ => False
  end.
End abstraction.

(** ** Steps that are not actions *)

Section kept.
Context `{Argon2} `{Base64} `{Chrono} `{Axum} `{UrlCrate} `{Idna}.
Context `{SerdeJson (list string)} `{SerdeJson (list DiscoveredContainerDto)}.
Context `{SerdeJson EnrollRequest} `{SerdeJson HeartbeatRequest} `{SerdeJson PutRoutesRequest}.
Context `{SerdeJson DiscoveryReportRequest} `{SerdeJson EnableServiceRequest} `{SerdeJson LoginRequest}.

Definition names_kept (st st' : AppState) : Prop := names_of st' = names_of st.
#[export] Instance names_kept_refl : Reflexive names_kept.
Proof. done. Qed.
Lemma still_names st st' : still st st' → names_kept st st'.
Proof. intros (_ & _ & Hr & Hd). unfold names_kept, names_of. by rewrite Hr, Hd. Qed.
Lemma still_kept {A} (m : HandlerM A) : Moves still m → Moves names_kept m.
Proof. intros Hm st. apply still_names, Hm. Qed.
Lemma op_names {A} f (m : SE Db StorageError A) :
  (∀ db, routes (m db).2 = routes db ∧ agents (m db).2 = agents db) → Moves names_kept (storage_op f m).
Proof.
  intros Hm st. unfold names_kept, names_of. rewrite storage_op_snd. destruct (Hm (db_of st)) as [Hr Ha].
  change (db_of (set_db (m (db_of st)).2 st)) with (m (db_of st)).2. by rewrite Hr, Ha.
Qed.
#[export] Instance consume_kept f rows token now : Moves names_kept (storage_op f (consume_rows rows token now)).
Proof. apply op_names. intros db. by destruct (consume_rows_step rows token now db) as [->|[x ->]]. Qed.
#[export] Instance create_token_kept f buf salt now : Moves names_kept (storage_op f (create_enrollment_token buf salt now)).
Proof. apply op_names. intros db. unfold create_enrollment_token. se_run. destruct (map_err _ _); [|done]. se_run. by case_match. Qed.
#[export] Instance snapshot_kept f i p now : Moves names_kept (storage_op f (put_discovery_snapshot i p now)).
Proof. apply op_names. intros db. unfold put_discovery_snapshot. se_run. by case_match. Qed.
#[export] Instance upsert_kept f i a k n hs b now : Moves names_kept (storage_op f (upsert_enabled_service i a k n hs b now)).
Proof. apply op_names. intros db. unfold upsert_enabled_service. se_run. by repeat case_match. Qed.
#[export] Instance set_enabled_kept f i b now : Moves names_kept (storage_op f (set_enabled_service i b now)).
Proof. apply op_names. intros db. unfold set_enabled_service. se_run. by case_match. Qed.
#[export] Instance audit_kept f e d now : Moves names_kept (storage_op f (audit e d now)).
Proof. by apply op_names. Qed.
#[export] Instance get_agent_kept f now id : Moves names_kept (storage_op f (get_agent now id)).
Proof. apply op_names. intros db. unfold get_agent. se_run. by repeat case_match. Qed.
#[local] Hint Extern 6 (Moves names_kept _) => apply still_kept : typeclass_instances.

(** Every request but an enrollment, a heartbeat, an update, a deletion and a
    revocation. *)
Lemma call_kept E Pre w e r :
  match e with EEnroll | EHeartbeat _ | EPutRoutes _ | EDeleteRoute _ | ERevoke _ => False | _ => True end →
  Does E Pre names_kept (call_t w e r).
Proof.
  intros He. destruct e; cbn [call_t]; try done; try apply does_ret;
    try (apply does_with_json; intros b); try apply guards_reply.
  - unfold ready_t. does.
  - apply does_local, still_kept, admin_login_still.
  - apply does_local, still_kept, admin_logout_still.
  - unfold put_discovery_t, or_refuse. does.
  - unfold desired_services_t. does.
  - unfold admin_discovery_t. does.
  - unfold admin_enable_service_t, or_refuse, refuse. does.
  - unfold admin_disable_service_t. does.
  - unfold admin_agents_t. does.
  - unfold admin_routes_t. does.
  - unfold admin_dashboard_t. does.
  - unfold admin_create_enrollment_token_t. does.
Qed.
End kept.
#[export] Hint Extern 6 (Moves names_kept _) => apply still_kept : typeclass_instances.

(** ** Steps that are actions *)

Section actions.
Context `{Argon2} `{Base64} `{Chrono} `{Axum} `{UrlCrate} `{Idna}.
Context `{SerdeJson (list string)} `{SerdeJson (list DiscoveredContainerDto)}.
Context `{SerdeJson EnrollRequest} `{SerdeJson HeartbeatRequest} `{SerdeJson PutRoutesRequest}.
Context `{SerdeJson DiscoveryReportRequest} `{SerdeJson EnableServiceRequest} `{SerdeJson LoginRequest}.
Context (ttl : Z).

Lemma db_of_op {A} f (m : SE Db StorageError A) st : db_of (storage_op f m st).2 = (m (db_of st)).2.
Proof. by rewrite storage_op_snd. Qed.
Lemma registry_op {A} f (m : SE Db StorageError A) st : registry (storage_op f m st).2 = registry st.
Proof. by rewrite storage_op_snd. Qed.
(** A statement's effect on the names, from its effect on the tables. *)
Lemma names_op {A} f (m : SE Db StorageError A) st n :
  (∀ h, owner_of (m (db_of st)).2 h = nm_owner n !! h) → member_of <$> agents (m (db_of st)).2 = nm_members n →
  nm_table n = registry st → names_of (storage_op f m st).2 = n.
Proof.
  intros Ho Hm Ht. apply names_eq.
  - apply map_eq. intros h. by rewrite names_owner, db_of_op.
  - cbn [nm_members names_of]. by rewrite db_of_op.
  - cbn [nm_table names_of]. by rewrite registry_op.
Qed.

(** *** An update *)

(** The turn of the loop that decides about [h]: the first that is not blocked, or
    the last. *)
Fixpoint decisive (id : string) (clk : nat → EntryClock) (db : Db) (h : string) (last i : nat) (es : list RouteEntry) : nat :=
  match es with
  | [] => last
  | e :: es' =>
      if decide (entry_host e = h) then
        if blocked id ttl (at_check (clk i)) db h then decisive id clk db h i (S i) es' else i
      else decisive id clk db h last (S i) es'
  end.
Lemma put_entry_agents id ck e db out db' out' :
  put_entry id ttl ck e (db, out) = Ok (db', out') → agents db' = agents db.
Proof. by intros [->|[_ ->]]%put_entry_inv. Qed.
Lemma decisive_ext id clk db db' h last i es :
  (∀ t, blocked id ttl t db' h = blocked id ttl t db h) → decisive id clk db' h last i es = decisive id clk db h last i es.
Proof.
  intros Hb. revert last i. induction es as [|e es IH]; intros last i; cbn [decisive]; [done|].
  rewrite Hb. by repeat case_match.
Qed.
Lemma put_entry_turn id ck e db out db' out' h :
  put_entry id ttl ck e (db, out) = Ok (db', out') →
  owner_of db' h =
    if decide (entry_host e = h) then if blocked id ttl (at_check ck) db h then owner_of db h else Some id
    else owner_of db h.
Proof.
  destruct (agents db !! id) as [a|] eqn:Ha.
  - rewrite (put_entry_eq _ a) by done. destruct (blocked id ttl (at_check ck) db (entry_host e)) eqn:Hb; intros [= <- _].
    + case_decide as Hh; [|done]. subst h. by rewrite Hb.
    + rewrite owner_of_insert. case_decide as Hh; [|done]. subst h. by rewrite Hb.
  - unfold put_entry, upsert_route. cbn [rt_agent_id]. rewrite Ha. fold (entry_host e).
    assert (blocked id ttl (at_check ck) db (entry_host e) =
      match route_owner db (entry_host e) with
      | Some (o, x) => negb (bool_decide (o = id)) && lease_alive (at_check ck) ttl (ag_last_seen_at x)
      | None => false
      end) as Hb.
    { unfold blocked, live_at, route_owner, owner_of. destruct (routes db !! entry_host e) as [row|]; cbn; [|done].
      destruct (agents db !! rt_agent_id row); cbn; [done | by rewrite andb_false_r]. }
    destruct (route_owner db (entry_host e)) as [[o x]|]; [|done]. destruct (negb _ && _); [|done].
    intros [= <- _]. case_decide as Hh; [|done]. subst h. by rewrite Hb.
Qed.
Lemma put_entries_absent id clk h i es db out db' out' :
  put_entries id ttl clk i es (db, out) = Ok (db', out') → h ∉ entry_host <$> es → owner_of db' h = owner_of db h.
Proof.
  revert i db out. induction es as [|e es IH]; intros i db out; cbn [put_entries]; [by intros [= -> _]|].
  destruct (put_entry id ttl (clk i) e (db, out)) as [[db1 out1]|] eqn:He; [|done]. cbn [mbind result_bind]. intros Hp Hn.
  rewrite fmap_cons, not_elem_of_cons in Hn. destruct Hn as [Hne Hn]. rewrite (IH _ _ _ Hp Hn).
  rewrite (put_entry_turn _ _ _ _ _ _ _ h He). by rewrite decide_False.
Qed.
Lemma put_entries_decisive id clk h last i es db out db' out' :
  put_entries id ttl clk i es (db, out) = Ok (db', out') →
  h ∈ entry_host <$> es ∨ blocked id ttl (at_check (clk last)) db h = true →
  owner_of db' h = (if blocked id ttl (at_check (clk (decisive id clk db h last i es))) db h then owner_of db h else Some id).
Proof.
  revert last i db out. induction es as [|e es IH]; intros last i db out; cbn [put_entries decisive].
  { intros [= -> _] [[]%elem_of_nil|Hb]. by rewrite Hb. }
  destruct (put_entry id ttl (clk i) e (db, out)) as [[db1 out1]|] eqn:He; [|done]. cbn [mbind result_bind]. intros Hp Hh.
  pose proof (put_entry_turn _ _ _ _ _ _ _ h He) as Ho. pose proof (put_entry_agents _ _ _ _ _ _ _ He) as Ha.
  assert (owner_of db1 h = owner_of db h → ∀ t, blocked id ttl t db1 h = blocked id ttl t db h) as Hext.
  { intros Heq t. unfold blocked, live_at. by rewrite Heq, Ha. }
  case_decide as Hd.
  - destruct (blocked id ttl (at_check (clk i)) db h) eqn:Hb.
    + assert (∀ t, blocked id ttl t db1 h = blocked id ttl t db h) as Hb1 by (by apply Hext).
      rewrite (IH i (S i) db1 out1 Hp), (decisive_ext id clk db db1 h i (S i) es Hb1), Hb1, Ho by (rewrite Hb1; auto). done.
    + rewrite Hb. assert (∀ t, blocked id ttl t db1 h = false) as Hf.
      { intros t. unfold blocked. by rewrite Ho, bool_decide_true. }
      destruct (decide (h ∈ entry_host <$> es)) as [Hin|Hn].
      * rewrite (IH 0%nat (S i) db1 out1 Hp), Hf by (by left). done.
      * by rewrite (put_entries_absent _ _ _ _ _ _ _ _ _ Hp Hn).
  - assert (∀ t, blocked id ttl t db1 h = blocked id ttl t db h) as Hb1 by (by apply Hext).
    rewrite (IH last (S i) db1 out1 Hp), (decisive_ext id clk db db1 h last (S i) es Hb1), Hb1, Ho; [done|].
    rewrite Hb1. destruct Hh as [Hh|?]; [left | by right]. apply elem_of_cons in Hh as [?|?]; [by subst | done].
Qed.
Lemma claim_decides live id desired h o b :
  b = match o with Some x => negb (bool_decide (x = id)) && live x | None => false end → h ∈ desired →
  claim live id desired h o = if b then o else Some id.
Proof.
  intros -> Hh. unfold claim. destruct o as [x|]; [|by rewrite decide_True].
  destruct (decide (x = id)) as [->|Hx]; [by rewrite bool_decide_true, decide_True|].
  rewrite bool_decide_false by done. cbn. destruct (live x); [done | by rewrite decide_True].
Qed.
Lemma claim_absent live id desired h o :
  h ∉ desired → claim live id desired h o = if decide (o = Some id) then None else o.
Proof.
  intros Hh. unfold claim. destruct o as [x|]; [|by rewrite !decide_False].
  destruct (decide (x = id)) as [->|Hx]; [by rewrite decide_False, decide_True by done|].
  rewrite !decide_False by congruence. by destruct (live x).
Qed.
Lemma put_tx_claims f id es clk st :
  names_kept st (storage_op f (put_routes_tx id es ttl clk) st).2
  ∨ names_of (storage_op f (put_routes_tx id es ttl clk) st).2 =
    do_act ttl (Claim id (list_to_set (entry_host <$> es)) (λ h, at_check (clk (decisive id clk (db_of st) h 0 0 es))))
      (names_of st).
Proof.
  unfold names_kept. destruct (put_entries id ttl clk 0 es (db_of st, mk_outcome [] [])) as [[db1 out]|e] eqn:Hp; last first.
  { left. rewrite storage_op_snd. unfold put_routes_tx. by rewrite Hp; cbn [snd]; rewrite set_db_id. }
  right. destruct (put_routes_tx_routes id es ttl clk (db_of st)) as [Hframe _].
  apply names_op; [|by rewrite Hframe | done]. clear Hframe. intros h.
  change (list_to_set (entry_host <$> es)) with (list_to_set (C := gset string) (entry_host <$> es)).
  set (desired := list_to_set (C := gset string) (entry_host <$> es)).
  etrans; [|symmetry; apply (claim_all_lookup ttl (names_of st) id desired _ h)]. rewrite names_owner.
  assert (owner_of (put_routes_tx id es ttl clk (db_of st)).2 h =
    if decide (owner_of db1 h = Some id ∧ h ∉ desired) then None else owner_of db1 h) as ->.
  { unfold put_routes_tx. rewrite Hp. unfold owner_of. cbn [snd routes set_routes]. rewrite drop_undesired_lookup.
    destruct (decide (rt_agent_id <$> routes db1 !! h = Some id ∧ h ∉ desired)) as [Hd|Hd]; by rewrite ?(decide_True _ _ Hd), ?(decide_False _ _ Hd). }
  destruct (decide (h ∈ desired)) as [Hin|Hn].
  - rewrite decide_False by naive_solver.
    rewrite (put_entries_decisive id clk h 0 0 es _ _ _ _ Hp) by (left; by apply elem_of_list_to_set in Hin).
    symmetry. apply claim_decides; [|done]. unfold blocked. destruct (owner_of (db_of st) h); [|done]. by rewrite names_live.
  - rewrite claim_absent by done. rewrite (put_entries_absent _ _ h _ _ _ _ _ _ Hp) by (by intros ?; apply Hn, elem_of_list_to_set).
    apply decide_ext. naive_solver.
Qed.

(** *** The other statements *)

Lemma enroll_joins f n ip e ib tb salt now st :
  names_kept st (storage_op f (enroll_agent n ip e ib tb salt now) st).2
  ∨ applicable (names_of st) (Join ("agt_" +:+ generate_token ib) ip now)
    ∧ names_of (storage_op f (enroll_agent n ip e ib tb salt now) st).2 =
      do_act ttl (Join ("agt_" +:+ generate_token ib) ip now) (names_of st).
Proof.
  unfold names_kept. set (id := "agt_" +:+ generate_token ib). rewrite !storage_op_snd. unfold enroll_agent. se_run.
  destruct (map_err _ _) as [hash|e']; cbn [lift snd]; [|left; by rewrite set_db_id]. se_run. fold id.
  destruct (agents (db_of st) !! id) eqn:Ha; [left; cbn; by rewrite set_db_id|right].
  split; [cbn; by rewrite lookup_fmap, Ha|].
  apply names_eq; [done| |done]. apply (fmap_insert member_of).
Qed.
Lemma heartbeat_seen f id ip now st :
  names_kept st (storage_op f (Store.heartbeat id ip now) st).2
  ∨ applicable (names_of st) (Seen id ip now)
    ∧ names_of (storage_op f (Store.heartbeat id ip now) st).2 = do_act ttl (Seen id ip now) (names_of st).
Proof.
  unfold names_kept. rewrite !storage_op_snd. unfold Store.heartbeat. se_run.
  destruct (agents (db_of st) !! id) as [row|] eqn:Ha; [|left; cbn; by rewrite set_db_id].
  case_decide as Hr; [right|left; cbn; by rewrite set_db_id].
  split; [cbn; by rewrite lookup_fmap, Ha; cbn; rewrite Hr|].
  apply names_eq; [done| |done]. cbn. rewrite fmap_insert. apply map_eq. intros k.
  destruct (decide (k = id)) as [->|Hk].
  - rewrite lookup_insert_eq, lookup_alter_eq, lookup_fmap, Ha. cbn. by rewrite Hr.
  - by rewrite lookup_insert_ne, lookup_alter_ne by done.
Qed.
Lemma mark_retires f id now st :
  names_of (storage_op f (modify (revoke_mark id now)) st).2 = do_act ttl (Retire id) (names_of st).
Proof.
  rewrite storage_op_snd. apply names_eq; [done| |done]. cbn. apply map_eq. intros k. rewrite lookup_fmap.
  destruct (decide (k = id)) as [->|Hk].
  - rewrite !lookup_alter_eq, lookup_fmap. by destruct (agents (db_of st) !! id).
  - by rewrite !lookup_alter_ne, lookup_fmap by done.
Qed.
Lemma owner_filter db (P : string → Prop) `{!∀ x, Decision (P x)} h :
  owner_of (set_routes (filter (λ kv, P (rt_agent_id kv.2)) (routes db)) db) h
  = filter (λ kv, P kv.2) (rt_agent_id <$> routes db) !! h.
Proof.
  unfold owner_of. cbn. rewrite !map_lookup_filter, lookup_fmap. destruct (routes db !! h); cbn; [|done].
  by case_guard.
Qed.
Lemma revoke_drops f id st :
  names_of (storage_op f (modify (revoke_delete_routes id)) st).2 = do_act ttl (DropAll id) (names_of st).
Proof. apply names_op; [|done..]. intros h. exact (owner_filter (db_of st) (λ x, x ≠ id) h). Qed.
Lemma purge_purges f now st :
  names_of (storage_op f (purge_expired_agents ttl now) st).2 = do_act ttl (Purge now) (names_of st).
Proof.
  apply names_op; [|done..]. intros h. unfold purge_expired_agents. se_run. cbn [nm_owner do_act names_of].
  etrans; [exact (owner_filter (db_of st) (λ x, owner_seen_before (db_of st) (to_rfc3339 (now - ttl)) x = false) h)|].
  rewrite !map_lookup_filter. cbn. destruct ((rt_agent_id <$> routes (db_of st)) !! h); [|done]. cbn.
  pose proof (names_stale ttl st now) as Hs. unfold names_of in Hs. rewrite Hs. done.
Qed.
Lemma delete_releases f h st :
  names_of (storage_op f (delete_route h) st).2 = do_act ttl (Release (to_ascii_lowercase h)) (names_of st).
Proof. rewrite storage_op_snd. apply names_eq; [|done..]. cbn. apply fmap_delete. Qed.
End actions.

(** ** The tasks *)

Section tasks.
Context `{Argon2} `{Base64} `{Chrono} `{Axum} `{UrlCrate} `{Idna}.
Context `{SerdeJson (list string)} `{SerdeJson (list DiscoveredContainerDto)}.
Context `{SerdeJson EnrollRequest} `{SerdeJson HeartbeatRequest} `{SerdeJson PutRoutesRequest}.
Context `{SerdeJson DiscoveryReportRequest} `{SerdeJson EnableServiceRequest} `{SerdeJson LoginRequest}.

(** The names are kept, the table aside. *)
Definition stored_kept (st st' : AppState) : Prop :=
  nm_owner (names_of st') = nm_owner (names_of st) ∧ nm_members (names_of st') = nm_members (names_of st).
Lemma kept_stored {A} (m : HandlerM A) : Moves names_kept m → Moves stored_kept m.
Proof. intros Hm st. unfold stored_kept. by rewrite (Hm st). Qed.
#[export] Instance swap_stored l : Moves stored_kept (refresh_swap l).
Proof. by intros st. Qed.

Context (c : ControllerConfig) (ttl : Z).
Definition by_request (w : World) (r : HttpRequest) (st st' : AppState) : Prop :=
  publishes r ∧ stored_kept st st'
  ∨ ∃ a, may c w r a ∧ applicable (names_of st) a ∧ names_of st' = do_act ttl a (names_of st).
Definition by_tick (t_purge t_dns : Z) (st st' : AppState) : Prop :=
  stored_kept st st' ∨ names_of st' = do_act ttl (Purge t_purge) (names_of st).

Lemma kept_by_request w r st st' : names_kept st st' → by_request w r st st'.
Proof. intros Hk. right. exists Stay. split; [done|]. split; [done|]. rewrite Hk. by destruct (names_of st). Qed.
#[export] Instance by_request_refl w r : Reflexive (by_request w r).
Proof. intros st. by apply kept_by_request. Qed.
#[export] Instance by_tick_refl t_purge t_dns : Reflexive (by_tick t_purge t_dns).
Proof. by left. Qed.
Lemma moves_by_request w r {A} (m : HandlerM A) : Moves names_kept m → Moves (by_request w r) m.
Proof. intros Hm st. apply kept_by_request, Hm. Qed.
#[local] Hint Extern 6 (Moves (by_request _ _) _) => apply moves_by_request : typeclass_instances.
#[local] Hint Extern 6 (Moves stored_kept _) => apply kept_stored : typeclass_instances.

Hypothesis ttl_eq : duration_seconds (as_i64 (agent_ttl_seconds (cfg_leases c))) = Some ttl.
#[local] Abbreviation Doing R := (Does (λ _, False) (λ st, cfg st = c) R).

Lemma refresh_stored t : Doing stored_kept (refresh_dns_t t).
Proof. unfold refresh_dns_t. does. Qed.
Lemma refresh_published w r t : publishes r → Doing (by_request w r) (refresh_dns_t t).
Proof. intros Hp. eapply does_weaken; [|apply refresh_stored]. intros st st' Hs. by left. Qed.
(** A statement that acts. *)
Lemma does_act w r f {A} (m : SE Db StorageError A) :
  (∀ st, names_kept st (storage_op f m st).2
     ∨ ∃ a, may c w r a ∧ applicable (names_of st) a ∧ names_of (storage_op f m st).2 = do_act ttl a (names_of st)) →
  Doing (by_request w r) (stmt f m).
Proof. intros Hm. apply does_stmt. intros st. destruct (Hm st); [by apply kept_by_request | by right]. Qed.

Lemma put_routes_does w r id hs body t t_dns :
  dispatch (hq_method r) (hq_path r) = Found (EPutRoutes id) → from_json (hq_body r) = Ok body →
  Doing (by_request w r) (put_routes_t id hs body t (w_clk w) t_dns).
Proof.
  intros Hd Hb. unfold put_routes_t. apply does_bind; [does | intros _].
  apply (until_bind _ _ _ _ _ (λ x, ∀ c', x = Ok c' → c' = c)); [| |done].
  { intros st Hc. split; [by apply kept_by_request|]. right. intros c' [= <-]. exact Hc. }
  intros c' Hc'. specialize (Hc' c' eq_refl) as ->.
  apply (until_bind _ _ _ _ _ (λ x, x = Ok tt → Forall (λ e, hostname_allowed c (re_hostname e) = Ok tt) (pr_routes body)));
    [| |done].
  { intros st _. split; [by apply kept_by_request|]. right. cbn [lift fst]. intros Hf%for_each_Ok. eapply Forall_impl; [exact Hf|].
    intros e He. cbn in He. destruct (hostname_allowed c (re_hostname e)) as [[]|]; done. }
  intros [] Hall. specialize (Hall eq_refl).
  apply (until_bind _ _ _ _ _ (λ x, ∀ ttl', x = Ok ttl' → ttl' = ttl)); [| |done].
  { intros st Hc. split; [by apply kept_by_request, still_names|]. right. intros ttl'. cbn [lease_ttl fst].
    rewrite Hc, ttl_eq. by intros [= <-]. }
  intros ttl' Ht. specialize (Ht ttl' eq_refl) as ->.
  apply does_bind; [apply does_bind; [does | intros _] | intros out; apply does_bind; [|intros; does]].
  - apply does_act. intros st. destruct (put_tx_claims ttl ApiStorage id (pr_routes body) (w_clk w) st) as [?|Hn]; [by left | right].
    eexists. split; [|split; [|exact Hn]]; [|done]. unfold may. rewrite Hd. split; [done|]. split; [by exists body|]. split.
    + intros h Hh%elem_of_list_to_set. apply list_elem_of_fmap in Hh as (e & -> & Hin).
      rewrite Forall_forall in Hall. by apply hostname_allowed_lower, Hall.
    + intros h. by eexists.
  - apply refresh_published. unfold publishes. by rewrite Hd.
Qed.
Lemma request_does w r : Doing (by_request w r) (tk_thread (request_task w r)).
Proof.
  cbn [request_task tk_thread]. apply does_bind; [|intros; apply does_ret]. unfold serve_t.
  destruct (dispatch (hq_method r) (hq_path r)) as [| | |e] eqn:Hd; try apply does_ret.
  destruct e; try (eapply does_weaken; [intros st st'; apply kept_by_request | by apply call_kept]); cbn [call_t];
    try (unfold with_json_t; destruct (json_type _); [|apply does_ret];
         match goal with |- context [from_json (hq_body r)] => destruct (from_json (hq_body r)) as [body|] eqn:Hb end;
         cbn [ok]; [|apply does_ret]); apply guards_reply.
  - unfold enroll_t. apply does_bind; [does | intros tk]. apply does_bind; [does | intros _].
    apply does_bind; [|intros; does]. apply does_act. intros st.
    destruct (enroll_joins ttl ApiStorage (er_display_name body) (er_tailscale_ipv4 body) (er_docker_engine_id body)
      (w_random w 0%nat) (w_random w 1%nat) (w_salt w) (w_now w 1%nat) st) as [?|[Ha Hn]]; [by left | right].
    eexists. split; [|split; [exact Ha | exact Hn]]. unfold may. rewrite Hd. split; [done|]. split; [done|]. by exists body.
  - unfold heartbeat_t. apply does_bind; [does | intros _].
    apply does_bind; [|intros _; apply does_bind; [apply refresh_published; unfold publishes; by rewrite Hd | intros; does]].
    apply does_act. intros st.
    destruct (heartbeat_seen ttl ApiStorage agent_id (hr_tailscale_ipv4 body) (w_now w 0%nat) st) as [?|[Ha Hn]]; [by left | right].
    eexists. split; [|split; [exact Ha | exact Hn]]. unfold may. rewrite Hd. split; [done|]. split; [done|]. by exists body.
  - by apply put_routes_does.
  - unfold admin_delete_route_t. apply does_bind; [does | intros _].
    apply does_bind; [|intros _; apply does_bind; [apply refresh_published; unfold publishes; by rewrite Hd | intros; does]].
    apply does_act. intros st. right. exists (Release (to_ascii_lowercase hostname)). unfold may. rewrite Hd.
    split; [done|]. split; [done|]. apply delete_releases.
  - unfold admin_revoke_agent_t. apply does_bind; [does | intros _].
    apply does_bind; [|intros _; apply does_bind; [apply refresh_published; unfold publishes; by rewrite Hd | intros; does]].
    unfold revoke_agent_t. apply does_bind; [|intros _]; apply does_act; intros st; right.
    + exists (Retire agent_id). unfold may. rewrite Hd. split; [done|]. split; [done|]. apply mark_retires.
    + exists (DropAll agent_id). unfold may. rewrite Hd. split; [done|]. split; [done|]. apply revoke_drops.
Qed.
Lemma tick_does t_purge t_dns : Doing (by_tick t_purge t_dns) (tk_thread (cleanup_task ttl t_purge t_dns)).
Proof.
  cbn [cleanup_task tk_thread]. unfold cleanup_tick_t.
  apply does_bind; [|intros; does]. apply does_bind; [apply does_catch|intros purged; apply does_bind; [apply does_catch|intros; does]].
  - apply does_bind; [|intros; does]. apply does_stmt. intros st. right. apply purge_purges.
  - eapply does_weaken; [|apply refresh_stored]. by left.
Qed.
End tasks.

(** ** Runs *)

Section runs.
Context `{Argon2} `{Base64} `{Chrono} `{Axum} `{UrlCrate} `{Idna}.
Context `{SerdeJson (list string)} `{SerdeJson (list DiscoveredContainerDto)}.
Context `{SerdeJson EnrollRequest} `{SerdeJson HeartbeatRequest} `{SerdeJson PutRoutesRequest}.
Context `{SerdeJson DiscoveryReportRequest} `{SerdeJson EnableServiceRequest} `{SerdeJson LoginRequest}.
Context (st0 : AppState) (ttl now : Z).
#[local] Abbreviation start := (pool_start st0).

(** The table has been published with the leases of an instant the run reads. *)
Definition instant_read (ms : list Move) (t : Z) : Prop := t = now ∨ ∃ m, m ∈ ms ∧ brings m t.
(** The move [m] may do [a]: it lets a tick purge or publish, or a request that
    has been entitled do what it may ask for. *)
Definition authorised (ms : list Move) (p : Pool) (m : Move) (a : Act) : Prop :=
  a = Stay
  ∨ match a with Publish _ t => instant_read ms t | _ => True end
    ∧ ∃ i tk, m = Advance i ∧ pl_tasks p !! i = Some tk ∧
      match tk_request tk with
      | Some r => ∃ w, was_entitled st0 ms i w r ∧ may (cfg st0) w r a
      | None => ∃ t_purge t_dns, StartTick t_purge t_dns ∈ ms ∧ (a = Purge t_purge ∨ ∃ n t, a = Publish n t)
      end.
(** The service [s] goes along with the run. *)
Inductive simulates : list Move → Pool → Service → Prop :=
| sim_start : simulates [] start (service_start (names_of st0))
| sim_step ms p s m p' a :
    simulates ms p s → pool_step p m = Some p' →
    possible s a → authorised ms p m a → names_of (pl_st p') = do_act ttl a (sv_now s) →
    simulates (ms ++ [m]) p' (service_act ttl a s).

Lemma simulates_run ms p s : simulates ms p s → pool_run ms start = Some p.
Proof. induction 1 as [|ms p s m p' a _ IH Hs _ _ _]; [done|]. rewrite pool_run_app, IH. cbn. by rewrite Hs. Qed.
Lemma simulates_now ms p s : simulates ms p s → sv_now s = names_of (pl_st p).
Proof. by induction 1. Qed.
Lemma simulates_past ms p s n : simulates ms p s →
  n ∈ sv_past s ↔ ∃ ms1 ms2 q, ms = ms1 ++ ms2 ∧ pool_run ms1 start = Some q ∧ n = names_of (pl_st q).
Proof.
  induction 1 as [|ms p s m p' a Hsim IH Hs _ _ Hn].
  { cbn. rewrite list_elem_of_singleton. split; [intros ->; by exists [], [], start|].
    intros (a & b & q & [-> _]%eq_sym%app_nil & Hq & ->). by injection Hq as <-. }
  cbn [service_act sv_past]. rewrite elem_of_cons, IH, <- Hn. split.
  - intros [->|(a1 & b & q & -> & Hq & ->)]; [|by exists a1, (b ++ [m]), q; rewrite <- app_assoc].
    exists (ms ++ [m]), [], p'. rewrite app_nil_r. split; [done|]. split; [|done].
    rewrite pool_run_app, (simulates_run _ _ _ Hsim). cbn. by rewrite Hs.
  - intros (a1 & b & q & Heq & Hq & ->). destruct b as [|x b _] using rev_ind.
    + rewrite app_nil_r in Heq. subst a1. left. rewrite pool_run_app, (simulates_run _ _ _ Hsim) in Hq.
      cbn in Hq. rewrite Hs in Hq. by injection Hq as <-.
    + rewrite app_assoc in Heq. apply app_inj_tail in Heq as [-> ->]. right. by exists a1, b, q.
Qed.

Hypothesis ttl_eq : ttl_of st0 = Some ttl.
Hypothesis start_wf : db_wf (db_of st0).
Hypothesis start_table : ∀ h, registry st0 !! h = dns_entry ttl now (db_of st0) h.

Lemma view_stored st st' t : stored_kept st st' → view ttl t (names_of st') = view ttl t (names_of st).
Proof. intros [Ho Hm]. unfold view. by rewrite Ho, Hm. Qed.
(** A step that keeps all but the table publishes. *)
Lemma publication ms p m p' :
  pool_run ms start = Some p → pool_step p m = Some p' → (∀ t, ¬ brings m t) → stored_kept (pl_st p) (pl_st p') →
  ∃ n t, (∃ ms1 ms2 q, ms = ms1 ++ ms2 ∧ pool_run ms1 start = Some q ∧ n = names_of (pl_st q))
    ∧ instant_read ms t ∧ names_of (pl_st p') = do_act ttl (Publish n t) (names_of (pl_st p)).
Proof.
  intros Hp Hs Hm Hk. assert (pool_run (ms ++ [m]) start = Some p') as Hp'.
  { rewrite pool_run_app, Hp. cbn. by rewrite Hs. }
  destruct (table_from_past st0 ttl now (ms ++ [m]) p' start_wf ttl_eq start_table Hp') as (_ & t & a & b & q & Heq & Hq & Ht & Hr).
  assert (∃ ms1 ms2 q1, ms = ms1 ++ ms2 ∧ pool_run ms1 start = Some q1
    ∧ view ttl t (names_of (pl_st q1)) = view ttl t (names_of (pl_st q))) as (ms1 & ms2 & q1 & Hms & Hq1 & Hv).
  { destruct b as [|x b _] using rev_ind.
    - rewrite app_nil_r in Heq. subst a. assert (q = p') as -> by congruence. exists ms, [], p. rewrite app_nil_r.
      split; [done|]. split; [done|]. symmetry. by apply view_stored.
    - rewrite app_assoc in Heq. apply app_inj_tail in Heq as [-> ->]. by exists a, b, q. }
  exists (names_of (pl_st q1)), t. split; [by exists ms1, ms2, q1|]. split.
  - destruct Ht as [?|(m' & Hin & Hb)]; [by left | right]. apply elem_of_app in Hin as [Hin|Hin]; [by exists m'|].
    apply list_elem_of_singleton in Hin as ->. by destruct (Hm t).
  - destruct Hk as [Ho Hme]. apply names_eq; [done..|]. cbn [do_act nm_table names_of]. rewrite Hv.
    apply map_eq. intros h. by rewrite view_entry, <- Hr.
Qed.

Lemma ticks ttl' t_purge t_dns : ttl_of st0 = Some ttl' →
  Does (λ _, False) (λ st, cfg st = cfg st0) (by_tick ttl t_purge t_dns) (tk_thread (cleanup_task ttl' t_purge t_dns)).
Proof. intros Ht. assert (ttl' = ttl) as -> by congruence. apply tick_does. Qed.
Lemma step_simulated ms p s m p' :
  simulates ms p s → pool_step p m = Some p' → ∃ s', simulates (ms ++ [m]) p' s'.
Proof.
  intros Hsim Hs. pose proof (simulates_run _ _ _ Hsim) as Hp. pose proof (simulates_now _ _ _ Hsim) as Hnow.
  assert (∀ a, possible s a → authorised ms p m a → names_of (pl_st p') = do_act ttl a (names_of (pl_st p)) →
    ∃ s', simulates (ms ++ [m]) p' s') as Hact.
  { intros a Ha Hau Hn. exists (service_act ttl a s). apply (sim_step _ p); [done..|]. by rewrite Hnow. }
  destruct (step_caused st0 (by_request (cfg st0) ttl) (by_tick ttl) (request_does (cfg st0) ttl ttl_eq) ticks ms p m p' Hp Hs)
    as [Hst|(i & tk & -> & Htk & Hc)].
  { apply (Hact Stay); [done|by left|]. rewrite (still_names _ _ Hst). by destruct (names_of (pl_st p)). }
  assert ((match tk_request tk with Some r => ∃ w, was_entitled st0 ms i w r ∧ publishes r
             | None => ∃ a b, StartTick a b ∈ ms end) → stored_kept (pl_st p) (pl_st p') →
    ∃ s', simulates (ms ++ [Advance i]) p' s') as Hpub.
  { intros Hw Hk. destruct (publication ms p (Advance i) p' Hp Hs) as (n & t & Hn & Ht & Heq); [by intros t []|done|].
    apply (Hact (Publish n t)); [cbn [possible]; by apply (simulates_past ms p s)| |done].
    right. split; [done|]. exists i, tk. split; [done|]. split; [done|]. destruct (tk_request tk) as [r|].
    - destruct Hw as (w & Hw & Hpr). by exists w.
    - destruct Hw as (a & b & Hin). exists a, b. split; [done | right; by exists n, t]. }
  unfold caused in Hc. destruct (tk_request tk) as [r|] eqn:Hreq.
  - destruct Hc as (w & Hw & [[Hpr Hk]|(a & Hmay & Happ & Hn)]); [apply Hpub; [by exists w | done]|].
    apply (Hact a); [|right|done].
    + destruct a; cbn [possible]; try (by rewrite Hnow); done.
    + split; [by destruct a|]. exists i, tk. rewrite Hreq. split; [done|]. split; [done|]. by exists w.
  - destruct Hc as (a & b & Hin & [Hk|Hn]); [apply Hpub; [by exists a, b | done]|].
    apply (Hact (Purge a)); [done|right|done]. split; [done|]. exists i, tk. rewrite Hreq. split; [done|].
    split; [done|]. exists a, b. split; [done | by left].
Qed.
Lemma run_simulated ms p : pool_run ms start = Some p → ∃ s, simulates ms p s.
Proof.
  revert p. induction ms as [|m ms IH] using rev_ind; intros p; [intros [= <-]; eexists; constructor|].
  rewrite pool_run_app. intros (q & Hq & (p' & Hs & [= <-])%bind_Some)%bind_Some.
  destruct (IH q Hq) as [s Hsim]. by eapply step_simulated.
Qed.
End runs.

(** ** Property *)

Section property.
Context `{Argon2} `{Base64} `{Chrono} `{Axum} `{UrlCrate} `{Idna}.
Context `{SerdeJson (list string)} `{SerdeJson (list DiscoveredContainerDto)}.
Context `{SerdeJson EnrollRequest} `{SerdeJson HeartbeatRequest} `{SerdeJson PutRoutesRequest}.
Context `{SerdeJson DiscoveryReportRequest} `{SerdeJson EnableServiceRequest} `{SerdeJson LoginRequest}.

(** What boot starts from. *)
Lemma boot_start dev_defaults read db c now st0 : db_wf db → boot dev_defaults read db c now = Some (Ok st0) →
  ∃ ttl, ttl_of st0 = Some ttl ∧ db_wf (db_of st0) ∧ (∀ h, registry st0 !! h = dns_entry ttl now (db_of st0) h)
    ∧ nm_table (names_of st0) = view ttl now (names_of st0).
Proof.
  intros Hwf (_ & Hdb & ttl & Ht & Hs)%boot_sync. exists ttl. rewrite Hdb in *. split; [done|]. split; [done|].
  split; [done|]. apply map_eq. intros h. by rewrite view_entry, Hdb, <- Hs.
Qed.

(** C2: the controller refines the abstract name service.  Start it on a well-formed
    database and let any requests run at the same time, in any interleaving, with
    statements that fail and clients that hang up: every step is one action of the
    service, or none.  An agent joins, is seen, claims hostnames and gives up the
    rest, is retired, loses its names; names are released or purged; or a view of
    one state the service has been in is published as a whole.  An action is the
    cleanup's own, or one that its request may ask for and that was entitled: an
    agent claims for itself and only hostnames the policy allows, an admin alone
    retires and releases. *)
Theorem controller_refines_name_service dev_defaults read db c now st0 ms p :
  db_wf db → boot dev_defaults read db c now = Some (Ok st0) → pool_run ms (pool_start st0) = Some p →
  ∃ ttl s, ttl_of st0 = Some ttl ∧ nm_table (names_of st0) = view ttl now (names_of st0)
    ∧ simulates st0 ttl now ms p s ∧ sv_now s = names_of (pl_st p).
Proof.
  intros Hwf Hboot Hp. destruct (boot_start _ _ _ _ _ _ Hwf Hboot) as (ttl & Ht & Hw & Hr & Hv).
  destruct (run_simulated st0 ttl now Ht Hw Hr ms p Hp) as [s Hs]. exists ttl, s.
  split; [done|]. split; [done|]. split; [done|]. by eapply simulates_now.
Qed.
End property.

(** ** Witness: a revoked agent's name is still published while nobody owns it. *)
Section witness.
Import Concurrent.Demo.

#[local] Definition revoked : list Move := Concurrent.moves0 ++ Concurrent.moves1.
Lemma controller_refines_name_service_witness :
  ∃ ttl s, simulates ControllerSpec.st0 ttl 1 revoked (Concurrent.ran revoked (pool_start ControllerSpec.st0)) s
    ∧ nm_table (sv_now s) !! "a.internal" = Some (mk_ipv4 100 64 0 1)
    ∧ nm_owner (sv_now s) !! "a.internal" = None.
Proof.
  assert (pool_run revoked (pool_start ControllerSpec.st0) = Some (Concurrent.ran revoked (pool_start ControllerSpec.st0)))
    as Hrun by (apply Concurrent.ran_eq; vm_compute; reflexivity).
  destruct (controller_refines_name_service false (λ _, Ok "secret") empty_db ControllerSpec.test_cfg 1
    ControllerSpec.st0 revoked (Concurrent.ran revoked (pool_start ControllerSpec.st0)) empty_db_wf ControllerSys.boot_eq Hrun)
    as (ttl & s & _ & _ & Hs & Hn).
  exists ttl, s. split; [exact Hs|]. rewrite Hn. split; vm_compute; reflexivity.
Defined.
End witness.
