(* ===== verification/Shutdown.v ===== *)
(** * The end of the controller ([tailsvc-controller/src/main.rs])

    [main] serves until [shutdown_signal] returns.  Then the listener is closed,
    the requests in flight go on, and the process ends when the last of them is
    answered ([with_graceful_shutdown] of axum); the cleanup task runs on until
    then.  A [Server] is a [Pool] of [Concurrent] with that phase. *)
From S2P Require Import Prelude RustStr Net Externals Common Concrete Hostname Store StoreInv Config Registry.
From S2P Require Import Sessions State Probe Controller ControllerSpec Router ControllerSys Threads Concurrent.
#[local] Open Scope Z_scope.

(** ** Threads of a bounded number of steps *)

(** However the steps turn out, there are at most [n]. *)
Fixpoint within {A} (n : nat) (t : Thread A) {struct t} : Prop :=
  match t, n with
  | Ret _, _ => True
  | Local m k, S n' => ∀ r, within n' (k r)
  | Stmt f m k, S n' => ∀ r, within n' (k r)
  | _, O => False
  end.
Definition is_ret {A} (t : Thread A) : bool := match t with Ret _ => true | _ => false end.

Lemma within_mono {A} n n' (t : Thread A) : (n <= n')%nat → within n t → within n' t.
Proof.
  revert n n'. induction t as [r|B m k IH|B f m k IH]; intros n n' Hn; [done|..];
    (destruct n as [|n]; [done|]); (destruct n' as [|n']; [lia|]); (intros Ht r; apply (IH r n n'); [lia | apply Ht]).
Qed.
Lemma within_bind {A B} n n' (t : Thread A) (f : A → Thread B) :
  within n t → (∀ a, within n' (f a)) → within (n + n') (t ≫= f).
Proof.
  intros Ht Hf. revert n Ht. induction t as [[a|e]|C m k IH|C g m k IH]; intros n Ht.
  - apply (within_mono n'); [lia | apply Hf].
  - by destruct n.
  - destruct n as [|n]; [done|]. intros r. apply IH, Ht.
  - destruct n as [|n]; [done|]. intros r. apply IH, Ht.
Qed.
Lemma within_catch {A} n (t : Thread A) : within n t → within n (catch t).
Proof.
  revert n. induction t as [r|C m k IH|C g m k IH]; intros n; [done|..];
    (destruct n as [|n]; [done|]; intros Ht r; apply IH, Ht).
Qed.
Lemma within_ret {A} (r : result Failure A) : within 0 (Ret r).
Proof. done. Qed.
Lemma within_local {A} (m : HandlerM A) : within 1 (local m).
Proof. by intros r. Qed.
Lemma within_stmt {A} f (m : SE Db StorageError A) : within 1 (stmt f m).
Proof. by intros r. Qed.
Lemma advance_within {A} n fails (t t' : Thread A) st st' :
  within n t → advance fails t st = Some (st', t') → ∃ n', n = S n' ∧ within n' t'.
Proof.
  destruct t as [r|B m k|B f m k]; cbn [advance]; [done|..]; (destruct n as [|n]; [done|]); intros Ht Ha; exists n;
    (split; [done|]).
  - destruct fails; [done|]. destruct (m st). injection Ha as _ <-. apply Ht.
  - destruct fails; [injection Ha as _ <-; apply Ht|]. destruct (storage_op f m st). injection Ha as _ <-. apply Ht.
Qed.
(** A thread that has not ended can take a step. *)
Lemma advance_possible {A} (t : Thread A) st : is_ret t = false → ∃ st' t', advance None t st = Some (st', t').
Proof.
  destruct t as [r|B m k|B f m k]; cbn [advance is_ret]; [done|..]; intros _;
    [destruct (m st) | destruct (storage_op f m st)]; by eauto.
Qed.

Ltac within :=
  lazymatch goal with
  | |- within _ (mbind _ _) => eapply within_bind; [within | intros ?; within]
  | |- within _ (mret _) => apply within_ret
  | |- within _ (local _) => apply within_local
  | |- within _ (stmt _ _) => apply within_stmt
  | |- within _ (catch _) => apply within_catch; within
  | |- within _ (let _ := _ in _) => cbv zeta; within
  | |- within _ (audit_t _ _ _) => unfold audit_t; within
  | |- within _ (check_agent_t _ _) => unfold check_agent_t; within
  | |- within _ (check_admin_t _ _ _) => apply within_local
  | |- within _ (refresh_dns_t _) => unfold refresh_dns_t; within
  | |- within _ (consume_enrollment_token_t _ _ _) => unfold consume_enrollment_token_t; within
  | |- within _ (store_put_routes_t _ _ _ _ _) => unfold store_put_routes_t; within
  | |- within _ (revoke_agent_t _ _) => unfold revoke_agent_t; within
  end.
Ltac within_at_most := eapply within_mono; [|within]; lia.

Section bounds.
Context `{Argon2} `{Base64} `{Chrono} `{Axum} `{UrlCrate} `{Idna}.
Context `{SerdeJson (list string)} `{SerdeJson (list DiscoveredContainerDto)}.
Context `{SerdeJson EnrollRequest} `{SerdeJson HeartbeatRequest} `{SerdeJson PutRoutesRequest}.
Context `{SerdeJson DiscoveryReportRequest} `{SerdeJson EnableServiceRequest} `{SerdeJson LoginRequest}.

Lemma reply_within {A} n (f : A → Reply) t : within n t → within n (reply_t f t).
Proof. intros Ht. rewrite <- (Nat.add_0_r n). apply within_bind; [done | intros; apply within_ret]. Qed.
Lemma with_json_within {A} `{SerdeJson A} n r (h : A → Thread Reply) :
  (∀ b, within n (h b)) → within n (with_json_t r h).
Proof. intros Hh. unfold with_json_t. case_match; [apply Hh | by destruct n]. Qed.
(** The longest handler is the update of the routes: ten steps. *)
Definition longest : nat := 10.
Lemma request_within w r : within longest (tk_thread (request_task w r)).
Proof.
  cbn [request_task tk_thread]. unfold longest. rewrite <- (Nat.add_0_r 10).
  apply within_bind; [|intros; apply within_ret]. unfold serve_t.
  destruct (dispatch _ _) as [| | |e]; try done. destruct e; cbn [call_t]; try done;
    try (apply with_json_within; intros b); try apply reply_within.
  - unfold ready_t. eapply (within_mono 2); [lia|]. apply (within_bind 1 1); [within|].
    intros [a|]; [|done]. eapply (within_bind 1 0); [within | intros; apply within_ret].
  - within_at_most.
  - within_at_most.
  - unfold enroll_t. within_at_most.
  - unfold heartbeat_t. within_at_most.
  - unfold put_routes_t. within_at_most.
  - unfold put_discovery_t. within_at_most.
  - unfold desired_services_t. within_at_most.
  - unfold admin_discovery_t. within_at_most.
  - unfold admin_enable_service_t. eapply (within_mono (1 + 8)); [lia|]. apply within_bind; [within|]. intros _.
    case_match; within_at_most.
  - unfold admin_disable_service_t. within_at_most.
  - unfold admin_agents_t. within_at_most.
  - unfold admin_routes_t. within_at_most.
  - unfold admin_dashboard_t. within_at_most.
  - unfold admin_delete_route_t. within_at_most.
  - unfold admin_create_enrollment_token_t. within_at_most.
  - unfold admin_revoke_agent_t. within_at_most.
Qed.
End bounds.

(** ** [shutdown_signal] *)

Inductive Sig := SigTerm | SigInt.
#[export] Instance sig_eq_dec : EqDecision Sig.
Proof. solve_decision. Defined.
(** Whether the handlers can be registered; [ctrl_c] registers one for SIGINT. *)
Record Handlers := mk_handlers { hd_term : bool; hd_int : bool; hd_ctrl_c : bool }.
(** The signals [shutdown_signal] waits for; with none it returns at once. *)
Definition shutdown_signal (h : Handlers) : list Sig :=
  let ctrl_c := if hd_ctrl_c h then [SigInt] else [] in
  if negb (hd_term h) then ctrl_c
  else if negb (hd_int h) then ctrl_c
  else [SigTerm; SigInt].
(** A signal with a handler no longer kills the process, waited for or not. *)
Definition handled (h : Handlers) (s : Sig) : bool :=
  match s with
  | SigTerm => hd_term h
  | SigInt => bool_decide (SigInt ∈ shutdown_signal h)
  end.

(** ** The server *)

Section server.
Context `{Argon2} `{Base64} `{Chrono} `{Axum} `{UrlCrate} `{Idna}.
Context `{SerdeJson (list string)} `{SerdeJson (list DiscoveredContainerDto)}.
Context `{SerdeJson EnrollRequest} `{SerdeJson HeartbeatRequest} `{SerdeJson PutRoutesRequest}.
Context `{SerdeJson DiscoveryReportRequest} `{SerdeJson EnableServiceRequest} `{SerdeJson LoginRequest}.
Context (h : Handlers).

Inductive Phase := Serving | Draining | Exited | Killed.
Record Server := mk_server { sv_pool : Pool; sv_phase : Phase }.
(** A move of the pool, a signal, the end of [main]. *)
Inductive ServerMove := Runs (m : Move) | Signal (s : Sig) | End_.

(** A request that is not answered yet. *)
Definition in_flight (tk : Task) : bool :=
  match tk_request tk with Some _ => negb (is_ret (tk_thread tk)) | None => false end.
Definition idle (p : Pool) : Prop := map_Forall (λ _ tk, in_flight tk = false) (pl_tasks p).

(** [main] from [axum::serve] on. *)
Definition server_start (st : AppState) : Server :=
  mk_server (pool_start st) (if decide (shutdown_signal h = []) then Draining else Serving).
Definition server_step (s : Server) (m : ServerMove) : option Server :=
  match sv_phase s, m with
  | (Exited | Killed), _ => None
  | Draining, Runs (Arrive _ _) => None
  | ph, Runs m => p ← pool_step (sv_pool s) m; Some (mk_server p ph)
  | Serving, Signal sg =>
      if decide (sg ∈ shutdown_signal h) then Some (mk_server (sv_pool s) Draining)
      else Some (mk_server (sv_pool s) (if handled h sg then Serving else Killed))
  | Draining, Signal sg => Some (mk_server (sv_pool s) (if handled h sg then Draining else Killed))
  | Serving, End_ => None
  | Draining, End_ => if decide (idle (sv_pool s)) then Some (mk_server (sv_pool s) Exited) else None
  end.
Fixpoint server_run (ms : list ServerMove) (s : Server) : option Server :=
  match ms with
  | [] => Some s
  | m :: ms' => s' ← server_step s m; server_run ms' s'
  end.

(** How many of the moves are steps of one task. *)
Definition is_step (i : nat) (m : ServerMove) : bool :=
  match m with Runs (Advance j) | Runs (StmtFails j _) => bool_decide (j = i) | _ => false end.
Definition steps_of (i : nat) (ms : list ServerMove) : nat := length (filter (λ m, is_step i m = true) ms).

Lemma server_run_app ms ms' s : server_run (ms ++ ms') s = (server_run ms s ≫= server_run ms').
Proof.
  revert s. induction ms as [|m ms IH]; intros s; [done|]. cbn [app server_run].
  destruct (server_step s m); [apply IH | done].
Qed.
Lemma steps_of_snoc i ms m : steps_of i (ms ++ [m]) = (steps_of i ms + if is_step i m then 1 else 0)%nat.
Proof.
  unfold steps_of. rewrite filter_app, length_app. f_equal. rewrite filter_cons, filter_nil.
  destruct (is_step i m) eqn:Hm; [by rewrite decide_True | by rewrite decide_False].
Qed.
(** The moves of a pool in a server that stays up. *)
Lemma server_runs_pool ms p : ∀ q, pool_run ms p = Some q →
  Forall (λ m, match m with Arrive _ _ => False | _ => True end) ms →
  server_run (Runs <$> ms) (mk_server p Draining) = Some (mk_server q Draining).
Proof.
  revert p. induction ms as [|m ms IH]; intros p q; [by intros [= <-]|]. cbn [pool_run].
  intros (p' & Hs & Hr)%bind_Some [Hm Hms]%Forall_cons. rewrite fmap_cons. cbn [server_run server_step sv_phase sv_pool].
  destruct m; [done|..]; rewrite Hs; cbn; by apply IH.
Qed.

(** ** The requests in flight *)

(** A request has at most [longest] steps, wherever it is. *)
Lemma step_task_within p i fails p' :
  (∀ j tk, pl_tasks p !! j = Some tk → tk_request tk ≠ None → within longest (tk_thread tk)) →
  step_task i fails p = Some p' →
  ∀ j tk, pl_tasks p' !! j = Some tk → tk_request tk ≠ None → within longest (tk_thread tk).
Proof.
  intros Hp (tk0 & Htk & ([st' t'] & Ha & [= <-])%bind_Some)%bind_Some j tk. cbn [pl_tasks].
  intros [[<- <-]|[_ ?]]%lookup_insert_Some; [|by eapply Hp]. cbn. intros Hr.
  destruct (advance_within _ _ _ _ _ _ (Hp _ _ Htk Hr) Ha) as (n' & Hn & Hw).
  eapply within_mono; [|exact Hw]. unfold longest in *. lia.
Qed.
Lemma run_within ms p q : pool_run ms p = Some q →
  (∀ j tk, pl_tasks p !! j = Some tk → tk_request tk ≠ None → within longest (tk_thread tk)) →
  ∀ j tk, pl_tasks q !! j = Some tk → tk_request tk ≠ None → within longest (tk_thread tk).
Proof.
  revert p. induction ms as [|m ms IH]; intros p; cbn [pool_run]; [by intros [= <-]|].
  intros (p' & Hs & Hr)%bind_Some Hp. apply (IH p' Hr). clear IH Hr q.
  destruct m as [w r|a b|i|i e|i|up]; cbn [pool_step] in Hs; [| |by eapply step_task_within..| |].
  - injection Hs as <-. cbn. intros j tk [[<- <-]|[_ ?]]%lookup_insert_Some; [|by eapply Hp].
    intros _. apply request_within.
  - apply bind_Some in Hs as (ttl & _ & [= <-]). cbn.
    intros j tk [[<- <-]|[_ ?]]%lookup_insert_Some; [done | by eapply Hp].
  - injection Hs as <-. cbn. intros j tk [_ ?]%lookup_delete_Some. by eapply Hp.
  - by injection Hs as <-.
Qed.

(** The request of task [i] when the signal came, and what has become of it. *)
Definition followed (ms : list ServerMove) (q : Pool) (i : nat) (r : HttpRequest) : Prop :=
  (pl_tasks q !! i = None ∧ Runs (HangUp i) ∈ ms ∧ (steps_of i ms <= longest)%nat)
  ∨ ∃ tk k, pl_tasks q !! i = Some tk ∧ tk_request tk = Some r
      ∧ (steps_of i ms + k = longest)%nat ∧ within k (tk_thread tk).
Definition draining_ok (p : Pool) (ms : list ServerMove) (q : Pool) : Prop :=
  (∀ i tk r, pl_tasks p !! i = Some tk → tk_request tk = Some r → followed ms q i r)
  ∧ (∀ i tk r, pl_tasks q !! i = Some tk → tk_request tk = Some r →
       ∃ tk0, pl_tasks p !! i = Some tk0 ∧ tk_request tk0 = Some r)
  ∧ (pl_next p <= pl_next q)%nat.
Lemma followed_same ms m q q' i r :
  followed ms q i r → pl_tasks q' !! i = pl_tasks q !! i → is_step i m = false → followed (ms ++ [m]) q' i r.
Proof.
  intros Hf Hq Hm. unfold followed. rewrite Hq, steps_of_snoc, Hm, Nat.add_0_r.
  destruct Hf as [(Hn & Hin & Hs)|?]; [left | by right]. split; [done|]. split; [|done].
  apply elem_of_app. by left.
Qed.
Lemma draining_task p ms q j fails q' m :
  (∀ i, is_step i m = bool_decide (j = i)) → draining_ok p ms q → step_task j fails q = Some q' →
  draining_ok p (ms ++ [m]) q'.
Proof.
  intros Hm (Hf & Hd & Hn) (tk0 & Htk & ([st' t'] & Ha & [= <-])%bind_Some)%bind_Some.
  split; [|split; [|exact Hn]].
  - intros i tk r Hi Hr. destruct (decide (j = i)) as [<-|Hne].
    + right. destruct (Hf _ _ _ Hi Hr) as [(Hnone & _)|(tk1 & k & Htk1 & Hr1 & Hs & Hw)]; [congruence|].
      rewrite Htk in Htk1. injection Htk1 as <-.
      destruct (advance_within _ _ _ _ _ _ Hw Ha) as (n' & -> & Hw').
      exists (mk_task (tk_request tk0) t'), n'. cbn [pl_tasks]. rewrite lookup_insert_eq, steps_of_snoc, Hm.
      rewrite bool_decide_true by done. split; [done|]. split; [done|]. split; [lia | done].
    + eapply followed_same; [by eapply Hf| |].
      * cbn [pl_tasks]. by rewrite lookup_insert_ne.
      * rewrite Hm. by apply bool_decide_false.
  - intros i tk r. cbn [pl_tasks]. intros [[<- <-]|[_ ?]]%lookup_insert_Some; [|by eapply Hd].
    cbn. intros Hr. by eapply Hd.
Qed.
Lemma draining_pool p ms q m q' :
  (∀ i tk, pl_tasks p !! i = Some tk → (i < pl_next p)%nat) →
  match m with Arrive _ _ => False | _ => True end →
  draining_ok p ms q → pool_step q m = Some q' → draining_ok p (ms ++ [Runs m]) q'.
Proof.
  intros Hnext Hm Hok. destruct m as [w r|a b|j|j e|j|up]; [done|..]; cbn [pool_step].
  - intros (ttl & _ & [= <-])%bind_Some. destruct Hok as (Hf & Hd & Hn).
    split; [|split; [|cbn; lia]]; cbn [add_task pl_tasks].
    + intros i tk r Hi Hr. eapply followed_same; [by eapply Hf| |done]. cbn [add_task pl_tasks].
      rewrite lookup_insert_ne; [done|]. specialize (Hnext _ _ Hi). lia.
    + intros i tk r [[<- <-]|[_ ?]]%lookup_insert_Some; [done | by eapply Hd].
  - by apply draining_task.
  - by apply draining_task.
  - intros [= <-]. destruct Hok as (Hf & Hd & Hn). split; [|split; [|exact Hn]].
    + intros i tk r Hi Hr. specialize (Hf _ _ _ Hi Hr). destruct (decide (j = i)) as [<-|Hne].
      * left. cbn [pl_tasks]. rewrite lookup_delete_eq. split; [done|]. split; [apply elem_of_app; right; by left|].
        rewrite steps_of_snoc. cbn [is_step]. destruct Hf as [(_ & _ & ?)|(? & ? & _ & _ & ? & _)]; lia.
      * eapply followed_same; [exact Hf| |done]. cbn [pl_tasks]. by rewrite lookup_delete_ne.
    + intros i tk r. cbn [pl_tasks]. intros [_ ?]%lookup_delete_Some. by eapply Hd.
  - intros [= <-]. destruct Hok as (Hf & Hd & Hn). split; [|by split]. intros i tk r Hi Hr.
    eapply followed_same; [by eapply Hf | done..].
Qed.
Lemma draining_step p ms q m s :
  (∀ i tk, pl_tasks p !! i = Some tk → (i < pl_next p)%nat) →
  draining_ok p ms q → server_step (mk_server q Draining) m = Some s → draining_ok p (ms ++ [m]) (sv_pool s).
Proof.
  intros Hnext Hok Hs.
  assert (∀ m', (∀ i, is_step i m' = false) → draining_ok p (ms ++ [m']) q) as Hstay.
  { intros m' Hm'. destruct Hok as (Hf & Hd & Hn). split; [|by split]. intros i tk r Hi Hr.
    eapply followed_same; [by eapply Hf | done | apply Hm']. }
  destruct m as [m|sg|]; cbn [server_step sv_phase sv_pool] in Hs.
  - assert (match m with Arrive _ _ => False | _ => True end) as Hm by (by destruct m).
    assert (∃ q', pool_step q m = Some q' ∧ sv_pool s = q') as (q' & Hq & ->).
    { destruct m; [done|..]; apply bind_Some in Hs as (q' & Hq & [= <-]); by exists q'. }
    by eapply draining_pool.
  - injection Hs as <-. by apply Hstay.
  - destruct (decide (idle q)); [|done]. injection Hs as <-. by apply Hstay.
Qed.
Lemma draining_start p :
  (∀ i tk, pl_tasks p !! i = Some tk → tk_request tk ≠ None → within longest (tk_thread tk)) → draining_ok p [] p.
Proof.
  intros Hw. split; [|split; [by eauto | done]]. intros i tk r Hi Hr. right. exists tk, longest.
  split; [done|]. split; [done|]. split; [done|]. eapply Hw; [exact Hi | by rewrite Hr].
Qed.
Lemma draining_run p ms s :
  (∀ i tk, pl_tasks p !! i = Some tk → (i < pl_next p)%nat) →
  (∀ i tk, pl_tasks p !! i = Some tk → tk_request tk ≠ None → within longest (tk_thread tk)) →
  server_run ms (mk_server p Draining) = Some s →
  sv_phase s ≠ Serving ∧ draining_ok p ms (sv_pool s) ∧ (sv_phase s = Exited → idle (sv_pool s)).
Proof.
  intros Hnext Hw. revert s. induction ms as [|m ms IH] using rev_ind; intros s.
  { intros [= <-]. split; [done|]. split; [by apply draining_start | done]. }
  rewrite server_run_app. intros ([q ph] & Hq & (s' & Hs & [= <-])%bind_Some)%bind_Some.
  destruct (IH _ Hq) as (Hph & Hok & _). cbn [sv_phase sv_pool] in *.
  assert (ph = Draining) as -> by (destruct ph; done).
  split; [|split; [by eapply draining_step|]].
  - intros Hser. destruct m as [m|sg|]; cbn [server_step sv_phase sv_pool] in Hs.
    + destruct m; [done|..]; apply bind_Some in Hs as (q' & _ & [= <-]); done.
    + injection Hs as <-. cbn in Hser. by destruct (handled h sg).
    + destruct (decide (idle q)); [|done]. by injection Hs as <-.
  - intros Hex. destruct m as [m|sg|]; cbn [server_step sv_phase sv_pool] in Hs.
    + destruct m; [done|..]; apply bind_Some in Hs as (q' & _ & [= <-]); done.
    + injection Hs as <-. cbn in Hex. by destruct (handled h sg).
    + destruct (decide (idle q)); [|done]. by injection Hs as <-.
Qed.

(** ** The server can always end *)

Definition waited_for (p : Pool) : gmap nat Task := filter (λ x, in_flight x.2 = true) (pl_tasks p).

Lemma finish_task k p i tk : pl_tasks p !! i = Some tk → within k (tk_thread tk) →
  ∃ n q tk', (n <= k)%nat ∧ pool_run (replicate n (Advance i)) p = Some q
    ∧ pl_tasks q = <[i := tk']> (pl_tasks p) ∧ tk_request tk' = tk_request tk ∧ in_flight tk' = false.
Proof.
  revert p tk. induction k as [|k IH]; intros p tk Hi Hw; destruct (is_ret (tk_thread tk)) eqn:Hr.
  1,3: exists 0%nat, p, tk; split; [lia|]; split; [done|]; rewrite insert_id by done; split; [done|]; split; [done|];
    unfold in_flight; rewrite Hr; by destruct (tk_request tk).
  - by destruct (tk_thread tk).
  - destruct (advance_possible _ (pl_st p) Hr) as (st' & t' & Ha).
    destruct (advance_within _ _ _ _ _ _ Hw Ha) as (n' & [= <-] & Hw').
    set (p1 := mk_pool st' (<[i := mk_task (tk_request tk) t']> (pl_tasks p)) (pl_next p)).
    destruct (IH p1 (mk_task (tk_request tk) t')) as (n & q & tk' & Hn & Hq & Ht & Hrq & Hf);
      [by cbn; rewrite lookup_insert_eq | done|].
    exists (S n), q, tk'. split; [lia|]. split; [|split; [|done]].
    + cbn [replicate pool_run pool_step]. unfold step_task. rewrite Hi. cbn [mbind option_bind].
      rewrite Ha. exact Hq.
    + rewrite Ht. cbn [p1 pl_tasks]. by rewrite insert_insert_eq.
Qed.
Lemma finish_all l p :
  (∀ i tk, pl_tasks p !! i = Some tk → tk_request tk ≠ None → within longest (tk_thread tk)) →
  (∀ i tk, pl_tasks p !! i = Some tk → in_flight tk = true → i ∈ l) →
  ∃ js q, pool_run (Advance <$> js) p = Some q ∧ idle q ∧ (length js <= longest * length l)%nat.
Proof.
  revert p. induction l as [|i l IH]; intros p Hw Hl.
  { exists [], p. split; [done|]. split; [|cbn; lia]. intros j tk Hj. cbv beta. destruct (in_flight tk) eqn:Hf; [|done].
    by apply (Hl _ _ Hj), elem_of_nil in Hf. }
  assert (∃ js p1, pool_run (Advance <$> js) p = Some p1 ∧ (length js <= longest)%nat
    ∧ (∀ j tk, pl_tasks p1 !! j = Some tk → tk_request tk ≠ None → within longest (tk_thread tk))
    ∧ ∀ j tk, pl_tasks p1 !! j = Some tk → in_flight tk = true → j ∈ l) as (js1 & p1 & Hr1 & Hn1 & Hw1 & Hl1).
  { destruct (pl_tasks p !! i) as [tk|] eqn:Hi; [destruct (tk_request tk) as [r|] eqn:Hreq|].
    - destruct (finish_task longest p i tk Hi) as (n & q & tk' & Hn & Hq & Ht & Hrq & Hf); [by eapply Hw; [|rewrite Hreq]|].
      exists (replicate n i), q. rewrite fmap_replicate, length_replicate. split; [done|]. split; [done|].
      split; [by apply (run_within _ _ _ Hq)|]. rewrite Ht. intros j tk2 [[<- <-]|[Hne Hj]]%lookup_insert_Some Hf2; [congruence|].
      specialize (Hl _ _ Hj Hf2). by apply elem_of_cons in Hl as [->|].
    - exists [], p. split; [done|]. split; [apply Nat.le_0_l|]. split; [done|]. intros j tk2 Hj Hf2.
      pose proof (Hl _ _ Hj Hf2) as [->|]%elem_of_cons; [|done]. rewrite Hi in Hj. injection Hj as <-.
      unfold in_flight in Hf2. by rewrite Hreq in Hf2.
    - exists [], p. split; [done|]. split; [apply Nat.le_0_l|]. split; [done|]. intros j tk2 Hj Hf2.
      pose proof (Hl _ _ Hj Hf2) as [->|]%elem_of_cons; [congruence | done]. }
  destruct (IH p1 Hw1 Hl1) as (js2 & q & Hr2 & Hidle & Hn2). exists (js1 ++ js2), q.
  rewrite fmap_app, pool_run_app, Hr1. split; [done|]. split; [done|]. rewrite length_app. cbn [length]. lia.
Qed.
Lemma finish p :
  (∀ i tk, pl_tasks p !! i = Some tk → tk_request tk ≠ None → within longest (tk_thread tk)) →
  ∃ js q, server_run ((Runs ∘ Advance <$> js) ++ [End_]) (mk_server p Draining) = Some (mk_server q Exited)
    ∧ (length js <= longest * size (waited_for p))%nat.
Proof.
  intros Hw. destruct (finish_all (map_to_list (waited_for p)).*1 p Hw) as (js & q & Hr & Hidle & Hn).
  { intros i tk Hi Hf. apply list_elem_of_fmap. exists (i, tk). split; [done|]. apply elem_of_map_to_list.
    by apply map_lookup_filter_Some. }
  exists js, q. rewrite length_fmap, length_map_to_list in Hn. split; [|done].
  rewrite server_run_app, list_fmap_compose, (server_runs_pool _ _ _ Hr); [|by apply Forall_fmap, Forall_true].
  cbn [mbind option_bind server_run server_step sv_phase sv_pool]. by rewrite decide_True.
Qed.
End server.

(** ** Properties *)

Section properties.
Context `{Argon2} `{Base64} `{Chrono} `{Axum} `{UrlCrate} `{Idna}.
Context `{SerdeJson (list string)} `{SerdeJson (list DiscoveredContainerDto)}.
Context `{SerdeJson EnrollRequest} `{SerdeJson HeartbeatRequest} `{SerdeJson PutRoutesRequest}.
Context `{SerdeJson DiscoveryReportRequest} `{SerdeJson EnableServiceRequest} `{SerdeJson LoginRequest}.
Context (h : Handlers).

(** What holds of the pool of a server at all times. *)
Definition numbered (p : Pool) : Prop := ∀ i tk, pl_tasks p !! i = Some tk → (i < pl_next p)%nat.
Definition bounded (p : Pool) : Prop :=
  ∀ i tk, pl_tasks p !! i = Some tk → tk_request tk ≠ None → within longest (tk_thread tk).
Lemma server_step_pool s m s' : server_step h s m = Some s' →
  sv_pool s' = sv_pool s ∨ ∃ m', pool_step (sv_pool s) m' = Some (sv_pool s').
Proof.
  destruct s as [p ph]. unfold server_step. cbn [sv_phase sv_pool]. destruct ph, m as [m|sg|]; try done.
  - intros (q & Hq & [= <-])%bind_Some. right. by exists m.
  - case_decide; intros [= <-]; by left.
  - destruct m; [done|..]; intros (q & Hq & [= <-])%bind_Some; right; by eexists.
  - intros [= <-]. by left.
  - case_decide; [|done]. intros [= <-]. by left.
Qed.
Lemma server_run_pool ms s s' : server_run h ms s = Some s' →
  numbered (sv_pool s) → bounded (sv_pool s) → numbered (sv_pool s') ∧ bounded (sv_pool s').
Proof.
  revert s. induction ms as [|m ms IH]; intros s; cbn [server_run]; [by intros [= <-]|].
  intros (s1 & Hs & Hr)%bind_Some Hn Hb. apply (IH s1 Hr).
  - destruct (server_step_pool _ _ _ Hs) as [->|[m' Hm]]; [done|].
    by destruct (run_next [m'] (sv_pool s) (sv_pool s1)) as [_ ?]; [cbn; rewrite Hm|..].
  - destruct (server_step_pool _ _ _ Hs) as [->|[m' Hm]]; [done|].
    refine (run_within [m'] (sv_pool s) (sv_pool s1) _ Hb). cbn. by rewrite Hm.
Qed.
Lemma not_killed ms s s' : hd_term h = true → hd_int h = true → sv_phase s ≠ Killed →
  server_run h ms s = Some s' → sv_phase s' ≠ Killed.
Proof.
  intros Ht Hi. revert s. induction ms as [|m ms IH]; intros s Hs; cbn [server_run]; [by intros [= <-]|].
  intros (s1 & Hs1 & Hr)%bind_Some. apply (IH s1); [|done]. clear IH Hr s'.
  assert (∀ sg, handled h sg = true) as Hh by (intros []; cbn; unfold shutdown_signal; by rewrite Ht, ?Hi).
  destruct s as [p ph], m as [m|sg|]; unfold server_step in Hs1; cbn [sv_phase sv_pool] in *; destruct ph; try done.
  - apply bind_Some in Hs1 as (q & _ & [= <-]). done.
  - destruct m; [done|..]; apply bind_Some in Hs1 as (q & _ & [= <-]); done.
  - rewrite Hh in Hs1. case_decide; by injection Hs1 as <-.
  - rewrite Hh in Hs1. by injection Hs1 as <-.
  - case_decide; [|done]. by injection Hs1 as <-.
Qed.

(** C12: the controller's end is graceful and comes.  When a signal it waits for
    arrives, no request is taken any more and each one in flight has at most ten
    steps left; unless its client hangs up it stays until it is answered, and the
    process does not exit before.  Whatever happens meanwhile, the process can
    still end, with no more than those steps; and with both handlers registered no
    further signal kills it. *)
Theorem graceful_shutdown st0 ms1 s1 sg ms s :
  server_run h ms1 (server_start h st0) = Some s1 → sv_phase s1 = Serving → sg ∈ shutdown_signal h →
  server_run h (Signal sg :: ms) s1 = Some s →
  (∀ i tk r, pl_tasks (sv_pool s1) !! i = Some tk → tk_request tk = Some r →
     (steps_of i ms <= 10)%nat
     ∧ (Runs (HangUp i) ∈ ms ∨ ∃ tk', pl_tasks (sv_pool s) !! i = Some tk' ∧ tk_request tk' = Some r
          ∧ (sv_phase s = Exited → ∃ x, tk_thread tk' = Ret x)))
  ∧ (∀ i tk r, pl_tasks (sv_pool s) !! i = Some tk → tk_request tk = Some r →
       ∃ tk0, pl_tasks (sv_pool s1) !! i = Some tk0 ∧ tk_request tk0 = Some r)
  ∧ (sv_phase s = Draining → ∃ js q,
       server_run h ((Runs ∘ Advance <$> js) ++ [End_]) s = Some (mk_server q Exited)
       ∧ (length js <= 10 * size (waited_for (sv_pool s)))%nat)
  ∧ (hd_term h = true → hd_int h = true → sv_phase s ≠ Killed).
Proof.
  intros Hr1 Hph Hsg Hr.
  destruct (server_run_pool _ _ _ Hr1) as [Hn Hb]; [by intros i tk; cbn; rewrite lookup_empty..|].
  assert (server_run h ms (mk_server (sv_pool s1) Draining) = Some s) as Hd.
  { cbn [server_run] in Hr. unfold server_step in Hr. rewrite Hph, decide_True in Hr by done. exact Hr. }
  destruct (draining_run h (sv_pool s1) ms s Hn Hb Hd) as (_ & (Hf & Hnew & _) & Hex).
  destruct (server_run_pool _ _ _ Hd Hn Hb) as [_ Hb'].
  split; [|split; [exact Hnew|split]].
  - intros i tk r Hi Hreq. destruct (Hf i tk r Hi Hreq) as [(_ & Hin & Hs)|(tk' & k & Htk & Hrq & Hs & _)].
    + split; [exact Hs | by left].
    + unfold longest in Hs. split; [lia|]. right. exists tk'. split; [done|]. split; [done|]. intros He.
      pose proof (Hex He i tk' Htk) as Hfl. cbv beta in Hfl. unfold in_flight in Hfl. rewrite Hrq in Hfl.
      destruct (tk_thread tk') as [x| |]; [by exists x | done..].
  - intros Hdr. destruct s as [p ph]. cbn [sv_phase sv_pool] in *. subst ph. by apply finish.
  - intros Ht Hi. by eapply (not_killed ms (mk_server (sv_pool s1) Draining)).
Qed.
End properties.

(** ** Witness: SIGTERM arrives in the middle of an update, SIGINT after it. *)
Section witnesses.
Import Concurrent.Demo.

#[local] Definition both : Handlers := mk_handlers true true true.
#[local] Definition update : HttpRequest := ControllerSys.http "PUT" "/v1/agents/agt_1/routes" "2" "A.internal".
#[local] Definition until_signal : list ServerMove := Runs <$>
  (Arrive (ControllerSys.world 2 [65] []) (ControllerSys.http "POST" "/v1/admin/enrollment-tokens" "secret" "")
  :: replicate 2 (Advance 0)
  ++ Arrive (ControllerSys.world 3 [49] [50]) (ControllerSys.http "POST" "/v1/agents/enroll" "A" "")
  :: replicate 5 (Advance 1)
  ++ Arrive (ControllerSys.world 4 [] []) update
  :: replicate 4 (Advance 2)).
#[local] Definition after_signal : list ServerMove :=
  [Runs (StartTick 5 5); Runs (Advance 2); Signal SigInt] ++ replicate 5 (Runs (Advance 2)) ++ [End_].
#[local] Definition served (ms : list ServerMove) (s : Server) : Server := default s (server_run both ms s).
#[local] Definition signalled : Server := served until_signal (server_start both ControllerSpec.st0).
#[local] Definition ended : Server := served (Signal SigTerm :: after_signal) signalled.
Lemma served_eq ms s : bool_decide (is_Some (server_run both ms s)) = true → server_run both ms s = Some (served ms s).
Proof. intros [q Hq]%bool_decide_eq_true. unfold served. by rewrite Hq. Qed.

Lemma graceful_shutdown_witness :
  sv_phase ended = Exited
  ∧ registry (pl_st (sv_pool signalled)) !! "a.internal" = None
  ∧ registry (pl_st (sv_pool ended)) !! "a.internal" = Some (mk_ipv4 100 64 0 1)
  ∧ ∃ tk x, pl_tasks (sv_pool ended) !! 2%nat = Some tk ∧ tk_request tk = Some update ∧ tk_thread tk = Ret x.
Proof.
  assert (sv_phase ended = Exited) as Hex by (vm_compute; reflexivity).
  split; [exact Hex|]. split; [vm_compute; reflexivity|]. split; [vm_compute; reflexivity|].
  assert (server_run both until_signal (server_start both ControllerSpec.st0) = Some signalled) as Hr1
    by (apply served_eq; vm_compute; reflexivity).
  assert (server_run both (Signal SigTerm :: after_signal) signalled = Some ended) as Hr
    by (apply served_eq; vm_compute; reflexivity).
  assert (sv_phase signalled = Serving) as Hph by (vm_compute; reflexivity).
  assert (SigTerm ∈ shutdown_signal both) as Hsg by (left; reflexivity).
  destruct (graceful_shutdown both ControllerSpec.st0 until_signal signalled SigTerm after_signal ended Hr1 Hph Hsg Hr)
    as (Hin & _ & _ & _).
  assert (tk_request <$> pl_tasks (sv_pool signalled) !! 2%nat = Some (Some update)) as Ht by (vm_compute; reflexivity).
  destruct (pl_tasks (sv_pool signalled) !! 2%nat) as [tk|] eqn:Htk; [|discriminate].
  injection Ht as Hreq. destruct (Hin 2%nat tk update Htk Hreq) as [_ [Hup|(tk' & Htk' & Hreq' & Hret)]].
  - exfalso. unfold after_signal in Hup. cbn [app replicate] in Hup.
    repeat (apply elem_of_cons in Hup as [Hup|Hup]; [discriminate|]). by apply elem_of_nil in Hup.
  - destruct (Hret Hex) as [x Hx]. exists tk', x. split; [exact Htk'|]. split; [exact Hreq' | exact Hx].
Defined.
End witnesses.
