(* ===== verification/Dns.v ===== *)
(** * The DNS server ([tailsvc-dns/src/server.rs])

    A request is handled on the response cache; what the resolver answers within
    the budget of a query, the readings of the clock and of the atomically
    swapped registry are given per question.  Requests that run at the same time
    are in [DnsConcurrent], the sockets and the restarts of the server are in [DnsProc]. *)
From S2P Require Import Prelude RustStr Net Externals Registry.
From Stdlib Require Import Ascii.
#[local] Open Scope Z_scope.

Record DnsServerConfig := mk_dns_server_config {
  ds_listen : SocketAddr; ds_upstreams : list SocketAddr; ds_service_ttl : Z;
  ds_upstream_timeout : Z; ds_positive_cache_max : Z; ds_negative_cache_max : Z;
  ds_query_timeout : Z;
}.
Definition seconds (s : Z) : Z := s * 1000000000.
(** [DnsServerConfig::with_defaults]; durations in nanoseconds. *)
Definition with_defaults (listen : SocketAddr) (upstreams : list SocketAddr)
    (service_ttl upstream_timeout : Z) : DnsServerConfig :=
  mk_dns_server_config listen upstreams service_ttl upstream_timeout (seconds 300) (seconds 30) (seconds 5).

(** ** The response cache *)

Record CacheEntry `{DnsName} := mk_cache_entry {
  ce_records : list DnsRecord; ce_rcode : ResponseCode; ce_expires : Z }.
Arguments mk_cache_entry {_} _ _ _.
Abbreviation ResponseCache := (gmap (string * RecordType) CacheEntry).

Section dns.
Context `{DnsName}.

Definition cache_get (name : string) (qtype : RecordType) (now : Z) (c : ResponseCache)
    : option CacheEntry * ResponseCache :=
  let key := (to_ascii_lowercase name, qtype) in
  match c !! key with
  | None => (None, c)
  | Some ent => if ce_expires ent <=? now then (None, delete key c) else (Some ent, c)
  end.

Definition cache_put (name : string) (qtype : RecordType) (records : list DnsRecord)
    (rcode : ResponseCode) (ttl now : Z) (c : ResponseCache) : ResponseCache :=
  if ttl =? 0 then c
  else <[(to_ascii_lowercase name, qtype) := mk_cache_entry records rcode (now + ttl)]> c.

(** ** Answering one question *)

(** What [resolver.lookup] returns. *)
Inductive LookupResult :=
| Found (records : list DnsRecord)
| NoRecordsFound
| LookupError (e : string).

(** The world during one question: the registry at [contains] and at
    [lookup_a], the clock at the cache's [get] and [put], and the upstream
    answer, [None] when the budget of the query ran out first. *)
Record QueryEnv := mk_env {
  env_registry : DnsRegistry; env_registry' : DnsRegistry;
  env_get : Z; env_put : Z; env_upstream : option LookupResult;
}.

Inductive QueryFailure := QueryFailed (e : string) | QueryTimeout.
Abbreviation CacheM := (SE ResponseCache QueryFailure).

(** [min] of the records' TTLs, as durations. *)
Definition min_ttl (records : list DnsRecord) : option Z :=
  match records with
  | [] => None
  | r :: rs => Some (foldl (λ m r, Z.min m (seconds (rr_ttl r))) (seconds (rr_ttl r)) rs)
  end.
Definition positive_ttl (cfg : DnsServerConfig) (records : list DnsRecord) : Z :=
  Z.min (default (ds_positive_cache_max cfg) (min_ttl records)) (ds_positive_cache_max cfg).

(** The part of [forward_query] after a miss. *)
Definition ask_upstream (cfg : DnsServerConfig) (q : Query) (env : QueryEnv)
    : CacheM (list DnsRecord * ResponseCode) :=
  let name_str := name_to_ascii (q_name q) in
  match env_upstream env with
  | None => throw QueryTimeout
  | Some (LookupError e) => throw (QueryFailed ("upstream lookup: " +:+ e))
  | Some NoRecordsFound =>
      _ ← modify (cache_put name_str (q_type q) [] NXDomain (ds_negative_cache_max cfg) (env_put env));
      mret ([], NXDomain)
  | Some (Found records) =>
      _ ← modify (cache_put name_str (q_type q) records NoError (positive_ttl cfg records) (env_put env));
      mret (records, NoError)
  end.
Definition forward_query (cfg : DnsServerConfig) (q : Query) (env : QueryEnv)
    : CacheM (list DnsRecord * ResponseCode) := λ c,
  let '(hit, c') := cache_get (name_to_ascii (q_name q)) (q_type q) (env_get env) c in
  match hit with
  | Some ent => (Ok (ce_records ent, ce_rcode ent), c')
  | None => ask_upstream cfg q env c'
  end.

Definition answer_query (cfg : DnsServerConfig) (q : Query) (env : QueryEnv)
    : CacheM (list DnsRecord * ResponseCode) :=
  let name := name_to_ascii (q_name q) in
  if contains (env_registry env) name then
    match q_type q with
    | TypeA =>
        ip ← lift (ok_or (lookup_a (env_registry' env) name) (QueryFailed "missing registry ip"));
        mret ([mk_record (q_name q) (ds_service_ttl cfg) (RDataA ip)], NoError)
    | TypeAAAA => mret ([], NoError)
    | TypeOther _ => forward_query cfg q env
    end
  else forward_query cfg q env.

(** ** A request *)

(** What the loop over the questions has gathered. *)
Record Gathered := mk_gathered {
  g_rcode : ResponseCode; g_answers : list DnsRecord; g_any_fail : bool; g_any_answer : bool }.

Definition gather (g : Gathered) (r : result QueryFailure (list DnsRecord * ResponseCode)) : Gathered :=
  match r with
  | Ok (records, rcode) =>
      mk_gathered
        (if negb (bool_decide (rcode = NoError)) && bool_decide (records = []) then rcode else g_rcode g)
        (g_answers g ++ records) (g_any_fail g)
        (g_any_answer g || negb (bool_decide (records = [])))
  | Err _ => mk_gathered (g_rcode g) (g_answers g) true (g_any_answer g)
  end.
Fixpoint answer_all (cfg : DnsServerConfig) (env : nat → QueryEnv) (i : nat) (qs : list Query)
    (g : Gathered) (c : ResponseCache) : Gathered * ResponseCache :=
  match qs with
  | [] => (g, c)
  | q :: qs' =>
      let '(r, c') := answer_query cfg q (env i) c in
      answer_all cfg env (S i) qs' (gather g r) c'
  end.

(** The response with the code and answers of its end. *)
Definition response_for (req : DnsRequest) (rcode : ResponseCode) (answers : list DnsRecord)
    : DnsResponse :=
  mk_response (rq_id req) (rq_op_code req) false (rq_recursion_desired req) true rcode
    (rq_queries req) answers.

Definition same_endpoint (a b : SocketAddr) : bool :=
  bool_decide (sa_ip a = sa_ip b) && (sa_port a =? sa_port b).

(** The refusals that break forwarding loops. *)
Definition loop_refusal (cfg : DnsServerConfig) (req : DnsRequest) (peer : option SocketAddr)
    (reg : DnsRegistry) : option ResponseCode :=
  match peer with
  | None => None
  | Some p =>
      if same_endpoint p (ds_listen cfg) then Some DnsRefused
      else if existsb (λ up, same_endpoint up (ds_listen cfg)) (ds_upstreams cfg)
           && existsb (λ q, negb (contains reg (name_to_ascii (q_name q)))) (rq_queries req)
      then Some ServFail else None
  end.

(** The response to a decoded request; [reg] is the registry the loop check
    reads. *)
Definition respond (cfg : DnsServerConfig) (req : DnsRequest) (peer : option SocketAddr)
    (reg : DnsRegistry) (env : nat → QueryEnv) (c : ResponseCache) : DnsResponse * ResponseCache :=
  match loop_refusal cfg req peer reg with
  | Some rcode => (response_for req rcode [], c)
  | None =>
      let '(g, c') := answer_all cfg env 0 (rq_queries req) (mk_gathered NoError [] false false) c in
      let rcode := if g_any_fail g && negb (g_any_answer g) then ServFail else g_rcode g in
      (response_for req rcode (g_answers g), c')
  end.

Context `{!DnsWire}.

Definition handle_request (cfg : DnsServerConfig) (wire : string) (peer : option SocketAddr)
    (reg : DnsRegistry) (env : nat → QueryEnv) : SE ResponseCache string string :=
  λ c,
  match message_from_bytes wire with
  | Err _ => (Err "decode dns", c)
  | Ok req => let '(resp, c') := respond cfg req peer reg env c in (message_to_bytes resp, c')
  end.

(** ** Transports *)

(** A datagram longer than the buffer is cut; an error sends nothing. *)
Definition serve_udp (cfg : DnsServerConfig) (datagram : string) (peer : SocketAddr)
    (reg : DnsRegistry) (env : nat → QueryEnv) (c : ResponseCache) : option string * ResponseCache :=
  let '(r, c') := handle_request cfg (String.substring 0 4096 datagram) (Some peer) reg env c in
  (ok r, c').

Definition be16 (n : Z) : string :=
  String (ascii_of_N (Z.to_N (n / 256))) (String (ascii_of_N (Z.to_N (n mod 256))) EmptyString).

(** The loop of [handle_tcp_conn] on the bytes the peer sends before it closes:
    the bytes written back.  Every turn reads at least two bytes, so as much
    fuel as bytes is enough. *)
Fixpoint tcp_loop (fuel : nat) (cfg : DnsServerConfig) (peer : SocketAddr) (reg : nat → DnsRegistry)
    (env : nat → nat → QueryEnv) (i : nat) (input : string) (c : ResponseCache)
    : string * ResponseCache :=
  match fuel, input with
  | S fuel', String a (String b rest) =>
      let len := byte a * 256 + byte b in
      if str_len rest <? len then (EmptyString, c)
      else
        let buf := String.substring 0 (Z.to_nat len) rest in
        match handle_request cfg buf (Some peer) (reg i) (env i) c with
        | (Err _, c') => (EmptyString, c')
        | (Ok resp, c') =>
            let out_len := be16 (as_u16 (str_len resp)) in
            let '(out, c'') := tcp_loop fuel' cfg peer reg env (S i)
              (drop_bytes (Z.to_nat len) rest) c' in
            (out_len +:+ resp +:+ out, c'')
        end
  | _, _ => (EmptyString, c)
  end.
Definition handle_tcp_conn (cfg : DnsServerConfig) (peer : SocketAddr) (reg : nat → DnsRegistry)
    (env : nat → nat → QueryEnv) (input : string) (c : ResponseCache) : string * ResponseCache :=
  tcp_loop (String.length input) cfg peer reg env 0 input c.
End dns.
