(* ===== verification/DnsSpec.v ===== *)
(** * What the DNS server promises

    Registered names are answered from the table alone, the code of a response
    follows from what its questions got, the cache answers for exactly its time,
    and a TCP connection gets its answers framed and in order. *)
From S2P Require Import Prelude RustStr Net Externals Registry Dns.
From Stdlib Require Import Ascii.
#[local] Open Scope Z_scope.

Section spec.
Context `{DnsName}.

(** The record of a registered A question; no record for another type. *)
Definition a_record (cfg : DnsServerConfig) (reg : DnsRegistry) (q : Query) : option DnsRecord :=
  match q_type q with
  | TypeA =>
      ip ← lookup_a reg (name_to_ascii (q_name q));
      Some (mk_record (q_name q) (ds_service_ttl cfg) (RDataA ip))
  | _ => None
  end.
Definition address_type (t : RecordType) : bool :=
  match t with TypeA | TypeAAAA => true | TypeOther _ => false end.

(** The results of the questions, one after the other on the cache. *)
Fixpoint results (cfg : DnsServerConfig) (env : nat → QueryEnv) (i : nat) (qs : list Query)
    (c : ResponseCache) : list (result QueryFailure (list DnsRecord * ResponseCode)) :=
  match qs with
  | [] => []
  | q :: qs' =>
      let '(r, c') := answer_query cfg q (env i) c in r :: results cfg env (S i) qs' c'
  end.

(** The records of the questions that were answered. *)
Definition all_records (rs : list (result QueryFailure (list DnsRecord * ResponseCode))) : list DnsRecord :=
  rs ≫= λ r, match r with Ok (records, _) => records | Err _ => [] end.

(** Entries hold records, or the absence of records. *)
Definition cache_ok (c : ResponseCache) : Prop :=
  ∀ k e, c !! k = Some e → ce_rcode e = NoError ∨ ce_rcode e = NXDomain ∧ ce_records e = [].
End spec.

(** ** Lemmas *)

Section lemmas.
Context `{DnsName}.

Lemma answer_registered cfg q env reg c ip :
  env_registry env = reg → env_registry' env = reg →
  lookup_a reg (name_to_ascii (q_name q)) = Some ip → address_type (q_type q) = true →
  answer_query cfg q env c = (Ok (option_list (a_record cfg reg q), NoError), c).
Proof.
  intros H1 H2 Hip Ht. unfold answer_query, a_record, contains. rewrite H1, H2, Hip.
  rewrite bool_decide_true by done. by destruct (q_type q).
Qed.

Lemma answer_all_registered cfg reg env i qs g c :
  (∀ j, env_registry (env j) = reg ∧ env_registry' (env j) = reg) →
  Forall (λ q, contains reg (name_to_ascii (q_name q)) = true ∧ address_type (q_type q) = true) qs →
  ∃ b, answer_all cfg env i qs g c =
    (mk_gathered (g_rcode g) (g_answers g ++ omap (a_record cfg reg) qs) (g_any_fail g) b, c).
Proof.
  intros Henv. revert i g. induction qs as [|q qs IH]; intros i g Hq; cbn [answer_all].
  { exists (g_any_answer g). cbn. rewrite app_nil_r. by destruct g. }
  inversion_clear Hq as [|? ? [Hc Ht] Hqs]. destruct (Henv i) as [H1 H2].
  apply bool_decide_eq_true in Hc as [ip Hip].
  rewrite (answer_registered cfg q (env i) reg c ip) by done.
  edestruct (IH (S i)) as [b Hb]; [done|]. exists b. rewrite Hb. cbn.
  by destruct (a_record cfg reg q); cbn; rewrite <- ?app_assoc, ?app_nil_r.
Qed.

Lemma cache_get_ok name t now c : cache_ok c → cache_ok (cache_get name t now c).2.
Proof.
  intros Hc. unfold cache_get. repeat case_match; cbn; [|done..].
  intros k e [_ ?]%lookup_delete_Some. eauto.
Qed.
Lemma cache_put_ok name t records rcode ttl now c :
  rcode = NoError ∨ rcode = NXDomain ∧ records = [] →
  cache_ok c → cache_ok (cache_put name t records rcode ttl now c).
Proof.
  intros Hr Hc. unfold cache_put. case_match; [done|].
  intros k e [[_ <-]|[_ ?]]%lookup_insert_Some; [done|]. eauto.
Qed.

Lemma forward_ok cfg q env c r c' : cache_ok c → forward_query cfg q env c = (r, c') →
  cache_ok c' ∧ ∀ records rcode, r = Ok (records, rcode) →
    rcode = NoError ∨ rcode = NXDomain ∧ records = [].
Proof.
  intros Hc. unfold forward_query.
  pose proof (cache_get_ok (name_to_ascii (q_name q)) (q_type q) (env_get env) c Hc) as Hg.
  destruct (cache_get _ _ _ c) as [[ent|] c1] eqn:He; cbn [snd] in Hg.
  - intros [= <- <-]. split; [done|]. intros ?? [= <- <-].
    unfold cache_get in He. destruct (c !! _) eqn:Hl; [|done]. case_match; [done|]. simplify_eq. eauto.
  - unfold ask_upstream. destruct (env_upstream env) as [[records| |e]|].
    + rewrite SE_bind_run. cbn. intros [= <- <-]. split; [apply cache_put_ok; auto|].
      intros ?? [= <- <-]. by left.
    + rewrite SE_bind_run. cbn. intros [= <- <-]. split; [apply cache_put_ok; auto|].
      intros ?? [= <- <-]. by right.
    + by intros [= <- <-].
    + by intros [= <- <-].
Qed.

Lemma answer_ok cfg q env c r c' : cache_ok c → answer_query cfg q env c = (r, c') →
  cache_ok c' ∧ ∀ records rcode, r = Ok (records, rcode) →
    rcode = NoError ∨ rcode = NXDomain ∧ records = [].
Proof.
  intros Hc. unfold answer_query. destruct (contains _ _); [|by apply forward_ok].
  destruct (q_type q); [| |by apply forward_ok].
  - rewrite SE_bind_run. cbn. destruct (lookup_a _ _); cbn; intros [= <- <-]; (split; [done|]).
    + intros ?? [= <- <-]. by left.
    + done.
  - cbn. intros [= <- <-]. split; [done|]. intros ?? [= <- <-]. by left.
Qed.

(** The loop is a fold over the results of the questions. *)
Lemma answer_all_results cfg env i qs g c :
  (answer_all cfg env i qs g c).1 = foldl gather g (results cfg env i qs c).
Proof.
  revert i g c. induction qs as [|q qs IH]; intros i g c; cbn [answer_all results]; [done|].
  destruct (answer_query cfg q (env i) c) as [r c']. cbn [foldl]. apply IH.
Qed.

Definition plain_result (r : result QueryFailure (list DnsRecord * ResponseCode)) : Prop :=
  ∀ records rcode, r = Ok (records, rcode) → rcode = NoError ∨ rcode = NXDomain ∧ records = [].

Lemma answer_all_ok cfg env i qs g c : cache_ok c →
  cache_ok (answer_all cfg env i qs g c).2 ∧ Forall plain_result (results cfg env i qs c).
Proof.
  revert i g c. induction qs as [|q qs IH]; intros i g c Hc; cbn [answer_all results]; [by split|].
  destruct (answer_query cfg q (env i) c) as [r c'] eqn:Ha.
  apply answer_ok in Ha as [Hc' Hr]; [|done].
  destruct (IH (S i) (gather g r) c' Hc') as [? ?]. split; [done|]. by constructor.
Qed.

Lemma gather_all rs g : Forall plain_result rs →
  let g' := foldl gather g rs in
  g_answers g' = g_answers g ++ all_records rs
  ∧ (g_any_fail g' = true ↔ g_any_fail g = true ∨ Exists (λ r, is_err r = true) rs)
  ∧ (g_any_answer g' = true ↔ g_any_answer g = true ∨ all_records rs ≠ [])
  ∧ (g_rcode g' = g_rcode g ∨ g_rcode g' = NXDomain ∧ Ok ([], NXDomain) ∈ rs)
  ∧ (Ok ([], NXDomain) ∈ rs → g_rcode g' = NXDomain).
Proof.
  revert g. induction rs as [|r rs IH]; intros g Hrs; cbn [foldl].
  { cbn. rewrite app_nil_r, Exists_nil. repeat split; try naive_solver.
    by intros ?%elem_of_nil. }
  inversion_clear Hrs as [|? ? Hr Hrs'].
  destruct (IH (gather g r) Hrs') as (Ha & Hf & Hb & Hc & Hn). cbv zeta. rewrite Ha, Hf, Hb.
  rewrite Exists_cons, !elem_of_cons. unfold all_records. cbn [mbind list_bind].
  fold (all_records rs).
  destruct r as [[records rcode]|e]; cbn [gather g_rcode g_answers g_any_fail g_any_answer] in *.
  - rewrite app_assoc. split; [done|]. split; [naive_solver|]. split.
    { rewrite orb_true_iff, negb_true_iff, bool_decide_eq_false. cbn.
      destruct records; cbn; [naive_solver|]. split; [right; done | naive_solver]. }
    destruct (Hr records rcode eq_refl) as [->|[-> ->]].
    + cbn in Hc. split; [naive_solver|]. intros [?|?]; [done|auto].
    + cbn in Hc. split; [naive_solver|]. intros _. destruct Hc as [?|[? _]]; done.
  - cbn. split; [done|]. split; [naive_solver|]. split; [done|].
    split; [naive_solver|]. intros [?|?]; [done|auto].
Qed.
End lemmas.

(** *** TTLs and bytes *)

Section more.
Context `{DnsName}.

Lemma min_ttl_le records r m : min_ttl records = Some m → r ∈ records → m <= seconds (rr_ttl r).
Proof.
  assert (∀ rs m0, foldl (λ m r, Z.min m (seconds (rr_ttl r))) m0 rs <= m0 ∧
    ∀ r, r ∈ rs → foldl (λ m r, Z.min m (seconds (rr_ttl r))) m0 rs <= seconds (rr_ttl r)) as Hf.
  { intros rs. induction rs as [|r0 rs IH]; intros m0; cbn [foldl].
    - split; [lia|]. by intros ? ?%elem_of_nil.
    - destruct (IH (Z.min m0 (seconds (rr_ttl r0)))) as [H1 H2]. split; [lia|].
      intros r' [->|?]%elem_of_cons; [lia|auto]. }
  destruct records as [|r0 rs]; [done|]. cbn [min_ttl]. intros [= <-].
  destruct (Hf rs (seconds (rr_ttl r0))) as [H1 H2]. intros [->|?]%elem_of_cons; [done|auto].
Qed.
Lemma positive_ttl_le cfg records :
  positive_ttl cfg records <= ds_positive_cache_max cfg
  ∧ ∀ r, r ∈ records → positive_ttl cfg records <= seconds (rr_ttl r).
Proof.
  unfold positive_ttl. split; [lia|]. intros r Hr.
  destruct (min_ttl records) as [m|] eqn:Hm; cbn; [|by destruct records; [apply elem_of_nil in Hr|]].
  pose proof (min_ttl_le _ _ _ Hm Hr). lia.
Qed.

Lemma cache_get_put name name' t records rcode ttl now now' c :
  ttl ≠ 0 → to_ascii_lowercase name' = to_ascii_lowercase name →
  let c' := cache_put name t records rcode ttl now c in
  cache_get name' t now' c' =
    (if now + ttl <=? now' then (None, delete (to_ascii_lowercase name', t) c')
     else (Some (mk_cache_entry records rcode (now + ttl)), c')).
Proof.
  intros Httl Hn. unfold cache_get, cache_put. rewrite (proj2 (Z.eqb_neq ttl 0)) by done.
  by rewrite Hn, lookup_insert_eq.
Qed.
End more.

Lemma byte_of_N n : 0 <= n < 256 → byte (ascii_of_N (Z.to_N n)) = n.
Proof. intros Hn. unfold byte. rewrite N_ascii_embedding by lia. lia. Qed.
Lemma be16_length n s : 0 <= n <= u16_max → ∃ a b, be16 n +:+ s = String a (String b s)
  ∧ byte a * 256 + byte b = n.
Proof.
  unfold u16_max. intros Hn. eexists _, _. split; [reflexivity|].
  assert (0 <= n / 256 < 256) by (split; [apply Z.div_pos; lia | apply Z.div_lt_upper_bound; lia]).
  pose proof (Z.mod_pos_bound n 256 ltac:(lia)).
  rewrite !byte_of_N by lia. pose proof (Z.div_mod n 256 ltac:(lia)). lia.
Qed.
Lemma take_app_str s t : String.substring 0 (String.length s) (s +:+ t) = s.
Proof. induction s as [|c s IH]; [by destruct t|]. rewrite sapp_cons. cbn. by rewrite IH. Qed.
Lemma drop_app_str s t : drop_bytes (String.length s) (s +:+ t) = t.
Proof. induction s as [|c s IH]; [by destruct t|]. rewrite sapp_cons. cbn. done. Qed.
Lemma length_app_str s t : String.length (s +:+ t) = (String.length s + String.length t)%nat.
Proof. induction s as [|c s IH]; [done|]. rewrite sapp_cons. cbn. by rewrite IH. Qed.

Section framing.
Context `{DnsWire}.

(** A message on a TCP stream: its length in two bytes, then its bytes. *)
Definition frame (s : string) : string := be16 (str_len s) +:+ s.
Definition frames (l : list string) : string := foldr (λ s k, frame s +:+ k) EmptyString l.

(** The messages of one connection, handled in order up to the first error. *)
Fixpoint serve_all (cfg : DnsServerConfig) (peer : SocketAddr) (reg : nat → DnsRegistry)
    (env : nat → nat → QueryEnv) (i : nat) (wires : list string) (c : ResponseCache)
    : list string * ResponseCache :=
  match wires with
  | [] => ([], c)
  | w :: wires' =>
      match handle_request cfg w (Some peer) (reg i) (env i) c with
      | (Err _, c') => ([], c')
      | (Ok resp, c') =>
          let '(out, c'') := serve_all cfg peer reg env (S i) wires' c' in (resp :: out, c'')
      end
  end.

Lemma handle_request_size `{!DnsWireLaws} cfg w peer reg env c r c' :
  handle_request cfg w peer reg env c = (Ok r, c') → str_len r <= u16_max.
Proof.
  unfold handle_request. destruct (message_from_bytes w); [|done].
  destruct (respond _ _ _ _ _ _). intros [= Hr _]. by eapply message_size.
Qed.

Lemma drop_bytes_length n s : (String.length (drop_bytes n s) <= String.length s)%nat.
Proof. revert s. induction n as [|n IH]; intros [|c s]; cbn; [lia..|]. specialize (IH s). lia. Qed.
Lemma tcp_loop_fuel cfg peer reg env fuel1 fuel2 i input c :
  (String.length input <= fuel1)%nat → (String.length input <= fuel2)%nat →
  tcp_loop fuel1 cfg peer reg env i input c = tcp_loop fuel2 cfg peer reg env i input c.
Proof.
  revert fuel2 i input c. induction fuel1 as [|fuel1 IH]; intros [|fuel2] i [|a [|b rest]] c; cbn [String.length];
    intros H1 H2; try done; try lia.
  cbn [tcp_loop]. cbv zeta. case_match; [done|].
  destruct (handle_request _ _ _ _ _ c) as [[resp|e] c']; [|done].
  pose proof (drop_bytes_length (Z.to_nat (byte a * 256 + byte b)) rest).
  by rewrite (IH fuel2) by lia.
Qed.

Lemma tcp_loop_frames `{!DnsWireLaws} cfg peer reg env fuel i wires c :
  Forall (λ w, str_len w <= u16_max) wires → (String.length (frames wires) <= fuel)%nat →
  tcp_loop fuel cfg peer reg env i (frames wires) c =
  let '(out, c') := serve_all cfg peer reg env i wires c in (frames out, c').
Proof.
  revert fuel i c. induction wires as [|w wires IH]; intros fuel i c Hw Hfuel.
  { by destruct fuel. }
  inversion_clear Hw as [|? ? Hw1 Hw2].
  pose proof (str_len_nonneg w).
  change (frames (w :: wires)) with ((be16 (str_len w) +:+ w) +:+ frames wires) in *.
  rewrite <- sapp_assoc in Hfuel |- *.
  destruct (be16_length (str_len w) (w +:+ frames wires)) as (a & b & Hab & Hlen); [lia|].
  rewrite Hab in *. cbn [String.length] in Hfuel. destruct fuel as [|fuel]; [lia|].
  cbn [tcp_loop serve_all]. cbv zeta. rewrite Hlen.
  rewrite (proj2 (Z.ltb_ge _ _)).
  2: { rewrite str_len_app. pose proof (str_len_nonneg (frames wires)). lia. }
  rewrite !str_len_length, !Nat2Z.id, take_app_str, drop_app_str.
  destruct (handle_request cfg w (Some peer) (reg i) (env i) c) as [[resp|e] c'] eqn:Hr; [|done].
  rewrite length_app_str in Hfuel. rewrite IH; [|done|lia].
  destruct (serve_all cfg peer reg env (S i) wires c') as [out c''].
  change (frames (resp :: out)) with ((be16 (str_len resp) +:+ resp) +:+ frames out).
  rewrite as_u16_id; [by rewrite <- sapp_assoc|].
  apply handle_request_size in Hr. pose proof (str_len_nonneg resp). unfold in_u16. lia.
Qed.
End framing.

(** ** Properties *)

Section properties.
Context `{DnsName}.


(** C23: every response repeats the id, the code of the operation, the questions
    and the recursion-desired bit.  Unless a forwarding loop is refused, its
    records are those of the questions that were answered, SERVFAIL means exactly
    that some question failed and none gave a record, and NXDOMAIN is never made
    up: it means that some question's lookup, now or cached, found no records,
    and that SERVFAIL does not apply. *)
Theorem response_follows_results cfg req peer reg env c :
  cache_ok c →
  let '(resp, c') := respond cfg req peer reg env c in
  let rs := results cfg env 0 (rq_queries req) c in
  let failed := Exists (λ r, is_err r = true) rs ∧ all_records rs = [] in
  (rs_id resp, rs_op_code resp, rs_queries resp, rs_recursion_desired resp)
    = (rq_id req, rq_op_code req, rq_queries req, rq_recursion_desired req)
  ∧ cache_ok c'
  ∧ match loop_refusal cfg req peer reg with
    | Some rcode => rs_rcode resp = rcode ∧ rs_answers resp = [] ∧ c' = c
    | None => rs_answers resp = all_records rs
        ∧ (rs_rcode resp = ServFail ↔ failed)
        ∧ (rs_rcode resp = NXDomain ↔ ¬ failed ∧ Ok ([], NXDomain) ∈ rs)
    end.
Proof.
  intros Hc. unfold respond. destruct (loop_refusal cfg req peer reg) as [rcode|]; [done|].
  destruct (answer_all_ok cfg env 0 (rq_queries req) (mk_gathered NoError [] false false) c Hc) as [Hc' Hrs].
  pose proof (answer_all_results cfg env 0 (rq_queries req) (mk_gathered NoError [] false false) c) as Hg.
  destruct (answer_all _ _ _ _ _ _) as [g c']. cbn [fst snd] in *.
  destruct (gather_all _ (mk_gathered NoError [] false false) Hrs) as (Ha & Hf & Hb & Hr & Hn).
  rewrite <- Hg in *. cbn [g_answers g_any_fail g_any_answer g_rcode app] in *.
  split; [done|]. split; [done|]. cbn [rs_answers rs_rcode response_for]. split; [done|].
  assert (g_any_fail g && negb (g_any_answer g) = true ↔
    Exists (λ r, is_err r = true) (results cfg env 0 (rq_queries req) c)
    ∧ all_records (results cfg env 0 (rq_queries req) c) = []) as Hfail.
  { rewrite andb_true_iff, negb_true_iff, <- not_true_iff_false, Hf, Hb.
    split; [intros [[?|?] Hx]; [done|]; split; [done|]; apply dec_stable; naive_solver | naive_solver]. }
  destruct (g_any_fail g && negb (g_any_answer g)).
  - naive_solver.
  - split; [split|].
    + intros Hs. destruct Hr as [Hr|[Hr _]]; congruence.
    + intros ?%Hfail. done.
    + split; [|by intros [_ ?]; apply Hn]. intros Hs. split; [by intros ?%Hfail|].
      destruct Hr as [Hr|[_ ?]]; [congruence|done].
Qed.


(** C27: a TCP connection is served to its end: every turn of the loop consumes at
    least the two bytes of a length, so as many turns as the peer sent bytes, or
    any greater number, give the same answers, whatever the lengths claim; and
    every request, framed by its length, gets its answer framed the same way, in
    order, until the first request that cannot be handled. *)
Theorem tcp_connection_served `{!DnsWire} `{!DnsWireLaws} cfg peer reg env c :
  (∀ input fuel, (String.length input <= fuel)%nat →
     tcp_loop fuel cfg peer reg env 0 input c = handle_tcp_conn cfg peer reg env input c)
  ∧ ∀ wires, Forall (λ w, str_len w <= u16_max) wires →
      handle_tcp_conn cfg peer reg env (frames wires) c =
      let '(out, c') := serve_all cfg peer reg env 0 wires c in (frames out, c').
Proof. split; intros; [by apply tcp_loop_fuel | by apply tcp_loop_frames]. Qed.
End properties.

(** ** Witnesses: names are strings, messages one question in clear. *)
Section witnesses.
#[local] Instance str_name : DnsName := {| Name := string; name_to_ascii s := s |}.
#[local] Instance toy_wire : DnsWire := {|
  message_from_bytes s := Ok (mk_request 7 0 true [mk_query (s : @Name str_name) TypeA]);
  message_to_bytes r := Ok (match rs_answers r with [] => "none" | _ => "some" end) |}.
#[local] Instance toy_wire_laws : DnsWireLaws.
Proof. intros r s [= <-]. destruct (rs_answers r); unfold u16_max; cbn; lia. Qed.

#[local] Definition here (p : Z) : SocketAddr := mk_addr (V4 (mk_ipv4 127 0 0 1)) p.
#[local] Definition server : DnsServerConfig := with_defaults (here 53) [here 54] 5 2000.
#[local] Definition table : DnsRegistry := {[ "a.internal" := mk_ipv4 100 64 0 1 ]}.
#[local] Definition ask (n : string) (t : RecordType) : Query := mk_query (n : @Name str_name) t.
#[local] Definition env_at (t : Z) (up : option LookupResult) : QueryEnv := mk_env table table t t up.


Lemma response_follows_results_witness :
  rs_rcode (respond server (mk_request 7 0 true [ask "b.org." TypeA]) (Some (here 99)) table
    (λ _, env_at 0 None) ∅).1 = ServFail.
Proof.
  pose proof (response_follows_results server (mk_request 7 0 true [ask "b.org." TypeA]) (Some (here 99))
    table (λ _, env_at 0 None) ∅) as Hr.
  destruct (respond _ _ _ _ _ _) as [resp c']. cbn [fst].
  assert (cache_ok ∅) as Hc by (intros k e He; by rewrite lookup_empty in He).
  destruct (Hr Hc) as (_ & _ & Hl). cbn in Hl. apply Hl. split; [|reflexivity].
  by constructor.
Defined.

#[local] Definition found : option LookupResult :=
  Some (Found [mk_record ("b.org." : @Name str_name) 60 (RDataOther "x")]).

(** Cut off in the second request; and served with more turns than bytes. *)
Lemma tcp_connection_served_witness :
  (handle_tcp_conn server (here 99) (λ _, table) (λ _ _, env_at 0 None)
    (frames ["a.internal"; "b.org"]) ∅).1 = frames ["some"; "none"]
  ∧ let input := frames ["a.internal"] +:+ String "000" (String "009" "x") in
    tcp_loop 1000 server (here 99) (λ _, table) (λ _ _, env_at 0 None) 0 input ∅
    = (String "000" (String "004" "some"), ∅).
Proof.
  destruct (tcp_connection_served server (here 99) (λ _, table) (λ _ _, env_at 0 None) ∅) as [Hfuel Hframes].
  split.
  - rewrite Hframes; [vm_compute; reflexivity|].
    rewrite !Forall_cons, Forall_nil. unfold u16_max. cbn. repeat split; lia.
  - intros input. rewrite (Hfuel input 1000%nat) by (vm_compute; lia). vm_compute. reflexivity.
Defined.
End witnesses.
