(* ===== verification/DnsConcurrent.v ===== *)
(** * DNS requests that run at the same time ([tailsvc-dns/src/server.rs])

    [serve_udp] and [serve_tcp] spawn a task for every request or connection; the
    tasks share the registry, which the controller swaps, and the response cache,
    behind its mutex.  A question is answered in the steps between which other
    tasks run: the look at the registry, the address in it, the cache, the answer
    of the resolver or the end of the question's time, and the write to the cache.
    [query_alone] relates the steps to [answer_query] of [Dns]. *)
From S2P Require Import Prelude RustStr Net Externals Registry Dns.
#[local] Open Scope Z_scope.

Section concurrent.
Context `{DnsName}.
Context (cfg : DnsServerConfig).

Record Shared := mk_shared { sh_registry : DnsRegistry; sh_cache : ResponseCache }.

(** ** One question *)

(** Where [answer_query] is.  At [QAsking] the resolver is awaited; [QStore] has
    its answer and the lifetime it gets in the cache. *)
Inductive QState :=
| QCheck
| QResolve
| QCached
| QAsking
| QStore (records : list DnsRecord) (rcode : ResponseCode) (ttl : Z)
| QDone (r : result QueryFailure (list DnsRecord * ResponseCode)).
(** It runs on at an instant, the resolver answers, [query_timeout] is over. *)
Inductive QEvent := QRun (now : Z) | QUpstream (r : LookupResult) | QTimeout.

(** What [forward_query] makes of the resolver's answer. *)
Definition upstream_outcome (r : LookupResult) : option (list DnsRecord * ResponseCode * Z) :=
  match r with
  | LookupError _ => None
  | NoRecordsFound => Some ([], NXDomain, ds_negative_cache_max cfg)
  | Found records => Some (records, NoError, positive_ttl cfg records)
  end.
Definition table_record (q : Query) (ip : Ipv4Addr) : DnsRecord :=
  mk_record (q_name q) (ds_service_ttl cfg) (RDataA ip).

Definition query_step (q : Query) (s : QState) (e : QEvent) (sh : Shared) : option (QState * Shared) :=
  let name := name_to_ascii (q_name q) in
  match s, e with
  | QCheck, QRun _ =>
      Some (if contains (sh_registry sh) name then
              match q_type q with
              | TypeA => QResolve
              | TypeAAAA => QDone (Ok ([], NoError))
              | TypeOther _ => QCached
              end
            else QCached, sh)
  | QResolve, QRun _ =>
      Some (QDone match lookup_a (sh_registry sh) name with
                  | Some ip => Ok ([table_record q ip], NoError)
                  | None => Err (QueryFailed "missing registry ip")
                  end, sh)
  | QCached, QRun now =>
      let '(hit, c) := cache_get name (q_type q) now (sh_cache sh) in
      Some (match hit with Some ent => QDone (Ok (ce_records ent, ce_rcode ent)) | None => QAsking end,
            mk_shared (sh_registry sh) c)
  | QAsking, QUpstream r =>
      Some (match upstream_outcome r, r with
            | Some (records, rcode, ttl), _ => QStore records rcode ttl
            | None, LookupError e => QDone (Err (QueryFailed ("upstream lookup: " +:+ e)))
            | None, _ => QAsking
            end, sh)
  | QAsking, QTimeout => Some (QDone (Err QueryTimeout), sh)
  | QStore records rcode ttl, QRun now =>
      Some (QDone (Ok (records, rcode)),
            mk_shared (sh_registry sh) (cache_put name (q_type q) records rcode ttl now (sh_cache sh)))
  | _, _ => None
  end.
Fixpoint query_run (q : Query) (es : list QEvent) (s : QState * Shared) : option (QState * Shared) :=
  match es with
  | [] => Some s
  | e :: es' => s' ← query_step q s.1 e s.2; query_run q es' s'
  end.

(** Without interruption a question is answered as [answer_query] does. *)
Lemma query_alone q env c r c' :
  env_registry' env = env_registry env → answer_query cfg q env c = (r, c') →
  ∃ es, query_run q es (QCheck, mk_shared (env_registry env) c) = Some (QDone r, mk_shared (env_registry env) c').
Proof.
  intros Hreg. unfold answer_query. rewrite Hreg.
  set (reg := env_registry env). set (name := name_to_ascii (q_name q)).
  assert (∀ sh, forward_query cfg q env (sh_cache sh) = (r, c') →
    ∃ es, query_run q es (QCached, sh) = Some (QDone r, mk_shared (sh_registry sh) c')) as Hfwd.
  { intros sh. unfold forward_query. fold name. destruct (cache_get name (q_type q) (env_get env) (sh_cache sh)) as [hit c1] eqn:Hg.
    destruct hit as [ent|].
    - intros [= <- <-]. exists [QRun (env_get env)]. cbn. fold name. by rewrite Hg.
    - intros Hask. unfold ask_upstream in Hask. fold name in Hask. destruct (env_upstream env) as [res|].
      2: { injection Hask as <- <-. exists [QRun (env_get env); QTimeout]. cbn. fold name. by rewrite Hg. }
      exists ([QRun (env_get env); QUpstream res] ++ match upstream_outcome res with Some _ => [QRun (env_put env)] | None => [] end).
      cbn. fold name. rewrite Hg. cbn. destruct res as [records| |e]; cbn in *; by injection Hask as <- <-. }
  destruct (contains reg name) eqn:Hc.
  - destruct (q_type q) as [| |n] eqn:Ht.
    + intros Hr. exists [QRun 0; QRun 0]. cbn. fold name. rewrite Hc. cbn. fold name. rewrite Ht. cbn. fold name reg.
      unfold table_record. destruct (lookup_a reg name) as [ip|]; cbn in Hr; by injection Hr as <- <-.
    + intros [= <- <-]. exists [QRun 0]. cbn. fold name. by rewrite Hc, Ht.
    + intros Hr. destruct (Hfwd (mk_shared reg c) Hr) as [es Hes]. exists (QRun 0 :: es). cbn. fold name.
      by rewrite Hc, Ht.
  - intros Hr. destruct (Hfwd (mk_shared reg c) Hr) as [es Hes]. exists (QRun 0 :: es). cbn. fold name. by rewrite Hc.
Qed.

(** ** Requests *)

(** Before the loop check; at a question, with those after it and what was
    gathered before it; answered. *)
Inductive RequestTask :=
| Decoded (req : DnsRequest) (peer : option SocketAddr)
| Asking (req : DnsRequest) (q : Query) (s : QState) (rest : list Query) (g : Gathered)
| Replied (req : DnsRequest) (resp : DnsResponse).

Definition next_question (req : DnsRequest) (qs : list Query) (g : Gathered) : RequestTask :=
  match qs with
  | q :: rest => Asking req q QCheck rest g
  | [] => Replied req (response_for req (if g_any_fail g && negb (g_any_answer g) then ServFail else g_rcode g) (g_answers g))
  end.
Definition dns_step (t : RequestTask) (e : QEvent) (sh : Shared) : option (RequestTask * Shared) :=
  match t with
  | Decoded req peer =>
      match e with
      | QRun _ =>
          Some (match loop_refusal cfg req peer (sh_registry sh) with
                | Some rcode => Replied req (response_for req rcode [])
                | None => next_question req (rq_queries req) (mk_gathered NoError [] false false)
                end, sh)
      | _ => None
      end
  | Asking req q s rest g =>
      x ← query_step q s e sh;
      Some (match x.1 with QDone r => next_question req rest (gather g r) | s' => Asking req q s' rest g end, x.2)
  | Replied _ _ => None
  end.

(** The steps a request has left at most: four for a question, however the
    resolver behaves. *)
Definition question_steps (s : QState) : nat :=
  match s with QCheck => 4 | QCached => 3 | QAsking => 2 | QResolve | QStore _ _ _ => 1 | QDone _ => 0 end.
Definition steps_left (t : RequestTask) : nat :=
  match t with
  | Decoded req _ => 1 + 4 * length (rq_queries req)
  | Asking _ _ s rest _ => question_steps s + 4 * length rest
  | Replied _ _ => 0
  end.
Lemma next_question_steps req qs g : steps_left (next_question req qs g) = (4 * length qs)%nat.
Proof. destruct qs; cbn; lia. Qed.
Lemma query_step_decreases q s e sh s' sh' : query_step q s e sh = Some (s', sh') → (question_steps s' < question_steps s)%nat.
Proof.
  unfold query_step. destruct s as [| | | |rs rc ttl|o], e as [now|r|]; try done.
  - intros [= <- _]. repeat case_match; cbn; lia.
  - intros [= <- _]. cbn. lia.
  - destruct (cache_get _ _ _ _) as [[ent|] c]; intros [= <- _]; cbn; lia.
  - intros [= <- _]. destruct r; cbn; lia.
  - intros [= <- _]. cbn. lia.
  - intros [= <- _]. cbn. lia.
Qed.
Lemma dns_step_decreases t e sh t' sh' : dns_step t e sh = Some (t', sh') → (steps_left t' < steps_left t)%nat.
Proof.
  destruct t as [req peer|req q s rest g|req resp]; cbn [dns_step]; [| |done].
  - destruct e; try done. intros [= <- _]. destruct (loop_refusal _ _ _ _); [cbn; lia|].
    rewrite next_question_steps. cbn. lia.
  - intros ([s' sh1] & Hq%query_step_decreases & [= <- _])%bind_Some. cbn [fst].
    destruct s'; try (cbn in *; lia). rewrite next_question_steps. cbn. lia.
Qed.
(** No request writes the table. *)
Lemma query_step_table q s e sh s' sh' : query_step q s e sh = Some (s', sh') → sh_registry sh' = sh_registry sh.
Proof.
  unfold query_step. destruct s as [| | | |rs rc ttl|o], e as [now|r|]; try done; try by intros [= _ <-].
  by destruct (cache_get _ _ _ _); intros [= _ <-].
Qed.
Lemma dns_step_table t e sh t' sh' : dns_step t e sh = Some (t', sh') → sh_registry sh' = sh_registry sh.
Proof.
  destruct t as [req peer|req q s rest g|req resp]; cbn [dns_step]; [by destruct e; intros [= _ <-]| |done].
  by intros ([s' sh1] & Hq%query_step_table & [= _ <-])%bind_Some.
Qed.
(** Some step is possible, without the resolver, until the reply. *)
Lemma dns_step_possible t sh : (0 < steps_left t)%nat → match t with Asking _ _ (QDone _) _ _ => False | _ => True end →
  ∃ e x, dns_step t e sh = Some x.
Proof.
  destruct t as [req peer|req q s rest g|req resp]; intros Hn Hlive;
    [by exists (QRun 0); eexists| |cbn in Hn; lia].
  destruct s; try done;
    try (exists (QRun 0); cbn [dns_step query_step]; try destruct (cache_get _ _ _ _); by eexists).
  exists QTimeout. by eexists.
Qed.

(** ** The server among its requests *)

Record DnsPool := mk_dns_pool { dp_shared : Shared; dp_tasks : gmap nat RequestTask; dp_next : nat }.
(** A request is decoded, task [i] takes a step, the controller swaps its table in,
    the task of a connection is dropped. *)
Inductive DnsMove :=
| Receive (req : DnsRequest) (peer : option SocketAddr)
| Step (i : nat) (e : QEvent)
| Swap (reg : DnsRegistry)
| Drop_ (i : nat).
Definition dns_pool_step (p : DnsPool) (m : DnsMove) : option DnsPool :=
  match m with
  | Receive req peer =>
      Some (mk_dns_pool (dp_shared p) (<[dp_next p := Decoded req peer]> (dp_tasks p)) (S (dp_next p)))
  | Step i e =>
      t ← dp_tasks p !! i;
      x ← dns_step t e (dp_shared p);
      Some (mk_dns_pool x.2 (<[i := x.1]> (dp_tasks p)) (dp_next p))
  | Swap reg => Some (mk_dns_pool (mk_shared (replace reg (sh_registry (dp_shared p))) (sh_cache (dp_shared p))) (dp_tasks p) (dp_next p))
  | Drop_ i => Some (mk_dns_pool (dp_shared p) (delete i (dp_tasks p)) (dp_next p))
  end.
Fixpoint dns_pool_run (ms : list DnsMove) (p : DnsPool) : option DnsPool :=
  match ms with
  | [] => Some p
  | m :: ms' => p' ← dns_pool_step p m; dns_pool_run ms' p'
  end.
Definition dns_pool_start (reg : DnsRegistry) : DnsPool := mk_dns_pool (mk_shared reg ∅) ∅ 0.
Lemma dns_pool_run_app ms ms' p : dns_pool_run (ms ++ ms') p = (dns_pool_run ms p ≫= dns_pool_run ms').
Proof.
  revert p. induction ms as [|m ms IH]; intros p; [done|]. cbn [app dns_pool_run].
  destruct (dns_pool_step p m); [apply IH | done].
Qed.

(** ** Where answers come from *)

Section runs.
Context (reg0 : DnsRegistry).
#[local] Abbreviation start := (dns_pool_start reg0).

(** At some moment of the run, of which task [i] had begun, the state is [p]. *)
Definition moment (ms : list DnsMove) (i : nat) (p : DnsPool) : Prop :=
  ∃ ms1 ms2, ms = ms1 ++ ms2 ∧ dns_pool_run ms1 start = Some p ∧ is_Some (dp_tasks p !! i).
(** The resolver gave task [j] the answer [r] to the question [q]. *)
Definition was_told (ms : list DnsMove) (j : nat) (q : Query) (r : LookupResult) : Prop :=
  ∃ ms1 ms2 p req rest g, ms = ms1 ++ Step j (QUpstream r) :: ms2 ∧ dns_pool_run ms1 start = Some p
    ∧ dp_tasks p !! j = Some (Asking req q QAsking rest g).
Definition cache_key (q : Query) : string * RecordType := (to_ascii_lowercase (name_to_ascii (q_name q)), q_type q).
(** The resolver gave the records and the code for the question, to task [i]
    itself or to one that stored them at an instant from which on they were to
    live longer than until task [i] looked them up. *)
Definition from_upstream (ms : list DnsMove) (i : nat) (q : Query) (records : list DnsRecord) (rcode : ResponseCode) : Prop :=
  ∃ j q' r ttl, was_told ms j q' r ∧ cache_key q' = cache_key q ∧ upstream_outcome r = Some (records, rcode, ttl)
    ∧ (j = i ∨ ∃ t t', Step j (QRun t) ∈ ms ∧ Step i (QRun t') ∈ ms ∧ t' < t + ttl).
Definition from_table (ms : list DnsMove) (i : nat) (q : Query) (ip : Ipv4Addr) : Prop :=
  q_type q = TypeA ∧ ∃ p, moment ms i p ∧ lookup_a (sh_registry (dp_shared p)) (name_to_ascii (q_name q)) = Some ip.

Definition came (ms : list DnsMove) (i : nat) (q : Query) (records : list DnsRecord) (rcode : ResponseCode) : Prop :=
  from_upstream ms i q records rcode
  ∨ rcode = NoError ∧ (records = [] ∨ ∃ ip, from_table ms i q ip ∧ records = [table_record q ip]).
Definition qstate_known (ms : list DnsMove) (i : nat) (q : Query) (s : QState) : Prop :=
  match s with
  | QResolve => q_type q = TypeA
  | QStore records rcode ttl => ∃ r, was_told ms i q r ∧ upstream_outcome r = Some (records, rcode, ttl)
  | QDone (Ok (records, rcode)) => came ms i q records rcode
  | _ => True
  end.
(** What the answers gathered for a request come from, and its code. *)
Definition gathered_known (ms : list DnsMove) (i : nat) (req : DnsRequest) (rcode : ResponseCode) (answers : list DnsRecord) : Prop :=
  (∀ rr, rr ∈ answers → ∃ q, q ∈ rq_queries req
     ∧ ((∃ ip, from_table ms i q ip ∧ rr = table_record q ip)
        ∨ ∃ records rc, from_upstream ms i q records rc ∧ rr ∈ records))
  ∧ (rcode = NXDomain → ∃ q, q ∈ rq_queries req ∧ from_upstream ms i q [] NXDomain).
Definition dns_task_known (ms : list DnsMove) (i : nat) (t : RequestTask) : Prop :=
  match t with
  | Decoded _ _ => True
  | Asking req q s rest g =>
      match s with QDone _ => False | _ => True end
      ∧ q ∈ rq_queries req ∧ Forall (λ q', q' ∈ rq_queries req) rest
      ∧ qstate_known ms i q s ∧ gathered_known ms i req (g_rcode g) (g_answers g)
  | Replied req resp => gathered_known ms i req (rs_rcode resp) (rs_answers resp)
  end.
Definition cache_known (ms : list DnsMove) (c : ResponseCache) : Prop :=
  ∀ k ent, c !! k = Some ent → ∃ j q r ttl t, was_told ms j q r ∧ cache_key q = k
    ∧ upstream_outcome r = Some (ce_records ent, ce_rcode ent, ttl)
    ∧ Step j (QRun t) ∈ ms ∧ ce_expires ent = t + ttl.
Definition dns_pool_known (ms : list DnsMove) (p : DnsPool) : Prop :=
  (∀ i t, dp_tasks p !! i = Some t → dns_task_known ms i t) ∧ cache_known ms (sh_cache (dp_shared p)).

(** All of it stays known as the run goes on. *)
Lemma moment_later ms ms' i p : moment ms i p → moment (ms ++ ms') i p.
Proof. intros (a & b & -> & Hp & Hi). exists a, (b ++ ms'). by rewrite <- app_assoc. Qed.
Lemma was_told_later ms ms' j q r : was_told ms j q r → was_told (ms ++ ms') j q r.
Proof.
  intros (a & b & p & req & rest & g & -> & Hp & Hj). exists a, (b ++ ms'), p, req, rest, g.
  by rewrite <- app_assoc, <- app_comm_cons.
Qed.
Lemma from_upstream_later ms ms' i q records rcode : from_upstream ms i q records rcode → from_upstream (ms ++ ms') i q records rcode.
Proof.
  intros (j & q' & r & ttl & Hw & Hk & Ho & Hj). exists j, q', r, ttl. split; [by apply was_told_later|].
  split; [done|]. split; [done|]. destruct Hj as [?|(t & t' & ? & ? & ?)]; [by left | right].
  exists t, t'. rewrite !elem_of_app. by repeat split; try left.
Qed.
Lemma from_table_later ms ms' i q ip : from_table ms i q ip → from_table (ms ++ ms') i q ip.
Proof. intros [Ht (p & Hm & Hl)]. split; [done|]. exists p. split; [by apply moment_later | done]. Qed.
Lemma gathered_later ms ms' i req rcode answers : gathered_known ms i req rcode answers → gathered_known (ms ++ ms') i req rcode answers.
Proof.
  intros [Ha Hn]. split.
  - intros rr (q & Hq & Hrr)%Ha. exists q. split; [done|].
    destruct Hrr as [(ip & ? & ?)|(rs & rc & ? & ?)]; [left | right].
    + exists ip. split; [by apply from_table_later | done].
    + exists rs, rc. split; [by apply from_upstream_later | done].
  - intros (q & ? & ?)%Hn. exists q. split; [done | by apply from_upstream_later].
Qed.
Lemma dns_task_later ms ms' i t : dns_task_known ms i t → dns_task_known (ms ++ ms') i t.
Proof.
  destruct t as [req peer|req q s rest g|req resp]; cbn [dns_task_known]; [done| |apply gathered_later].
  intros (Hlive & Hq & Hrest & Hs & Hg). split; [done|]. split; [done|]. split; [done|]. split; [|by apply gathered_later].
  destruct s as [| | | |records rcode ttl|r]; cbn [qstate_known] in *; try done.
  destruct Hs as (r & ? & ?). exists r. split; [by apply was_told_later | done].
Qed.
Lemma cache_later ms ms' c : cache_known ms c → cache_known (ms ++ ms') c.
Proof.
  intros Hc k ent (j & q & r & ttl & t & ? & ? & ? & ? & ?)%Hc. exists j, q, r, ttl, t.
  split; [by apply was_told_later|]. split; [done|]. split; [done|]. split; [|done]. apply elem_of_app. by left.
Qed.

(** One step of a question. *)
Lemma cache_get_known ms name ty now c : cache_known ms c → cache_known ms (cache_get name ty now c).2.
Proof.
  intros Hc. unfold cache_get. destruct (c !! _); [|done]. destruct (_ <=? now); [|done].
  cbn [snd]. intros k ent [_ Hl]%lookup_delete_Some. by apply Hc.
Qed.
Lemma cache_hit_known ms i q now c ent c' :
  cache_known ms c → Step i (QRun now) ∈ ms →
  cache_get (name_to_ascii (q_name q)) (q_type q) now c = (Some ent, c') → came ms i q (ce_records ent) (ce_rcode ent).
Proof.
  intros Hc Hin. unfold cache_get. destruct (c !! _) as [x|] eqn:Hl; [|done].
  destruct (Z.leb_spec (ce_expires x) now) as [?|Hlt]; [done|]. intros [= -> _].
  destruct (Hc _ _ Hl) as (j & q' & r & ttl & t & Hw & Hk & Ho & Ht & Hx). left. exists j, q', r, ttl.
  split; [done|]. split; [exact Hk|]. split; [done|]. right. exists t, now. split; [done|]. split; [done | lia].
Qed.
Lemma query_step_known ms i p req q s rest g e s' sh' :
  dns_pool_run ms start = Some p → dp_tasks p !! i = Some (Asking req q s rest g) →
  cache_known ms (sh_cache (dp_shared p)) → qstate_known ms i q s →
  query_step q s e (dp_shared p) = Some (s', sh') →
  qstate_known (ms ++ [Step i e]) i q s' ∧ cache_known (ms ++ [Step i e]) (sh_cache sh').
Proof.
  intros Hp Hi Hc Hs Hstep. set (ms' := ms ++ [Step i e]).
  assert (cache_known ms' (sh_cache (dp_shared p))) as Hc' by (by apply cache_later).
  assert (Step i e ∈ ms') as Hin by (apply elem_of_app; right; by left).
  destruct s as [| | | |records rcode ttl|r], e as [now|r'|]; try done; cbn [query_step] in Hstep.
  - injection Hstep as <- <-. split; [|done]. destruct (contains _ _); [|done]. destruct (q_type q) eqn:Ht; [exact Ht| |done].
    cbn [qstate_known]. right. split; [done | by left].
  - injection Hstep as <- <-. split; [|done]. destruct (lookup_a _ _) as [ip|] eqn:Hl; [|done].
    cbn [qstate_known]. right. split; [done|]. right. exists ip. split; [|done]. split; [done|]. exists p. split; [|done].
    exists ms, [Step i (QRun now)]. by rewrite Hi.
  - destruct (cache_get _ _ _ _) as [hit c1] eqn:Hg. injection Hstep as <- <-. cbn [sh_cache].
    split.
    + destruct hit as [ent|]; [|done]. by eapply cache_hit_known.
    + pose proof (cache_get_known ms' (name_to_ascii (q_name q)) (q_type q) now _ Hc') as Hk. by rewrite Hg in Hk.
  - injection Hstep as <- <-. split; [|done].
    assert (was_told ms' i q r') as Hw by (by exists ms, [], p, req, rest, g).
    destruct (upstream_outcome r') as [[[records rcode] ttl]|] eqn:Ho; [by exists r' | by destruct r'].
  - by injection Hstep as <- <-.
  - injection Hstep as <- <-. destruct Hs as (r & Hw & Ho). apply (was_told_later _ [Step i (QRun now)]) in Hw. split.
    + left. exists i, q, r, ttl. split; [done|]. split; [done|]. split; [done | by left].
    + cbn [sh_cache]. unfold cache_put. destruct (ttl =? 0); [done|].
      intros k ent [[<- <-]|[_ Hl]]%lookup_insert_Some; [|by apply Hc'].
      by exists i, q, r, ttl, now.
Qed.

(** One step of a request. *)
Lemma gather_known ms i req q g r :
  q ∈ rq_queries req → gathered_known ms i req (g_rcode g) (g_answers g) → qstate_known ms i q (QDone r) →
  gathered_known ms i req (g_rcode (gather g r)) (g_answers (gather g r)).
Proof.
  intros Hq [Ha Hn]. destruct r as [[records rcode]|e]; [|done]. cbn [qstate_known gather g_rcode g_answers].
  intros Hcame. split.
  - intros rr [?|Hrr]%elem_of_app; [by apply Ha|]. exists q. split; [done|].
    destruct Hcame as [Hu|[_ [->|(ip & Ht & ->)]]]; [right; by exists records, rcode | by apply elem_of_nil in Hrr|].
    apply list_elem_of_singleton in Hrr as ->. left. by exists ip.
  - destruct (negb _ && _) eqn:Hb; [|done]. intros ->.
    apply andb_true_iff in Hb as [_ ->%bool_decide_eq_true]. exists q. split; [done|]. by destruct Hcame as [?|[? _]].
Qed.
Lemma next_known ms i req qs g :
  Forall (λ q, q ∈ rq_queries req) qs → gathered_known ms i req (g_rcode g) (g_answers g) →
  dns_task_known ms i (next_question req qs g).
Proof.
  intros Hqs [Ha Hn]. destruct qs as [|q rest]; cbn [next_question dns_task_known].
  - split; [exact Ha|]. cbn [response_for rs_rcode]. by destruct (g_any_fail g && _).
  - apply Forall_cons in Hqs as [? ?]. by repeat split.
Qed.
Lemma dns_step_known ms i p t e t' sh' :
  dns_pool_run ms start = Some p → dp_tasks p !! i = Some t → dns_pool_known ms p →
  dns_step t e (dp_shared p) = Some (t', sh') →
  dns_task_known (ms ++ [Step i e]) i t' ∧ cache_known (ms ++ [Step i e]) (sh_cache sh').
Proof.
  intros Hp Hi [Ht Hc] Hs. destruct t as [req peer|req q s rest g|req resp]; cbn [dns_step] in Hs; [| |done].
  - destruct e; try done. injection Hs as <- <-. split; [|by apply cache_later].
    assert (∀ rcode, rcode ≠ NXDomain → gathered_known (ms ++ [Step i (QRun now)]) i req rcode []) as Hnil.
    { intros rcode Hrc. split; [|done]. by intros rr ?%elem_of_nil. }
    destruct (loop_refusal _ _ _ _) as [rcode|] eqn:Hl.
    + apply Hnil. unfold loop_refusal in Hl. destruct peer; [|done]. destruct (same_endpoint _ _); [by injection Hl as <-|].
      destruct (_ && _); [by injection Hl as <- | done].
    + apply next_known; [by apply Forall_forall | by apply Hnil].
  - apply bind_Some in Hs as ([s' sh1] & Hq & [= <- <-]). cbn [fst snd].
    pose proof (Ht _ _ Hi) as (_ & Hin & Hrest & Hst & _).
    destruct (query_step_known ms i p req q s rest g e s' sh1 Hp Hi Hc Hst Hq) as [Hs' Hc'].
    split; [|done]. pose proof (dns_task_later ms [Step i e] i _ (Ht _ _ Hi)) as (_ & _ & _ & _ & Hg).
    destruct s' as [| | | |records rcode ttl|r]; [by repeat split; try apply Hg..|].
    apply next_known; [done|]. by apply (gather_known _ _ _ q).
Qed.
Lemma dns_pool_step_known ms p m p' :
  dns_pool_run ms start = Some p → dns_pool_known ms p → dns_pool_step p m = Some p' → dns_pool_known (ms ++ [m]) p'.
Proof.
  intros Hp Hk Hs. pose proof Hk as [Ht Hc]. apply (cache_later ms [m]) in Hc.
  assert (∀ i t, dp_tasks p !! i = Some t → dns_task_known (ms ++ [m]) i t) as Ht' by (intros; by apply dns_task_later, Ht).
  destruct m as [req peer|i e|reg|i]; cbn [dns_pool_step] in Hs.
  - injection Hs as <-. split; [|done]. cbn [dp_tasks]. intros j t [[<- <-]|[_ ?]]%lookup_insert_Some; [done | by apply Ht'].
  - apply bind_Some in Hs as (t & Hi & ([t' sh'] & Hstep & [= <-])%bind_Some).
    destruct (dns_step_known ms i p t e t' sh' Hp Hi Hk Hstep) as [Hk' Hc']. split; [|exact Hc']. cbn [dp_tasks fst].
    intros j t2 [[<- <-]|[_ ?]]%lookup_insert_Some; [done | by apply Ht'].
  - injection Hs as <-. by split.
  - injection Hs as <-. split; [|done]. cbn [dp_tasks]. intros j t [_ ?]%lookup_delete_Some. by apply Ht'.
Qed.
Lemma dns_run_known ms p : dns_pool_run ms start = Some p → dns_pool_known ms p.
Proof.
  revert p. induction ms as [|m ms IH] using rev_ind; intros p.
  { intros [= <-]. split; [by intros i t; cbn; rewrite lookup_empty | by intros k ent; cbn; rewrite lookup_empty]. }
  rewrite dns_pool_run_app. intros (q & Hq & (p' & Hs & [= <-])%bind_Some)%bind_Some.
  by eapply dns_pool_step_known; [|apply IH|].
Qed.
End runs.
End concurrent.

(** ** Property *)

(** A request can be brought to its reply by its own steps alone. *)
Lemma request_finishes `{DnsName} cfg reg0 n ms p i t :
  dns_pool_run cfg ms (dns_pool_start reg0) = Some p → dp_tasks p !! i = Some t → (steps_left t <= n)%nat →
  ∃ es p' req resp, dns_pool_run cfg (Step i <$> es) p = Some p' ∧ dp_tasks p' !! i = Some (Replied req resp)
    ∧ (length es <= n)%nat.
Proof.
  revert ms p t. induction n as [|n IH]; intros ms p t Hp Hi Hn;
    destruct (dns_run_known _ _ _ _ Hp) as [Hk _]; specialize (Hk _ _ Hi);
    assert (match t with Asking _ _ (QDone _) _ _ => False | _ => True end) as Hlive
      by (destruct t as [| ? ? [] ? ? |]; by destruct Hk).
  { destruct t as [req peer|req q s rest g|req resp]; cbn in Hn; [lia| |by exists [], p, req, resp].
    destruct s; cbn in Hn; done || lia. }
  destruct (decide (steps_left t = 0%nat)) as [H0|H0].
  { destruct (IH ms p t Hp Hi) as (es & p' & req & resp & ? & ? & ?); [lia|]. exists es, p', req, resp. repeat split; [done..|lia]. }
  destruct (dns_step_possible cfg t (dp_shared p)) as (e & [t' sh'] & Hs); [lia | exact Hlive|].
  pose proof (dns_step_decreases _ _ _ _ _ _ Hs) as Hlt.
  set (p1 := mk_dns_pool sh' (<[i := t']> (dp_tasks p)) (dp_next p)).
  assert (dns_pool_step cfg p (Step i e) = Some p1) as Hps by (cbn [dns_pool_step]; rewrite Hi; cbn; by rewrite Hs).
  destruct (IH (ms ++ [Step i e]) p1 t') as (es & p' & req & resp & Hr & Hi' & Hlen).
  - rewrite dns_pool_run_app, Hp. cbn [mbind option_bind dns_pool_run]. by rewrite Hps.
  - apply lookup_insert_eq.
  - lia.
  - exists (e :: es), p', req, resp. rewrite fmap_cons. cbn [dns_pool_run]. rewrite Hps. split; [exact Hr|].
    split; [done|]. cbn. lia.
Qed.


(** ** Witness: a second request finds what the first has stored, and the address
    the table had until it was swapped. *)
Section witness.
#[local] Instance str_name : DnsName := {| Name := string; name_to_ascii s := s |}.
#[local] Definition here (p : Z) : SocketAddr := mk_addr (V4 (mk_ipv4 127 0 0 1)) p.
#[local] Definition server : DnsServerConfig := with_defaults (here 53) [here 54] 5 2000.
#[local] Definition table : DnsRegistry := {[ "a.internal" := mk_ipv4 100 64 0 1 ]}.
#[local] Definition ask (n : string) (t : RecordType) : Query := mk_query (n : @Name str_name) t.
#[local] Definition b_record : DnsRecord := mk_record ("b.org." : @Name str_name) 60 (RDataOther "x").
#[local] Definition first_request : DnsRequest := mk_request 7 0 true [ask "b.org." TypeA].
#[local] Definition second_request : DnsRequest := mk_request 8 0 true [ask "a.internal" TypeA; ask "B.org." TypeA].
#[local] Definition dns_moves : list DnsMove :=
  [Receive first_request (Some (here 90)); Step 0 (QRun 0); Step 0 (QRun 0); Step 0 (QRun 0);
   Receive second_request (Some (here 91)); Step 1 (QRun 1); Step 1 (QRun 1); Step 0 (QUpstream (Found [b_record]));
   Step 1 (QRun 2); Swap ∅; Step 0 (QRun 3); Step 1 (QRun (seconds 59)); Step 1 (QRun (seconds 59))].
#[local] Definition dns_end : DnsPool := default (dns_pool_start table) (dns_pool_run server dns_moves (dns_pool_start table)).
#[local] Definition reply : DnsResponse :=
  match dp_tasks dns_end !! 1%nat with Some (Replied _ r) => r | _ => response_for second_request ServFail [] end.

End witness.
