(* ===== verification/EndToEnd.v ===== *)
(** * From a DNS answer back to the agent it names

    The controller's process runs its HTTP API and its DNS server on one shared
    table.  [Joint] is the two together: the requests of [Concurrent] and those of
    [DnsConcurrent], in any interleaving.  An address that a reply takes from the
    table is traced back, through the abstract service of [NameService], to the
    agent that claimed the name and reported the address. *)
From S2P Require Import Prelude RustStr Net Externals Common Concrete Hostname Store StoreRoutes StoreInv Config Registry.
From S2P Require Import Dns DnsConcurrent Sessions State Probe Controller ControllerSpec Router ControllerSys.
From S2P Require Import Threads Concurrent ConcurrentAuth NameService.
From Stdlib Require Import Ascii.
#[local] Open Scope Z_scope.

(** ** The two servers on one table *)

Section joint.
Context `{Argon2} `{Base64} `{Chrono} `{Axum} `{UrlCrate} `{Idna} `{DnsName}.
Context `{SerdeJson (list string)} `{SerdeJson (list DiscoveredContainerDto)}.
Context `{SerdeJson EnrollRequest} `{SerdeJson HeartbeatRequest} `{SerdeJson PutRoutesRequest}.
Context `{SerdeJson DiscoveryReportRequest} `{SerdeJson EnableServiceRequest} `{SerdeJson LoginRequest}.
Context (dns : DnsServerConfig).

Record Joint := mk_joint { jt_api : Pool; jt_dns : DnsPool }.
(** A move of the API, after which the DNS server sees the table as it is, or a
    move of the DNS server, which never writes the table. *)
Inductive JointMove := OnApi (m : Move) | OnDns (m : DnsMove).
Definition joint_step (j : Joint) (m : JointMove) : option Joint :=
  match m with
  | OnApi m =>
      p ← pool_step (jt_api j) m;
      d ← dns_pool_step dns (jt_dns j) (Swap (registry (pl_st p)));
      Some (mk_joint p d)
  | OnDns (Swap _) => None
  | OnDns m => d ← dns_pool_step dns (jt_dns j) m; Some (mk_joint (jt_api j) d)
  end.
Fixpoint joint_run (js : list JointMove) (j : Joint) : option Joint :=
  match js with
  | [] => Some j
  | m :: js' => j' ← joint_step j m; joint_run js' j'
  end.
(** The DNS server starts, or is started again, with an empty cache. *)
Definition joint_start (p : Pool) : Joint := mk_joint p (dns_pool_start (registry (pl_st p))).

(** The moves of each side. *)
Definition api_moves (js : list JointMove) : list Move := omap (λ m, match m with OnApi m => Some m | OnDns _ => None end) js.
Definition dns_move (j : Joint) (m : JointMove) : DnsMove :=
  match m with
  | OnApi m => Swap (registry (pl_st (default (jt_api j) (pool_step (jt_api j) m))))
  | OnDns m => m
  end.
Fixpoint dns_moves (js : list JointMove) (j : Joint) : list DnsMove :=
  match js with
  | [] => []
  | m :: js' => dns_move j m :: match joint_step j m with Some j' => dns_moves js' j' | None => [] end
  end.
Definition one_table (j : Joint) : Prop := sh_registry (dp_shared (jt_dns j)) = registry (pl_st (jt_api j)).

Lemma joint_step_inv j m j' : joint_step j m = Some j' →
  match m with
  | OnApi m => pool_step (jt_api j) m = Some (jt_api j')
  | OnDns (Swap _) => False
  | OnDns _ => jt_api j' = jt_api j
  end ∧ dns_pool_step dns (jt_dns j) (dns_move j m) = Some (jt_dns j').
Proof.
  destruct m as [m|[req peer|i e|reg|i]]; cbn [joint_step dns_move]; [|intros (d & Hd & [= <-])%bind_Some; done| |done|].
  - intros (p & Hp & (d & Hd & [= <-])%bind_Some)%bind_Some. by rewrite Hp.
  - by intros (d & Hd & [= <-])%bind_Some.
  - by intros (d & Hd & [= <-])%bind_Some.
Qed.
Lemma joint_step_table j m j' : joint_step j m = Some j' → one_table j → one_table j'.
Proof.
  unfold one_table. intros Hj Ht. apply joint_step_inv in Hj as [Ha Hd]. destruct m as [m|[req peer|i e|reg|i]]; cbn [dns_move dns_pool_step] in Hd.
  - rewrite Ha in Hd. by injection Hd as <-.
  - rewrite Ha. by injection Hd as <-.
  - apply bind_Some in Hd as (t & _ & ([t' sh'] & Hs & [= <-])%bind_Some). cbn [dp_shared snd].
    by rewrite (dns_step_table _ _ _ _ _ _ Hs), Ha.
  - done.
  - rewrite Ha. by injection Hd as <-.
Qed.
Lemma joint_run_app js js' j : joint_run (js ++ js') j = (joint_run js j ≫= joint_run js').
Proof.
  revert j. induction js as [|m js IH]; intros j; [done|]. cbn [app joint_run].
  destruct (joint_step j m); [apply IH | done].
Qed.
Lemma joint_run_api js j j' : joint_run js j = Some j' → pool_run (api_moves js) (jt_api j) = Some (jt_api j').
Proof.
  revert j. induction js as [|m js IH]; intros j; [by intros [= <-]|].
  cbn [joint_run]. intros (j1 & Hs%joint_step_inv & Hr%IH)%bind_Some. destruct Hs as [Ha _].
  destruct m as [m|m]; cbn; [by rewrite Ha|]. by destruct m; rewrite ?Ha in Hr.
Qed.
Lemma joint_run_table js j j' : joint_run js j = Some j' → one_table j → one_table j'.
Proof.
  revert j. induction js as [|m js IH]; intros j; [by intros [= <-]|].
  cbn [joint_run]. intros (j1 & Hs & Hr)%bind_Some Ht. apply (IH _ Hr). by eapply joint_step_table.
Qed.
Lemma joint_run_dns js j j' : joint_run js j = Some j' → dns_pool_run dns (dns_moves js j) (jt_dns j) = Some (jt_dns j').
Proof.
  revert j. induction js as [|m js IH]; intros j; [by intros [= <-]|].
  cbn [joint_run dns_moves]. intros (j1 & Hs & Hr)%bind_Some. cbn [dns_pool_run].
  rewrite (proj2 (joint_step_inv _ _ _ Hs)), Hs. by apply IH.
Qed.
(** A moment of the DNS server is one of the two together. *)
Lemma dns_moment js j j' a b d :
  joint_run js j = Some j' → dns_moves js j = a ++ b → dns_pool_run dns a (jt_dns j) = Some d →
  ∃ js1 js2 j1, js = js1 ++ js2 ∧ joint_run js1 j = Some j1 ∧ jt_dns j1 = d ∧ dns_moves js1 j = a.
Proof.
  revert j a. induction js as [|m js IH]; intros j a.
  { intros _ [-> _]%eq_sym%app_nil [= <-]. by exists [], [], j. }
  cbn [joint_run dns_moves]. intros (j1 & Hs & Hr)%bind_Some. rewrite Hs.
  destruct a as [|x a]; [intros _ [= <-]; by exists [], (m :: js), j|].
  intros [= <- Hab]. cbn [dns_pool_run]. rewrite (proj2 (joint_step_inv _ _ _ Hs)). intros Hd.
  destruct (IH j1 a Hr Hab Hd) as (js1 & js2 & j2 & -> & Hj2 & Hd2 & Ha). exists (m :: js1), js2, j2.
  split; [done|]. cbn [joint_run dns_moves]. rewrite Hs. split; [done|]. split; [done|]. by rewrite Ha.
Qed.
(** What the DNS server is told, it is told by a move of its own. *)
Lemma dns_moves_step js j i e : Step i e ∈ dns_moves js j → OnDns (Step i e) ∈ js.
Proof.
  revert j. induction js as [|m js IH]; intros j; cbn [dns_moves]; [by intros ?%elem_of_nil|].
  intros [Hm|Hin]%elem_of_cons.
  - destruct m as [m|m]; cbn in Hm; [done|]. subst m. by left.
  - destruct (joint_step j m) as [j1|]; [right; by eapply IH | by apply elem_of_nil in Hin].
Qed.
End joint.

(** ** Where owners and addresses come from *)

Section service.
Context `{Chrono}.
Context (ttl : Z).

Lemma act_owner a n h id : nm_owner (do_act ttl a n) !! h = Some id →
  nm_owner n !! h = Some id ∨ ∃ desired when_, a = Claim id desired when_ ∧ h ∈ desired.
Proof.
  destruct n as [owner members table]. destruct a as [|i a t|i a t|i|i|i desired when_|t|h'|n' t]; cbn [do_act nm_owner]; try by left.
  - intros [? _]%map_lookup_filter_Some. by left.
  - rewrite claim_all_lookup. cbn [nm_owner]. intros Hc.
    assert (owner !! h = Some id ∨ i = id ∧ h ∈ desired) as [?|[-> ?]]; [|by left|right; by exists desired, when_].
    unfold claim in Hc. repeat case_match; simplify_eq; by auto.
  - intros [? _]%map_lookup_filter_Some. by left.
  - intros [_ ?]%lookup_delete_Some. by left.
Qed.
Lemma act_member a n id m : nm_members (do_act ttl a n) !! id = Some m →
  (∃ m0, nm_members n !! id = Some m0 ∧ mb_address m0 = mb_address m)
  ∨ ∃ t, a = Join id (mb_address m) t ∨ a = Seen id (mb_address m) t.
Proof.
  destruct n as [owner members table]. destruct a as [|i a t|i a t|i|i|i desired when_|t|h'|n' t]; cbn [do_act nm_members];
    try (by intros Hm; left; exists m).
  - intros [[<- <-]|[_ ?]]%lookup_insert_Some; [right; exists t; by left | left; by exists m].
  - intros [(-> & m0 & Hm & ->)|[_ ?]]%lookup_alter_Some; [right; exists t; by right | left; by exists m].
  - intros [(-> & m0 & Hm & ->)|[_ ?]]%lookup_alter_Some; left; [by exists m0 | by exists m].
Qed.
End service.

Section provenance.
Context `{Argon2} `{Base64} `{Chrono} `{Axum} `{UrlCrate} `{Idna}.
Context `{SerdeJson (list string)} `{SerdeJson (list DiscoveredContainerDto)}.
Context `{SerdeJson EnrollRequest} `{SerdeJson HeartbeatRequest} `{SerdeJson PutRoutesRequest}.
Context `{SerdeJson DiscoveryReportRequest} `{SerdeJson EnableServiceRequest} `{SerdeJson LoginRequest}.
Context (st0 : AppState).

(** The agent [id] asked for the hostname with its live credential, and the policy
    allows it. *)
Definition claimed (ms : list Move) (id h : string) : Prop :=
  ∃ i w r q body, since_arrival st0 ms i w r q
    ∧ dispatch (hq_method r) (hq_path r) = Found (EPutRoutes id)
    ∧ agent_authorized (db_of (pl_st q)) id (hq_headers r) = true
    ∧ from_json (hq_body r) = Ok body ∧ h ∈ entry_host <$> pr_routes body
    ∧ hostname_allowed (cfg st0) h = Ok tt.
(** It reported the address with its live credential, or when it was enrolled with
    a token that was still unused. *)
Definition reported (ms : list Move) (id address : string) : Prop :=
  ∃ i w r q, since_arrival st0 ms i w r q
    ∧ (dispatch (hq_method r) (hq_path r) = Found (EHeartbeat id)
         ∧ agent_authorized (db_of (pl_st q)) id (hq_headers r) = true
         ∧ (∃ body, from_json (hq_body r) = Ok body ∧ address = hr_tailscale_ipv4 body)
       ∨ dispatch (hq_method r) (hq_path r) = Found EEnroll ∧ id = "agt_" +:+ generate_token (w_random w 0%nat)
         ∧ (∃ token hash, bearer_token (hq_headers r) = Some token
              ∧ hash ∈ unused_token_hashes (db_of (pl_st q)) ∧ verify_token hash token = true)
         ∧ ∃ body, from_json (hq_body r) = Ok body ∧ address = er_tailscale_ipv4 body).

Lemma claimed_later ms ms' id h : claimed ms id h → claimed (ms ++ ms') id h.
Proof. intros (i & w & r & q & body & Hs & Hc). exists i, w, r, q, body. split; [by apply since_later | done]. Qed.
Lemma reported_later ms ms' id ad : reported ms id ad → reported (ms ++ ms') id ad.
Proof. intros (i & w & r & q & Hs & Hc). exists i, w, r, q. split; [by apply since_later | done]. Qed.

(** What an action of a move says about its request. *)
Lemma authorised_claim now ms p m id desired when_ h :
  authorised st0 now ms p m (Claim id desired when_) → h ∈ desired → claimed ms id h.
Proof.
  intros [?|(_ & i & tk & _ & _ & Hw)] Hh; [done|]. destruct (tk_request tk) as [r|].
  - destruct Hw as (w & (q & Hq & He) & Hmay). unfold may, entitled in *.
    destruct (dispatch (hq_method r) (hq_path r)) as [| | |e] eqn:Hd; try done. destruct e; try done.
    destruct Hmay as (-> & (body & Hb & ->) & Hall & _). exists i, w, r, q, body. split; [done|].
    split; [done|]. split; [done|]. split; [done|]. split; [by apply elem_of_list_to_set in Hh | by apply Hall].
  - by destruct Hw as (? & ? & _ & [?|(? & ? & ?)]).
Qed.
Lemma authorised_report now ms p m a id ad t :
  authorised st0 now ms p m a → a = Join id ad t ∨ a = Seen id ad t → reported ms id ad.
Proof.
  intros [->|(_ & i & tk & _ & _ & Hw)] Ha; [by destruct Ha|]. destruct (tk_request tk) as [r|].
  - destruct Hw as (w & (q & Hq & He) & Hmay). exists i, w, r, q. split; [done|]. unfold may, entitled in *.
    destruct Ha as [->| ->]; destruct (dispatch (hq_method r) (hq_path r)) as [| | |e] eqn:Hd; try done; destruct e; try done.
    + right. destruct Hmay as (-> & _ & body & Hb & ->). split; [done|]. split; [done|]. split; [done|]. by exists body.
    + left. destruct Hmay as (-> & _ & body & Hb & ->). split; [done|]. split; [done|]. by exists body.
  - destruct Hw as (? & ? & _ & [->|(? & ? & ->)]); by destruct Ha.
Qed.

Lemma owner_traced ttl now ms p s h id :
  simulates st0 ttl now ms p s → nm_owner (sv_now s) !! h = Some id →
  owner_of (db_of st0) h = Some id ∨ claimed ms id h.
Proof.
  induction 1 as [|ms p s m p' a _ IH Hs Hpos Hau Hn]; cbn [service_start service_act sv_now].
  { rewrite names_owner. by left. }
  intros [Ho|(desired & when_ & -> & Hh)]%act_owner.
  - destruct (IH Ho); [by left | right; by apply claimed_later].
  - right. apply claimed_later. by eapply authorised_claim.
Qed.
Lemma address_traced ttl now ms p s id m :
  simulates st0 ttl now ms p s → nm_members (sv_now s) !! id = Some m →
  (∃ a, agents (db_of st0) !! id = Some a ∧ ag_tailscale_ipv4 a = mb_address m) ∨ reported ms id (mb_address m).
Proof.
  intros Hsim. revert m. induction Hsim as [|ms p s mv p' a _ IH Hs Hpos Hau Hn]; intros m; cbn [service_start service_act sv_now].
  { cbn. rewrite lookup_fmap. destruct (agents (db_of st0) !! id) as [a|]; [|done]. intros [= <-]. left. by exists a. }
  intros [(m0 & Hm & <-)|(t & Ha)]%act_member.
  - destruct (IH m0 Hm); [by left | right; by apply reported_later].
  - right. apply reported_later. by eapply authorised_report.
Qed.

(** An address of the table belonged to the owner of its name. *)
Definition traced (ttl now : Z) (ms : list Move) (h : string) (ip : Ipv4Addr) : Prop :=
  ∃ ms1 ms2 q t id a, ms = ms1 ++ ms2 ∧ pool_run ms1 (pool_start st0) = Some q ∧ instant_read now ms t
    ∧ owner_of (db_of (pl_st q)) h = Some id ∧ agents (db_of (pl_st q)) !! id = Some a
    ∧ ag_revoked_at a = None ∧ lease_alive t ttl (ag_last_seen_at a) = true ∧ parse_ipv4 (ag_tailscale_ipv4 a) = Some ip
    ∧ (owner_of (db_of st0) h = Some id ∨ claimed ms1 id h)
    ∧ ((∃ a0, agents (db_of st0) !! id = Some a0 ∧ ag_tailscale_ipv4 a0 = ag_tailscale_ipv4 a)
       ∨ reported ms1 id (ag_tailscale_ipv4 a)).
Lemma table_traced ttl now ms p h ip :
  db_wf (db_of st0) → ttl_of st0 = Some ttl → (∀ h, registry st0 !! h = dns_entry ttl now (db_of st0) h) →
  pool_run ms (pool_start st0) = Some p → registry (pl_st p) !! h = Some ip → traced ttl now ms h ip.
Proof.
  intros Hwf Httl Hst Hp Hip.
  destruct (table_from_past st0 ttl now ms p Hwf Httl Hst Hp) as (_ & t & ms1 & ms2 & q & Hms & Hq & Ht & Hreg).
  rewrite Hreg in Hip. unfold dns_entry in Hip. apply bind_Some in Hip as (row & Hrow & (a & Ha & Hip)%bind_Some).
  destruct (bool_decide_reflect (ag_revoked_at a = None)) as [Hrev|]; [|done]. cbn in Hip.
  destruct (lease_alive t ttl (ag_last_seen_at a)) eqn:Hl; [|done].
  assert (owner_of (db_of (pl_st q)) h = Some (rt_agent_id row)) as Ho by (unfold owner_of; by rewrite Hrow).
  destruct (run_simulated st0 ttl now Httl Hwf Hst ms1 q Hq) as [s Hsim]. pose proof (simulates_now _ _ _ _ _ _ Hsim) as Hnow.
  exists ms1, ms2, q, t, (rt_agent_id row), a. split; [done|]. split; [done|]. split; [done|]. split; [done|].
  split; [done|]. split; [done|]. split; [done|]. split; [done|]. split.
  - eapply owner_traced; [exact Hsim|]. by rewrite Hnow, names_owner.
  - apply (address_traced ttl now ms1 q s (rt_agent_id row) (member_of a)); [done|]. rewrite Hnow. cbn.
    by rewrite lookup_fmap, Ha.
Qed.
End provenance.

(** ** Property *)

Section property.
Context `{Argon2} `{Base64} `{Chrono} `{Axum} `{UrlCrate} `{Idna} `{DnsName}.
Context `{SerdeJson (list string)} `{SerdeJson (list DiscoveredContainerDto)}.
Context `{SerdeJson EnrollRequest} `{SerdeJson HeartbeatRequest} `{SerdeJson PutRoutesRequest}.
Context `{SerdeJson DiscoveryReportRequest} `{SerdeJson EnableServiceRequest} `{SerdeJson LoginRequest}.

(** The hostname a question is looked up by. *)
Definition asked_name (q : Query) : string :=
  to_ascii_lowercase (trim_end_matches "."%char (name_to_ascii (q_name q))).

(** C1: end to end.  Let the controller's requests and those of its DNS server run
    at the same time, in any interleaving.  Every record of a DNS reply was told by
    the resolver, or is the address, at some moment while the DNS request ran, that
    the table had for the name of one of its questions; and then, at an earlier
    moment of the run, some agent owned the name, unrevoked and with a live lease
    at an instant that was read, and the address was that agent's.  The agent had
    asked for the name itself, with its live credential, and the policy allows it;
    and it had reported the address itself, in a heartbeat with its live credential
    or when it was enrolled with an unused token: unless the database said so
    already when the controller started. *)
Theorem dns_answers_traced dev_defaults read db c now st0 ms0 p0 dns js j i req resp rr :
  db_wf db → boot dev_defaults read db c now = Some (Ok st0) → pool_run ms0 (pool_start st0) = Some p0 →
  joint_run dns js (joint_start p0) = Some j →
  dp_tasks (jt_dns j) !! i = Some (Replied req resp) → rr ∈ rs_answers resp →
  ∃ ttl q, ttl_of st0 = Some ttl ∧ q ∈ rq_queries req ∧
    ((q_type q = TypeA ∧ ∃ js1 js2 j1 ip, js = js1 ++ js2 ∧ joint_run dns js1 (joint_start p0) = Some j1
        ∧ is_Some (dp_tasks (jt_dns j1) !! i) ∧ rr = table_record dns q ip
        ∧ registry (pl_st (jt_api j1)) !! asked_name q = Some ip
        ∧ traced st0 ttl now (ms0 ++ api_moves js1) (asked_name q) ip)
     ∨ ∃ k records, OnDns (Step k (QUpstream (Dns.Found records))) ∈ js ∧ rr ∈ records).
Proof.
  intros Hwf Hboot Hp0 Hj Hi Hrr. destruct (boot_start _ _ _ _ _ _ Hwf Hboot) as (ttl & Httl & Hw & Hst & _).
  exists ttl. pose proof (joint_run_dns _ _ _ _ Hj) as Hd.
  destruct (dns_run_known _ _ _ _ Hd) as [Hk _]. destruct (Hk _ _ Hi) as [Ha _].
  destruct (Ha rr Hrr) as (q & Hq & Hsrc). exists q. split; [done|]. split; [done|].
  destruct Hsrc as [(ip & (Hty & d & (a & b & Hab & Hda & Hti) & Hl) & ->)|(records & rc & (k & q' & r & ttl' & Hwas & _ & Ho & _) & Hin)].
  - left. split; [done|]. destruct (dns_moment _ _ _ _ _ _ _ Hj Hab Hda) as (js1 & js2 & j1 & -> & Hj1 & <- & _).
    exists js1, js2, j1, ip. split; [done|]. split; [done|]. split; [done|]. split; [done|].
    assert (registry (pl_st (jt_api j1)) !! asked_name q = Some ip) as Hreg.
    { rewrite <- (joint_run_table _ _ _ _ Hj1 eq_refl). exact Hl. }
    split; [done|]. eapply table_traced; [done|done|done| |exact Hreg].
    rewrite pool_run_app, Hp0. by apply (joint_run_api dns js1 (joint_start p0)).
  - right. destruct Hwas as (a & b & p & req' & rest & g & Hm & _ & _).
    assert (Step k (QUpstream r) ∈ dns_moves dns js (joint_start p0)) as Hs.
    { rewrite Hm. apply elem_of_app. right. by left. }
    apply dns_moves_step in Hs. destruct r as [rs| |e]; cbn in Ho; [|by injection Ho as <- _ _; apply elem_of_nil in Hin | done].
    injection Ho as <- _ _. by exists k, rs.
Qed.
End property.

(** ** Witness: the answer of a name whose agent has just been revoked, but whose
    revocation has not yet refreshed the table. *)
Section witness.
Import Concurrent.Demo.
#[local] Existing Instance DnsConcurrent.str_name.

#[local] Definition enrolled : list Move :=
  Arrive (ControllerSys.world 2 [65] []) (ControllerSys.http "POST" "/v1/admin/enrollment-tokens" "secret" "")
  :: replicate 2 (Advance 0)
  ++ Arrive (ControllerSys.world 3 [49] [50]) (ControllerSys.http "POST" "/v1/agents/enroll" "A" "")
  :: replicate 5 (Advance 1).
#[local] Definition p0 : Pool := Concurrent.ran enrolled (pool_start ControllerSpec.st0).
#[local] Definition question : Query := DnsConcurrent.ask "A.internal." TypeA.
#[local] Definition request : DnsRequest := mk_request 7 0 true [question].
#[local] Definition both : list JointMove :=
  OnApi (Arrive (ControllerSys.world 4 [] []) (ControllerSys.http "PUT" "/v1/agents/agt_1/routes" "2" "A.internal"))
  :: replicate 10 (OnApi (Advance 2))
  ++ OnDns (Receive request (Some (DnsConcurrent.here 90))) :: replicate 2 (OnDns (Step 0 (QRun 0)))
  ++ OnApi (Arrive (ControllerSys.world 5 [] []) (ControllerSys.http "DELETE" "/v1/admin/agents/agt_1" "secret" ""))
  :: replicate 3 (OnApi (Advance 3))
  ++ OnDns (Step 0 (QRun 0)) :: replicate 3 (OnApi (Advance 3)).
#[local] Definition last_joint : Joint :=
  default (joint_start p0) (joint_run DnsConcurrent.server both (joint_start p0)).
#[local] Definition response : DnsResponse :=
  match dp_tasks (jt_dns last_joint) !! 0%nat with Some (Replied _ r) => r | _ => response_for request ServFail [] end.

Lemma joint_eq dns js j : bool_decide (is_Some (joint_run dns js j)) = true →
  joint_run dns js j = Some (default j (joint_run dns js j)).
Proof. by intros [q ->]%bool_decide_eq_true. Qed.

Lemma dns_answers_traced_witness :
  rs_answers response = [table_record DnsConcurrent.server question (mk_ipv4 100 64 0 1)]
  ∧ registry (pl_st (jt_api last_joint)) !! "a.internal" = None
  ∧ ∃ ttl js1, traced ControllerSpec.st0 ttl 1 (enrolled ++ api_moves js1) "a.internal" (mk_ipv4 100 64 0 1).
Proof.
  assert (rs_answers response = [table_record DnsConcurrent.server question (mk_ipv4 100 64 0 1)]) as Hrs
    by (vm_compute; reflexivity).
  split; [exact Hrs|]. split; [vm_compute; reflexivity|].
  assert (pool_run enrolled (pool_start ControllerSpec.st0) = Some p0) as Hp0
    by (apply Concurrent.ran_eq; vm_compute; reflexivity).
  assert (joint_run DnsConcurrent.server both (joint_start p0) = Some last_joint) as Hj
    by (apply joint_eq; vm_compute; reflexivity).
  assert (dp_tasks (jt_dns last_joint) !! 0%nat = Some (Replied request response)) as Hi by (vm_compute; reflexivity).
  assert (table_record DnsConcurrent.server question (mk_ipv4 100 64 0 1) ∈ rs_answers response) as Hin
    by (rewrite Hrs; left).
  destruct (dns_answers_traced false (λ _, Ok "secret") empty_db ControllerSpec.test_cfg 1 ControllerSpec.st0 enrolled p0
    DnsConcurrent.server both last_joint 0 request response _ empty_db_wf ControllerSys.boot_eq Hp0 Hj Hi Hin)
    as (ttl & q & _ & Hq & [(_ & js1 & js2 & j1 & ip & _ & _ & _ & Hrec & _ & Ht)|(k & records & Hup & _)]).
  - exists ttl, js1. apply list_elem_of_singleton in Hq as ->. injection Hrec as <-. exact Ht.
  - exfalso. unfold both in Hup. cbn [replicate app] in Hup.
    repeat (apply elem_of_cons in Hup as [Hup|Hup]; [discriminate|]). by apply elem_of_nil in Hup.
Defined.
End witness.
