(* ===== verification/DnsProc.v ===== *)
(** * The DNS server as a process

    [DnsServer::new], [run] and [is_listening] of tailsvc-dns/src/server.rs, and
    the task of tailsvc-controller/src/main.rs that starts the server again when
    it ends.  The resolver the server is built with is hickory's.  [run] binds a
    UDP and a TCP socket to one address; serves UDP in a task of its own, which
    owns the socket and outlives [run]; and returns when [accept] fails.  A socket
    that is bound to an address refuses it to every other. *)
From S2P Require Import Prelude RustStr Net Externals Config Registry State Controller Dns.
From Stdlib Require Import Ascii.
From stdpp Require Import relations.
#[local] Open Scope Z_scope.

(** ** The server *)

Section server.
Context `{DnsName}.

Record DnsServer := mk_dns_server {
  dsv_cfg : DnsServerConfig; dsv_cache : ResponseCache; dsv_listen_active : bool }.
Definition new_server (cfg : DnsServerConfig) : result string DnsServer := Ok (mk_dns_server cfg ∅ false).
Definition is_listening (s : DnsServer) : bool := dsv_listen_active s.

(** [run] up to the two loops: whether the sockets could be bound. *)
Definition run_bind (udp_free tcp_free : bool) (s : DnsServer) : result string DnsServer :=
  if negb udp_free then Err "bind udp"
  else if negb tcp_free then Err "bind tcp"
  else Ok (mk_dns_server (dsv_cfg s) (dsv_cache s) true).
End server.

(** The configuration the task gives to every server it makes. *)
Definition dns_server_config (c : DnsConfig) : DnsServerConfig :=
  let d := with_defaults (dns_listen c) (dns_upstreams c) (dns_service_ttl_seconds c)
    (dns_upstream_timeout_ms c * 1000000) in
  mk_dns_server_config (ds_listen d) (ds_upstreams d) (ds_service_ttl d) (ds_upstream_timeout d)
    (seconds (dns_positive_cache_max_seconds c)) (seconds (dns_negative_cache_max_seconds c))
    (dns_query_timeout_ms c * 1000000).

(** ** The task and its sockets *)

(** The stage of the task with the flag [dns_up]; the server it runs, with its
    TCP socket once it is bound; whether a UDP task started earlier still lives. *)
Section process.
Context `{DnsName}.

Record DnsProcess := mk_dns_process {
  dp_stage : DnsTask * bool;
  dp_server : option DnsServer;
  dp_udp : bool;
}.
Definition dns_start : DnsProcess := mk_dns_process (Starting 1, false) None false.

Inductive DnsProcEvent :=
| New (cfg : DnsServerConfig)
| Bind (udp_free tcp_free : bool)
| UdpFailed
| AcceptFailed
| Waited.

(** The free arguments tell what other programs hold. *)
Definition dns_proc_step (e : DnsProcEvent) (p : DnsProcess) : option DnsProcess :=
  match e with
  | New cfg =>
      match new_server cfg with
      | Ok s => st ← dns_task_step NewOk (dp_stage p); Some (mk_dns_process st (Some s) (dp_udp p))
      | Err _ => st ← dns_task_step NewErr (dp_stage p); Some (mk_dns_process st None (dp_udp p))
      end
  | Bind udp_free tcp_free =>
      s ← dp_server p;
      if is_listening s then None
      else match run_bind (udp_free && negb (dp_udp p)) tcp_free s with
           | Ok s' => Some (mk_dns_process (dp_stage p) (Some s') true)
           | Err _ => st ← dns_task_step RunEnded (dp_stage p); Some (mk_dns_process st None (dp_udp p))
           end
  | UdpFailed => if dp_udp p then Some (mk_dns_process (dp_stage p) (dp_server p) false) else None
  | AcceptFailed =>
      s ← dp_server p;
      if is_listening s
      then st ← dns_task_step RunEnded (dp_stage p); Some (mk_dns_process st None (dp_udp p))
      else None
  | Waited => st ← dns_task_step Slept (dp_stage p); Some (mk_dns_process st (dp_server p) (dp_udp p))
  end.
Fixpoint dns_proc_run (es : list DnsProcEvent) (p : DnsProcess) : option DnsProcess :=
  match es with
  | [] => Some p
  | e :: es' => p' ← dns_proc_step e p; dns_proc_run es' p'
  end.

(** Whether the process answers over each transport. *)
Definition tcp_served (p : DnsProcess) : bool :=
  match dp_server p with Some s => is_listening s | None => false end.
Definition udp_served (p : DnsProcess) : bool := dp_udp p.

(** ** Lemmas *)

(** The stage, the flag and the server go together, and the task never sleeps
    for more than a second. *)
Inductive dns_inv : DnsProcess → Prop :=
| inv_starting b u : dns_inv (mk_dns_process (Starting b, false) None u)
| inv_serving s u : dns_inv (mk_dns_process (Serving, true) (Some s) u)
| inv_sleeping u : dns_inv (mk_dns_process (Sleeping 1, false) None u).

Lemma dns_step_inv e p p' : dns_inv p → dns_proc_step e p = Some p' → dns_inv p'.
Proof.
  intros [b u|s u|u]; destruct e as [cfg|uf tf| | |]; unfold dns_proc_step, new_server, run_bind;
    cbn [dp_stage dp_server dp_udp dns_task_step mbind option_bind]; intros Hs;
    repeat case_match; simplify_eq/=; constructor.
Qed.
Lemma dns_run_inv es p p' : dns_inv p → dns_proc_run es p = Some p' → dns_inv p'.
Proof.
  revert p. induction es as [|e es IH]; intros p Hp; [by intros [= <-]|].
  cbn [dns_proc_run]. intros (q & Hq & Hr)%bind_Some. eapply IH; [|exact Hr]. by eapply dns_step_inv.
Qed.
Lemma dns_run_app es1 es2 p p' : dns_proc_run es1 p = Some p' →
  dns_proc_run (es1 ++ es2) p = dns_proc_run es2 p'.
Proof.
  revert p. induction es1 as [|e es IH]; intros p; [by intros [= ->]|].
  cbn [dns_proc_run app]. intros (q & Hq & Hr)%bind_Some. rewrite Hq. cbn [mbind option_bind]. by apply IH.
Qed.
Lemma dns_init_inv : dns_inv dns_start.
Proof. constructor. Qed.

(** A step without the end of the UDP task keeps it; one after it does not bring
    it back before the next start. *)
Lemma udp_stays e p p' : e ≠ UdpFailed → dp_udp p = true → tcp_served p = false →
  dns_proc_step e p = Some p' → dp_udp p' = true ∧ tcp_served p' = false.
Proof.
  intros He Hu Ht. unfold tcp_served in *. destruct e as [cfg|uf tf| | |]; unfold dns_proc_step; [| |done|..].
  - cbn [new_server]. intros (st & _ & [= <-])%bind_Some. done.
  - intros (s & Hs & Hx)%bind_Some. rewrite Hs in Ht. rewrite Ht, Hu, andb_false_r in Hx.
    cbn [negb run_bind] in Hx. apply bind_Some in Hx as (st & _ & [= <-]). done.
  - intros (s & Hs & Hx)%bind_Some. rewrite Hs in Ht. by rewrite Ht in Hx.
  - intros (st & _ & [= <-])%bind_Some. done.
Qed.
Lemma no_tcp_while_udp es p q : UdpFailed ∉ es → dp_udp p = true → tcp_served p = false →
  dns_proc_run es p = Some q → tcp_served q = false ∧ udp_served q = true.
Proof.
  revert p. induction es as [|e es IH]; intros p; [by intros _ Hu Ht [= <-]|].
  rewrite not_elem_of_cons. intros [Hne Hes] Hu Ht (r & Hr & Hq)%bind_Some.
  eapply udp_stays in Hr as [Hu' Ht']; [|done..]. by eapply IH.
Qed.
End process.

(** ** Properties *)

Section properties.
Context `{DnsName}.

(** C26: the task that runs the DNS server never gives up and never slows down:
    whatever has happened, when it sleeps it sleeps one second, its next start
    cannot fail, and if the sockets are then free, with no UDP task of an earlier
    server left, it serves both transports again.  The flag [dns_up] is raised by
    that start before any socket is bound, so that a controller that cannot bind
    reports itself ready at every attempt. *)
Theorem dns_server_restarts es p b up cfg :
  dns_proc_run es dns_start = Some p → dp_stage p = (Sleeping b, up) →
  b = 1 ∧ up = false
  ∧ (∃ q, dns_proc_run [Waited; New cfg] p = Some q ∧ dp_stage q = (Serving, true)
      ∧ tcp_served q = false ∧ udp_served q = udp_served p)
  ∧ (udp_served p = false → ∃ q, dns_proc_run [Waited; New cfg; Bind true true] p = Some q
      ∧ dp_stage q = (Serving, true) ∧ tcp_served q = true ∧ udp_served q = true)
  ∧ ∀ uf tf, uf && negb (udp_served p) && tf = false →
      ∃ q, dns_proc_run [Waited; New cfg; Bind uf tf] p = Some q ∧ dp_stage q = (Sleeping 1, false).
Proof.
  intros Hrun Hst. pose proof (dns_run_inv es _ _ dns_init_inv Hrun) as Hi.
  destruct Hi as [b' u|s u|u]; [done..|]. cbn in Hst. injection Hst as <- <-.
  split; [done|]. split; [done|]. split; [|split].
  - by eexists.
  - cbn. intros ->. by eexists.
  - cbn. intros uf tf Hb. destruct u, uf, tf; try done; by eexists.
Qed.

(** the restart does not repair a failed transport.  When accepting a TCP
    connection fails, the UDP task of the server that ended keeps its socket, so
    that no later start can bind it: as long as that task lives, DNS over TCP is
    gone.  When receiving a datagram fails instead, nothing restarts: DNS over UDP
    is gone, and the flag still says that the listener is up. *)
Theorem transport_failure_not_repaired es p :
  dns_proc_run es dns_start = Some p → tcp_served p = true →
  (∀ es' q, udp_served p = true → UdpFailed ∉ es' → dns_proc_run (AcceptFailed :: es') p = Some q →
     tcp_served q = false ∧ udp_served q = true)
  ∧ (∀ es' q, AcceptFailed ∉ es' → dns_proc_run (UdpFailed :: es') p = Some q →
     udp_served q = false ∧ tcp_served q = true ∧ (dp_stage q).2 = true).
Proof.
  intros Hrun Ht. pose proof (dns_run_inv es _ _ dns_init_inv Hrun) as Hi. clear Hrun.
  destruct Hi as [b u|s u|u]; [done| |done]. unfold tcp_served in Ht. cbn [dp_server] in Ht. split.
  - intros es' q Hu Hes. cbn [dns_proc_run dns_proc_step dp_server mbind option_bind]. rewrite Ht.
    cbn [dp_stage dns_task_step mbind option_bind dp_udp]. cbn [udp_served dp_udp] in Hu. subst u.
    by apply no_tcp_while_udp.
  - intros es' q Hes. cbn [dns_proc_run dns_proc_step dp_udp dp_stage dp_server].
    destruct u; [|done]. cbn [mbind option_bind]. destruct es' as [|e es'].
    + intros [= <-]. done.
    + intros (r & Hr & _)%bind_Some. exfalso. apply not_elem_of_cons in Hes as [Hne _].
      destruct e as [cfg|uf tf| | |]; unfold dns_proc_step, new_server in Hr;
        cbn [dp_stage dp_server dp_udp dns_task_step mbind option_bind] in Hr; rewrite ?Ht in Hr; done.
Qed.
End properties.

(** ** Witnesses: a port that is busy, then free; a failure of each transport. *)
Section witnesses.
#[local] Instance text_name : DnsName := {| Name := string; name_to_ascii s := s |}.
#[local] Definition some_cfg : DnsServerConfig :=
  with_defaults (mk_addr (V4 (mk_ipv4 127 0 0 1)) 53) [] 5 2000.
#[local] Definition busy : list DnsProcEvent := [New some_cfg; Bind false true].
#[local] Definition bound : list DnsProcEvent := [New some_cfg; Bind true true].

Lemma dns_server_restarts_witness :
  ∃ p q, dns_proc_run busy dns_start = Some p
    ∧ dns_proc_run [Waited; New some_cfg; Bind true true] p = Some q ∧ tcp_served q = true.
Proof.
  destruct (dns_proc_run busy dns_start) as [p|] eqn:Hp; [|vm_compute in Hp; discriminate].
  assert (dp_stage p = (Sleeping 1, false)) as Hs by (vm_compute in Hp; injection Hp as <-; reflexivity).
  assert (udp_served p = false) as Hu by (vm_compute in Hp; injection Hp as <-; reflexivity).
  destruct (dns_server_restarts busy p 1 false some_cfg Hp Hs) as (_ & _ & _ & Hr & _).
  destruct (Hr Hu) as (q & Hq & _ & Ht & _). exists p, q. repeat split; [exact Hq | exact Ht].
Defined.

Lemma transport_failure_not_repaired_witness :
  ∃ p q, dns_proc_run bound dns_start = Some p
    ∧ dns_proc_run [AcceptFailed; Waited; New some_cfg; Bind true true] p = Some q ∧ tcp_served q = false.
Proof.
  destruct (dns_proc_run bound dns_start) as [p|] eqn:Hp; [|vm_compute in Hp; discriminate].
  assert (tcp_served p = true) as Ht by (vm_compute in Hp; injection Hp as <-; reflexivity).
  assert (udp_served p = true) as Hu by (vm_compute in Hp; injection Hp as <-; reflexivity).
  assert (UdpFailed ∉ [Waited; New some_cfg; Bind true true]) as Hn.
  { rewrite !not_elem_of_cons. repeat split; try discriminate. apply not_elem_of_nil. }
  destruct (dns_proc_run [AcceptFailed; Waited; New some_cfg; Bind true true] p) as [q|] eqn:Hq.
  - destruct (transport_failure_not_repaired bound p Hp Ht) as [Ha _].
    destruct (Ha _ q Hu Hn Hq) as [Htq _]. by exists p, q.
  - exfalso. vm_compute in Hp. injection Hp as <-. vm_compute in Hq. discriminate.
Defined.
End witnesses.
