(* ===== verification/Docker.v ===== *)
(** * Containers and their backends ([tailsvc-docker])

    [types.rs], [backend_resolve.rs], [candidate.rs] and [docker_runtime.rs].
    The answers of the Docker daemon, bollard's response structs, are records of
    the fields the code reads; a [HashMap] that is iterated is its list of
    entries in iteration order. *)
From S2P Require Import Prelude RustStr Net Externals Common Hostname Labels.
From Stdlib Require Import Ascii.
#[local] Open Scope Z_scope.

(** ** [types.rs] *)

Record PublishedPort := mk_published { container_port : Z; host_ip : string; host_port : Z }.
Record DiscoveredService := mk_service {
  sv_container_id : string; sv_container_name : string; sv_labels : ServiceLabels;
  sv_network_mode : option string; sv_published_ports : list PublishedPort;
  sv_networks : gmap string string; sv_exposed_ports : list Z;
}.

(** ** [backend_resolve.rs] *)

(** [sort_unstable] and [dedup] on port numbers. *)
Fixpoint dedup_adjacent (l : list Z) : list Z :=
  match l with
  | [] => []
  | x :: l' => match dedup_adjacent l' with
               | y :: ys => if x =? y then y :: ys else x :: y :: ys
               | [] => [x]
               end
  end.
Definition sort_dedup (l : list Z) : list Z := dedup_adjacent (sort_by Z.leb l).

Definition single_exposed_port (svc : DiscoveredService) : option Z :=
  match sv_exposed_ports svc with [p] => Some p | _ => None end.
Definition single_published_container_port (svc : DiscoveredService) : option Z :=
  match sort_dedup (container_port <$> sv_published_ports svc) with [p] => Some p | _ => None end.

Definition local_binding (p : PublishedPort) : bool :=
  bool_decide (host_ip p = "127.0.0.1") || bool_decide (host_ip p = "0.0.0.0") || str_is_empty (host_ip p).
Definition select_published_port (svc : DiscoveredService) (port : Z)
    : result Error (option PublishedPort) :=
  match filter (λ p, container_port p = port) (sv_published_ports svc) with
  | [] => Ok None
  | [p] => Ok (Some p)
  | matches =>
      match filter (λ p, local_binding p = true) matches with
      | [p] => Ok (Some p)
      | _ => Err (AmbiguousBackend "multiple published bindings for port")
      end
  end.

Definition select_container_ip (svc : DiscoveredService) : result Error string :=
  match label_network (sv_labels svc) with
  | Some net =>
      ok_or (sv_networks svc !! net) (AmbiguousBackend ("network " +:+ net +:+ " not found"))
  | None =>
      match snd <$> map_to_list (sv_networks svc) with
      | [] => Err (AmbiguousBackend "no container IP")
      | [ip] => Ok ip
      | _ => Err (AmbiguousBackend "multiple networks; set tailsvc.network")
      end
  end.

(** The host a published port is reached at. *)
Definition published_host (ip : string) : string :=
  if bool_decide (ip = "0.0.0.0") || str_is_empty ip then "127.0.0.1" else ip.

Definition chosen_port (svc : DiscoveredService) : option Z :=
  match label_port (sv_labels svc) with
  | Some p => Some p
  | None => match single_exposed_port svc with
            | Some p => Some p
            | None => single_published_container_port svc
            end
  end.

Definition resolve_backend (svc : DiscoveredService) : result Error Backend :=
  match label_backend (sv_labels svc) with
  | Some b => Ok b
  | None =>
      port ← ok_or (chosen_port svc) (AmbiguousBackend "no port specified");
      pubp ← select_published_port svc port;
      match pubp with
      | Some p => Ok (mk_backend (published_host (host_ip p)) (host_port p))
      | None =>
          if bool_decide (sv_network_mode svc = Some "host") then Ok (mk_backend "127.0.0.1" port)
          else ip ← select_container_ip svc; Ok (mk_backend ip port)
      end
  end.

Definition backend_url (b : Backend) : string := "http://" +:+ authority b +:+ "/".

(** ** The daemon's answers *)

Record PortBinding := mk_binding { pbd_host_ip : option string; pbd_host_port : option string }.
Record NetworkSettings := mk_net_settings {
  ns_ports : option (list (string * option (list PortBinding)));
  ns_networks : option (list (string * option string));  (* name, ip_address *)
}.
Record ContainerConfig := mk_container_config {
  cc_labels : option (list (string * string)); cc_image : option string;
  cc_exposed_ports : option (list string);  (* the keys *)
}.
Record Inspect := mk_inspect {
  in_running : option bool;  (* [state.running] *)
  in_name : option string;
  in_config : option ContainerConfig;
  in_network_mode : option string;  (* [host_config.network_mode] *)
  in_network_settings : option NetworkSettings;
}.

(** The map lookup of [labels_raw.get(key)]. *)
Fixpoint assoc (key : string) (l : list (string * string)) : option string :=
  match l with
  | [] => None
  | (k, v) :: l' => if decide (k = key) then Some v else assoc key l'
  end.

(** [key.split('/').next()] parsed. *)
Definition port_of_key (key : string) : option Z := parse_u16 (split_first "/"%char key).

Definition inspect_labels (i : Inspect) : list (string * string) :=
  default [] (in_config i ≫= cc_labels).
Definition inspect_name (id : string) (i : Inspect) : string :=
  trim_start_matches "/"%char (default id (in_name i)).
Definition inspect_networks (i : Inspect) : gmap string string :=
  collect_map (omap (λ '(nname, ip),
    match ip with
    | Some s => if str_is_empty s then None else Some (nname, s)
    | None => None
    end) (default [] (in_network_settings i ≫= ns_networks))).
Definition inspect_exposed (i : Inspect) : list Z :=
  omap port_of_key (default [] (in_config i ≫= cc_exposed_ports)).

(** ** [docker_runtime.rs] *)

(** The published ports as [inspect_service] reads them: a binding with a port
    and an address, or with a port only. *)
Definition service_binding (cport : Z) (b : PortBinding) : option PublishedPort :=
  match pbd_host_port b, pbd_host_ip b with
  | Some hp, Some hi => hport ← parse_u16 hp; Some (mk_published cport hi hport)
  | Some hp, None => hport ← parse_u16 hp; Some (mk_published cport "0.0.0.0" hport)
  | None, _ => None
  end.
Definition service_ports (i : Inspect) : list PublishedPort :=
  default [] (in_network_settings i ≫= ns_ports) ≫= λ '(key, bindings),
    omap (service_binding (default 0 (port_of_key key))) (default [] bindings).

Section runtime.
Context `{Idna} `{UrlCrate}.

(** [inspect]: the daemon's answer about the container. *)
Definition inspect_service (id : string) (inspect : result string Inspect)
    : result string (option DiscoveredService) :=
  i ← inspect;
  if negb (default false (in_running i)) then Ok None
  else
    match labels_from_map (inspect_labels i) with
    | None => Ok None
    | Some labels =>
        if is_err (validate_service_labels labels) then Ok None
        else Ok (Some (mk_service id (inspect_name id i) labels (in_network_mode i) (service_ports i)
               (inspect_networks i) (inspect_exposed i)))
    end.

(** [containers]: the ids of the listing; a container without an id is skipped,
    and so is one whose inspection fails. *)
Definition list_services (containers : result string (list (option string)))
    (inspect : string → result string Inspect) : result string (list DiscoveredService) :=
  match containers with
  | Err e => Err e
  | Ok cs => Ok (omap (λ cid,
      match cid with
      | Some id => match inspect_service id (inspect id) with Ok (Some s) => Some s | _ => None end
      | None => None
      end) cs)
  end.
End runtime.

(** How [connect] reaches the daemon: bollard's default socket, or a path with
    its timeout in seconds. *)
Inductive DockerSocket := SocketDefaults | UnixSocket (path : string) (timeout : Z).
Definition connect_docker (socket : string) : DockerSocket :=
  if bool_decide (socket = "/var/run/docker.sock") || str_is_empty socket then SocketDefaults
  else UnixSocket socket 120.
(** The filters of [watch_events]. *)
Definition event_filters : gmap string (list string) := {[ "type" := ["container"; "network"] ]}.

(** [msg.action] of an event. *)
Definition is_relevant_event (action : option string) : bool :=
  let a := default EmptyString action in
  bool_decide (a ∈ ["start"; "stop"; "die"; "destroy"; "rename"; "connect"; "disconnect";
    "health_status"; "health_status: healthy"; "health_status: unhealthy"])
  || starts_with "health_status" a.

(** ** [candidate.rs] *)

Definition SKIP_IMAGE_PREFIXES : list string :=
  ["redis:"; "postgres:"; "mysql:"; "mongo:"; "mariadb:"; "memcached:"; "rabbitmq:"; "pgvector/";
   "tensorchord/"].
Definition should_skip_image (image : string) : bool :=
  let lower := to_ascii_lowercase image in
  existsb (λ p, contains_str p lower) SKIP_IMAGE_PREFIXES.

Record ContainerCandidate := mk_candidate {
  ca_identity_key : string; ca_container_id : string; ca_container_name : string;
  ca_image : string; ca_network_mode : option string; ca_published_ports : list PublishedPort;
  ca_exposed_ports : list Z; ca_networks : gmap string string; ca_compose_project : option string;
  ca_compose_service : option string; ca_has_tailsvc_labels : bool;
  ca_suggested_backend : option Backend;
}.

Definition to_dto (c : ContainerCandidate) : DiscoveredContainerDto :=
  {| dc_identity_key := ca_identity_key c; dc_container_id := ca_container_id c;
     dc_container_name := ca_container_name c; dc_image := ca_image c;
     dc_network_mode := ca_network_mode c;
     dc_suggested_backend := (λ b, trim_end_matches "/"%char (base_url b)) <$> ca_suggested_backend c;
     dc_published_ports := sort_dedup (host_port <$> ca_published_ports c);
     dc_exposed_ports := ca_exposed_ports c; dc_compose_project := ca_compose_project c;
     dc_compose_service := ca_compose_service c; dc_has_tailsvc_labels := ca_has_tailsvc_labels c |}.

Definition suggest_backend (network_mode : option string) (published : list PublishedPort)
    (exposed : list Z) (networks : gmap string string) : option Backend :=
  match published with
  | [p] => Some (mk_backend (published_host (host_ip p)) (host_port p))
  | _ =>
      if bool_decide (network_mode = Some "host") then
        match exposed with [p] => Some (mk_backend "127.0.0.1" p) | _ => None end
      else
        match map_to_list networks, exposed with
        | [(_, ip)], [p] => Some (mk_backend ip p)
        | _, _ => None
        end
  end.

(** The published ports as [inspect_candidate] reads them. *)
Definition candidate_binding (cport : Z) (b : PortBinding) : option PublishedPort :=
  hp ← pbd_host_port b; hport ← parse_u16 hp;
  Some (mk_published cport (default "0.0.0.0" (pbd_host_ip b)) hport).
Definition candidate_ports (i : Inspect) : list PublishedPort :=
  default [] (in_network_settings i ≫= ns_ports) ≫= λ '(key, bindings),
    omap (candidate_binding (default 0 (port_of_key key))) (default [] bindings).

Section candidates.
Context `{Idna} `{UrlCrate}.

Definition inspect_candidate (id : string) (inspect : result string Inspect)
    : result string (option ContainerCandidate) :=
  i ← inspect;
  if negb (default false (in_running i)) then Ok None
  else
    let labels_raw := inspect_labels i in
    let name := inspect_name id i in
    let image := default EmptyString (in_config i ≫= cc_image) in
    let compose_project := assoc "com.docker.compose.project" labels_raw in
    let compose_service := assoc "com.docker.compose.service" labels_raw in
    let identity_key :=
      match compose_project, compose_service with
      | Some p, Some s => "compose:" +:+ p +:+ "/" +:+ s
      | _, _ => "name:" +:+ name
      end in
    let published_ports := candidate_ports i in
    let networks := inspect_networks i in
    let exposed_ports := sort_dedup (inspect_exposed i) in
    Ok (Some (mk_candidate identity_key id name image (in_network_mode i) published_ports
          exposed_ports networks compose_project compose_service
          (bool_decide (is_Some (labels_from_map labels_raw)))
          (suggest_backend (in_network_mode i) published_ports exposed_ports networks))).

Definition list_candidates (containers : result string (list (option string)))
    (inspect : string → result string Inspect) : result string (list ContainerCandidate) :=
  match containers with
  | Err e => Err e
  | Ok cs =>
      let out := omap (λ cid,
        match cid with
        | Some id =>
            match inspect_candidate id (inspect id) with
            | Ok (Some c) => if should_skip_image (ca_image c) then None else Some c
            | _ => None
            end
        | None => None
        end) cs in
      Ok (sort_by (λ a b, String.leb (ca_container_name a) (ca_container_name b)) out)
  end.
End candidates.
