(* ===== verification/DockerSpec.v ===== *)
(** * What backend resolution promises

    [resolve_backend] against the priorities of the design, stated as a relation
    that does not depend on the order in which the daemon's maps are read. *)
From S2P Require Import Prelude RustStr Net Externals Common Concrete Hostname Labels Docker.
From Stdlib Require Import Ascii Sorting.Sorted.
From stdpp Require Import sorting list.
#[local] Open Scope Z_scope.

(** ** Specification *)

(** The bindings of the chosen port that reach this host. *)
Definition bindings_of (svc : DiscoveredService) (port : Z) : list PublishedPort :=
  filter (λ p, container_port p = port) (sv_published_ports svc).
Definition local_bindings_of (svc : DiscoveredService) (port : Z) : list PublishedPort :=
  filter (λ p, local_binding p = true) (bindings_of svc port).

(** The port of the container: the label, else the only exposed port, else the
    only container port that is published. *)
Inductive port_of (svc : DiscoveredService) : Z → Prop :=
| port_label p : label_port (sv_labels svc) = Some p → port_of svc p
| port_exposed p : label_port (sv_labels svc) = None → sv_exposed_ports svc = [p] → port_of svc p
| port_published p b : label_port (sv_labels svc) = None → length (sv_exposed_ports svc) ≠ 1%nat →
    b ∈ sv_published_ports svc → container_port b = p →
    (∀ b', b' ∈ sv_published_ports svc → container_port b' = p) → port_of svc p.

(** The priorities, each rule excluding the earlier ones. *)
Inductive resolves (svc : DiscoveredService) : Backend → Prop :=
| res_explicit b : label_backend (sv_labels svc) = Some b → resolves svc b
| res_published port p : label_backend (sv_labels svc) = None → port_of svc port →
    (bindings_of svc port = [p]
     ∨ (2 <= length (bindings_of svc port))%nat ∧ local_bindings_of svc port = [p]) →
    resolves svc (mk_backend (published_host (host_ip p)) (host_port p))
| res_host_network port : label_backend (sv_labels svc) = None → port_of svc port →
    bindings_of svc port = [] → sv_network_mode svc = Some "host" →
    resolves svc (mk_backend "127.0.0.1" port)
| res_network port net ip : label_backend (sv_labels svc) = None → port_of svc port →
    bindings_of svc port = [] → sv_network_mode svc ≠ Some "host" →
    label_network (sv_labels svc) = Some net → sv_networks svc !! net = Some ip →
    resolves svc (mk_backend ip port)
| res_only_network port net ip : label_backend (sv_labels svc) = None → port_of svc port →
    bindings_of svc port = [] → sv_network_mode svc ≠ Some "host" →
    label_network (sv_labels svc) = None → sv_networks svc = {[ net := ip ]} →
    resolves svc (mk_backend ip port).

(** ** Sorting port numbers *)

Lemma sort_ports_sorted l : StronglySorted Z.le (sort_by Z.leb l).
Proof. apply sort_by_sorted; [apply _|]. intros a b. destruct (Z.leb_spec a b); lia. Qed.
Lemma sort_ports_unique l k : l ≡ₚ k → sort_by Z.leb l = sort_by Z.leb k.
Proof.
  intros Hp. apply (StronglySorted_unique Z.le); [apply sort_ports_sorted..|]. by rewrite !sort_by_perm.
Qed.

Lemma dedup_adjacent_elem l x : x ∈ dedup_adjacent l ↔ x ∈ l.
Proof.
  induction l as [|y l IH]; [done|]. cbn [dedup_adjacent]. rewrite elem_of_cons, <- IH.
  destruct (dedup_adjacent l) as [|z zs].
  - rewrite list_elem_of_singleton, elem_of_nil. tauto.
  - destruct (y =? z) eqn:Hy; breflect; rewrite !elem_of_cons; [subst; tauto | done].
Qed.
Lemma dedup_adjacent_sorted l : StronglySorted Z.le l → StronglySorted Z.lt (dedup_adjacent l).
Proof.
  induction 1 as [|x l Hs IH Hx]; cbn; [constructor|].
  assert (Forall (Z.le x) (dedup_adjacent l)) as Hd.
  { apply Forall_forall. intros y Hy. rewrite dedup_adjacent_elem in Hy.
    rewrite Forall_forall in Hx. auto. }
  destruct (dedup_adjacent l) as [|y ys]; [by repeat constructor|].
  destruct (x =? y) eqn:Hxy; breflect; [done|]. inversion_clear Hd. inversion IH as [|? ? ? Hy]; subst.
  constructor; [done|]. constructor; [lia|]. eapply Forall_impl; [exact Hy|]. cbn. lia.
Qed.

(** The ports, in order and once each. *)
Lemma sort_dedup_elem l x : x ∈ sort_dedup l ↔ x ∈ l.
Proof. unfold sort_dedup. by rewrite dedup_adjacent_elem, sort_by_perm. Qed.
Lemma sort_dedup_sorted l : StronglySorted Z.lt (sort_dedup l).
Proof. apply dedup_adjacent_sorted, sort_ports_sorted. Qed.
Lemma sort_dedup_singleton l p : sort_dedup l = [p] ↔ p ∈ l ∧ ∀ x, x ∈ l → x = p.
Proof.
  split.
  - intros Hl. split; [by rewrite <- sort_dedup_elem, Hl; left|].
    intros x Hx. by rewrite <- sort_dedup_elem, Hl, list_elem_of_singleton in Hx.
  - intros [Hp Hall]. pose proof (sort_dedup_sorted l) as Hs. rewrite <- sort_dedup_elem in Hp.
    assert (∀ x, x ∈ sort_dedup l → x = p) as Hall' by (intros x Hx; rewrite sort_dedup_elem in Hx; auto).
    destruct (sort_dedup l) as [|a [|b k]].
    + by apply elem_of_nil in Hp.
    + by rewrite (Hall' a) by left.
    + exfalso. inversion_clear Hs as [|? ? _ Ha]. inversion_clear Ha as [|? ? Hab _].
      rewrite (Hall' a), (Hall' b) in Hab by set_solver. lia.
Qed.

(** ** Lemmas *)

Lemma chosen_port_of svc p : chosen_port svc = Some p ↔ port_of svc p.
Proof.
  unfold chosen_port, single_exposed_port, single_published_container_port. split.
  - destruct (label_port (sv_labels svc)) as [q|] eqn:Hl; [intros [= <-]; by constructor|].
    destruct (sv_exposed_ports svc) as [|q [|q' qs]] eqn:He.
    2: { intros [= <-]. by apply port_exposed. }
    all: destruct (sort_dedup _) as [|a [|]] eqn:Hs; try done; intros [= <-].
    all: apply sort_dedup_singleton in Hs as [(b & -> & Hb)%list_elem_of_fmap Hall].
    all: eapply port_published; rewrite ?He; [done | cbn; lia | exact Hb | done|].
    all: intros b' Hb'; apply Hall; by apply list_elem_of_fmap_2.
  - destruct 1 as [p Hl|p Hl He|p b Hl He Hb <- Hall]; rewrite Hl; [done|by rewrite He|].
    destruct (sv_exposed_ports svc) as [|q [|q' qs]]; try done.
    all: assert (sort_dedup (container_port <$> sv_published_ports svc) = [container_port b]) as ->
      by (apply sort_dedup_singleton; split; [by apply list_elem_of_fmap_2|];
          intros x (b' & -> & Hb')%list_elem_of_fmap; auto).
    all: done.
Qed.

Lemma select_published_port_eq svc port :
  select_published_port svc port =
  match bindings_of svc port, local_bindings_of svc port with
  | [], _ => Ok None
  | [p], _ => Ok (Some p)
  | _, [p] => Ok (Some p)
  | _, _ => Err (AmbiguousBackend "multiple published bindings for port")
  end.
Proof.
  unfold select_published_port, local_bindings_of. fold (bindings_of svc port).
  by destruct (bindings_of svc port) as [|? [|]].
Qed.

Lemma select_container_ip_Ok svc ip :
  select_container_ip svc = Ok ip ↔
  match label_network (sv_labels svc) with
  | Some net => sv_networks svc !! net = Some ip
  | None => ∃ net, sv_networks svc = {[ net := ip ]}
  end.
Proof.
  unfold select_container_ip. destruct (label_network (sv_labels svc)); [apply ok_or_Ok|]. split.
  - destruct (map_to_list (sv_networks svc)) as [|[net x] [|]] eqn:Hm; try done.
    intros [= <-]. exists net. apply map_to_list_inj. rewrite Hm, map_to_list_singleton. done.
  - intros [net ->]. by rewrite map_to_list_singleton.
Qed.

Lemma resolve_backend_iff svc b : resolve_backend svc = Ok b ↔ resolves svc b.
Proof.
  unfold resolve_backend. split.
  - destruct (label_backend (sv_labels svc)) as [b'|] eqn:Hb; [intros [= ->]; by constructor|].
    intros (port & Hport%ok_or_Ok%chosen_port_of & Hx)%result_bind_Ok.
    apply result_bind_Ok in Hx as (pubp & Hp & Hx). rewrite select_published_port_eq in Hp.
    destruct pubp as [p|].
    + injection Hx as <-. apply (res_published svc port); [done..|].
      destruct (bindings_of svc port) as [|? [|? ?]] eqn:Hbs; [done|left; congruence|right].
      split; [cbn; lia|]. by destruct (local_bindings_of svc port) as [|? [|]]; simplify_eq.
    + assert (bindings_of svc port = []) as Hbs.
      { by destruct (bindings_of svc port) as [|? [|? ?]], (local_bindings_of svc port) as [|? [|? ?]]. }
      case_bool_decide as Hm; [injection Hx as <-; by apply res_host_network|].
      apply result_bind_Ok in Hx as (ip & Hip%select_container_ip_Ok & [= <-]).
      destruct (label_network (sv_labels svc)) eqn:Hn; [by eapply res_network|].
      destruct Hip as [net Hnet]. by eapply res_only_network.
  - destruct 1 as [b Hb|port p Hb Hport Hbs|port Hb Hport Hbs Hm|port net ip Hb Hport Hbs Hm Hn Hnet
                  |port net ip Hb Hport Hbs Hm Hn Hnet]; rewrite Hb; [done|..];
      apply chosen_port_of in Hport; rewrite Hport; cbn [ok_or mbind result_bind];
      rewrite select_published_port_eq.
    + destruct Hbs as [-> |[Hlen ->]]; [done|]. by destruct (bindings_of svc port) as [|? [|]]; cbn in Hlen; try lia.
    + rewrite Hbs. cbn. by rewrite bool_decide_true.
    + rewrite Hbs. cbn [mbind result_bind]. rewrite bool_decide_false by done.
      rewrite (proj2 (select_container_ip_Ok svc ip)); [done|]. by rewrite Hn.
    + rewrite Hbs. cbn [mbind result_bind]. rewrite bool_decide_false by done.
      rewrite (proj2 (select_container_ip_Ok svc ip)); [done|]. rewrite Hn. by exists net.
Qed.

(** ** Properties *)

(** C31: [resolve_backend] implements the design's priorities and nothing else:
    the explicit backend; else the published binding of the container's port,
    the only one or the only one that is local; else the loopback address for a
    container on the host's network; else the address in the selected, or only,
    network.  In every other case it fails as ambiguous. *)
Theorem resolve_backend_priorities svc :
  (∀ b, resolve_backend svc = Ok b ↔ resolves svc b)
  ∧ ∀ e, resolve_backend svc = Err e → (∃ msg, e = AmbiguousBackend msg) ∧ ∀ b, ¬ resolves svc b.
Proof.
  split; [apply resolve_backend_iff|]. intros e He. split.
  - revert He. unfold resolve_backend, select_published_port, select_container_ip, ok_or.
    cbn [mbind result_bind]. intros He. repeat (case_match; cbn [mbind result_bind] in *; simplify_eq/=); eauto.
  - intros b Hb. apply resolve_backend_iff in Hb. congruence.
Qed.

Lemma filter_singleton_perm {A} (l k : list A) (x : A) : l ≡ₚ k → l = [x] → k = [x].
Proof. intros Hp ->. by apply Permutation_singleton_l in Hp. Qed.

(** The backend does not depend on the order in which the daemon lists the
    published bindings and the exposed ports, which come from hash maps. *)
Theorem resolve_backend_order_independent svc published exposed :
  published ≡ₚ sv_published_ports svc → exposed ≡ₚ sv_exposed_ports svc →
  resolve_backend (mk_service (sv_container_id svc) (sv_container_name svc) (sv_labels svc)
    (sv_network_mode svc) published (sv_networks svc) exposed) = resolve_backend svc.
Proof.
  intros Hp He. set (svc' := mk_service _ _ _ _ _ _ _).
  assert (chosen_port svc' = chosen_port svc) as Hport.
  { unfold chosen_port, single_exposed_port, single_published_container_port, sort_dedup, svc'.
    cbn [sv_labels sv_exposed_ports sv_published_ports].
    rewrite (sort_ports_unique (container_port <$> published) (container_port <$> sv_published_ports svc))
      by by rewrite Hp.
    destruct (sv_exposed_ports svc) as [|p [|q l]].
    - by apply Permutation_nil_r in He as ->.
    - by apply Permutation_singleton_r in He as ->.
    - apply Permutation_length in He. by destruct exposed as [|? [|]]. }
  unfold resolve_backend. rewrite Hport. unfold svc' at 1 3. cbn [sv_labels sv_network_mode].
  destruct (label_backend (sv_labels svc)); [done|].
  destruct (chosen_port svc) as [port|]; [|done]. cbn [ok_or mbind result_bind].
  assert (select_published_port svc' port = select_published_port svc port) as ->; [|done].
  rewrite !select_published_port_eq. unfold local_bindings_of, bindings_of, svc'. cbn [sv_published_ports].
  assert (filter (λ p, container_port p = port) published
    ≡ₚ filter (λ p, container_port p = port) (sv_published_ports svc)) as Hf by by rewrite Hp.
  revert Hf. generalize (filter (λ p, container_port p = port) published).
  generalize (filter (λ p, container_port p = port) (sv_published_ports svc)). intros l k Hlk.
  assert (filter (λ p, local_binding p = true) k ≡ₚ filter (λ p, local_binding p = true) l) as Hl by by rewrite Hlk.
  revert Hl. generalize (filter (λ p, local_binding p = true) k).
  generalize (filter (λ p, local_binding p = true) l). intros l' k' Hl'.
  destruct l as [|a [|b l]].
  - by apply Permutation_nil_r in Hlk as ->.
  - by apply Permutation_singleton_r in Hlk as ->.
  - pose proof (Permutation_length Hlk). destruct k as [|c [|d k]]; try done.
    destruct l' as [|x [|y l']].
    + by apply Permutation_nil_r in Hl' as ->.
    + by apply Permutation_singleton_r in Hl' as ->.
    + pose proof (Permutation_length Hl'). by destruct k' as [|? [|]].
Qed.

Section witnesses.
#[local] Definition labelled (port : option Z) : ServiceLabels := mk_labels ["x.internal"] port None None.
#[local] Definition web (published : list PublishedPort) (exposed : list Z) : DiscoveredService :=
  mk_service "c1" "web" (labelled None) None published {[ "frontend" := "172.18.0.4" ]} exposed.
Lemma resolve_backend_order_independent_witness :
  resolve_backend (web [mk_published 80 "::" 8080; mk_published 80 "0.0.0.0" 8080] [80])
  = Ok (mk_backend "127.0.0.1" 8080).
Proof.
  etrans; [apply (resolve_backend_order_independent
    (web [mk_published 80 "0.0.0.0" 8080; mk_published 80 "::" 8080] [80])
    [mk_published 80 "::" 8080; mk_published 80 "0.0.0.0" 8080] [80])
    | vm_compute; reflexivity]; [apply perm_swap | reflexivity].
Defined.
End witnesses.
