(* ===== verification/ProxyRoutes.v ===== *)
(** * The agent's routing table ([tailsvc-proxy/src/routes.rs])

    An atomically swapped map from hostnames to backends; a read sees one whole
    map. *)
From S2P Require Import Prelude RustStr Net Externals Common.
From Stdlib Require Import Ascii.
#[local] Open Scope Z_scope.

Record BackendRoute := mk_backend_route {
  br_backend : Backend; br_container_id : option string; br_container_name : option string }.
#[export] Instance BackendRoute_eq_dec : EqDecision BackendRoute.
Proof. solve_decision. Defined.

Abbreviation RouteTable := (gmap string BackendRoute).
Record SharedRouteStore := mk_route_store { rs_inner : RouteTable }.

Definition new_route_store : SharedRouteStore := mk_route_store ∅.
Definition replace_routes (routes : RouteTable) (s : SharedRouteStore) : SharedRouteStore :=
  mk_route_store routes.
Definition resolve (s : SharedRouteStore) (host : string) : option BackendRoute :=
  let key := to_ascii_lowercase (split_first ":"%char host) in
  rs_inner s !! key.
