(* ===== verification/Proxy.v ===== *)
(** * The HTTP proxy of the agent ([tailsvc-proxy/src/proxy.rs])

    One request is a function of the routing table, the request's head and what
    the backend does; bodies are streamed unchanged by hyper and are opaque
    here.  The accept loop and the requests of a connection are lists of what
    arrives; the bytes a WebSocket tunnel copies are hyper's. *)
From S2P Require Import Prelude RustStr Net Externals Common ProxyRoutes.
From Stdlib Require Import Ascii.
#[local] Open Scope Z_scope.

Record ProxyConfig := mk_proxy_config {
  px_connect_timeout : Z; px_response_timeout : Z; px_routes : SharedRouteStore;
  px_shutting_down : bool;
}.

Section proxy.
Context `{HeaderCrate}.

(** The head of a request; [rq_path_and_query] is absent for the asterisk form. *)
Record Request := mk_http_request {
  rq_method : string; rq_path_and_query : option string; rq_headers : HeaderMap }.
(** A response: the status, its headers in the order they are added, the body. *)
Record Response := mk_http_response {
  rp_status : Z; rp_headers : list (string * string); rp_body : string }.

Definition text_response (status : Z) (body : string) : Response :=
  mk_http_response status
    [("content-type", "text/plain; charset=utf-8"); ("cache-control", "no-store")] body.

(** [headers.get(name).and_then(|v| v.to_str().ok())] *)
Definition header_str (name : string) (h : HeaderMap) : option string := hm_get name h ≫= hv_to_str.

Definition is_websocket_upgrade (req : Request) : bool :=
  let upgrade := default false
    ((λ s, eq_ignore_ascii_case s "websocket") <$> header_str "upgrade" (rq_headers req)) in
  let connection := default false
    ((λ s, contains_str "upgrade" (to_ascii_lowercase s)) <$> header_str "connection" (rq_headers req)) in
  upgrade && connection.

(** [from_bytes] is [HeaderValue::from_bytes] on the bytes of a header value. *)
Definition inject_forwarded_headers (from_bytes : string → option string) (headers : HeaderMap)
    (peer : SocketAddr) (original_host : option string) : HeaderMap :=
  let headers := match original_host with
                 | Some h => hm_insert "host" h headers
                 | None => headers
                 end in
  let headers := hm_insert "x-forwarded-proto" "http" headers in
  let headers := match original_host ≫= from_bytes with
                 | Some v => hm_insert "x-forwarded-host" v headers
                 | None => headers
                 end in
  let peer_ip := show_ip (sa_ip peer) in
  let xff := match header_str "x-forwarded-for" headers with
             | Some existing =>
                 if negb (str_is_empty existing) then existing +:+ ", " +:+ peer_ip else peer_ip
             | None => peer_ip
             end in
  match hv_from_str xff with
  | Some v => hm_insert "x-forwarded-for" v headers
  | None => headers
  end.

(** What sending the request to the backend gives, within the response timeout. *)
Inductive ClientOutcome :=
| Answered (r : Response)
| ClientError (msg : string)
| NoAnswer.

(** Whether the connector's error is a timeout, from its text. *)
Definition timeout_message (msg : string) : bool :=
  let m := to_ascii_lowercase msg in
  contains_str "timeout" m || contains_str "timed out" m.

(** The stages of a WebSocket handshake with the backend. *)
Inductive WsOutcome :=
| WsNoAddress
| WsConnectError
| WsConnectTimeout
| WsBadRequest
| WsHandshakeError
| WsRequestError
| WsAnswered (r : Response).

(** The world of one request: whether a string is an URI, the header crate's
    [from_bytes], what a backend does with a request for an URI, and with an
    upgrade request at an authority for a path; [ws_response_ok] is whether the
    headers of its 101 make a response. *)
Record Backends := mk_backends {
  uri_ok : string → bool;
  value_from_bytes : string → option string;
  send : string → HeaderMap → ClientOutcome;
  ws_send : string → string → HeaderMap → WsOutcome;
  response_ok : Response → bool;
}.

Definition path_q (req : Request) : string := default "/" (rq_path_and_query req).

(** The response copied to the client: the cache header first, every header of
    the backend but the transfer encoding after it. *)
Definition copied_response (r : Response) : Response :=
  mk_http_response (rp_status r)
    (("cache-control", "no-store, no-cache, must-revalidate")
       :: filter (λ h, h.1 ≠ "transfer-encoding") (rp_headers r))
    (rp_body r).

Definition proxy_http (w : Backends) (peer : SocketAddr) (req : Request) (route : BackendRoute)
    : Response :=
  let authority := authority (br_backend route) in
  let target_uri := "http://" +:+ authority +:+ path_q req in
  if negb (uri_ok w target_uri) then text_response 400 "bad request"
  else
    let original_host := hm_get "host" (rq_headers req) in
    let headers := inject_forwarded_headers (value_from_bytes w) (rq_headers req) peer original_host in
    match send w target_uri headers with
    | Answered r =>
        if response_ok w (copied_response r) then copied_response r
        else text_response 502 "backend unavailable"
    | ClientError msg =>
        if timeout_message msg then text_response 504 "backend timeout"
        else text_response 502 "backend unavailable"
    | NoAnswer => text_response 504 "backend timeout"
    end.

Definition proxy_websocket (w : Backends) (peer : SocketAddr) (req : Request) (route : BackendRoute)
    : Response :=
  let authority := authority (br_backend route) in
  let original_host := hm_get "host" (rq_headers req) in
  let headers := inject_forwarded_headers (value_from_bytes w) (rq_headers req) peer original_host in
  match ws_send w authority (path_q req) headers with
  | WsConnectTimeout => text_response 504 "backend timeout"
  | WsBadRequest => text_response 400 "bad request"
  | WsNoAddress | WsConnectError | WsHandshakeError | WsRequestError =>
      text_response 502 "backend unavailable"
  | WsAnswered r =>
      if negb (rp_status r =? 101) then text_response 502 "backend unavailable"
      else
        let out := mk_http_response 101 (rp_headers r) EmptyString in
        if response_ok w out then out else text_response 502 "backend unavailable"
  end.

(** The task of a tunnel, spawned once the response is built: the client's upgrade
    is awaited first, then the backend's; [copy] is what copying in both
    directions ends with, the bytes each way or an error.  Both sides are shut
    down however the copy ends. *)
Inductive TunnelEnd :=
| ClientUpgradeFailed (e : string)
| BackendUpgradeFailed (e : string)
| TunnelClosed (copied : result string (Z * Z)) (client_shut backend_shut : bool).
Definition ws_tunnel {Io : Type} (client_upgrade backend_upgrade : result string Io)
    (copy : Io → Io → result string (Z * Z)) : TunnelEnd :=
  match client_upgrade with
  | Err e => ClientUpgradeFailed e
  | Ok client_io =>
      match backend_upgrade with
      | Err e => BackendUpgradeFailed e
      | Ok backend_io => TunnelClosed (copy client_io backend_io) true true
      end
  end.

Definition handle (cfg : ProxyConfig) (w : Backends) (peer : SocketAddr) (req : Request) : Response :=
  if px_shutting_down cfg then text_response 503 "agent shutting down"
  else
    let host_hdr := default EmptyString (header_str "host" (rq_headers req)) in
    match resolve (px_routes cfg) host_hdr with
    | None => text_response 404 "unknown tailsvc host"
    | Some route =>
        if is_websocket_upgrade req then proxy_websocket w peer req route
        else proxy_http w peer req route
    end.

(** [ProxyServer::run]: the accept loop on what [accept] gives, a connection with
    its requests or an error, which ends it.  [cfg i j] is the shared
    configuration at request [j] of connection [i]; a connection is served in a
    task of its own, its requests in order. *)
Fixpoint serve_connection (cfg : nat → ProxyConfig) (w : Backends) (peer : SocketAddr) (j : nat)
    (reqs : list Request) : list Response :=
  match reqs with
  | [] => []
  | req :: reqs' => handle (cfg j) w peer req :: serve_connection cfg w peer (S j) reqs'
  end.
Fixpoint accept_loop (cfg : nat → nat → ProxyConfig) (w : Backends) (i : nat)
    (accepts : list (result string (SocketAddr * list Request))) : list (list Response) * option string :=
  match accepts with
  | [] => ([], None)
  | Err e :: _ => ([], Some e)
  | Ok (peer, reqs) :: accepts' =>
      let '(out, e) := accept_loop cfg w (S i) accepts' in
      (serve_connection (cfg i) w peer 0 reqs :: out, e)
  end.
Definition proxy_run (bind : result string unit) (cfg : nat → nat → ProxyConfig) (w : Backends)
    (accepts : list (result string (SocketAddr * list Request))) : list (list Response) * option string :=
  match bind with
  | Err e => ([], Some e)
  | Ok _ => accept_loop cfg w 0 accepts
  end.

(** Every connection accepted before the first error is served; none after it. *)
Lemma accept_loop_until_error cfg w i conns e rest :
  accept_loop cfg w i ((Ok <$> conns) ++ Err e :: rest) =
  (imap (λ j c, serve_connection (cfg (i + j)%nat) w c.1 0 c.2) conns, Some e).
Proof.
  revert i. induction conns as [|[peer reqs] conns IH]; intros i; [done|].
  rewrite fmap_cons. cbn [app accept_loop]. rewrite IH, imap_cons, Nat.add_0_r. cbn [fst snd].
  do 2 f_equal. apply imap_ext. intros j x _. cbn. by rewrite Nat.add_succ_r.
Qed.
End proxy.
