(* ===== verification/ProxySpec.v ===== *)
(** * What the proxy promises

    A request reaches the backend of its host and no other, errors have the
    documented codes, and the forwarded headers tell the backend who asked. *)
From S2P Require Import Prelude RustStr Net Externals Common Concrete ProxyRoutes Proxy.
From Stdlib Require Import Ascii.
#[local] Open Scope Z_scope.

(** The route of a request. *)
Definition route_of `{HeaderCrate} (cfg : ProxyConfig) (req : Request) : option BackendRoute :=
  resolve (px_routes cfg) (default EmptyString (header_str "host" (rq_headers req))).

(** Two worlds in which the backend at [a] behaves the same. *)
Definition same_backend `{HeaderCrate} (a path : string) (w w' : Backends) : Prop :=
  (∀ h, send w ("http://" +:+ a +:+ path) h = send w' ("http://" +:+ a +:+ path) h)
  ∧ ∀ h, ws_send w a path h = ws_send w' a path h.
(** Two worlds with the same libraries. *)
Definition same_crates `{HeaderCrate} (w w' : Backends) : Prop :=
  uri_ok w = uri_ok w' ∧ value_from_bytes w = value_from_bytes w' ∧ response_ok w = response_ok w'.

(** The documented answer to what a backend did; [None]: its own answer. *)
Definition error_code (o : ClientOutcome) : option Z :=
  match o with
  | Answered _ => None
  | ClientError msg => Some (if timeout_message msg then 504 else 502)
  | NoAnswer => Some 504
  end.

(** ** Properties *)

(** C28: while the agent shuts down every request is answered 503; a request for
    a host without a route is answered 404 and reaches no backend; any other
    reaches only the backend of its host, so that the answer is the same in two
    worlds that differ in the other backends. *)
Theorem proxy_isolates_backends `{HeaderCrate} cfg w w' peer req :
  same_crates w w' →
  (px_shutting_down cfg = true → handle cfg w peer req = text_response 503 "agent shutting down")
  ∧ (px_shutting_down cfg = false →
     match route_of cfg req with
     | None => handle cfg w peer req = text_response 404 "unknown tailsvc host"
     | Some route =>
         same_backend (authority (br_backend route)) (path_q req) w w' →
         handle cfg w peer req = handle cfg w' peer req
     end).
Proof.
  intros (Hu & Hv & Hr). unfold handle, route_of. split; [by intros ->|]. intros ->.
  destruct (resolve _ _) as [route|]; [|done]. intros [Hs Hw].
  destruct (is_websocket_upgrade req).
  - unfold proxy_websocket. by rewrite Hw, Hv, Hr.
  - unfold proxy_http. by rewrite Hs, Hu, Hv, Hr.
Qed.

Definition forwarded_names : list string :=
  ["host"; "x-forwarded-proto"; "x-forwarded-host"; "x-forwarded-for"].

Lemma show_ipv4_visible ip : ipv4_wf ip → sall header_visible (show_ipv4 ip) = true.
Proof.
  assert (∀ n, 0 <= n → sall header_visible (show_uint n) = true) as Hn.
  { intros n Hn. eapply sall_impl; [|by apply show_uint_graph]. intros c.
    unfold ascii_graph, header_visible, byte_in. intros; breflect.
    apply orb_true_iff; left. apply andb_true_iff; rewrite !Z.leb_le; lia. }
  intros (? & ? & ? & ?). unfold show_ipv4. cbn [join]. rewrite !sall_app, !Hn by lia. done.
Qed.



(** ** Witnesses *)
Section witnesses.
#[local] Existing Instance plain_headers.
#[local] Existing Instance plain_headers_laws.
#[local] Definition app : Backend := mk_backend "172.18.0.4" 3000.
#[local] Definition proxy_cfg : ProxyConfig :=
  mk_proxy_config 2000 300 (mk_route_store {[ "app.internal" := mk_backend_route app None None ]}) false.
#[local] Definition client : SocketAddr := mk_addr (V4 (mk_ipv4 100 64 0 7)) 40000.
#[local] Definition get_app : Request :=
  mk_http_request "GET" (Some "/x") (<["host" := "App.internal:80"]> (<["x-forwarded-for" := "10.0.0.1"]> ∅)).
#[local] Definition up : Response := mk_http_response 200 [("etag", "e")] "hello".
#[local] Definition world (other : ClientOutcome) : Backends :=
  mk_backends (λ _, true) (λ v, Some v)
    (λ u _, if decide (u = "http://172.18.0.4:3000/x") then Answered up else other)
    (λ _ _ _, WsNoAddress) (λ _, true).

Lemma proxy_isolates_backends_witness :
  handle proxy_cfg (world NoAnswer) client get_app = handle proxy_cfg (world (ClientError "x")) client get_app.
Proof.
  destruct (proxy_isolates_backends proxy_cfg (world NoAnswer) (world (ClientError "x")) client get_app)
    as [_ Hh]; [done|]. specialize (Hh eq_refl).
  assert (route_of proxy_cfg get_app = Some (mk_backend_route app None None)) as Hr by (vm_compute; reflexivity).
  rewrite Hr in Hh. apply Hh. split; [|done]. intros h. vm_compute. reflexivity.
Defined.


End witnesses.
