(* ===== verification/Agent.v ===== *)
(** * The agent's configuration, state, readiness and client

    [config.rs], [agent_state.rs], [ready.rs], [controller_client.rs] and
    [tailscale.rs] of [tailsvc-agent].  Files, sockets and commands are their
    results. *)
From S2P Require Import Prelude RustStr Net Externals Common.
From Stdlib Require Import Ascii.
#[local] Open Scope Z_scope.

(** ** [config.rs] *)

Record StaticRouteConfig := mk_static_config { sc_hosts : list string; sc_backend : string }.
Record AgentConfig := mk_agent_config {
  ac_controller_url : string; ac_enrollment_token : option string; ac_docker_socket : string;
  ac_state_dir : string; ac_proxy_port : Z; ac_proxy_listen : option string;
  ac_tailscale_ipv4 : option string; ac_connect_timeout_ms : Z; ac_response_timeout_seconds : Z;
  ac_tcp_probe_on_register : bool; ac_status_listen : option string;
  ac_static_routes : list StaticRouteConfig;
}.
Definition default_docker_sock : string := "/var/run/docker.sock".
Definition default_state : string := "/var/lib/tailsvc-agent".
Definition default_proxy_port : Z := 80.
Definition default_connect_ms : Z := 2000.
Definition default_response_secs : Z := 300.
Definition default_probe : bool := true.

(** The variables [TAILSVC_ENROLLMENT_TOKEN] and
    [TAILSVC_CONTROLLER] over what figment extracted. *)
Definition apply_env (enrollment_token controller : option string) (c : AgentConfig) : AgentConfig :=
  mk_agent_config (default (ac_controller_url c) controller)
    (match ac_enrollment_token c with Some t => Some t | None => enrollment_token end)
    (ac_docker_socket c) (ac_state_dir c) (ac_proxy_port c) (ac_proxy_listen c) (ac_tailscale_ipv4 c)
    (ac_connect_timeout_ms c) (ac_response_timeout_seconds c) (ac_tcp_probe_on_register c)
    (ac_status_listen c) (ac_static_routes c).

(** [AgentConfig::load]: [figment] reads the file of that path and the variables
    that start with TAILSVC_; [env] is the environment. *)
Definition load_agent_config (env : string → option string) (figment : string → result string AgentConfig)
    : result string AgentConfig :=
  cfg ← map_err (λ e, "config: " +:+ e) (figment (default "config/agent.toml" (env "TAILSVC_CONFIG")));
  Ok (apply_env (env "TAILSVC_ENROLLMENT_TOKEN") (env "TAILSVC_CONTROLLER") cfg).

(** ** [agent_state.rs] *)

Record PersistedAgentState := mk_persisted {
  ps_agent_id : string; ps_agent_token : string; ps_controller_url : string }.
Definition state_path (dir : string) : string := dir +:+ "/agent.json".
(** [file]: [None] when the file does not exist, else the result of reading it. *)
Definition load `{SerdeJson PersistedAgentState} (file : option (result string string))
    : result string (option PersistedAgentState) :=
  match file with
  | None => Ok None
  | Some r => data ← r; s ← from_json data; Ok (Some s)
  end.
(** What is written to the file. *)
Definition save `{SerdeJson PersistedAgentState} (s : PersistedAgentState) : result string string :=
  to_json s.

(** ** [ready.rs] *)

Record AgentReady := mk_ready {
  tailscale_ok : bool; docker_ok : bool; proxy_ok : bool; enrolled : bool; initial_reconcile : bool }.
Definition not_ready : AgentReady := mk_ready false false false false false.
Definition is_ready (r : AgentReady) : bool :=
  tailscale_ok r && docker_ok r && proxy_ok r && enrolled r && initial_reconcile r.

(** The answer of the status server to the bytes it read, the buffer being
    padded with zeros to 1024 bytes. *)
Definition status_response (buf : string) (r : AgentReady) : string :=
  let req := from_utf8_lossy buf in
  let path := first_line req in
  let '(code, body) :=
    if contains_str " /ready" path then
      if is_ready r then ("200 OK", "ready") else ("503 Service Unavailable", "not ready")
    else ("200 OK", "ok") in
  let nl := String cr (String lf EmptyString) in
  "HTTP/1.1 " +:+ code +:+ nl +:+ "content-type: text/plain" +:+ nl
  +:+ "content-length: " +:+ show_uint (str_len body) +:+ nl +:+ "connection: close" +:+ nl +:+ nl +:+ body.

(** [run_status_server]: the bytes each accepted connection sent with the flags when
    it is answered; an error of [accept] ends the server. *)
Fixpoint status_loop (accepts : list (result string (string * AgentReady))) : list string * option string :=
  match accepts with
  | [] => ([], None)
  | Err e :: _ => ([], Some e)
  | Ok (buf, r) :: accepts' =>
      let '(out, e) := status_loop accepts' in (status_response buf r :: out, e)
  end.
Definition run_status_server (bind : result string unit)
    (accepts : list (result string (string * AgentReady))) : list string * option string :=
  match bind with Err e => ([], Some e) | Ok _ => status_loop accepts end.

(** Every connection accepted before the first error is answered, by the flags it
    finds; none after it. *)
Lemma status_until_error conns e rest :
  run_status_server (Ok tt) ((Ok <$> conns) ++ Err e :: rest)
  = ((λ c, status_response c.1 c.2) <$> conns, Some e).
Proof.
  cbn [run_status_server]. induction conns as [|[buf r] conns IH]; [done|].
  rewrite !fmap_cons. cbn [app status_loop]. by rewrite IH.
Qed.

(** ** [controller_client.rs] *)

Record ControllerClient := mk_client { cl_base : string; cl_agent_id : string; cl_token : string }.
Definition new_client (base agent_id token : string) : ControllerClient :=
  mk_client (trim_end_matches "/"%char base) agent_id token.
(** A request of the client: method, URL and Authorization header. *)
Record ApiCall := mk_call { call_method : string; call_url : string; call_auth : string }.
Definition agent_call (meth path : string) (c : ControllerClient) : ApiCall :=
  mk_call meth (cl_base c +:+ "/v1/agents/" +:+ cl_agent_id c +:+ "/" +:+ path)
    ("Bearer " +:+ cl_token c).
Definition heartbeat_call : ControllerClient → ApiCall := agent_call "POST" "heartbeat".
Definition put_routes_call : ControllerClient → ApiCall := agent_call "PUT" "routes".
Definition put_discovery_call : ControllerClient → ApiCall := agent_call "PUT" "discovery".
Definition desired_services_call : ControllerClient → ApiCall := agent_call "GET" "desired-services".
Definition enroll_call (base enrollment_token : string) : ApiCall :=
  mk_call "POST" (trim_end_matches "/"%char base +:+ "/v1/agents/enroll") ("Bearer " +:+ enrollment_token).

(** [StatusCode] of the http crate, printed. *)
Class HttpStatus := show_status : Z → string.
(** The result of a call from the status and body it was answered: [name] opens
    the error, [parse] reads the body. *)
Definition call_result `{HttpStatus} {A} (name : string) (parse : string → result string A)
    (answer : Z * string) : result string A :=
  let '(status, body) := answer in
  if negb ((200 <=? status) && (status <? 300)) then Err (name +:+ ": " +:+ show_status status)
  else parse body.

(** The methods, on what [send] does with a call and its JSON body: it changes the
    state [S] of who answers, and gives an error of the connection or the status
    and the body. *)
Section client.
Context `{HttpStatus} {S : Type} (send : ApiCall → option string → SE S string (Z * string)).

Definition send_json {B} `{SerdeJson B} (call : ApiCall) (req : B) : SE S string (Z * string) :=
  body ← lift (to_json req); send call (Some body).
Definition client_enroll `{SerdeJson EnrollRequest} `{SerdeJson EnrollResponse} (base enrollment_token : string)
    (req : EnrollRequest) : SE S string EnrollResponse :=
  resp ← se_map_err (λ e, "enroll request: " +:+ e) (send_json (enroll_call base enrollment_token) req);
  lift (call_result "enroll failed" from_json resp).
Definition client_heartbeat `{SerdeJson HeartbeatRequest} (c : ControllerClient) (req : HeartbeatRequest) : SE S string unit :=
  resp ← send_json (heartbeat_call c) req;
  lift (call_result "heartbeat" (λ _, Ok tt) resp).
Definition client_put_routes `{SerdeJson PutRoutesRequest} `{SerdeJson PutRoutesResponse} (c : ControllerClient)
    (req : PutRoutesRequest) : SE S string PutRoutesResponse :=
  resp ← send_json (put_routes_call c) req;
  lift (call_result "put routes" from_json resp).
Definition client_put_discovery `{SerdeJson DiscoveryReportRequest} (c : ControllerClient)
    (req : DiscoveryReportRequest) : SE S string unit :=
  resp ← send_json (put_discovery_call c) req;
  lift (call_result "discovery" (λ _, Ok tt) resp).
Definition client_desired_services `{SerdeJson DesiredServicesResponse} (c : ControllerClient)
    : SE S string DesiredServicesResponse :=
  resp ← send (desired_services_call c) None;
  lift (call_result "desired-services" from_json resp).
End client.

(** ** [tailscale.rs] *)

Definition TS_PREFIX : string := "100.".

Definition parse_ts_ip (s : string) : result string Ipv4Addr :=
  match parse_ipv4 s with
  | None => Err "parse ip"
  | Some ip =>
      if negb (starts_with TS_PREFIX s) then Err "not a tailscale CGNAT address"
      else if is_loopback ip || is_unspecified ip || is_broadcast ip then Err "invalid address class"
      else Ok ip
  end.

Definition quote : string := String "034" EmptyString.
Definition json_delim (c : ascii) : bool :=
  bool_decide (c = "034"%char) || bool_decide (c = "["%char) || bool_decide (c = "]"%char)
  || bool_decide (c = ","%char).
(** The first part, trimmed, that starts with the prefix and is an address. *)
Fixpoint first_ts_ip (parts : list string) : option Ipv4Addr :=
  match parts with
  | [] => None
  | part :: parts' =>
      let p := trim part in
      if starts_with "100." p then
        match parse_ts_ip p with Ok ip => Some ip | Err _ => first_ts_ip parts' end
      else first_ts_ip parts'
  end.
Definition parse_status_json_ip (body : string) : option Ipv4Addr :=
  let key := quote +:+ "TailscaleIPs" +:+ quote in
  slice ← find_from key body;
  first_ts_ip (split_on json_delim slice).

(** One candidate socket: absent, or what running curl on it gave. *)
Inductive CommandResult :=
| SpawnFailed
| ExitFailure
| Output (stdout : string).
Fixpoint from_local_api (socks : list (option CommandResult)) : result string Ipv4Addr :=
  match socks with
  | [] => Err "localapi unavailable"
  | None :: socks' => from_local_api socks'
  | Some SpawnFailed :: _ => Err "curl localapi"
  | Some ExitFailure :: socks' => from_local_api socks'
  | Some (Output out) :: socks' =>
      match parse_status_json_ip (from_utf8_lossy out) with
      | Some ip => Ok ip
      | None => from_local_api socks'
      end
  end.
Definition from_tailscale_cli (out : CommandResult) : result string Ipv4Addr :=
  match out with
  | SpawnFailed => Err "tailscale ip -4"
  | ExitFailure => Err "tailscale cli failed"
  | Output stdout => parse_ts_ip (trim (first_line (from_utf8_lossy stdout)))
  end.
Fixpoint interface_ip (ls : list string) : result string Ipv4Addr :=
  match ls with
  | [] => Err "no tailscale interface"
  | line :: ls' =>
      match strip_prefix "inet " (trim line) with
      | Some rest =>
          match parse_ts_ip (trim (split_first "/"%char rest)) with
          | Ok ip => Ok ip
          | Err _ => interface_ip ls'
          end
      | None => interface_ip ls'
      end
  end.
Definition from_interfaces (out : CommandResult) : result string Ipv4Addr :=
  match out with
  | SpawnFailed => Err "ip addr"
  | ExitFailure => Err "ip addr failed"
  | Output stdout => interface_ip (lines (from_utf8_lossy stdout))
  end.

Definition discover_tailscale_ipv4 (socks : list (option CommandResult)) (cli ifaces : CommandResult)
    : result string Ipv4Addr :=
  match from_local_api socks with
  | Ok ip => Ok ip
  | Err _ =>
      match from_tailscale_cli cli with
      | Ok ip => Ok ip
      | Err _ =>
          match from_interfaces ifaces with
          | Ok ip => Ok ip
          | Err _ => Err "no tailscale IPv4 found (need 100.x.x.x or set tailscale_ipv4 / TAILSVC_TAILSCALE_IPV4)"
          end
      end
  end.
Definition resolve_tailscale_ipv4 (cfg : AgentConfig) (socks : list (option CommandResult))
    (cli ifaces : CommandResult) : result string Ipv4Addr :=
  match ac_tailscale_ipv4 cfg with
  | Some s => parse_ts_ip (trim s)
  | None => discover_tailscale_ipv4 socks cli ifaces
  end.
