(* ===== verification/Reconcile.v ===== *)
(** * The agent's reconciliation ([static_routes.rs], [reconcile.rs])

    One pass builds three tables from the containers, the services the admin
    enabled and the static routes, puts the first in the proxy and sends the
    other two to the controller.  What Docker and the controller answer during
    a pass is a record; what the agent sends is a list.  TCP probes ([tcp_probe]
    of [SockAddr]) decide nothing but what is logged, so the pass does not take
    them. *)
From S2P Require Import Prelude RustStr Net Externals Common Hostname Labels Docker ProxyRoutes Agent.
From Stdlib Require Import Ascii.
#[local] Open Scope Z_scope.

(** Milliseconds. *)
Definition RECONCILE_DEBOUNCE : Z := 400.
Definition PERIODIC_RECONCILE : Z := 15000.
Definition EVENT_RECONNECT_BASE : Z := 1000.
Definition EVENT_RECONNECT_MAX : Z := 30000.
Definition CONTROLLER_BACKOFF_BASE : Z := 500.
Definition CONTROLLER_BACKOFF_MAX : Z := 30000.
Definition PROBE_RETRIES : nat := 5.

(** ** The tables of a pass *)

Record Tables := mk_tables {
  tb_local : RouteTable; tb_api : list RouteEntry; tb_hb : list HeartbeatRouteRef }.
Definition no_tables : Tables := mk_tables ∅ [] [].

(** [local.insert], [api_routes.push] and [hb_refs.push] for one host. *)
Definition push_host (host : string) (route : BackendRoute) (url : string) (t : Tables) : Tables :=
  mk_tables (<[host := route]> (tb_local t))
    (tb_api t ++ [mk_entry host url (br_container_id route) (br_container_name route)])
    (tb_hb t ++ [mk_hbref host (fingerprint (br_backend route))]).
(** The two [retain]s when the host is already in the local table. *)
Definition retain_others (host : string) (t : Tables) : Tables :=
  if decide (is_Some (tb_local t !! host)) then
    mk_tables (tb_local t) (filter (λ r, re_hostname r ≠ host) (tb_api t))
      (filter (λ r, hb_hostname r ≠ host) (tb_hb t))
  else t.

(** ** [static_routes.rs] *)

Record PreparedStaticRoute := mk_prepared {
  sr_hosts : list string; sr_backend : Backend; sr_backend_url : string }.

Section agent.
Context `{Idna} `{UrlCrate}.

Definition prepare_one (e : StaticRouteConfig) : option PreparedStaticRoute :=
  backend ← ok (parse_backend_url (sc_backend e));
  let hosts := omap (λ h, ok (normalize_hostname h)) (sc_hosts e) in
  match hosts with
  | [] => None
  | _ => Some (mk_prepared hosts backend (base_url backend))
  end.
Definition prepare_static_routes (entries : list StaticRouteConfig) : list PreparedStaticRoute :=
  omap prepare_one entries.

Definition static_route (sr : PreparedStaticRoute) : BackendRoute :=
  mk_backend_route (sr_backend sr) None (Some "static").
(** One turn of the inner loop: the tables, the hosts written and overridden. *)
Definition apply_static_host (sr : PreparedStaticRoute) (x : Tables * (nat * nat)) (host : string)
    : Tables * (nat * nat) :=
  let '(t, (written, overridden)) := x in
  let overridden := if decide (is_Some (tb_local t !! host)) then S overridden else overridden in
  (push_host host (static_route sr) (sr_backend_url sr) (retain_others host t),
   (S written, overridden)).
Definition apply_static_routes (prepared : list PreparedStaticRoute) (t : Tables)
    : Tables * (nat * nat) :=
  foldl (λ x sr, foldl (apply_static_host sr) x (sr_hosts sr)) (t, (0, 0)%nat) prepared.

(** ** [reconcile.rs]: the phases of a pass *)

Definition service_route (svc : DiscoveredService) (b : Backend) : BackendRoute :=
  mk_backend_route b (Some (sv_container_id svc)) (Some (sv_container_name svc)).
Definition add_service (t : Tables) (svc : DiscoveredService) : Tables :=
  match resolve_backend svc with
  | Err _ => t
  | Ok b =>
      foldl (λ t host, push_host host (service_route svc b) (backend_url b) t) t (hosts (sv_labels svc))
  end.

Definition desired_route (d : DesiredEnabledService) (b : Backend) : BackendRoute :=
  mk_backend_route b None
    (match de_container_name d with Some n => Some n | None => Some "enabled" end).
Definition add_desired (t : Tables) (d : DesiredEnabledService) : Tables :=
  match parse_backend_url (de_backend d) with
  | Err _ => t
  | Ok b =>
      foldl (λ t host, push_host host (desired_route d b) (base_url b) (retain_others host t))
        t (de_hostnames d)
  end.

Definition build_tables (cfg : AgentConfig) (services : list DiscoveredService)
    (desired : result string DesiredServicesResponse) : Tables :=
  let t := foldl add_service no_tables services in
  let t := match desired with Ok d => foldl add_desired t (ds_services d) | Err _ => t end in
  (apply_static_routes (prepare_static_routes (ac_static_routes cfg)) t).1.

Definition looks_like_public_domain (host : string) : bool :=
  if negb (contains_char "."%char host) then false
  else
    let lower := to_ascii_lowercase host in
    negb (ends_with ".internal" lower || ends_with ".local" lower || ends_with ".localhost" lower
          || ends_with ".test" lower || ends_with ".lan" lower || ends_with ".home" lower
          || ends_with ".corp" lower).

(** [probe i]: whether the attempt [i] connects. *)
Fixpoint probe_loop (n i : nat) (probe : nat → bool) : bool :=
  match n with
  | O => false
  | S n' => if probe i then true else probe_loop n' (S i) probe
  end.
Definition tcp_probe_with_retries (probe : nat → bool) : bool := probe_loop PROBE_RETRIES 0 probe.

(** [prepared_static_routes]: the entries, and the backends a warning names. *)
Definition prepared_static_routes (cfg : AgentConfig) (probe : Backend → nat → bool)
    : list PreparedStaticRoute * list string :=
  let prepared := prepare_static_routes (ac_static_routes cfg) in
  (prepared,
   if ac_tcp_probe_on_register cfg then
     sr_backend_url <$> filter (λ sr, tcp_probe_with_retries (probe (sr_backend sr)) = false) prepared
   else []).
(** [docker_engine_id], on what the daemon answers to [info]. *)
Definition docker_engine_id (info : result string (option string)) : option string :=
  match info with Ok id => id | Err _ => None end.

(** ** The running agent *)

(** A request and its body, as the agent sends them. *)
Inductive AgentBody :=
| BDiscovery (r : DiscoveryReportRequest)
| BDesired
| BRoutes (r : PutRoutesRequest)
| BHeartbeat (r : HeartbeatRequest).

Record AgentRun := mk_run {
  run_cfg : AgentConfig; run_routes : SharedRouteStore; run_tailscale_ip : Ipv4Addr;
  run_client : ControllerClient; run_heartbeat_interval : Z; run_controller_backoff : Z;
  run_ready : AgentReady; run_sent : list (ApiCall * AgentBody);
}.
Definition set_run_routes (r : SharedRouteStore) (s : AgentRun) : AgentRun :=
  mk_run (run_cfg s) r (run_tailscale_ip s) (run_client s) (run_heartbeat_interval s)
    (run_controller_backoff s) (run_ready s) (run_sent s).
Definition set_backoff (b : Z) (s : AgentRun) : AgentRun :=
  mk_run (run_cfg s) (run_routes s) (run_tailscale_ip s) (run_client s) (run_heartbeat_interval s)
    b (run_ready s) (run_sent s).
Definition record_call (call : ControllerClient → ApiCall) (b : AgentBody) (s : AgentRun) : AgentRun :=
  mk_run (run_cfg s) (run_routes s) (run_tailscale_ip s) (run_client s) (run_heartbeat_interval s)
    (run_controller_backoff s) (run_ready s) (run_sent s ++ [(call (run_client s), b)]).

(** What Docker and the controller answer during a pass. *)
Record AgentWorld := mk_world {
  w_candidates : result string (list ContainerCandidate);
  w_services : result string (list DiscoveredService);
  w_desired : result string DesiredServicesResponse;
  w_put_routes : PutRoutesRequest → result string PutRoutesResponse;
  w_heartbeat : HeartbeatRequest → result string unit;
}.
Abbreviation AgentM := (SE AgentRun string).

Definition heartbeat_body (refs : list HeartbeatRouteRef) (s : AgentRun) : HeartbeatRequest :=
  {| hr_tailscale_ipv4 := show_ipv4 (run_tailscale_ip s); hr_routes := refs |}.

Definition reconcile_once (w : AgentWorld) : AgentM unit :=
  _ ← match w_candidates w with
      | Ok cands =>
          modify (record_call put_discovery_call (BDiscovery {| dr_services := to_dto <$> cands |}))
      | Err _ => mret tt
      end;
  services ← lift (w_services w);
  _ ← modify (record_call desired_services_call BDesired);
  s ← get;
  let t := build_tables (run_cfg s) services (w_desired w) in
  _ ← modify (set_run_routes (replace_routes (tb_local t) (run_routes s)));
  let put := {| pr_routes := tb_api t |} in
  _ ← modify (record_call put_routes_call (BRoutes put));
  _ ← lift (w_put_routes w put);
  modify (λ s, record_call heartbeat_call (BHeartbeat (heartbeat_body (tb_hb t) s)) s).

Definition heartbeat_only (w : AgentWorld) : AgentM unit :=
  s ← get;
  let body := heartbeat_body [] s in
  _ ← modify (record_call heartbeat_call (BHeartbeat body));
  lift (w_heartbeat w body).

(** The local table from Docker and the static routes alone.  The code builds
    only the map here and hands two empty lists to [apply_static_routes], which
    it then drops; the lists of [t] are dropped in the same way. *)
Definition refresh_local_routes (services : result string (list DiscoveredService)) : AgentM unit :=
  services ← lift services;
  s ← get;
  let t := foldl add_service no_tables services in
  let t := (apply_static_routes (prepare_static_routes (ac_static_routes (run_cfg s))) t).1 in
  modify (set_run_routes (replace_routes (tb_local t) (run_routes s))).

Definition bump_controller_backoff (s : AgentRun) : AgentRun :=
  set_backoff (Z.min (run_controller_backoff s * 2) CONTROLLER_BACKOFF_MAX) s.

(** [services']: what Docker lists when the pass has failed. *)
Definition reconcile_with_backoff (w : AgentWorld) (services' : result string (list DiscoveredService))
    (s : AgentRun) : AgentRun :=
  match reconcile_once w s with
  | (Ok _, s') => set_backoff CONTROLLER_BACKOFF_BASE s'
  | (Err _, s') => (refresh_local_routes services' (bump_controller_backoff s')).2
  end.

(** The arm of the heartbeat timer. *)
Definition heartbeat_tick (w : AgentWorld) (s : AgentRun) : AgentRun :=
  match heartbeat_only w s with
  | (Ok _, s') => set_backoff CONTROLLER_BACKOFF_BASE s'
  | (Err _, s') => bump_controller_backoff s'
  end.

(** ** Startup ([AgentRun::new]) *)

(** [file]: the state file; [host]: [hostname::get]; [engine]: the id Docker
    reports; [answer]: the controller's answer to the enrollment.  The first
    result is what is written to the state file. *)
Definition new_run `{SerdeJson PersistedAgentState} (cfg : AgentConfig) (ip : Ipv4Addr)
    (ready : AgentReady) (file : option (result string string)) (host engine : option string)
    (answer : ApiCall → EnrollRequest → result string EnrollResponse)
    : result string (option string * AgentRun) :=
  persisted ← load file;
  let ready' := mk_ready (tailscale_ok ready) true (proxy_ok ready) true (initial_reconcile ready) in
  let start id token interval :=
    mk_run cfg new_route_store ip (new_client (ac_controller_url cfg) id token) interval
      CONTROLLER_BACKOFF_BASE ready' [] in
  match persisted with
  | Some p => Ok (None, start (ps_agent_id p) (ps_agent_token p) 20)
  | None =>
      enroll_token ← ok_or (ac_enrollment_token cfg) "TAILSVC_ENROLLMENT_TOKEN required for first run";
      resp ← answer (enroll_call (ac_controller_url cfg) enroll_token)
        {| er_display_name := default "docker-host" host;
           er_tailscale_ipv4 := show_ipv4 ip; er_docker_engine_id := default "unknown" engine |};
      data ← save (mk_persisted (en_agent_id resp) (en_agent_token resp) (ac_controller_url cfg));
      Ok (Some data, start (en_agent_id resp) (en_agent_token resp) (en_heartbeat_interval_seconds resp))
  end.
End agent.

(** ** The event loop ([loop_forever]) *)

Record LoopState := mk_loop { lp_debounce : option Z; lp_saw_event : bool; lp_reconnect_delay : Z }.
Inductive LoopEvent :=
| StreamClosed
| DockerEvent (action : option string) (now : Z)
| DebounceElapsed
| PeriodicTick
| HeartbeatTick.
Inductive LoopAction := DoReconcile | DoHeartbeat | DoSleep (ms : Z) | DoReconnect.

(** One turn of the loop: its actions in order.  The debounce arm is ready only
    when a deadline is set. *)
Definition loop_step (e : LoopEvent) (s : LoopState) : option (list LoopAction * LoopState) :=
  match e with
  | StreamClosed =>
      let delay := if lp_saw_event s then EVENT_RECONNECT_BASE else lp_reconnect_delay s in
      Some ([DoReconcile; DoSleep delay; DoReconnect],
            mk_loop None false (Z.min (delay * 2) EVENT_RECONNECT_MAX))
  | DockerEvent action now =>
      Some ([], mk_loop (if is_relevant_event action then Some (now + RECONCILE_DEBOUNCE) else lp_debounce s)
                  true (lp_reconnect_delay s))
  | DebounceElapsed =>
      match lp_debounce s with
      | Some _ => Some ([DoReconcile], mk_loop None (lp_saw_event s) (lp_reconnect_delay s))
      | None => None
      end
  | PeriodicTick => Some ([DoReconcile], s)
  | HeartbeatTick => Some ([DoHeartbeat], s)
  end.
Definition loop_start : LoopState := mk_loop None false EVENT_RECONNECT_BASE.
