(* ===== verification/UnitTests.v ===== *)
(** * The unit tests of the sources

    The [#[cfg(test)]] modules of the crates, each test as the conjunction of its
    assertions on the definitions of this library, with the url crate answering
    what it answers to the strings of the tests.  They check that the definitions
    do what the authors expect of the code.  Two are left out: the one of a TOML
    file, which is figment's, and the one of a format string in candidate.rs. *)
From S2P Require Import Prelude RustStr Net Externals Common Concrete Hostname Labels ProxyRoutes Docker Proxy.
From S2P Require Import Agent Reconcile.
From Stdlib Require Import Ascii.
#[local] Open Scope Z_scope.

Section tests.
#[local] Existing Instance id_idna.
#[local] Existing Instance plain_headers.
#[local] Definition http_url (user host : string) (port : Z) : result string Url :=
  Ok (mk_url "http" user None "/" None (Some host) (Some port)).
#[local] Instance test_url : UrlCrate := λ raw,
  if decide (raw = "http://172.18.0.4:3000") then http_url "" "172.18.0.4" 3000
  else if decide (raw = "http://127.0.0.1:18080") then http_url "" "127.0.0.1" 18080
  else if decide (raw = "http://user@x:1") then http_url "user" "x" 1
  else if decide (raw = "https://x:1") then Ok (mk_url "https" "" None "/" None (Some "x") (Some 1))
  else if decide (raw = "https://nope") then Ok (mk_url "https" "" None "/" None (Some "nope") None)
  else Err "relative URL without a base".

(** [assert_eq!(x, y)], [r.is_err()], and an assertion on [r.unwrap()]. *)
#[local] Definition assert_eq {A} `{EqDecision A} (x y : A) : bool := bool_decide (x = y).
#[local] Definition on_unwrap {E A} (r : result E A) (f : A → bool) : bool :=
  match r with Ok a => f a | Err _ => false end.

(** ** common/src/backend.rs *)

Definition accepts_http_host_port : bool :=
  on_unwrap (parse_backend_url "http://172.18.0.4:3000") (λ b,
    assert_eq (host b) "172.18.0.4" && assert_eq (port b) 3000).
Definition rejects_https_and_creds : bool :=
  is_err (parse_backend_url "https://x:1") && is_err (parse_backend_url "http://user@x:1").

(** ** common/src/hostname.rs *)

Definition lowercase_and_trim : bool :=
  on_unwrap (normalize_hostname "  Grafana.Internal  ") (λ h, assert_eq h "grafana.internal").
Definition rejects_port_and_path : bool :=
  is_err (normalize_hostname "foo:80") && is_err (normalize_hostname "foo/bar")
  && is_err (normalize_hostname "http://x").
Definition parse_dedupes : bool :=
  on_unwrap (parse_host_list "a.internal, b.internal ,a.internal") (λ v,
    assert_eq (length v) 2%nat && assert_eq (v !! 0%nat) (Some "a.internal")
    && assert_eq (v !! 1%nat) (Some "b.internal")).

(** ** common/src/labels.rs *)

Definition ignores_without_enable : bool :=
  bool_decide (labels_from_map [("tailsvc.hosts", "x.internal")] = None).
Definition parses_full : bool :=
  match labels_from_map [("tailsvc.enable", "true"); ("tailsvc.hosts", "a.internal"); ("tailsvc.port", "3000")] with
  | Some s => assert_eq (label_port s) (Some 3000)
  | None => false
  end.

(** ** docker/src/backend_resolve.rs *)

Definition test_labels (p : option Z) (b : option Backend) (network : option string) : ServiceLabels :=
  mk_labels (default [] (ok (n ← normalize_hostname "x.internal"; Ok [n]))) p b network.
Definition svc (l : ServiceLabels) (nets : list (string * string)) (network_mode : option string)
    (published : list PublishedPort) (exposed : list Z) : DiscoveredService :=
  mk_service "c1" "n" l network_mode published (collect_map nets) exposed.
#[local] Definition resolves_to (s : DiscoveredService) (h : string) (p : Z) : bool :=
  on_unwrap (resolve_backend s) (λ b, assert_eq (host b) h && assert_eq (port b) p).

Definition explicit_backend_wins : bool :=
  let b := mk_backend "192.168.1.50" 5000 in
  let s := svc (test_labels (Some 3000) (Some b) None) [("br", "1.2.3.4")] None [] [] in
  on_unwrap (resolve_backend s) (λ r, assert_eq r b).
Definition published_port_before_host_network : bool :=
  resolves_to (svc (test_labels (Some 3000) None None) [] (Some "host")
    [mk_published 3000 "127.0.0.1" 8080] []) "127.0.0.1" 8080.
Definition host_network_default : bool :=
  resolves_to (svc (test_labels (Some 8080) None None) [] (Some "host") [] []) "127.0.0.1" 8080.
Definition published_0_0_0_0_maps_to_loopback : bool :=
  resolves_to (svc (test_labels (Some 80) None None) [] None [mk_published 80 "0.0.0.0" 8080] [])
    "127.0.0.1" 8080.
Definition bridge_single_network : bool :=
  resolves_to (svc (test_labels (Some 3000) None None) [("frontend", "172.18.0.4")] None [] [])
    "172.18.0.4" 3000.
Definition multi_network_requires_selection : bool :=
  is_err (resolve_backend (svc (test_labels (Some 80) None None) [("a", "1.1.1.1"); ("b", "2.2.2.2")] None [] [])).
Definition multi_network_with_label : bool :=
  on_unwrap (resolve_backend (svc (test_labels (Some 80) None (Some "b"))
    [("a", "1.1.1.1"); ("b", "2.2.2.2")] None [] [])) (λ b, assert_eq (host b) "2.2.2.2").
Definition infer_port_from_single_exposed : bool :=
  resolves_to (svc (test_labels None None None) [("br", "172.18.0.9")] None [] [3000]) "172.18.0.9" 3000.
Definition ambiguous_exposed_ports_fail : bool :=
  is_err (resolve_backend (svc (test_labels None None None) [("br", "172.18.0.9")] None [] [3000; 3001])).

(** ** docker/src/candidate.rs *)

Definition skip_redis : bool :=
  should_skip_image "redis:7-alpine" && negb (should_skip_image "traefik/whoami:v1").

(** ** agent/src/static_routes.rs *)

Definition prepare_skips_bad_and_keeps_good : bool :=
  let p := prepare_static_routes
    [mk_static_config ["Admin.Example.com"; "bad host"] "http://127.0.0.1:18080";
     mk_static_config ["x.internal"] "https://nope"] in
  assert_eq (length p) 1%nat && assert_eq (sr_hosts <$> p !! 0%nat) (Some ["admin.example.com"]).
Definition static_overrides_docker : bool :=
  let local : gmap string BackendRoute :=
    {["admin.example.com" := mk_backend_route (mk_backend "1.2.3.4" 9) (Some "c") (Some "old")]} in
  let api := [mk_entry "admin.example.com" "http://1.2.3.4:9/" (Some "c") (Some "old")] in
  let prepared := prepare_static_routes [mk_static_config ["admin.example.com"] "http://127.0.0.1:18080"] in
  let '(t, (w, o)) := apply_static_routes prepared (mk_tables local api []) in
  assert_eq w 1%nat && assert_eq o 1%nat
  && assert_eq ((λ r, host (br_backend r)) <$> tb_local t !! "admin.example.com") (Some "127.0.0.1")
  && assert_eq (length (tb_api t)) 1%nat
  && assert_eq (re_backend <$> tb_api t !! 0%nat) (Some "http://127.0.0.1:18080/").

(** ** agent/src/tailscale.rs *)

Definition quoted (s : string) : string := quote +:+ s +:+ quote.
Definition parse_localapi_snippet : bool :=
  let body := "{" +:+ quoted "Self" +:+ ":{" +:+ quoted "TailscaleIPs" +:+ ":[" +:+ quoted "100.64.1.2" +:+ ","
    +:+ quoted "fd7a:115c::1" +:+ "]}}" in
  assert_eq (parse_status_json_ip body) (Some (mk_ipv4 100 64 1 2)).
Definition rejects_non_ts : bool :=
  is_err (parse_ts_ip "127.0.0.1") && is_err (parse_ts_ip "192.168.1.1").

(** ** dns/src/server.rs, proxy/src/proxy.rs *)

Definition parse_ok : bool := assert_eq (parse_ipv4 "100.64.0.1") (Some (mk_ipv4 100 64 0 1)).
Definition text_404_body : bool := assert_eq (rp_status (text_response 404 "unknown tailsvc host")) 404.

Definition unit_tests : list bool :=
  [accepts_http_host_port; rejects_https_and_creds; lowercase_and_trim; rejects_port_and_path; parse_dedupes;
   ignores_without_enable; parses_full; explicit_backend_wins; published_port_before_host_network;
   host_network_default; published_0_0_0_0_maps_to_loopback; bridge_single_network;
   multi_network_requires_selection; multi_network_with_label; infer_port_from_single_exposed;
   ambiguous_exposed_ports_fail; skip_redis; prepare_skips_bad_and_keeps_good; static_overrides_docker;
   parse_localapi_snippet; rejects_non_ts; parse_ok; text_404_body].
Example unit_tests_pass : forallb id unit_tests = true.
Proof. vm_compute. reflexivity. Qed.
End tests.
