(* ===== verification/SockAddr.v ===== *)
(** * Reading addresses ([std::net::SocketAddr::from_str])

    The parser of the standard library for IPv6 and socket addresses, as
    functions from the input to a value and the rest, and the places that use
    it: [proxy_listen_addr] of tailsvc-agent/src/tailscale.rs,
    [resolve_authority] of tailsvc-proxy/src/proxy.rs and [tcp_probe] of
    tailsvc-agent/src/reconcile.rs.  The scope of an IPv6 address is read and not
    kept.  What [lookup_host] finds is an argument. *)
From S2P Require Import Prelude RustStr Net Externals Common Agent Reconcile.
From Stdlib Require Import Ascii.
#[local] Open Scope Z_scope.

(** ** The parser *)

(** A reader that fails consumes nothing. *)
Abbreviation Reader A := (string → option (A * string)).

Definition read_char (c : ascii) : Reader unit := λ s,
  match s with String d s' => if decide (d = c) then Some (tt, s') else None | EmptyString => None end.
(** [read_separator]: nothing before the first element. *)
Definition read_separator {A} (sep : ascii) (index : nat) (inner : Reader A) : Reader A := λ s,
  match index with
  | O => inner s
  | S _ => '(_, s') ← read_char sep s; inner s'
  end.

(** [char::to_digit] for the radices ten and sixteen. *)
Definition to_digit (radix : Z) (c : ascii) : option Z :=
  let d :=
    if is_ascii_digit c then byte c - 48
    else if byte_in 97 102 c then byte c - 87
    else if byte_in 65 70 c then byte c - 55
    else radix in
  if d <? radix then Some d else None.

(** The digit loop: with a limit on the digits the value is checked at the end,
    without one at every step. *)
Fixpoint read_digits (radix : Z) (limit : option nat) (max acc : Z) (count : nat) (s : string)
    : option (Z * nat * string) :=
  match s with
  | EmptyString => Some (acc, count, s)
  | String c s' =>
      match to_digit radix c with
      | None => Some (acc, count, s)
      | Some d =>
          let acc' := acc * radix + d in
          let over := match limit with
                      | Some m => (m <? S count)%nat
                      | None => max <? acc'
                      end in
          if over then None else read_digits radix limit max acc' (S count) s'
      end
  end.
Definition read_number (radix : Z) (limit : option nat) (allow_zero_prefix : bool) (max : Z)
    : Reader Z := λ s,
  '(n, count, s') ← read_digits radix limit max 0 0 s;
  if (count =? 0)%nat then None
  else if negb allow_zero_prefix && starts_with "0" s && (1 <? count)%nat then None
  else if n <=? max then Some (n, s') else None.

Definition read_ipv4_addr : Reader Ipv4Addr := λ s,
  let octet i := read_separator "."%char i (read_number 10 (Some 3%nat) false u8_max) in
  '(a, s) ← octet 0%nat s; '(b, s) ← octet 1%nat s;
  '(c, s) ← octet 2%nat s; '(d, s) ← octet 3%nat s;
  Some (mk_ipv4 a b c d, s).

(** [read_groups]: at most [left] groups, an IPv4 address standing for the last
    two it can hold; tells whether it met one. *)
Fixpoint read_groups (left index : nat) (s : string) : list Z * bool * string :=
  match left with
  | O => ([], false, s)
  | S left' =>
      let v4 := match left' with
                | O => None
                | S _ => read_separator ":"%char index read_ipv4_addr s
                end in
      match v4 with
      | Some (ip, s') => ([oct1 ip * 256 + oct2 ip; oct3 ip * 256 + oct4 ip], true, s')
      | None =>
          match read_separator ":"%char index (read_number 16 (Some 4%nat) true u16_max) s with
          | Some (g, s') =>
              let '(gs, v4, s'') := read_groups left' (S index) s' in (g :: gs, v4, s'')
          | None => ([], false, s)
          end
      end
  end.
Definition read_ipv6_addr : Reader (list Z) := λ s,
  let '(head, v4, s) := read_groups 8 0 s in
  if (length head =? 8)%nat then Some (head, s)
  else if v4 then None
  else
    '(_, s) ← read_char ":"%char s;
    '(_, s) ← read_char ":"%char s;
    let '(tail, _, s) := read_groups (8 - (length head + 1)) 0 s in
    Some (head ++ replicate (8 - length head - length tail) 0 ++ tail, s).

Definition read_port : Reader Z := λ s,
  '(_, s) ← read_char ":"%char s; read_number 10 None true u16_max s.
Definition read_scope_id : Reader Z := λ s,
  '(_, s) ← read_char "%"%char s; read_number 10 None true u32_max s.
Definition read_socket_addr_v4 : Reader SocketAddr := λ s,
  '(ip, s) ← read_ipv4_addr s; '(port, s) ← read_port s; Some (mk_addr (V4 ip) port, s).
Definition read_socket_addr_v6 : Reader SocketAddr := λ s,
  '(_, s) ← read_char "["%char s;
  '(groups, s) ← read_ipv6_addr s;
  let s := match read_scope_id s with Some (_, s') => s' | None => s end in
  '(_, s) ← read_char "]"%char s;
  '(port, s) ← read_port s;
  Some (mk_addr (V6 groups) port, s).
Definition read_socket_addr : Reader SocketAddr := λ s,
  match read_socket_addr_v4 s with Some r => Some r | None => read_socket_addr_v6 s end.

(** [str::parse::<SocketAddr>]: the whole input. *)
Definition parse_socket_addr (s : string) : option SocketAddr :=
  match read_socket_addr s with Some (a, EmptyString) => Some a | _ => None end.

Example parse_v6 : parse_socket_addr "[fd7a:115c::1%3]:8080" =
  Some (mk_addr (V6 [64890; 4444; 0; 0; 0; 0; 0; 1]) 8080).
Proof. vm_compute. reflexivity. Qed.
Example parse_mapped : parse_socket_addr "[::ffff:1.2.3.4]:80" =
  Some (mk_addr (V6 [0; 0; 0; 0; 0; 65535; 258; 772]) 80).
Proof. vm_compute. reflexivity. Qed.
Example parse_refused : parse_socket_addr <$> ["100.64.0.1"; "100.64.0.01:80"; "localhost:80"; "[::1]:65536"; "1.2.3.4:80 "]
  = [None; None; None; None; None].
Proof. vm_compute. reflexivity. Qed.

(** ** Where the program reads addresses *)

Definition proxy_listen_addr (cfg : AgentConfig) (tailscale_ip : Ipv4Addr) : result string SocketAddr :=
  match ac_proxy_listen cfg with
  | Some s => ok_or (parse_socket_addr s) ("invalid proxy_listen: " +:+ s)
  | None =>
      ok_or (parse_socket_addr (show_ipv4 tailscale_ip +:+ ":" +:+ show_uint (ac_proxy_port cfg)))
        "invalid socket address syntax"
  end.

(** [lookup]: what [lookup_host] finds. *)
Definition resolve_authority (lookup : string → result string (list SocketAddr)) (authority : string)
    : result string SocketAddr :=
  match parse_socket_addr authority with
  | Some a => Ok a
  | None =>
      it ← lookup authority;
      match it with a :: _ => Ok a | [] => Err "no address" end
  end.

(** [connect]: whether a connection to the address opens within two seconds. *)
Definition tcp_probe (lookup : string → result string (list SocketAddr)) (connect : SocketAddr → bool)
    (backend : Backend) : bool :=
  let target := host backend +:+ ":" +:+ show_uint (port backend) in
  match parse_socket_addr target with
  | Some a => connect a
  | None => match lookup target with Ok (a :: _) => connect a | _ => false end
  end.

(** ** Lemmas *)

(** What follows a number and is not part of it. *)
Definition no_digit (s : string) : bool :=
  match s with String c _ => negb (is_ascii_digit c) | EmptyString => true end.

Lemma to_digit_10 c : to_digit 10 c = if is_ascii_digit c then Some (digit_val c) else None.
Proof.
  unfold to_digit, digit_val, is_ascii_digit, byte_in.
  destruct ((48 <=? byte c) && (byte c <=? 57)) eqn:Hd.
  - breflect. by rewrite (proj2 (Z.ltb_lt _ _)) by lia.
  - repeat case_match; breflect; try done; lia.
Qed.
Lemma read_digits_end limit max acc n rest : no_digit rest = true →
  read_digits 10 limit max acc n rest = Some (acc, n, rest).
Proof.
  intros Hr. destruct rest as [|c rest]; [done|]. cbn [no_digit] in Hr. cbn [read_digits].
  rewrite to_digit_10. by apply negb_true_iff in Hr as ->.
Qed.
Lemma read_digits_app limit max acc k s n rest :
  parse_digits max acc s = Some n → no_digit rest = true →
  match limit with Some m => (k + String.length s <= m)%nat | None => True end →
  read_digits 10 limit max acc k (s +:+ rest) = Some (n, (k + String.length s)%nat, rest).
Proof.
  revert acc k. induction s as [|c s IH]; intros acc k; cbn [parse_digits String.length].
  { intros [= ->] Hr _. rewrite sapp_nil_l, read_digits_end by done. by rewrite Nat.add_0_r. }
  destruct (is_ascii_digit c) eqn:Hc; [|done]. cbv zeta.
  destruct (acc * 10 + digit_val c <=? max) eqn:Hm; [|done]. intros Hp Hr Hl.
  rewrite sapp_cons. cbn [read_digits]. rewrite to_digit_10, Hc. breflect.
  assert (match limit with Some m => (m <? S k)%nat | None => max <? acc * 10 + digit_val c end = false) as ->.
  { destruct limit; [apply Nat.ltb_ge; lia | apply Z.ltb_ge; lia]. }
  rewrite (IH (acc * 10 + digit_val c) (S k) Hp Hr) by (destruct limit; [lia | done]).
  by rewrite Nat.add_succ_r.
Qed.
Lemma starts_zero_app s rest : s ≠ EmptyString → starts_with "0" (s +:+ rest) = starts_with "0" s.
Proof.
  destruct s as [|c s]; [done|]. intros _. rewrite sapp_cons. unfold starts_with. cbn [strip_prefix].
  by repeat case_match.
Qed.

(** The octets and ports that the reference parser accepts are read. *)
Lemma read_octet s n rest : parse_octet s = Some n → no_digit rest = true →
  read_number 10 (Some 3%nat) false u8_max (s +:+ rest) = Some (n, rest).
Proof.
  unfold parse_octet. case_match eqn:Hc; [|done]. breflect. intros Hp Hr.
  match goal with H : (_ && _)%bool = false |- _ => rename H into Hz end.
  rewrite str_len_length in *. unfold read_number.
  rewrite (read_digits_app (Some 3%nat) u8_max 0 0 s n rest Hp Hr) by lia. cbn [mbind option_bind].
  rewrite (proj2 (Nat.eqb_neq _ _)) by lia.
  rewrite starts_zero_app by (intros ->; cbn in *; lia). cbn [negb andb].
  assert ((1 <? 0 + String.length s)%nat = (1 <? Z.of_nat (String.length s))) as ->.
  { destruct (Nat.ltb_spec 1 (0 + String.length s)), (Z.ltb_spec 1 (Z.of_nat (String.length s))); lia. }
  rewrite Hz. rewrite (proj2 (Z.leb_le _ _)); [done|].
  eapply parse_digits_bound; [|exact Hp|]; unfold u8_max; lia.
Qed.
Lemma read_first_octet s n rest : parse_octet s = Some n → no_digit rest = true →
  read_separator "."%char 0 (read_number 10 (Some 3%nat) false u8_max) (s +:+ rest) = Some (n, rest).
Proof. apply read_octet. Qed.
Lemma read_dot_octet i s n rest : parse_octet s = Some n → no_digit rest = true →
  read_separator "."%char (S i) (read_number 10 (Some 3%nat) false u8_max) ("." +:+ (s +:+ rest)) = Some (n, rest).
Proof.
  intros Hs Hr. cbn [read_separator]. change ("." +:+ (s +:+ rest)) with (String "." (s +:+ rest)).
  cbn [read_char]. rewrite decide_True by done. by apply read_octet.
Qed.
Lemma read_port_show p rest : in_u16 p → no_digit rest = true →
  read_port (String ":" (show_uint p +:+ rest)) = Some (p, rest).
Proof.
  unfold in_u16, u16_max. intros Hp Hr. unfold read_port. cbn [read_char].
  rewrite decide_True by done. cbn [mbind option_bind]. unfold read_number.
  assert (parse_digits u16_max 0 (show_uint p) = Some p) as Hs
    by (apply parse_show_uint; unfold u16_max, u64_max; lia).
  rewrite (read_digits_app None u16_max 0 0 _ p rest Hs Hr) by done. cbn [mbind option_bind].
  destruct (show_uint p) as [|c s] eqn:Hn; [cbn in Hs; injection Hs as <-; by vm_compute in Hn|].
  cbn [String.length Nat.add Nat.eqb negb andb]. by rewrite (proj2 (Z.leb_le _ _)) by (unfold u16_max; lia).
Qed.
Lemma read_ipv4_show ip rest : ipv4_wf ip → no_digit rest = true →
  read_ipv4_addr (show_ipv4 ip +:+ rest) = Some (ip, rest).
Proof.
  destruct ip as [a b c d]. unfold ipv4_wf; cbn [oct1 oct2 oct3 oct4]. intros (Ha & Hb & Hc & Hd) Hr.
  apply octet_ok_all in Ha, Hb, Hc, Hd. unfold octet_ok in *. breflect.
  unfold show_ipv4, read_ipv4_addr. cbn [oct1 oct2 oct3 oct4]. rewrite !join_cons by done. cbn [join].
  rewrite <- !sapp_assoc.
  erewrite read_first_octet by done. cbn [mbind option_bind].
  do 3 (erewrite read_dot_octet by done; cbn [mbind option_bind]). done.
Qed.

(** What the program prints of an IPv4 socket address is read back. *)
Lemma parse_show_socket_addr ip p : ipv4_wf ip → in_u16 p →
  parse_socket_addr (show_ipv4 ip +:+ ":" +:+ show_uint p) = Some (mk_addr (V4 ip) p).
Proof.
  intros Hip Hp. unfold parse_socket_addr, read_socket_addr, read_socket_addr_v4.
  rewrite read_ipv4_show by done. cbn [mbind option_bind].
  change (":" +:+ show_uint p) with (String ":" (show_uint p)).
  rewrite <- (sapp_nil_r (show_uint p)) at 1. by rewrite read_port_show.
Qed.

Lemma parse_octet_range s n : parse_octet s = Some n → 0 <= n <= 255.
Proof.
  unfold parse_octet. case_match; [|done]. intros Hp. change 255 with u8_max.
  eapply parse_digits_bound; [|exact Hp|]; unfold u8_max; lia.
Qed.
Lemma parse_ipv4_wf s ip : parse_ipv4 s = Some ip → ipv4_wf ip.
Proof.
  unfold parse_ipv4. case_match; [done|].
  destruct (split "." s) as [|a [|b [|c [|d [|]]]]]; try done.
  intros (a' & Ha & (b' & Hb & (c' & Hc & (d' & Hd & [= <-])%bind_Some)%bind_Some)%bind_Some)%bind_Some.
  apply parse_octet_range in Ha, Hb, Hc, Hd. done.
Qed.

Lemma ts_prefix_octet s ip : starts_with TS_PREFIX s = true → parse_ipv4 s = Some ip → oct1 ip = 100.
Proof.
  intros [r ->]%starts_with_iff. unfold parse_ipv4. destruct (15 <? _); [done|].
  change (TS_PREFIX +:+ r) with ("100" +:+ String "." r). unfold split.
  rewrite split_on_app by done. fold (split "." r).
  destruct (split "." r) as [|b [|c [|d [|]]]]; try done. cbn -[parse_octet].
  change (parse_octet "100") with (Some 100). cbn [mbind option_bind].
  destruct (parse_octet b), (parse_octet c), (parse_octet d); cbn [mbind option_bind]; try done.
  by intros [= <-].
Qed.
(** An address is accepted as the agent's own exactly when it is written with
    four decimal octets of which the first is 100: the later tests never refuse
    one, and nothing checks that the second octet is in the range 64 to 127 of
    the carrier-grade block. *)
Lemma parse_ts_ip_accepts s ip :
  parse_ts_ip s = Ok ip ↔ parse_ipv4 s = Some ip ∧ starts_with TS_PREFIX s = true.
Proof.
  unfold parse_ts_ip. destruct (parse_ipv4 s) as [x|] eqn:Hp; [|naive_solver].
  destruct (starts_with TS_PREFIX s) eqn:Hs; cbn [negb]; [|naive_solver].
  split; [|intros [[= ->] _]].
  - case_match; [done|]. naive_solver.
  - pose proof (ts_prefix_octet _ _ Hs Hp) as H100. destruct ip as [a b c d]. cbn in H100. subst a.
    unfold is_loopback, is_unspecified, is_broadcast. cbn [oct1].
    by rewrite !bool_decide_false by done.
Qed.
Lemma parse_ts_ip_sound s ip : parse_ts_ip s = Ok ip → ipv4_wf ip ∧ oct1 ip = 100.
Proof.
  intros [Hp Hs]%parse_ts_ip_accepts. split; [by eapply parse_ipv4_wf | by eapply ts_prefix_octet].
Qed.

(** Whatever its source, the agent's address went through [parse_ts_ip]. *)
Lemma first_ts_ip_source parts ip : first_ts_ip parts = Some ip → ∃ s, parse_ts_ip s = Ok ip.
Proof. induction parts as [|p parts IH]; cbn [first_ts_ip]; [done|]. repeat case_match; naive_solver. Qed.
Lemma local_api_source socks ip : from_local_api socks = Ok ip → ∃ s, parse_ts_ip s = Ok ip.
Proof.
  induction socks as [|[[| |out]|] socks IH]; cbn [from_local_api]; try done.
  case_match eqn:Hj; [|done]. intros [= <-]. unfold parse_status_json_ip in Hj.
  apply bind_Some in Hj as (? & _ & Hj). by eapply first_ts_ip_source.
Qed.
Lemma interface_source ls ip : interface_ip ls = Ok ip → ∃ s, parse_ts_ip s = Ok ip.
Proof. induction ls as [|l ls IH]; cbn [interface_ip]; [done|]. repeat case_match; naive_solver. Qed.
Lemma resolved_source cfg socks cli ifaces ip :
  resolve_tailscale_ipv4 cfg socks cli ifaces = Ok ip → ∃ s, parse_ts_ip s = Ok ip.
Proof.
  unfold resolve_tailscale_ipv4, discover_tailscale_ipv4. case_match; [by eauto|].
  destruct (from_local_api socks) eqn:Ha; [intros [= <-]; by eapply local_api_source|].
  destruct (from_tailscale_cli cli) eqn:Hc.
  { intros [= <-]. destruct cli; try done. by eexists. }
  destruct (from_interfaces ifaces) eqn:Hi; [|done]. intros [= <-].
  destruct ifaces; try done. by eapply interface_source.
Qed.

(** A backend given by an IPv4 address is dialled without a lookup, by the tunnel
    and by the probe alike. *)
Lemma literal_backend_dialled lookup connect ip p : ipv4_wf ip → in_u16 p →
  let b := mk_backend (show_ipv4 ip) p in
  resolve_authority lookup (host b +:+ ":" +:+ show_uint (port b)) = Ok (mk_addr (V4 ip) p)
  ∧ tcp_probe lookup connect b = connect (mk_addr (V4 ip) p).
Proof.
  intros Hip Hp b. unfold resolve_authority, tcp_probe. cbn [host port b].
  by rewrite parse_show_socket_addr.
Qed.

(** ** Property *)

(** C36: the agent listens where it says it is: whichever of the configuration,
    tailscaled, its command line and the interfaces gave the address, it is a
    well-formed IPv4 address that begins with 100 and that the controller reads
    back from the request, and unless [proxy_listen] overrides it the proxy binds
    that very address with the configured port.  The override is taken exactly when
    the whole of it is a socket address. *)
Theorem agent_binds_tailscale_address cfg socks cli ifaces ip :
  in_u16 (ac_proxy_port cfg) → resolve_tailscale_ipv4 cfg socks cli ifaces = Ok ip →
  ipv4_wf ip ∧ oct1 ip = 100 ∧ parse_ipv4 (show_ipv4 ip) = Some ip
  ∧ match ac_proxy_listen cfg with
    | None => proxy_listen_addr cfg ip = Ok (mk_addr (V4 ip) (ac_proxy_port cfg))
    | Some s => ∀ a, proxy_listen_addr cfg ip = Ok a ↔ parse_socket_addr s = Some a
    end.
Proof.
  intros Hp (s & Hs)%resolved_source. apply parse_ts_ip_sound in Hs as [Hwf H100].
  split; [done|]. split; [done|]. split; [by apply parse_show_ipv4|].
  unfold proxy_listen_addr. destruct (ac_proxy_listen cfg) as [l|].
  - intros a. apply ok_or_Ok.
  - by rewrite parse_show_socket_addr.
Qed.

Definition demo_listen_cfg (listen : option string) : AgentConfig :=
  mk_agent_config "http://10.0.0.1:8080" None default_docker_sock default_state 80 listen None 2000 300 true None [].
Lemma agent_binds_tailscale_address_witness :
  let cli := Output ("100.101.102.103" +:+ String lf EmptyString) in
  resolve_tailscale_ipv4 (demo_listen_cfg None) [None; Some ExitFailure] cli SpawnFailed = Ok (mk_ipv4 100 101 102 103)
  ∧ proxy_listen_addr (demo_listen_cfg None) (mk_ipv4 100 101 102 103) =
      Ok (mk_addr (V4 (mk_ipv4 100 101 102 103)) 80).
Proof.
  intros cli.
  assert (resolve_tailscale_ipv4 (demo_listen_cfg None) [None; Some ExitFailure] cli SpawnFailed =
    Ok (mk_ipv4 100 101 102 103)) as Hr by (vm_compute; reflexivity).
  split; [exact Hr|].
  apply (agent_binds_tailscale_address (demo_listen_cfg None) [None; Some ExitFailure] cli SpawnFailed _);
    [vm_compute; split; discriminate | exact Hr].
Defined.
