(* ===== verification/ControllerProc.v ===== *)
(** * The controller's process ([tailsvc-controller/src/main.rs], [lib.rs])

    The start of the process, the bootstrap of the integration tests, and the
    refresh of the DNS table the two share.  What the file system, SQLite and the
    sockets answer is given. *)
From S2P Require Import Prelude RustStr Net Externals Common Concrete Store StoreInv Config Backup Registry Sessions.
From S2P Require Import State Probe Controller ControllerSpec SockAddr Dns DnsProc.
From Stdlib Require Import Ascii.
#[local] Open Scope Z_scope.

Section process.
Context `{Argon2} `{Base64} `{Chrono} `{HeaderCrate} `{DnsName}.

(** [refresh_dns_registry] of lib.rs, in one piece. *)
Definition refresh_dns_registry (now : Z) : SE AppState Failure unit :=
  ttl ← lease_ttl;
  routes ← storage_op ApiStorage (active_dns_routes ttl now);
  modify (λ st, set_registry (replace (registry_map routes) (registry st)) st).

(** ** [main] *)

(** What [main] finds: the configuration, the directory of the database, the
    opened and migrated database, the password file, the clock at the first
    refresh, and whether the API's address can be bound. *)
Record MainEnv := mk_main {
  me_cfg : result string ControllerConfig;
  me_dir : result string unit;
  me_open : string → result string Db;
  me_dev_defaults : bool;
  me_read : string → result string string;
  me_now : Z;
  me_bind : SocketAddr → result string unit;
}.
(** The state it serves, and the backups it keeps, if any. *)
Inductive MainResult :=
| MainExit (msg : string)
| MainPanic
| MainServes (st : AppState) (backups : option (Z * nat)).

Definition controller_main (e : MainEnv) : MainResult :=
  match (c ← map_err (λ m, "load config: " +:+ m) (me_cfg e);
         _ ← map_err (λ m, "create storage dir: " +:+ m) (me_dir e);
         db ← map_err (λ m, "storage: " +:+ m) (me_open e (st_sqlite_path (cfg_storage c)));
         Ok (c, db)) with
  | Err m => MainExit m
  | Ok (c, db) =>
      match boot (me_dev_defaults e) (me_read e) db c (me_now e) with
      | None => MainPanic
      | Some (Err m) => MainExit ("app state: " +:+ m)
      | Some (Ok st) =>
          match me_bind e (api_listen (cfg_api c)) with
          | Err m => MainExit ("bind api: " +:+ m)
          | Ok _ => MainServes st (backup_task (cfg_backup c))
          end
      end
  end.

(** ** [ControllerBootstrap::start_test] *)

Definition test_config (api_listen dns_listen : SocketAddr) (upstream : SocketAddr) (sqlite_path : string)
    : ControllerConfig :=
  mk_controller_config
    (mk_dns_config dns_listen [upstream] 5 2000 300 30 5000)
    (mk_api_config api_listen None "/nonexistent-use-inline" "admin" 86400)
    (mk_storage_config sqlite_path) (mk_lease_config 20 90)
    (mk_backup_config false (bk_dir default_backup) (bk_interval_seconds default_backup) (bk_keep default_backup))
    (mk_security [] []).

Definition set_admin (password username : string) (st : AppState) : AppState :=
  mk_state (storage st) (registry st) (cfg st) password username (sessions st) (dns_up st).

(** The ports [free_port] found and whether the API's is still free. *)
Definition start_test (dev_defaults : bool) (read : string → result string string) (db : Db)
    (api_listen dns_listen : SocketAddr) (sqlite_path admin_token : string) (now : Z)
    (bind : result string unit) : result string AppState :=
  upstream ← ok_or (parse_socket_addr "1.1.1.1:53") "parse upstream: invalid socket address syntax";
  let c := test_config api_listen dns_listen upstream sqlite_path in
  storage ← ok_or (connect db sqlite_path (agent_ttl_seconds (cfg_leases c))) "storage";
  st ← new_state dev_defaults read storage new_registry c;
  let st := set_dns_up true (set_admin admin_token "admin" st) in
  st ← match refresh_dns_registry now st with
       | (Ok _, st') => Ok st'
       | (Err _, _) => Err "refresh"
       end;
  _ ← new_server (dns_server_config (cfg_dns c));
  _ ← bind;
  Ok st.

(** ** Lemmas *)

Lemma refresh_dns_registry_run now st : refresh_dns_registry now st = refresh_dns now st.
Proof.
  unfold refresh_dns_registry, refresh_dns, refresh_read. rewrite !SE_bind_run.
  by destruct (lease_ttl st) as [[ttl|] st1].
Qed.

Lemma refresh_keeps now st : admin_password (refresh_dns now st).2 = admin_password st.
Proof. unfold refresh_dns. rewrite SE_bind_run, refresh_read_run. by destruct (ttl_of st). Qed.

Lemma refresh_keeps_up now st : dns_up (refresh_dns now st).2 = dns_up st.
Proof. unfold refresh_dns. rewrite SE_bind_run, refresh_read_run. by destruct (ttl_of st). Qed.

(** A controller that serves has a DNS table in step with its storage and expects
    the password of its file, or the development one. *)
Lemma controller_main_serves e st backups c db :
  controller_main e = MainServes st backups → me_cfg e = Ok c →
  me_open e (st_sqlite_path (cfg_storage c)) = Ok db →
  db_of st = db ∧ cfg st = c ∧ sessions st = new_sessions (Z.max (api_session_ttl_seconds (cfg_api c)) 300 * 1000000000)
  ∧ dns_in_sync (me_now e) st ∧ load_admin_password (me_dev_defaults e) (me_read e) c = Ok (admin_password st)
  ∧ backups = backup_task (cfg_backup c).
Proof.
  unfold controller_main. intros Hm Hc Hd. rewrite Hc in Hm. cbn [map_err mbind result_bind] in Hm.
  destruct (me_dir e); [|done]. cbn [map_err mbind result_bind] in Hm. rewrite Hd in Hm.
  cbn [map_err mbind result_bind] in Hm. unfold boot, connect in Hm.
  destruct (duration_seconds _) as [ttl|] eqn:Ht; [|done]. cbn [mbind option_bind] in Hm.
  unfold new_state in Hm.
  destruct (load_admin_password _ _ _) as [pw|] eqn:Hpw; [|done]. cbn [mbind result_bind] in Hm.
  destruct (me_bind e _); [|done]. injection Hm as <- <-. unfold ignore. cbn [snd].
  match goal with |- context [refresh_dns (me_now e) ?x] => pose proof (refresh_keeps (me_now e) x) as Hk;
    destruct (refresh_dns_sync (me_now e) x) as [(st2 & Hr & Hdb & Hcf & Hse & Hs)|[Hn _]] end.
  - rewrite Hr in *. cbn [snd] in *. by rewrite Hdb, Hcf, Hse, Hk.
  - unfold ttl_of in Hn. cbn in Hn. congruence.
Qed.
(** The bootstrap of the tests works with the development password only: its
    password file does not exist. *)
Lemma start_test_ready read db api_listen dns_listen path token now :
  is_ok (read "/nonexistent-use-inline") = false →
  (∃ m, start_test false read db api_listen dns_listen path token now (Ok tt) = Err m)
  ∧ ∃ st, start_test true read db api_listen dns_listen path token now (Ok tt) = Ok st
      ∧ db_of st = db ∧ dns_up st = true ∧ admin_password st = token ∧ dns_in_sync now st.
Proof.
  intros Hr. unfold start_test. assert (parse_socket_addr "1.1.1.1:53" =
    Some (mk_addr (V4 (mk_ipv4 1 1 1 1)) 53)) as -> by (vm_compute; reflexivity).
  cbn [ok_or mbind result_bind]. unfold connect. change (duration_seconds _) with (Some 90000000000).
  cbn [ok_or mbind result_bind option_bind]. unfold new_state, load_admin_password.
  cbn [test_config cfg_api api_admin_password_file api_admin_token_file default].
  destruct (read "/nonexistent-use-inline") as [|m]; [done|]. cbn [mbind result_bind]. split; [by eexists|].
  match goal with |- context [refresh_dns_registry now ?x] => rewrite (refresh_dns_registry_run now x);
    pose proof (refresh_keeps now x) as Hk;
    destruct (refresh_dns_sync now x) as [(st2 & Hrf & Hdb & _ & _ & Hs)|[Hn _]]; [|done];
    pose proof (refresh_keeps_up now x) as Hu end.
  rewrite Hrf in *. cbn [snd mbind result_bind new_server] in *. exists st2. rewrite Hdb, Hk, Hu. by split.
Qed.
End process.
