(* ===== verification/FlowTests.v ===== *)
(** * The integration tests of the sources

    [tests/controller_flow.rs], [dns_wire.rs] and [proxy_path.rs] of
    [tailsvc-integration-tests], run on the composed definitions: the bootstrap of
    the controller, its HTTP surface, the DNS server and the proxy.  The harness
    of [tests/common/mod.rs] makes the requests; a JSON body is its one field
    that varies, a token is its random bytes, and an upstream is silent.  The
    test of upstream DNS, the one that counts streamed bytes and the one that
    needs Docker are left out. *)
From S2P Require Import Prelude RustStr Net Externals Common Concrete Hostname Store Config Backup Registry.
From S2P Require Import Sessions State Probe Controller Router SockAddr Dns DnsProc ControllerProc ProxyRoutes Proxy.
From Stdlib Require Import Ascii.
#[local] Open Scope Z_scope.

Section tests.
#[local] Existing Instance bits_chrono.
#[local] Existing Instance plain_argon2.
#[local] Existing Instance raw_base64.
#[local] Existing Instance plain_headers.
#[local] Existing Instance plain_url.
#[local] Existing Instance id_idna.
#[local] Existing Instance plain_strings.
#[local] Instance no_dtos : SerdeJson (list DiscoveredContainerDto) := no_json _.
#[local] Instance no_report : SerdeJson DiscoveryReportRequest := no_json _.
#[local] Instance no_enable : SerdeJson EnableServiceRequest := no_json _.
#[local] Instance no_login : SerdeJson LoginRequest := no_json _.
#[local] Instance enroll_body : SerdeJson EnrollRequest := {|
  to_json r := Ok (er_tailscale_ipv4 r);
  from_json s := Ok {| er_display_name := "test-agent"; er_tailscale_ipv4 := s;
                       er_docker_engine_id := "test-engine" |} |}.
#[local] Instance beat_body : SerdeJson HeartbeatRequest := {|
  to_json r := Ok (hr_tailscale_ipv4 r);
  from_json s := Ok {| hr_tailscale_ipv4 := s; hr_routes := [] |} |}.
#[local] Instance routes_body : SerdeJson PutRoutesRequest := {|
  to_json r := Ok (join "," (re_hostname <$> pr_routes r));
  from_json s := Ok {| pr_routes := if str_is_empty s then []
                                    else [mk_entry s "http://127.0.0.1:9" (Some "c1") (Some "whoami")] |} |}.
#[local] Instance str_name : DnsName := {| Name := string; name_to_ascii s := s |}.
#[local] Instance test_axum : Axum :=
  {| match_path p s := match_segments (split "/"%char p) (split "/"%char s); json_type _ := true |}.

(** ** The harness ([tests/common/mod.rs]) *)

#[local] Definition loopback (p : Z) : SocketAddr := mk_addr (V4 (mk_ipv4 127 0 0 1)) p.
#[local] Definition admin_token : string := "test-admin-token".
Definition harness_new : result string AppState :=
  start_test true (λ _, Err "no such file") empty_db (loopback 18080) (loopback 15353) "controller.db"
    admin_token 0 (Ok tt).

(** A request at second [t], with its random bytes. *)
#[local] Definition send_at (t : Z) (b0 b1 : list Z) (method path token body : string) (st : AppState)
    : result Failure Reply * AppState :=
  let now := t * 1000000000 in
  serve (mk_world (λ _, now) (λ i, match i with O => b0 | _ => b1 end) "salt" (λ _, mk_clock now now now)
           (λ _ _, mk_probe_io TimedOut 0 (Ok tt) 0 TimedOut 0))
    (mk_http method path {[ "authorization" := "Bearer " +:+ token ]} body) st.

#[local] Abbreviation TestM := (SE AppState unit).
#[local] Definition expect {A} (f : Reply → option A) (m : AppState → result Failure Reply * AppState) : TestM A :=
  λ st, let '(r, st') := m st in
        (match r with Ok rep => ok_or (f rep) tt | Err _ => Err tt end, st').
Definition harness_token (n : Z) : TestM string :=
  expect (λ r, match r with ReToken x => Some (ce_token x) | _ => None end)
    (send_at 1 [n] [] "POST" "/v1/admin/enrollment-tokens" admin_token "").
Definition harness_enroll (n : Z) (token ip : string) : TestM EnrollResponse :=
  expect (λ r, match r with ReEnroll x => Some x | _ => None end)
    (send_at 1 [n] [n] "POST" "/v1/agents/enroll" token ip).
Definition harness_heartbeat (a : EnrollResponse) (ip : string) : TestM unit :=
  expect (λ r, match r with ReStatus 204 => Some tt | _ => None end)
    (send_at 2 [] [] "POST" ("/v1/agents/" +:+ en_agent_id a +:+ "/heartbeat") (en_agent_token a) ip).
Definition harness_put_routes (a : EnrollResponse) (host : string) : TestM PutRoutesResponse :=
  expect (λ r, match r with ReRoutes x => Some x | _ => None end)
    (send_at 3 [] [] "PUT" ("/v1/agents/" +:+ en_agent_id a +:+ "/routes") (en_agent_token a) host).
(** [upstream]: what the resolver answers, if it does in time. *)
#[local] Definition query_with (upstream : option LookupResult) (name : string) (ty : RecordType) : TestM DnsResponse :=
  gets (λ st, (respond (with_defaults (loopback 15353) [loopback 53] 5 2000)
    (mk_request 7 0 true [mk_query (name : @Name str_name) ty]) (Some (loopback 40000)) (registry st)
    (λ _, mk_env (registry st) (registry st) 0 0 upstream) ∅).1).
Definition query_message : string → RecordType → TestM DnsResponse := query_with None.
Definition dns_lookup_a (name : string) : TestM (list Ipv4Addr) :=
  r ← query_message name TypeA;
  mret (omap (λ x, match rr_data x with RDataA ip => Some ip | _ => None end) (rs_answers r)).
#[local] Definition assert (b : bool) : TestM unit := if b then mret tt else throw tt.
#[local] Definition passes (t : TestM unit) : bool :=
  match harness_new with Ok st => is_ok (t st).1 | Err _ => false end.

(** ** [controller_flow.rs] *)

Definition enroll_register_dns_and_conflict : bool := passes (
  token1 ← harness_token 65;
  a1 ← harness_enroll 49 token1 "100.64.0.10";
  _ ← harness_heartbeat a1 "100.64.0.10";
  put ← harness_put_routes a1 "whoami.internal";
  _ ← assert (bool_decide (ps_accepted put = ["whoami.internal"]));
  _ ← assert (bool_decide (length (ps_conflicts put) = 0%nat));
  st ← get;
  _ ← assert (bool_decide (registry st !! "whoami.internal" = Some (mk_ipv4 100 64 0 10)));
  ips ← dns_lookup_a "whoami.internal";
  _ ← assert (bool_decide (ips = [mk_ipv4 100 64 0 10]));
  token2 ← harness_token 66;
  a2 ← harness_enroll 50 token2 "100.64.0.11";
  _ ← harness_heartbeat a2 "100.64.0.11";
  conflict ← harness_put_routes a2 "whoami.internal";
  _ ← assert (bool_decide (ps_accepted conflict = []));
  _ ← assert (bool_decide (length (ps_conflicts conflict) = 1%nat));
  assert (bool_decide (rc_owner_agent_id <$> ps_conflicts conflict !! 0%nat = Some (en_agent_id a1)))).

Definition enrollment_token_is_one_time : bool := passes (
  token ← harness_token 65;
  _ ← harness_enroll 49 token "100.64.0.1";
  st ← get;
  assert (is_err (harness_enroll 50 token "100.64.0.2" st).1)).

Definition lease_expiry_removes_dns_after_ttl : bool := passes (
  token ← harness_token 65;
  ag ← harness_enroll 49 token "100.64.0.30";
  _ ← harness_heartbeat ag "100.64.0.30";
  _ ← harness_put_routes ag "lease.internal";
  ips ← dns_lookup_a "lease.internal";
  _ ← assert (negb (bool_decide (ips = [])));
  _ ← ignore (storage_op ApiStorage (purge_expired_agents 0 4000000000));
  _ ← ignore (refresh_dns_registry 4000000000);
  ips ← dns_lookup_a "lease.internal";
  assert (bool_decide (ips = []))).

Definition route_removed_when_agent_replaces_with_empty_set : bool := passes (
  token ← harness_token 65;
  ag ← harness_enroll 49 token "100.64.0.20";
  _ ← harness_heartbeat ag "100.64.0.20";
  _ ← harness_put_routes ag "temp.internal";
  ips ← dns_lookup_a "temp.internal";
  _ ← assert (negb (bool_decide (ips = [])));
  _ ← harness_put_routes ag "";
  ips ← dns_lookup_a "temp.internal";
  assert (bool_decide (ips = []))).

(** ** [dns_wire.rs] *)

#[local] Definition published (name ip : string) (t : TestM unit) : TestM unit :=
  token ← harness_token 65;
  ag ← harness_enroll 49 token ip;
  _ ← harness_heartbeat ag ip;
  _ ← harness_put_routes ag name;
  t.
Definition dns_a_response_includes_question_section : bool := passes (
  published "wire-a.internal" "100.64.0.77" (
    resp ← query_message "wire-a.internal" TypeA;
    _ ← assert (bool_decide (length (rs_queries resp) = 1%nat));
    _ ← assert (match rs_rcode resp with NoError => true | _ => false end);
    _ ← assert (negb (bool_decide (length (rs_answers resp) = 0%nat)));
    ips ← dns_lookup_a "wire-a.internal";
    assert (bool_decide (ips = [mk_ipv4 100 64 0 77])))).
Definition dns_aaaa_nodata_includes_question_and_is_not_header_only : bool := passes (
  published "wire-aaaa.internal" "100.64.0.78" (
    resp ← query_message "wire-aaaa.internal" TypeAAAA;
    _ ← assert (bool_decide (length (rs_queries resp) = 1%nat));
    _ ← assert (match rs_rcode resp with NoError => true | _ => false end);
    assert (bool_decide (length (rs_answers resp) = 0%nat)))).

(** Whatever the resolver answers; SERVFAIL skips the test. *)
Definition dns_upstream_forward_includes_question_section (upstream : option LookupResult) : bool := passes (
  resp ← query_with upstream "example.com" TypeA;
  match rs_rcode resp with
  | ServFail => mret tt
  | _ => assert (bool_decide (q_name <$> rs_queries resp = ["example.com" : @Name str_name])
                 && bool_decide (q_type <$> rs_queries resp = [TypeA]))
  end).
#[local] Definition resolver_answers : list (option LookupResult) :=
  [None; Some (Dns.Found [mk_record ("example.com" : @Name str_name) 300 (RDataA (mk_ipv4 93 184 216 34))]);
   Some NoRecordsFound; Some (LookupError "timed out")].

(** ** [proxy_path.rs] *)

(** The backends of the tests, by port: one that answers, one that shows the
    headers it got, an event stream, an echo for upgrades; nobody listens on any
    other. *)
#[local] Definition hdr (n : string) (h : HeaderMap) : string := default EmptyString (header_str n h).
#[local] Definition test_backends : Backends := {|
  uri_ok _ := true;
  value_from_bytes s := Some s;
  send uri h :=
    if starts_with "http://127.0.0.1:9001/" uri then Answered (mk_http_response 200 [] "whoami-backend-ok")
    else if starts_with "http://127.0.0.1:9002/" uri then
      Answered (mk_http_response 200 []
        ("host=" +:+ hdr "host" h +:+ ";xff=" +:+ hdr "x-forwarded-for" h +:+ ";xfh="
         +:+ hdr "x-forwarded-host" h +:+ ";xfp=" +:+ hdr "x-forwarded-proto" h))
    else if starts_with "http://127.0.0.1:9003/" uri then
      Answered (mk_http_response 200 [("content-type", "text/event-stream"); ("cache-control", "no-cache")]
        "data: one, data: two")
    else ClientError "client error (Connect)";
  ws_send authority _ h :=
    if bool_decide (authority = "127.0.0.1:9004") && eq_ignore_ascii_case (hdr "upgrade" h) "websocket"
    then WsAnswered (mk_http_response 101 [("upgrade", "websocket"); ("connection", "Upgrade")] "")
    else WsConnectError;
  response_ok _ := true |}.
Definition test_routes (port : Z) (hostname : string) : SharedRouteStore :=
  replace_routes {[ hostname := mk_backend_route (mk_backend "127.0.0.1" port) None None ]} new_route_store.
Definition start_proxy (port : Z) (hostname : string) (shutting_down : bool) : ProxyConfig :=
  mk_proxy_config 2000 10000 (test_routes port hostname) shutting_down.
#[local] Definition get_from (cfg : ProxyConfig) (path host : string) (more : list (string * string)) : Response :=
  handle cfg test_backends (loopback 50000)
    (mk_http_request "GET" (Some path) (foldl (λ m kv, <[kv.1 := kv.2]> m) {[ "host" := host ]} more)).

Definition proxy_routes_by_host_through_registered_backend : bool :=
  let cfg := start_proxy 9001 "whoami.internal" false in
  let resp := get_from cfg "/" "whoami.internal" [] in
  let unknown := get_from cfg "/" "unknown.internal" [] in
  (rp_status resp =? 200) && bool_decide (rp_body resp = "whoami-backend-ok")
  && (rp_status unknown =? 404) && bool_decide (rp_body unknown = "unknown tailsvc host").
Definition proxy_preserves_host_and_adds_forwarded_headers : bool :=
  let body := rp_body (get_from (start_proxy 9002 "app.internal" false) "/path" "app.internal" []) in
  contains_str "host=app.internal" body && contains_str "xfh=app.internal" body
  && contains_str "xfp=http" body && contains_str "xff=" body.
Definition proxy_returns_503_when_shutting_down : bool :=
  let resp := get_from (start_proxy 9001 "down.internal" true) "/" "down.internal" [] in
  (rp_status resp =? 503) && bool_decide (rp_body resp = "agent shutting down").
Definition proxy_502_when_backend_down : bool :=
  let resp := get_from (start_proxy 1 "dead.internal" false) "/" "dead.internal" [] in
  (rp_status resp =? 502) && bool_decide (rp_body resp = "backend unavailable").
Definition proxy_websocket_upgrade_returns_101 : bool :=
  rp_status (get_from (start_proxy 9004 "ws.internal" false) "/chat" "ws.internal"
    [("upgrade", "websocket"); ("connection", "Upgrade")]) =? 101.
Definition proxy_sse_like_chunked_response : bool :=
  let resp := get_from (start_proxy 9003 "sse.internal" false) "/events" "sse.internal" [] in
  (rp_status resp =? 200)
  && existsb (λ h, bool_decide (h = ("content-type", "text/event-stream"))) (rp_headers resp)
  && contains_str "data: one" (rp_body resp) && contains_str "data: two" (rp_body resp).

Definition integration_tests : list bool :=
  [enroll_register_dns_and_conflict; enrollment_token_is_one_time; lease_expiry_removes_dns_after_ttl;
   route_removed_when_agent_replaces_with_empty_set; dns_a_response_includes_question_section;
   dns_aaaa_nodata_includes_question_and_is_not_header_only; proxy_routes_by_host_through_registered_backend;
   proxy_preserves_host_and_adds_forwarded_headers; proxy_returns_503_when_shutting_down;
   proxy_502_when_backend_down; proxy_websocket_upgrade_returns_101; proxy_sse_like_chunked_response]
  ++ (dns_upstream_forward_includes_question_section <$> resolver_answers).
Example integration_tests_pass : forallb id integration_tests = true.
Proof. vm_compute. reflexivity. Qed.
End tests.
