(* ===== verification/AgentProc.v ===== *)
(** * The agent's process ([tailsvc-agent/src/main.rs])

    The start of the process, up to the first pass of [loop_forever], and its
    life after it: the turns of the event loop, the signals and the end of the
    proxy task, in any order.  The theorems say what stays true for all of them. *)
From S2P Require Import Prelude RustStr Net Externals Common Docker ProxyRoutes Proxy Agent Reconcile SockAddr.
From S2P Require Import Concrete.
From Stdlib Require Import Ascii.
#[local] Open Scope Z_scope.

(** ** The start *)

Section process.
Context `{Idna} `{UrlCrate} `{SerdeJson PersistedAgentState} `{HeaderCrate}.

(** What the process finds: its configuration, tailscaled and the commands, whether
    the proxy task is over 50 ms after it was spawned, the state directory with
    the connection to Docker, what [AgentRun::new] reads and is answered, and the
    world of the first pass. *)
Record StartEnv := mk_start {
  se_cfg : result string AgentConfig;
  se_socks : list (option CommandResult); se_cli : CommandResult; se_ifaces : CommandResult;
  se_proxy_finished : bool;
  se_docker : result string unit;
  se_file : option (result string string); se_host : option string; se_engine : option string;
  se_answer : ApiCall → EnrollRequest → result string EnrollResponse;
  se_world : AgentWorld; se_retry : result string (list DiscoveredService);
}.

Record AgentProc := mk_proc {
  pr_run : AgentRun; pr_listen : SocketAddr; pr_proxy_up : bool; pr_shutting_down : bool;
  pr_loop : LoopState;
}.
Inductive ProcResult :=
| Exited (msg : string)
| Aborted (msg : string)
| Running (p : AgentProc).

Definition set_ready (r : AgentReady) (s : AgentRun) : AgentRun :=
  mk_run (run_cfg s) (run_routes s) (run_tailscale_ip s) (run_client s) (run_heartbeat_interval s)
    (run_controller_backoff s) r (run_sent s).
Definition set_tailscale_ok (r : AgentReady) : AgentReady :=
  mk_ready true (docker_ok r) (proxy_ok r) (enrolled r) (initial_reconcile r).
Definition set_proxy_ok (r : AgentReady) : AgentReady :=
  mk_ready (tailscale_ok r) (docker_ok r) true (enrolled r) (initial_reconcile r).
Definition set_initial_reconcile (r : AgentReady) : AgentReady :=
  mk_ready (tailscale_ok r) (docker_ok r) (proxy_ok r) (enrolled r) true.

(** [main] up to [loop_forever]: the listening address and the agent. *)
Definition agent_main (e : StartEnv) : result string (SocketAddr * AgentRun) :=
  cfg ← se_cfg e;
  ip ← map_err (λ _, "tailscale ip") (resolve_tailscale_ipv4 cfg (se_socks e) (se_cli e) (se_ifaces e));
  let ready := set_tailscale_ok not_ready in
  listen ← map_err (λ err, "failed to resolve proxy listen address for " +:+ show_ipv4 ip +:+ ": " +:+ err)
    (proxy_listen_addr cfg ip);
  _ ← match ac_status_listen cfg with
      | Some status => a ← ok_or (parse_socket_addr status) ("invalid status_listen: " +:+ status); Ok tt
      | None => Ok tt
      end;
  _ ← if se_proxy_finished e then Err "proxy failed to bind" else Ok tt;
  _ ← se_docker e;
  run ← new_run cfg ip (set_proxy_ok ready) (se_file e) (se_host e) (se_engine e) (se_answer e);
  Ok (listen, run.2).

(** The first pass and the timers of [loop_forever]; [tokio::time::interval]
    panics on a period of zero. *)
Definition process_start (e : StartEnv) : ProcResult :=
  match agent_main e with
  | Err msg => Exited msg
  | Ok (listen, run) =>
      let run := reconcile_with_backoff (se_world e) (se_retry e) run in
      let run := set_ready (set_initial_reconcile (run_ready run)) run in
      if run_heartbeat_interval run =? 0 then Aborted "`period` must be non-zero."
      else Running (mk_proc run listen true false loop_start)
  end.

(** ** The life of the process *)

(** A signal, the end of the accept loop, or a turn of the event loop with what
    Docker and the controller answer in it. *)
Inductive ProcEvent :=
| SignalReceived
| ProxyExited
| LoopTurn (e : LoopEvent) (w : AgentWorld) (retry : result string (list DiscoveredService)).

Definition do_action (w : AgentWorld) (retry : result string (list DiscoveredService))
    (s : AgentRun) (a : LoopAction) : AgentRun :=
  match a with
  | DoReconcile => reconcile_with_backoff w retry s
  | DoHeartbeat => heartbeat_tick w s
  | DoSleep _ | DoReconnect => s
  end.
Definition proc_step (p : AgentProc) (e : ProcEvent) : AgentProc :=
  match e with
  | SignalReceived => mk_proc (pr_run p) (pr_listen p) (pr_proxy_up p) true (pr_loop p)
  | ProxyExited => mk_proc (pr_run p) (pr_listen p) false (pr_shutting_down p) (pr_loop p)
  | LoopTurn e w retry =>
      match loop_step e (pr_loop p) with
      | Some (acts, lp) =>
          mk_proc (foldl (do_action w retry) (pr_run p) acts) (pr_listen p) (pr_proxy_up p)
            (pr_shutting_down p) lp
      | None => p
      end
  end.
Definition proc_run (es : list ProcEvent) (p : AgentProc) : AgentProc := foldl proc_step p es.

(** The proxy shares the table and the flag with the agent; the timeouts are in
    milliseconds. *)
Definition proxy_config (p : AgentProc) : ProxyConfig :=
  mk_proxy_config (ac_connect_timeout_ms (run_cfg (pr_run p)))
    (ac_response_timeout_seconds (run_cfg (pr_run p)) * 1000) (run_routes (pr_run p)) (pr_shutting_down p).
(** A connection to the proxy is refused once its task is over. *)
Definition client_request (w : Backends) (peer : SocketAddr) (req : Request) (p : AgentProc)
    : option Response :=
  if pr_proxy_up p then Some (handle (proxy_config p) w peer req) else None.
End process.

(** ** What a pass and a heartbeat leave alone *)

Section identity.
Context `{Idna} `{UrlCrate}.

(** A request carries the credential of the agent, a heartbeat also its address. *)
Definition own_call (s : AgentRun) (c : ApiCall * AgentBody) : Prop :=
  call_auth c.1 = "Bearer " +:+ cl_token (run_client s) ∧
  match c.2 with BHeartbeat r => hr_tailscale_ipv4 r = show_ipv4 (run_tailscale_ip s) | _ => True end.
(** Who the agent is stays; what it sends is its own. *)
Definition same_agent (s s' : AgentRun) : Prop :=
  run_cfg s' = run_cfg s ∧ run_client s' = run_client s ∧ run_tailscale_ip s' = run_tailscale_ip s
  ∧ run_heartbeat_interval s' = run_heartbeat_interval s ∧ run_ready s' = run_ready s
  ∧ ∃ l, run_sent s' = run_sent s ++ l ∧ Forall (own_call s) l.
#[export] Instance same_agent_preorder : PreOrder same_agent.
Proof.
  split.
  - intros s. do 5 (split; [done|]). exists []. by rewrite app_nil_r.
  - intros s1 s2 s3 (? & Hc & Hi & ? & ? & l & Hl & Hf) (? & ? & ? & ? & ? & l' & Hl' & Hf').
    do 5 (split; [congruence|]). exists (l ++ l'). rewrite Hl', Hl, app_assoc. split; [done|].
    apply Forall_app_2; [done|]. eapply Forall_impl; [exact Hf'|]. unfold own_call. by rewrite Hc, Hi.
Qed.
Lemma same_agent_modify f : (∀ s, same_agent s (f s)) → Moves (E := string) same_agent (modify f).
Proof. intros Hf s. apply Hf. Qed.
Lemma record_same call b s :
  own_call s (call (run_client s), b) → same_agent s (record_call call b s).
Proof. intros Ho. do 5 (split; [done|]). eexists. split; [done|]. by constructor. Qed.
Lemma same_agent_fields s s' :
  run_cfg s' = run_cfg s → run_client s' = run_client s → run_tailscale_ip s' = run_tailscale_ip s →
  run_heartbeat_interval s' = run_heartbeat_interval s → run_ready s' = run_ready s →
  run_sent s' = run_sent s → same_agent s s'.
Proof. intros. do 5 (split; [done|]). exists []. rewrite app_nil_r. by split. Qed.

Lemma reconcile_once_same w : Moves same_agent (reconcile_once w).
Proof.
  unfold reconcile_once. apply moves_bind; [apply _| |intros _].
  { case_match; [|apply _]. apply same_agent_modify. intros s. by apply record_same. }
  apply moves_bind; [apply _..|]. intros services. apply moves_bind; [apply _| |intros _].
  { apply same_agent_modify. intros s. by apply record_same. }
  apply moves_bind; [apply _..|]. intros s0. apply moves_bind; [apply _| |intros _].
  { apply same_agent_modify. intros s. by apply same_agent_fields. }
  apply moves_bind; [apply _| |intros _].
  { apply same_agent_modify. intros s. by apply record_same. }
  apply moves_bind; [apply _..|]. intros _. apply same_agent_modify. intros s. by apply record_same.
Qed.
Lemma refresh_local_same sv : Moves same_agent (refresh_local_routes sv).
Proof.
  unfold refresh_local_routes. apply moves_bind; [apply _..|]. intros services.
  apply moves_bind; [apply _..|]. intros s0. apply same_agent_modify. intros s. by apply same_agent_fields.
Qed.
Lemma set_backoff_same b s : same_agent s (set_backoff b s).
Proof. by apply same_agent_fields. Qed.
Lemma reconcile_same w sv s : same_agent s (reconcile_with_backoff w sv s).
Proof.
  unfold reconcile_with_backoff. pose proof (reconcile_once_same w s) as Hs.
  destruct (reconcile_once w s) as [[[]|e] s']; cbn [snd] in Hs; (etrans; [exact Hs|]).
  - apply set_backoff_same.
  - etrans; [apply set_backoff_same | apply refresh_local_same].
Qed.
Lemma heartbeat_tick_run w s : ∃ b, heartbeat_tick w s =
  set_backoff b (record_call heartbeat_call (BHeartbeat (heartbeat_body [] s)) s).
Proof.
  unfold heartbeat_tick, heartbeat_only, bump_controller_backoff. se_run.
  destruct (w_heartbeat w (heartbeat_body [] s)); by eexists.
Qed.
Lemma heartbeat_same w s : same_agent s (heartbeat_tick w s).
Proof.
  destruct (heartbeat_tick_run w s) as [b ->]. etrans; [|apply set_backoff_same]. by apply record_same.
Qed.
Lemma actions_same w sv acts s : same_agent s (foldl (do_action w sv) s acts).
Proof.
  revert s. induction acts as [|a acts IH]; intros s; [reflexivity|]. cbn [foldl].
  etrans; [|apply IH]. destruct a; [apply reconcile_same | apply heartbeat_same | reflexivity..].
Qed.
Lemma proc_run_same es p : same_agent (pr_run p) (pr_run (proc_run es p)).
Proof.
  revert p. induction es as [|e es IH]; intros p; [reflexivity|]. cbn [proc_run foldl].
  etrans; [|apply IH]. destruct e as [| |e w sv]; [reflexivity..|]. cbn [proc_step].
  destruct (loop_step e (pr_loop p)) as [[acts lp]|]; [|reflexivity]. apply actions_same.
Qed.
Lemma proc_run_fixed es p : pr_listen (proc_run es p) = pr_listen p
  ∧ (pr_shutting_down p = true → pr_shutting_down (proc_run es p) = true).
Proof.
  revert p. induction es as [|e es IH]; intros p; [done|]. cbn [proc_run foldl].
  destruct (IH (proc_step p e)) as [Hl Hs]. unfold proc_run in *. rewrite Hl.
  destruct e as [| |e w sv]; cbn [proc_step] in *; [tauto..|]. by destruct (loop_step e (pr_loop p)) as [[]|].
Qed.
End identity.

(** ** Lemmas on the start *)

Section start.
Context `{Idna} `{UrlCrate} `{SerdeJson PersistedAgentState} `{HeaderCrate}.

Lemma new_run_Ok cfg ip ready file host engine answer x run :
  new_run cfg ip ready file host engine answer = Ok (x, run) →
  run_cfg run = cfg ∧ run_tailscale_ip run = ip ∧ run_sent run = []
  ∧ run_ready run = mk_ready (tailscale_ok ready) true (proxy_ok ready) true (initial_reconcile ready).
Proof.
  unfold new_run. intros (persisted & _ & Hp)%result_bind_Ok. destruct persisted as [p|].
  - by injection Hp as _ <-.
  - by apply result_bind_Ok in Hp as (tok & _ & (resp & _ & (data & _ & [= _ <-])%result_bind_Ok)%result_bind_Ok).
Qed.
Lemma agent_main_Ok e listen run : agent_main e = Ok (listen, run) →
  ∃ cfg, se_cfg e = Ok cfg
    ∧ resolve_tailscale_ipv4 cfg (se_socks e) (se_cli e) (se_ifaces e) = Ok (run_tailscale_ip run)
    ∧ proxy_listen_addr cfg (run_tailscale_ip run) = Ok listen ∧ se_proxy_finished e = false
    ∧ run_cfg run = cfg ∧ run_sent run = []
    ∧ run_ready run = mk_ready true true true true false.
Proof.
  unfold agent_main.
  intros (cfg & Hcfg & (ip & Hip%map_err_Ok & (l & Hl%map_err_Ok & (u & _ & Hrest)%result_bind_Ok)
    %result_bind_Ok)%result_bind_Ok)%result_bind_Ok.
  apply result_bind_Ok in Hrest as (v & Hf & (w & _ & ([x r] & Hr & [= <- <-])%result_bind_Ok)%result_bind_Ok).
  apply new_run_Ok in Hr as (Hc & Hi & Hs & Hrd). cbn [snd]. exists cfg. rewrite Hi.
  do 3 (split; [done|]). split; [by destruct (se_proxy_finished e)|]. done.
Qed.

(** Two processes that differ in the flag and the proxy behave alike. *)
Definition twins (p q : AgentProc) : Prop := pr_run p = pr_run q ∧ pr_loop p = pr_loop q.
Lemma proc_run_twins es p q : twins p q → twins (proc_run es p) (proc_run es q).
Proof.
  revert p q. induction es as [|e es IH]; intros p q Ht; [done|]. apply IH. destruct Ht as [Hr Hl].
  destruct e as [| |e w sv]; cbn [proc_step]; [by split..|]. rewrite Hl, Hr.
  destruct (loop_step e (pr_loop q)) as [[acts lp]|]; by split.
Qed.
End start.

(** ** Properties *)

Section properties.
Context `{Idna} `{UrlCrate} `{SerdeJson PersistedAgentState} `{HeaderCrate}.


(** a shutdown never ends the agent.  After SIGTERM or SIGINT the proxy answers
    every request with 503, for ever; but the process runs its event loop exactly
    as if the signal had not come, the same passes, the same requests to the
    controller, and a heartbeat at every tick of its timer: the controller goes on
    resolving its hostnames to it. *)
Theorem shutdown_never_ends es p :
  let p0 := proc_run es p in
  let p1 := proc_run (SignalReceived :: es) p in
  pr_run p1 = pr_run p0 ∧ pr_loop p1 = pr_loop p0
  ∧ (∀ w peer req r, client_request w peer req p1 = Some r → r = text_response 503 "agent shutting down")
  ∧ ∀ w sv, ∃ beat, run_sent (pr_run (proc_step p1 (LoopTurn HeartbeatTick w sv)))
      = run_sent (pr_run p1) ++ [(heartbeat_call (run_client (pr_run p)), BHeartbeat beat)]
      ∧ hr_tailscale_ipv4 beat = show_ipv4 (run_tailscale_ip (pr_run p)).
Proof.
  intros p0 p1.
  destruct (proc_run_twins es (proc_step p SignalReceived) p) as [Hr Hl]; [by split|].
  change (proc_run es (proc_step p SignalReceived)) with p1 in Hr, Hl. do 2 (split; [done|]).
  destruct (proc_run_fixed es (proc_step p SignalReceived)) as [_ Hs].
  change (proc_run es (proc_step p SignalReceived)) with p1 in Hs.
  destruct (proc_run_same es p) as (_ & Hk & Hi & _).
  split.
  - intros w peer req r. unfold client_request, handle. case_match; [|done].
    cbn [proxy_config px_shutting_down]. rewrite Hs by done. by intros [= <-].
  - intros w sv. cbn [proc_step loop_step foldl do_action pr_run].
    destruct (heartbeat_tick_run w (pr_run p1)) as [b ->].
    exists (heartbeat_body [] (pr_run p1)). rewrite Hr.
    change (pr_run (proc_run es p)) with (pr_run p0) in *. cbn [set_backoff record_call run_sent heartbeat_body hr_tailscale_ipv4].
    by rewrite Hk, Hi.
Qed.
End properties.

(** ** Witness: an agent that restarts with its state file, then loses its proxy. *)
Section witness.
#[local] Existing Instance id_idna.
#[local] Existing Instance plain_url.
#[local] Existing Instance plain_headers.
#[local] Instance state_json : SerdeJson PersistedAgentState :=
  {| to_json _ := Ok EmptyString; from_json _ := Ok (mk_persisted "agt_1" "tok" "http://10.0.0.1:8080") |}.

#[local] Definition quiet_world : AgentWorld :=
  mk_world (Ok []) (Ok []) (Err "down") (λ _, Err "down") (λ _, Err "down").
#[local] Definition answer_interval (n : Z) : ApiCall → EnrollRequest → result string EnrollResponse :=
  λ _ _, Ok {| en_agent_id := "agt_1"; en_agent_token := "tok"; en_heartbeat_interval_seconds := n;
               en_lease_ttl_seconds := 90 |}.
#[local] Definition enrolling_cfg : AgentConfig :=
  apply_env (Some "enroll") None (demo_listen_cfg None).
#[local] Definition env (file : option (result string string)) (n : Z) : StartEnv :=
  mk_start (Ok enrolling_cfg) [] (Output "100.64.0.7") SpawnFailed false (Ok tt) file None None
    (answer_interval n) quiet_world (Ok []).
#[local] Definition proc0 : AgentProc :=
  match process_start (env (Some (Ok EmptyString)) 20) with
  | Running p => p
  | _ => mk_proc (mk_run enrolling_cfg new_route_store (mk_ipv4 0 0 0 0) (new_client "" "" "") 0 0 not_ready [])
      (mk_addr (V4 (mk_ipv4 0 0 0 0)) 0) false false loop_start
  end.
#[local] Definition life : list ProcEvent :=
  [LoopTurn PeriodicTick quiet_world (Ok []); ProxyExited; LoopTurn HeartbeatTick quiet_world (Ok [])].

Lemma proc0_eq : process_start (env (Some (Ok EmptyString)) 20) = Running proc0.
Proof. vm_compute. reflexivity. Qed.

(** A controller configured with a heartbeat interval of zero: the first run of an
    agent enrolls and aborts; its second, from the state file, uses 20 seconds. *)
Example zero_interval :
  process_start (env None 0) = Aborted "`period` must be non-zero."
  ∧ process_start (env (Some (Ok EmptyString)) 0) = Running proc0.
Proof. split; vm_compute; reflexivity. Qed.
End witness.
