(* ===== verification/AgentSpec.v ===== *)
(** * What the agent promises

    The table the proxy serves and the lists sent to the controller agree, the
    sources of a hostname have a fixed precedence, the retry delays are bounded,
    and what a pass does when the controller does not answer. *)
From S2P Require Import Prelude RustStr Net Externals Common Concrete Hostname Labels Docker ProxyRoutes.
From S2P Require Import Agent Reconcile Concrete.
From Stdlib Require Import Ascii.
#[local] Open Scope Z_scope.

(** ** Specification *)

Definition last_entry (h : string) (l : list RouteEntry) : option RouteEntry :=
  last (filter (λ e, re_hostname e = h) l).
Definition last_ref (h : string) (l : list HeartbeatRouteRef) : option HeartbeatRouteRef :=
  last (filter (λ r, hb_hostname r = h) l).
Definition entry_of (h : string) (r : BackendRoute) : RouteEntry :=
  mk_entry h (base_url (br_backend r)) (br_container_id r) (br_container_name r).
Definition ref_of (h : string) (r : BackendRoute) : HeartbeatRouteRef :=
  mk_hbref h (fingerprint (br_backend r)).

(** The last entry the controller is sent for a host describes the route the
    proxy serves for it, and so does the last heartbeat reference. *)
Definition tables_agree (t : Tables) : Prop :=
  ∀ h, last_entry h (tb_api t) = entry_of h <$> tb_local t !! h
     ∧ last_ref h (tb_hb t) = ref_of h <$> tb_local t !! h.

(** The last element a partial function maps. *)
Fixpoint last_some {A B} (f : A → option B) (l : list A) : option B :=
  match l with
  | [] => None
  | x :: l' => match last_some f l' with Some y => Some y | None => f x end
  end.

Section spec.
Context `{Idna} `{UrlCrate}.

(** The route each source has for a host. *)
Definition service_gives (h : string) (svc : DiscoveredService) : option BackendRoute :=
  b ← ok (resolve_backend svc);
  if decide (h ∈ hosts (sv_labels svc)) then Some (service_route svc b) else None.
Definition desired_gives (h : string) (d : DesiredEnabledService) : option BackendRoute :=
  b ← ok (parse_backend_url (de_backend d));
  if decide (h ∈ de_hostnames d) then Some (desired_route d b) else None.
Definition static_gives (h : string) (sr : PreparedStaticRoute) : option BackendRoute :=
  if decide (h ∈ sr_hosts sr) then Some (static_route sr) else None.
End spec.

(** ** Lemmas on the tables *)

Lemma last_filter_snoc {A} (P : A → Prop) `{∀ x, Decision (P x)} l x :
  last (filter P (l ++ [x])) = if decide (P x) then Some x else last (filter P l).
Proof.
  rewrite filter_app. cbn. case_decide; [apply last_snoc | by rewrite app_nil_r].
Qed.

Lemma push_agree h r url t : url = base_url (br_backend r) →
  tables_agree t → tables_agree (push_host h r url t).
Proof.
  intros -> Ht k. destruct (Ht k) as [Ha Hb]. unfold last_entry, last_ref in *. cbn [push_host tb_api tb_hb tb_local].
  rewrite !last_filter_snoc. cbn [re_hostname hb_hostname]. rewrite lookup_insert.
  case_decide; [by subst|]. done.
Qed.

Lemma filter_filter_ne {A} (key : A → string) h k (l : list A) : h ≠ k →
  filter (λ x, key x = k) (filter (λ x, key x ≠ h) l) = filter (λ x, key x = k) l.
Proof.
  intros Hne. rewrite list_filter_filter. apply list_filter_iff. intros x. split; [tauto|].
  intros ->. done.
Qed.

(** Dropping a host's entries before pushing it does not touch the others. *)
Lemma retain_push_agree h r url t : url = base_url (br_backend r) →
  tables_agree t → tables_agree (push_host h r url (retain_others h t)).
Proof.
  intros -> Ht k. destruct (Ht k) as [Ha Hb]. unfold last_entry, last_ref in *. unfold retain_others.
  destruct (decide (is_Some (tb_local t !! h))); cbn [push_host tb_api tb_hb tb_local];
    rewrite !last_filter_snoc; cbn [re_hostname hb_hostname]; rewrite lookup_insert;
    (case_decide as Hk; [by subst|]); [|done].
  rewrite (filter_filter_ne re_hostname), (filter_filter_ne hb_hostname) by done. done.
Qed.

Lemma retain_local h t : tb_local (retain_others h t) = tb_local t.
Proof. unfold retain_others. by case_decide. Qed.

(** A fold that preserves a property. *)
Lemma foldl_ind {A B} (P : B → Prop) (f : B → A → B) l b :
  (∀ b a, P b → P (f b a)) → P b → P (foldl f b l).
Proof. intros Hf. revert b. induction l as [|a l IH]; intros b Hb; [done|]. cbn. auto. Qed.

(** The local table after writing one route for every host of a list. *)
Lemma push_all_lookup (f : Tables → string → Tables) (route : BackendRoute) hs t h :
  (∀ t h, tb_local (f t h) = <[h := route]> (tb_local t)) →
  tb_local (foldl f t hs) !! h = if decide (h ∈ hs) then Some route else tb_local t !! h.
Proof.
  intros Hf. revert t. induction hs as [|k hs IH]; intros t; cbn [foldl].
  { by rewrite decide_False by apply not_elem_of_nil. }
  rewrite IH, Hf. destruct (decide (h ∈ hs)).
  - by rewrite decide_True by (by right).
  - rewrite lookup_insert. destruct (decide (k = h)) as [->|].
    + by rewrite decide_True by (by left).
    + rewrite decide_False; [done|]. rewrite elem_of_cons. naive_solver.
Qed.

(** The local table after a phase. *)
Lemma phase_lookup {A} (step : Tables → A → Tables) (gives : A → option BackendRoute) l t h :
  (∀ t x, tb_local (step t x) !! h = match gives x with Some r => Some r | None => tb_local t !! h end) →
  tb_local (foldl step t l) !! h =
  match last_some gives l with Some r => Some r | None => tb_local t !! h end.
Proof.
  intros Hs. revert t. induction l as [|x l IH]; intros t; cbn [foldl last_some]; [done|].
  rewrite IH, Hs. by destruct (last_some gives l).
Qed.

Section lemmas.
Context `{Idna} `{UrlCrate}.

Lemma add_service_lookup h t svc :
  tb_local (add_service t svc) !! h =
  match service_gives h svc with Some r => Some r | None => tb_local t !! h end.
Proof.
  unfold add_service, service_gives. destruct (resolve_backend svc) as [b|]; cbn; [|done].
  rewrite (push_all_lookup _ (service_route svc b)) by done. by case_decide.
Qed.
Lemma add_desired_lookup h t d :
  tb_local (add_desired t d) !! h =
  match desired_gives h d with Some r => Some r | None => tb_local t !! h end.
Proof.
  unfold add_desired, desired_gives. destruct (parse_backend_url (de_backend d)) as [b|]; cbn; [|done].
  rewrite (push_all_lookup _ (desired_route d b)); [by case_decide|].
  intros t' k. cbn. by rewrite retain_local.
Qed.

(** The static phase without its counters. *)
Definition add_static (t : Tables) (sr : PreparedStaticRoute) : Tables :=
  foldl (λ t host, push_host host (static_route sr) (sr_backend_url sr) (retain_others host t)) t (sr_hosts sr).
Lemma apply_static_tables prepared t :
  (apply_static_routes prepared t).1 = foldl add_static t prepared.
Proof.
  unfold apply_static_routes. generalize (0, 0)%nat. revert t.
  induction prepared as [|sr prepared IH]; intros t n; cbn [foldl]; [done|].
  assert (∀ hs x, (foldl (apply_static_host sr) x hs).1 =
    foldl (λ t host, push_host host (static_route sr) (sr_backend_url sr) (retain_others host t)) x.1 hs) as Hx.
  { induction hs as [|h hs IHh]; intros [t' [a b]]; [done|]. cbn [foldl]. by rewrite IHh. }
  destruct (foldl (apply_static_host sr) (t, n) (sr_hosts sr)) as [t' n'] eqn:Ht.
  rewrite IH. f_equal. change t' with (t', n').1. by rewrite <- Ht, Hx.
Qed.
Lemma add_static_lookup h t sr :
  tb_local (add_static t sr) !! h =
  match static_gives h sr with Some r => Some r | None => tb_local t !! h end.
Proof.
  unfold add_static, static_gives. rewrite (push_all_lookup _ (static_route sr)); [by case_decide|].
  intros t' k. cbn. by rewrite retain_local.
Qed.

Definition prepared_ok (sr : PreparedStaticRoute) : Prop := sr_backend_url sr = base_url (sr_backend sr).
Lemma prepare_ok entries : Forall prepared_ok (prepare_static_routes entries).
Proof.
  apply Forall_forall. intros sr Hsr. unfold prepare_static_routes in Hsr.
  apply list_elem_of_omap in Hsr as (e & _ & He). unfold prepare_one in He.
  destruct (ok (parse_backend_url (sc_backend e))); [|done]. cbn in He. by case_match; simplify_eq.
Qed.

Lemma build_tables_agree cfg services desired : tables_agree (build_tables cfg services desired).
Proof.
  unfold build_tables. rewrite apply_static_tables.
  assert (tables_agree no_tables) as Hnone by (intros h; cbn; by rewrite lookup_empty).
  assert (tables_agree (foldl add_service no_tables services)) as Hsv.
  { apply foldl_ind; [|done]. intros t svc Ht. unfold add_service. destruct (resolve_backend svc); [|done].
    apply foldl_ind; [|done]. intros. by apply push_agree. }
  assert (tables_agree (match desired with
    | Ok d => foldl add_desired (foldl add_service no_tables services) (ds_services d)
    | Err _ => foldl add_service no_tables services end)) as Hds.
  { destruct desired as [d|]; [|done]. apply foldl_ind; [|done]. intros t x Ht. unfold add_desired.
    destruct (parse_backend_url _); [|done]. apply foldl_ind; [|done]. intros. by apply retain_push_agree. }
  revert Hds. generalize (match desired with
    | Ok d => foldl add_desired (foldl add_service no_tables services) (ds_services d)
    | Err _ => foldl add_service no_tables services end).
  pose proof (prepare_ok (ac_static_routes cfg)) as Hp. induction Hp as [|sr prepared Hsr _ IH]; intros t Ht; [done|].
  cbn [foldl]. apply IH. unfold add_static. apply foldl_ind; [|done]. intros. by apply retain_push_agree.
Qed.

Lemma build_tables_lookup cfg services desired h :
  tb_local (build_tables cfg services desired) !! h =
  match last_some (static_gives h) (prepare_static_routes (ac_static_routes cfg)) with
  | Some r => Some r
  | None =>
      match (match desired with Ok d => last_some (desired_gives h) (ds_services d) | Err _ => None end) with
      | Some r => Some r
      | None => last_some (service_gives h) services
      end
  end.
Proof.
  unfold build_tables. rewrite apply_static_tables.
  rewrite (phase_lookup add_static (static_gives h)) by (intros; apply add_static_lookup).
  assert (tb_local (foldl add_service no_tables services) !! h = last_some (service_gives h) services) as Hs.
  { rewrite (phase_lookup add_service (service_gives h)) by (intros; apply add_service_lookup). cbn.
    rewrite lookup_empty. by destruct (last_some _ _). }
  destruct desired as [d|]; [|by rewrite Hs].
  rewrite (phase_lookup add_desired (desired_gives h)) by (intros; apply add_desired_lookup). by rewrite Hs.
Qed.
End lemmas.

(** ** Lemmas on the passes *)

Section passes.
Context `{Idna} `{UrlCrate}.

Lemma reconcile_once_run w s services : w_services w = Ok services →
  let t := build_tables (run_cfg s) services (w_desired w) in
  let put := {| pr_routes := tb_api t |} in
  ∃ s', (reconcile_once w s).2 = s' ∧ run_cfg s' = run_cfg s ∧ run_client s' = run_client s
    ∧ run_routes s' = mk_route_store (tb_local t)
    ∧ run_controller_backoff s' = run_controller_backoff s
    ∧ (put_routes_call (run_client s), BRoutes put) ∈ run_sent s'
    ∧ is_ok (reconcile_once w s).1 = is_ok (w_put_routes w put)
    ∧ (is_ok (w_put_routes w put) = true →
       ∃ l, run_sent s' = l ++ [(heartbeat_call (run_client s), BHeartbeat
         {| hr_tailscale_ipv4 := show_ipv4 (run_tailscale_ip s); hr_routes := tb_hb t |})]).
Proof.
  intros Hw t put.
  assert (∃ calls, let s0 := mk_run (run_cfg s) (run_routes s) (run_tailscale_ip s) (run_client s)
      (run_heartbeat_interval s) (run_controller_backoff s) (run_ready s) (run_sent s ++ calls) in
    let s3 := record_call put_routes_call (BRoutes put) (set_run_routes (mk_route_store (tb_local t))
      (record_call desired_services_call BDesired s0)) in
    reconcile_once w s = match w_put_routes w put with
      | Ok _ => (Ok tt, record_call heartbeat_call (BHeartbeat (heartbeat_body (tb_hb t) s3)) s3)
      | Err e => (Err e, s3)
      end) as [calls Hrun].
  { unfold reconcile_once. rewrite Hw. destruct (w_candidates w).
    - by eexists.
    - exists []. rewrite app_nil_r. by destruct s. }
  rewrite Hrun. destruct (w_put_routes w put); eexists; (split; [reflexivity|]);
    cbn [record_call set_run_routes run_cfg run_client run_routes run_controller_backoff run_sent
         run_tailscale_ip is_ok heartbeat_body fst snd].
  - do 4 (split; [done|]). split; [|split; [done|]].
    + rewrite !elem_of_app, !list_elem_of_singleton. auto.
    + intros _. by eexists.
  - do 4 (split; [done|]). split; [|done]. rewrite !elem_of_app, !list_elem_of_singleton. auto.
Qed.

Lemma reconcile_once_backoff w s : run_controller_backoff (reconcile_once w s).2 = run_controller_backoff s.
Proof.
  destruct (w_services w) as [services|e] eqn:Hw.
  - by destruct (reconcile_once_run w s services Hw) as (s' & -> & _ & _ & _ & -> & _).
  - unfold reconcile_once. rewrite Hw. by destruct (w_candidates w).
Qed.
Lemma refresh_backoff services s : run_controller_backoff (refresh_local_routes services s).2 = run_controller_backoff s.
Proof. by destruct services. Qed.

Lemma reconcile_backoff w sv s :
  run_controller_backoff (reconcile_with_backoff w sv s) =
  if is_ok (reconcile_once w s).1 then CONTROLLER_BACKOFF_BASE
  else Z.min (run_controller_backoff s * 2) CONTROLLER_BACKOFF_MAX.
Proof.
  unfold reconcile_with_backoff. pose proof (reconcile_once_backoff w s) as Hb.
  destruct (reconcile_once w s) as [[[]|e] s']; cbn [is_ok fst snd] in *; [done|].
  rewrite refresh_backoff. cbn. by rewrite Hb.
Qed.

Lemma refresh_local_lookup services s h :
  rs_inner (run_routes (refresh_local_routes (Ok services) s).2) !! h =
  match last_some (static_gives h) (prepare_static_routes (ac_static_routes (run_cfg s))) with
  | Some r => Some r
  | None => last_some (service_gives h) services
  end.
Proof. apply (build_tables_lookup (run_cfg s) services (Err EmptyString) h). Qed.
End passes.

(** ** Properties *)

Section properties.
Context `{Idna} `{UrlCrate}.


(** C40: when the controller stops answering, the next pass takes the services
    the admin enabled out of the proxy: a hostname that only such a service
    provides was served before the pass and is unknown after it. *)
Theorem controller_outage_drops_enabled w1 w2 services1 services2 sv1 sv2 d h r s :
  w_services w1 = Ok services1 → w_desired w1 = Ok d → (∀ p, is_ok (w_put_routes w1 p) = true) →
  w_services w2 = Ok services2 → is_ok (w_desired w2) = false → (∀ p, is_ok (w_put_routes w2 p) = false) →
  last_some (static_gives h) (prepare_static_routes (ac_static_routes (run_cfg s))) = None →
  last_some (desired_gives h) (ds_services d) = Some r →
  last_some (service_gives h) services2 = None → last_some (service_gives h) sv2 = None →
  let s1 := reconcile_with_backoff w1 sv1 s in
  let s2 := reconcile_with_backoff w2 (Ok sv2) s1 in
  rs_inner (run_routes s1) !! h = Some r ∧ rs_inner (run_routes s2) !! h = None.
Proof.
  intros Hw1 Hd Hp1 Hw2 Hd2 Hp2 Hst Hgive Hnone Hnone' s1.
  destruct (reconcile_once_run w1 s services1 Hw1) as (s1' & Hs1 & Hcfg & _ & Hr1 & _ & _ & Hok & _).
  assert (s1 = set_backoff CONTROLLER_BACKOFF_BASE s1') as Heq.
  { unfold s1, reconcile_with_backoff. rewrite Hp1 in Hok. destruct (reconcile_once w1 s) as [[] ?]; [|done].
    cbn in Hs1. by subst. }
  cbv zeta. split.
  - rewrite Heq. cbn [set_backoff run_routes]. rewrite Hr1. cbn [rs_inner].
    rewrite build_tables_lookup, Hst, Hd. by rewrite Hgive.
  - destruct (reconcile_once_run w2 s1 services2 Hw2) as (s2' & Hs2 & Hcfg2 & _ & _ & _ & _ & Hok2 & _).
    unfold reconcile_with_backoff. rewrite Hp2 in Hok2. destruct (reconcile_once w2 s1) as [[] s3]; [done|].
    cbn in Hs2. subst s3. rewrite refresh_local_lookup. cbn [run_cfg bump_controller_backoff set_backoff].
    rewrite Hcfg2, Heq. cbn [run_cfg set_backoff]. rewrite Hcfg, Hst. done.
Qed.

End properties.

(** ** Witnesses *)

(** An agent with one static route, whose controller enabled [web.internal];
    Docker lists a container labelled with both hosts. *)
Definition demo_cfg : AgentConfig :=
  mk_agent_config "http://10.0.0.1:8080" None default_docker_sock default_state 80 None None 2000 300
    true None [mk_static_config ["Admin.internal"] "http://127.0.0.1:9000"].
Definition demo_run : AgentRun :=
  mk_run demo_cfg new_route_store (mk_ipv4 100 64 0 7) (new_client "http://10.0.0.1:8080/" "agt_1" "tok")
    20 CONTROLLER_BACKOFF_BASE not_ready [].
Definition demo_service (hs : list string) : DiscoveredService :=
  mk_service "c1" "web"
    {| hosts := hs; label_port := None; label_network := None;
       label_backend := Some (mk_backend "172.17.0.2" 3000) |} None [] ∅ [].
Definition demo_desired : DesiredServicesResponse :=
  {| ds_services := [mk_desired "en_1" "name:web" ["web.internal"] "http://127.0.0.1:8080" None] |}.
Definition demo_world (services : list DiscoveredService) (up : bool) : AgentWorld :=
  mk_world (Ok []) (Ok services) (if up then Ok demo_desired else Err "down")
    (λ p, if up then Ok {| ps_accepted := []; ps_conflicts := [] |} else Err "down") (λ _, if up then Ok tt else Err "down").


Lemma controller_outage_drops_enabled_witness :
  let s1 := @reconcile_with_backoff id_idna plain_url (demo_world [] true) (Ok []) demo_run in
  let s2 := @reconcile_with_backoff id_idna plain_url (demo_world [] false) (Ok []) s1 in
  is_Some (rs_inner (run_routes s1) !! "web.internal") ∧ rs_inner (run_routes s2) !! "web.internal" = None.
Proof.
  destruct (@controller_outage_drops_enabled id_idna plain_url (demo_world [] true) (demo_world [] false)
    [] [] (Ok []) [] demo_desired "web.internal" (mk_backend_route (mk_backend "127.0.0.1" 8080) None (Some "enabled"))
    demo_run eq_refl eq_refl (λ _, eq_refl) eq_refl eq_refl (λ _, eq_refl)) as [H1 H2];
    [vm_compute; reflexivity .. |].
  split; [by eexists | exact H2].
Defined.

