(* ===== verification/Wire.v ===== *)
(** * The agent's client and the controller's HTTP surface together

    [controller_client.rs] of [tailsvc-agent] against [router] of
    [tailsvc-controller/src/api.rs]: the request a method of the client sends is
    served by the router, and the answer goes back as a status and a body.  Over
    this wire the methods are the handlers. *)
From S2P Require Import Prelude RustStr Net Externals Common Concrete Hostname Store Config Registry Sessions.
From S2P Require Import State Probe Controller ControllerSpec Router Agent.
From Stdlib Require Import Ascii.
#[local] Open Scope Z_scope.

(** ** The wire *)

Section wire.
Context `{Argon2} `{Base64} `{Chrono} `{Axum} `{UrlCrate} `{Idna} `{HttpStatus}.
Context `{SerdeJson (list string)} `{SerdeJson (list DiscoveredContainerDto)}.
Context `{SerdeJson EnrollRequest} `{SerdeJson HeartbeatRequest} `{SerdeJson PutRoutesRequest}.
Context `{SerdeJson DiscoveryReportRequest} `{SerdeJson EnableServiceRequest} `{SerdeJson LoginRequest}.
Context `{SerdeJson LoginResponse} `{SerdeJson EnrollResponse} `{SerdeJson PutRoutesResponse}.
Context `{SerdeJson DesiredServicesResponse} `{SerdeJson (list AdminDiscoveryItem)} `{SerdeJson EnableServiceResponse}.
Context `{SerdeJson (list AdminAgentView)} `{SerdeJson (list AdminRouteView)} `{SerdeJson AdminDashboard}.
Context `{SerdeJson CreateEnrollmentTokenResponse}.
(** The URL at which the API is reached, the headers hyper adds, the admin page,
    and what axum answers when an extractor fails. *)
Context (base : string) (added : HeaderMap) (page : string) (rejection : Z * string).

(** The request the controller receives for a call of the client. *)
Definition sent_headers (auth : string) (json : bool) : HeaderMap :=
  hm_insert "authorization" auth (if json then hm_insert "content-type" "application/json" added else added).
Definition request_of (c : ApiCall) (body : option string) : HttpRequest :=
  mk_http (call_method c) (default EmptyString (strip_prefix base (call_url c)))
    (sent_headers (call_auth c) (match body with Some _ => true | None => false end)) (default EmptyString body).

(** [Json(a).into_response()] *)
Definition json_response {A} `{SerdeJson A} (a : A) : Z * string :=
  match to_json a with Ok s => (200, s) | Err e => (500, e) end.
(** The status and the body of an answer; the text of the redirect is its
    Location header. *)
Definition http_response (r : result Failure Reply) : Z * string :=
  match r with
  | Err f => api_error_response f
  | Ok (ReText status body) => (status, if decide (status = 307) then EmptyString else body)
  | Ok ReAdminUi => (200, page)
  | Ok (ReStatus status) => (status, EmptyString)
  | Ok ReRejected => rejection
  | Ok ReNoRoute => (404, EmptyString)
  | Ok ReBadMethod => (405, EmptyString)
  | Ok (ReLogin a) => json_response a
  | Ok (ReEnroll a) => json_response a
  | Ok (ReRoutes a) => json_response a
  | Ok (ReDesired a) => json_response a
  | Ok (ReDiscovery a) => json_response a
  | Ok (ReEnable a) => json_response a
  | Ok (ReAgents a) => json_response a
  | Ok (ReAdminRoutes a) => json_response a
  | Ok (ReDashboard a) => json_response a
  | Ok (ReToken a) => json_response a
  end.
(** What the client's [send] does: the controller serves the request. *)
Definition over_wire (w : World) (c : ApiCall) (body : option string) : SE AppState string (Z * string) := λ st,
  let '(r, st') := serve w (request_of c body) st in (Ok (http_response r), st').

(** ** Lemmas *)

(** A segment of a path: not empty, without a solidus or an escape. *)
Definition plain_segment (s : string) : Prop :=
  s ≠ EmptyString ∧ sall (λ c, negb (bool_decide (c = "/"%char)) && negb (bool_decide (c = "%"%char))) s = true.
Lemma plain_no_slash s : plain_segment s → sall (λ c, negb (bool_decide (c = "/"%char))) s = true.
Proof. intros [_ Hs]. eapply sall_impl; [|exact Hs]. by intros c [? _]%andb_true_iff. Qed.
Lemma plain_no_escape s : plain_segment s → sall (λ c, negb (bool_decide (c = "%"%char))) s = true.
Proof. intros [_ Hs]. eapply sall_impl; [|exact Hs]. by intros c [_ ?]%andb_true_iff. Qed.

Definition agent_path (id last : string) : string := "/v1/agents/" +:+ id +:+ "/" +:+ last.
Lemma split_agent_path id last : plain_segment id → plain_segment last →
  split "/"%char (agent_path id last) = ["" : string; "v1"; "agents"; id; last].
Proof.
  intros Hid Hl. unfold agent_path, split. change ("/v1/agents/" +:+ id +:+ "/" +:+ last)
    with (EmptyString +:+ String "/" ("v1" +:+ String "/" ("agents" +:+ String "/" (id +:+ String "/" last)))).
  rewrite !split_on_app by (done || by apply plain_no_slash). by rewrite split_on_nosep by by apply plain_no_slash.
Qed.

(** Decides the comparisons of the segments one after the other. *)
Ltac routes :=
  repeat (cbn iota;
    match goal with
    | |- context [decide (?p = ?p)] => rewrite (decide_True (P := p = p)) by reflexivity
    | Hne : ?i ≠ EmptyString |- context [decide (?i = EmptyString)] => rewrite (decide_False (P := i = EmptyString)) by exact Hne
    | |- context [decide (?p = ?q)] => rewrite (decide_False (P := p = q)) by discriminate
    | |- context [decide (?p = ?q)] => destruct (decide (p = q))
    end).
Lemma dispatch_agent `{!AxumLaws} meth id last (e : string → Endpoint) : plain_segment id →
  (meth, last, e) ∈ [("POST", "heartbeat", EHeartbeat); ("PUT", "routes", EPutRoutes);
                     ("PUT", "discovery", EPutDiscovery); ("GET", "desired-services", EDesired)] →
  dispatch meth (agent_path id last) = Found (e id).
Proof.
  intros Hid Hin. assert (plain_segment last) as Hl.
  { repeat (apply elem_of_cons in Hin as [[= _ -> _]|Hin]; [done|]). by apply elem_of_nil in Hin. }
  assert (∀ p, match_path p (agent_path id last)
    = match_segments (split "/"%char p) ["" : string; "v1"; "agents"; id; last]) as Hm.
  { intros p. rewrite match_path_segments, split_agent_path; [done..|]. unfold agent_path.
    rewrite !sall_app, !(plain_no_escape _ Hid), !(plain_no_escape _ Hl). done. }
  unfold dispatch, router. cbn [dispatch_in]. rewrite !Hm. clear Hm. destruct Hid as [Hne _].
  repeat match goal with
  | |- context [split "/"%char ?p] => let l := eval vm_compute in (split "/"%char p) in change (split "/"%char p) with l
  end.
  cbn [match_segments].
  repeat match goal with
  | |- context [starts_with "{" ?p] => let b := eval vm_compute in (starts_with "{" p) in change (starts_with "{" p) with b
  end.
  repeat (apply elem_of_cons in Hin as [[= -> -> ->]|Hin]; [by routes|]). by apply elem_of_nil in Hin.
Qed.

Lemma dispatch_enroll `{!AxumLaws} : dispatch "POST" "/v1/agents/enroll" = Found EEnroll.
Proof.
  unfold dispatch, router. cbn [dispatch_in]. rewrite !match_path_segments by reflexivity. reflexivity.
Qed.

(** The server finds the credential and the body the client sent. *)
Lemma sent_bearer `{!HeaderLaws} token json :
  sall header_visible token = true → bearer_token (sent_headers ("Bearer " +:+ token) json) = Some token.
Proof.
  intros Ht. unfold bearer_token, sent_headers. rewrite hm_get_insert, decide_True by done. cbn [mbind option_bind].
  rewrite hv_to_str_eq. cbn [sall]. rewrite sall_app, Ht. cbn [mbind option_bind]. by apply strip_prefix_Some.
Qed.
Lemma sent_json `{!HeaderLaws} `{!AxumLaws} auth : json_type (sent_headers auth true) = true.
Proof.
  apply json_type_announced. unfold sent_headers. by rewrite !hm_get_insert, decide_False, decide_True by done.
Qed.

(** The error a client makes of a refusal. *)
Definition refusal (name : string) (f : Failure) : string := name +:+ ": " +:+ show_status (api_error_response f).1.
Lemma refusal_back {A} name (parse : string → result string A) f :
  call_result name parse (api_error_response f) = Err (refusal name f).
Proof. by destruct f as [[]|]. Qed.
(** An answer with a JSON body, and one without a body, on the way back. *)
Lemma json_back {A} `{SerdeJson A} `{!SerdeLaws A} `{!SerdeTotal A} (f : A → Reply) name (m : HandlerM A) st :
  (∀ a, http_response (Ok (f a)) = json_response a) →
  (call_result name from_json (http_response (reply f m st).1), (reply f m st).2) = se_map_err (refusal name) m st.
Proof.
  intros Hf. unfold reply, se_map_err. se_run. destruct (m st) as [[a|e] st']; cbn [fst snd map_err].
  - cbn [mret SE_ret fst snd]. rewrite Hf. unfold json_response. destruct (to_json_total a) as [s Hs]. rewrite Hs. cbn. by rewrite (from_to_json _ _ Hs).
  - cbn [http_response]. by rewrite refusal_back.
Qed.
Lemma status_back name (m : HandlerM Z) st :
  (∀ n st', m st = (Ok n, st') → n = 204) →
  (call_result name (λ _, Ok tt) (http_response (reply ReStatus m st).1), (reply ReStatus m st).2)
  = se_map_err (refusal name) (_ ← m; mret tt) st.
Proof.
  intros Hm. unfold reply, se_map_err. se_run. destruct (m st) as [[n|e] st'] eqn:Hr; cbn [fst snd map_err].
  - by rewrite (Hm n st' eq_refl).
  - cbn [http_response]. by rewrite refusal_back.
Qed.

(** A call and its answer; what serves it. *)
Lemma call_back {A} w c body name (parse : string → result string A) st :
  (resp ← over_wire w c body; lift (call_result name parse resp)) st =
  (call_result name parse (http_response (serve w (request_of c body) st).1), (serve w (request_of c body) st).2).
Proof. rewrite SE_bind_run. unfold over_wire. by destruct (serve w (request_of c body) st). Qed.
Lemma json_call_back {A B} `{SerdeJson B} w c (req : B) s name (parse : string → result string A) st :
  to_json req = Ok s →
  (resp ← send_json (over_wire w) c req; lift (call_result name parse resp)) st =
  (call_result name parse (http_response (serve w (request_of c (Some s)) st).1), (serve w (request_of c (Some s)) st).2).
Proof.
  intros Hs. rewrite <- call_back, !SE_bind_run. unfold send_json. rewrite SE_bind_run, Hs. done.
Qed.
Lemma serve_agent `{!AxumLaws} w meth last e id token body st :
  plain_segment id →
  (meth, last, e) ∈ [("POST", "heartbeat", EHeartbeat); ("PUT", "routes", EPutRoutes);
                     ("PUT", "discovery", EPutDiscovery); ("GET", "desired-services", EDesired)] →
  let c := agent_call meth last (mk_client base id token) in
  serve w (request_of c body) st = call w (e id) (request_of c body) st.
Proof.
  intros Hid Hin c. unfold serve. assert (hq_path (request_of c body) = agent_path id last) as ->.
  { assert (strip_prefix base (call_url c) = Some (agent_path id last)) as Hp by (by apply strip_prefix_Some).
    cbn [request_of hq_path]. by rewrite Hp. }
  change (hq_method (request_of c body)) with meth. by rewrite (dispatch_agent _ _ _ e).
Qed.
Lemma serve_enroll `{!AxumLaws} w token body st :
  ends_with "/" base = false →
  serve w (request_of (enroll_call base token) body) st = call w EEnroll (request_of (enroll_call base token) body) st.
Proof.
  intros Hb. unfold serve. assert (hq_path (request_of (enroll_call base token) body) = "/v1/agents/enroll") as ->.
  { assert (strip_prefix base (call_url (enroll_call base token)) = Some "/v1/agents/enroll") as Hp.
    { apply strip_prefix_Some. unfold enroll_call. cbn [call_url]. by rewrite trim_end_matches_id. }
    cbn [request_of hq_path]. by rewrite Hp. }
  change (hq_method (request_of (enroll_call base token) body)) with "POST". by rewrite dispatch_enroll.
Qed.
Lemma with_json_sent `{!HeaderLaws} `{!AxumLaws} {B} `{SerdeJson B} `{!SerdeLaws B} c (req : B) s h st :
  to_json req = Ok s → with_json (request_of c (Some s)) h st = h req st.
Proof.
  intros Hs. unfold with_json. assert (hq_body (request_of c (Some s)) = s) as -> by done.
  assert (json_type (hq_headers (request_of c (Some s))) = true) as -> by apply sent_json.
  by rewrite (from_to_json _ _ Hs).
Qed.

Lemma heartbeat_204 id hs req t t' n st st' : Controller.heartbeat id hs req t t' st = (Ok n, st') → n = 204.
Proof.
  unfold Controller.heartbeat, Controller.put_discovery. intros (a & s1 & _ & Hr)%SE_bind_inv. apply SE_bind_inv in Hr as (b & s2 & _ & Hr).
  by apply SE_bind_inv in Hr as (d & s3 & _ & [= <- _]).
Qed.
Lemma discovery_204 id hs req t n st st' : Controller.put_discovery id hs req t st = (Ok n, st') → n = 204.
Proof.
  unfold Controller.heartbeat, Controller.put_discovery. intros (a & s1 & _ & Hr)%SE_bind_inv. apply SE_bind_inv in Hr as (b & s2 & _ & Hr).
  by apply SE_bind_inv in Hr as (d & s3 & _ & [= <- _]).
Qed.
Lemma enroll_back `{!HeaderLaws} `{!AxumLaws} `{!SerdeLaws EnrollRequest} w token req s st :
  ends_with "/" base = false → to_json req = Ok s →
  let m := reply ReEnroll (Controller.enroll (sent_headers ("Bearer " +:+ token) true) req
    (w_random w 0%nat) (w_random w 1%nat) (w_salt w) (w_now w 0%nat) (w_now w 1%nat)) in
  client_enroll (over_wire w) base token req st =
  (call_result "enroll failed" from_json (http_response (m st).1), (m st).2).
Proof.
  intros Hb Hs m. unfold client_enroll, send_json. rewrite SE_bind_run. unfold se_map_err. rewrite SE_bind_run, Hs.
  cbn [lift]. unfold over_wire. rewrite serve_enroll by done. cbn [call]. rewrite (with_json_sent _ req s) by done.
  change (hq_headers (request_of (enroll_call base token) (Some s))) with (sent_headers ("Bearer " +:+ token) true).
  fold m. by destruct (m st).
Qed.

(** ** Property *)

(** C5: the agent's client over HTTP is the controller's handlers.  For a client
    with the URL of the API, an agent's id that is one path segment and a token
    that a header can carry, every method does to the controller what the handler
    of its endpoint does, run with that token as the bearer, the request it was
    given and the id in the path; it returns the handler's response, and when the
    handler refuses, the error that names the call and the status of the refusal.
    So does the enrollment. *)
Theorem client_calls_are_handlers `{!HeaderLaws} `{!AxumLaws} `{!SerdeLaws EnrollRequest} `{!SerdeTotal EnrollRequest}
    `{!SerdeLaws HeartbeatRequest} `{!SerdeTotal HeartbeatRequest} `{!SerdeLaws PutRoutesRequest} `{!SerdeTotal PutRoutesRequest}
    `{!SerdeLaws DiscoveryReportRequest} `{!SerdeTotal DiscoveryReportRequest} `{!SerdeLaws EnrollResponse}
    `{!SerdeTotal EnrollResponse} `{!SerdeLaws PutRoutesResponse} `{!SerdeTotal PutRoutesResponse}
    `{!SerdeLaws DesiredServicesResponse} `{!SerdeTotal DesiredServicesResponse} (w : World) id token st :
  ends_with "/" base = false → plain_segment id → sall header_visible token = true →
  let c := new_client base id token in
  let hs := sent_headers ("Bearer " +:+ token) in
  let t := w_now w in
  (∀ json, bearer_token (hs json) = Some token)
  ∧ (∀ req, client_enroll (over_wire w) base token req st =
      se_map_err (refusal "enroll failed")
        (Controller.enroll (hs true) req (w_random w 0%nat) (w_random w 1%nat) (w_salt w) (t 0%nat) (t 1%nat)) st)
  ∧ (∀ req, client_heartbeat (over_wire w) c req st =
      se_map_err (refusal "heartbeat") (_ ← Controller.heartbeat id (hs true) req (t 0%nat) (t 1%nat); mret tt) st)
  ∧ (∀ req, client_put_routes (over_wire w) c req st =
      se_map_err (refusal "put routes") (Controller.put_routes id (hs true) req (t 0%nat) (w_clk w) (t 1%nat)) st)
  ∧ (∀ req, client_put_discovery (over_wire w) c req st =
      se_map_err (refusal "discovery") (_ ← Controller.put_discovery id (hs true) req (t 0%nat); mret tt) st)
  ∧ client_desired_services (over_wire w) c st =
      se_map_err (refusal "desired-services") (Controller.desired_services id (hs false)) st.
Proof.
  intros Hbase Hid Htok c hs t.
  assert (c = mk_client base id token) as -> by (unfold c, new_client; by rewrite trim_end_matches_id).
  split; [intros json; by apply sent_bearer|]. split; [|split; [|split; [|split]]]; [intros req..|].
  - destruct (to_json_total req) as [s Hs]. etrans; [exact (enroll_back w token req s st Hbase Hs)|]. by apply json_back.
  - destruct (to_json_total req) as [s Hs]. etrans; [by apply json_call_back|]. unfold heartbeat_call. rewrite (serve_agent _ _ _ EHeartbeat) by (done || left).
    cbn [call]. rewrite !(with_json_sent _ req s) by done. apply status_back. intros n st'. by apply heartbeat_204.
  - destruct (to_json_total req) as [s Hs]. etrans; [by apply json_call_back|]. unfold put_routes_call. rewrite (serve_agent _ _ _ EPutRoutes) by (done || (right; left)).
    cbn [call]. rewrite !(with_json_sent _ req s) by done. by apply json_back.
  - destruct (to_json_total req) as [s Hs]. etrans; [by apply json_call_back|].
    unfold put_discovery_call. rewrite (serve_agent _ _ _ EPutDiscovery) by (done || (right; right; left)).
    cbn [call]. rewrite !(with_json_sent _ req s) by done. apply status_back. intros n st'. by apply discovery_204.
  - etrans; [apply call_back|]. unfold desired_services_call. rewrite (serve_agent _ _ _ EDesired) by (done || (right; right; right; left)). by apply json_back.
Qed.
End wire.

(** ** Witness: an update of an enrolled agent over the wire, and the same with
    a wrong token.  Values travel as the bits of their code. *)
Section witness.
#[local] Fixpoint show_bits (p : positive) : string :=
  match p with xH => EmptyString | xO p => String "0" (show_bits p) | xI p => String "1" (show_bits p) end.
#[local] Fixpoint read_bits (s : string) : positive :=
  match s with
  | EmptyString => xH
  | String c s => if decide (c = "0"%char) then xO (read_bits s) else xI (read_bits s)
  end.
Lemma read_show_bits p : read_bits (show_bits p) = p.
Proof. induction p as [p IH|p IH|]; cbn; [| |done]; by rewrite IH. Qed.
#[local] Definition coded A `{Countable A} : SerdeJson A :=
  {| to_json a := Ok (show_bits (encode a)); from_json s := ok_or (decode (read_bits s)) "not a value" |}.
Lemma coded_laws A `{Countable A} : @SerdeLaws A (coded A).
Proof. intros a s [= <-]. cbn. by rewrite read_show_bits, decode_encode. Qed.
Lemma coded_total A `{Countable A} : @SerdeTotal A (coded A).
Proof. intros a. by eexists. Qed.

Ltac countable f g :=
  apply (inj_countable' f g); by intros [].
#[local] Instance entry_eq : EqDecision RouteEntry. Proof. solve_decision. Defined.
#[local] Instance entry_countable : Countable RouteEntry.
Proof.
  countable (λ e, (re_hostname e, re_backend e, re_container_id e, re_container_name e))
    (λ x : string * string * option string * option string, let '(a, b, c, d) := x in mk_entry a b c d).
Defined.
#[local] Instance ref_eq : EqDecision HeartbeatRouteRef. Proof. solve_decision. Defined.
#[local] Instance ref_countable : Countable HeartbeatRouteRef.
Proof. countable (λ e, (hb_hostname e, hb_backend_fingerprint e)) (λ x : string * string, mk_hbref x.1 x.2). Defined.
#[local] Instance conflict_eq : EqDecision RouteConflict. Proof. solve_decision. Defined.
#[local] Instance conflict_countable : Countable RouteConflict.
Proof.
  countable (λ e, (rc_hostname e, rc_owner_agent_id e, rc_lease_expires_at e))
    (λ x : string * string * Z, let '(a, b, c) := x in mk_conflict a b c).
Defined.
#[local] Instance desired_eq : EqDecision DesiredEnabledService. Proof. solve_decision. Defined.
#[local] Instance desired_countable : Countable DesiredEnabledService.
Proof.
  countable (λ e, (de_id e, de_identity_key e, de_hostnames e, de_backend e, de_container_name e))
    (λ x : string * string * list string * string * option string, let '(a, b, c, d, e) := x in mk_desired a b c d e).
Defined.
#[local] Instance dto_eq : EqDecision DiscoveredContainerDto. Proof. solve_decision. Defined.
#[local] Instance dto_countable : Countable DiscoveredContainerDto.
Proof.
  countable (λ e, (dc_identity_key e, dc_container_id e, dc_container_name e, dc_image e, dc_network_mode e,
      dc_suggested_backend e, (dc_published_ports e, dc_exposed_ports e, dc_compose_project e, dc_compose_service e,
      dc_has_tailsvc_labels e)))
    (λ x : string * string * string * string * option string * option string
         * (list Z * list Z * option string * option string * bool),
       let '(a, b, c, d, e, f, (g, h, i, j, k)) := x in Build_DiscoveredContainerDto a b c d e f g h i j k).
Defined.
#[local] Instance enroll_eq : EqDecision EnrollRequest. Proof. solve_decision. Defined.
#[local] Instance enroll_countable : Countable EnrollRequest.
Proof.
  countable (λ e, (er_display_name e, er_tailscale_ipv4 e, er_docker_engine_id e))
    (λ x : string * string * string, let '(a, b, c) := x in Build_EnrollRequest a b c).
Defined.
#[local] Instance enrolled_eq : EqDecision EnrollResponse. Proof. solve_decision. Defined.
#[local] Instance enrolled_countable : Countable EnrollResponse.
Proof.
  countable (λ e, (en_agent_id e, en_agent_token e, en_heartbeat_interval_seconds e, en_lease_ttl_seconds e))
    (λ x : string * string * Z * Z, let '(a, b, c, d) := x in Build_EnrollResponse a b c d).
Defined.
#[local] Instance beat_eq : EqDecision HeartbeatRequest. Proof. solve_decision. Defined.
#[local] Instance beat_countable : Countable HeartbeatRequest.
Proof.
  countable (λ e, (hr_tailscale_ipv4 e, hr_routes e)) (λ x : string * list HeartbeatRouteRef, Build_HeartbeatRequest x.1 x.2).
Defined.
#[local] Instance put_eq : EqDecision PutRoutesRequest. Proof. solve_decision. Defined.
#[local] Instance put_countable : Countable PutRoutesRequest.
Proof. countable pr_routes Build_PutRoutesRequest. Defined.
#[local] Instance done_eq : EqDecision PutRoutesResponse. Proof. solve_decision. Defined.
#[local] Instance done_countable : Countable PutRoutesResponse.
Proof.
  countable (λ e, (ps_accepted e, ps_conflicts e)) (λ x : list string * list RouteConflict, Build_PutRoutesResponse x.1 x.2).
Defined.
#[local] Instance report_eq : EqDecision DiscoveryReportRequest. Proof. solve_decision. Defined.
#[local] Instance report_countable : Countable DiscoveryReportRequest.
Proof. countable dr_services Build_DiscoveryReportRequest. Defined.
#[local] Instance services_eq : EqDecision DesiredServicesResponse. Proof. solve_decision. Defined.
#[local] Instance services_countable : Countable DesiredServicesResponse.
Proof. countable ds_services Build_DesiredServicesResponse. Defined.

#[local] Existing Instance bits_chrono.
#[local] Existing Instance plain_argon2.
#[local] Existing Instance raw_base64.
#[local] Existing Instance plain_headers.
#[local] Existing Instance plain_headers_laws.
#[local] Existing Instance plain_url.
#[local] Existing Instance id_idna.
#[local] Existing Instance coded.
#[local] Existing Instance coded_laws.
#[local] Existing Instance coded_total.
#[local] Instance segments_axum : Axum :=
  {| match_path p s := match_segments (split "/"%char p) (split "/"%char s);
     json_type hs := bool_decide (hm_get "content-type" hs = Some ("application/json" : string)) |}.
#[local] Instance segments_axum_laws : AxumLaws.
Proof. split; [done|]. intros hs Hc. by apply bool_decide_eq_true. Qed.
#[local] Instance status_number : HttpStatus := show_uint.
#[local] Instance no_enable : SerdeJson EnableServiceRequest := no_json _.
#[local] Instance no_login : SerdeJson LoginRequest := no_json _.
#[local] Instance no_session : SerdeJson LoginResponse := no_json _.
#[local] Instance no_items : SerdeJson (list AdminDiscoveryItem) := no_json _.
#[local] Instance no_enabled : SerdeJson EnableServiceResponse := no_json _.
#[local] Instance no_agents : SerdeJson (list AdminAgentView) := no_json _.
#[local] Instance no_routes : SerdeJson (list AdminRouteView) := no_json _.
#[local] Instance no_dashboard : SerdeJson AdminDashboard := no_json _.
#[local] Instance no_token : SerdeJson CreateEnrollmentTokenResponse := no_json _.

#[local] Definition no_headers : HeaderMap := (∅ : gmap string string).
#[local] Definition at_4 : World :=
  mk_world (λ _, 4) (λ _, []) "salt" (λ _, mk_clock 4 4 4) (λ _ _, mk_probe_io TimedOut 0 (Ok tt) 0 TimedOut 0).
#[local] Definition send : ApiCall → option string → SE AppState string (Z * string) :=
  over_wire "http://10.0.0.1:8080" no_headers "" (400, EmptyString) at_4.
#[local] Definition client (token : string) : ControllerClient := new_client "http://10.0.0.1:8080" "agt_1" token.
#[local] Definition update : PutRoutesRequest :=
  {| pr_routes := [mk_entry "A.internal" "http://127.0.0.1:1/" None None] |}.

Lemma client_calls_are_handlers_witness :
  (client_put_routes send (client "2") update ControllerSpec.st2).1 = Ok {| ps_accepted := ["a.internal"]; ps_conflicts := [] |}
  ∧ (client_put_routes send (client "3") update ControllerSpec.st2).1 = Err "put routes: 401".
Proof.
  assert (plain_segment "agt_1") as Hid by (split; [discriminate | reflexivity]).
  destruct (client_calls_are_handlers "http://10.0.0.1:8080" no_headers "" (400, EmptyString) at_4 "agt_1" "2"
    ControllerSpec.st2 eq_refl Hid eq_refl) as (_ & _ & _ & Hgood & _).
  destruct (client_calls_are_handlers "http://10.0.0.1:8080" no_headers "" (400, EmptyString) at_4 "agt_1" "3"
    ControllerSpec.st2 eq_refl Hid eq_refl) as (_ & _ & _ & Hbad & _).
  split.
  - unfold send, client. rewrite (Hgood update). vm_compute. reflexivity.
  - unfold send, client. rewrite (Hbad update). vm_compute. reflexivity.
Defined.
End witness.
