(* ===== verification/System.v ===== *)
(** * The whole system

    An agent's pass, the controller's route update, the DNS table and the proxy
    composed: what a client that resolves a hostname and connects reaches. *)
From S2P Require Import Prelude RustStr Net Externals Common Concrete Hostname Labels Store StoreRoutes.
From S2P Require Import StoreInv Config Registry Sessions State Probe Controller ControllerSpec Docker.
From S2P Require Import ProxyRoutes Agent Reconcile AgentSpec.
From Stdlib Require Import Ascii.
#[local] Open Scope Z_scope.

(** ** Specification *)

(** A hostname as [normalize_hostname] gives it. *)
Definition canonical (h : string) : Prop := hostname_syntax h ∧ to_ascii_lowercase h = h.

(** ** Lemmas *)

Lemma canonical_no_colon h : canonical h → sall (λ x, negb (bool_decide (x = ":"%char))) h = true.
Proof.
  intros [Hc%hostname_syntax_chars _]. eapply sall_impl; [|exact Hc].
  intros c (_ & Hn & _)%host_char_graph. by apply negb_true_iff, bool_decide_eq_false.
Qed.
Lemma canonical_no_dot h : canonical h → ends_with "." h = false.
Proof.
  intros [(_ & ls & Hne & -> & Hv) _]. by apply join_valid_no_trailing_dot.
Qed.

Lemma trim_end_snoc c (s : string) : trim_end_matches c (s +:+ String c EmptyString) = trim_end_matches c s.
Proof. unfold trim_end_matches. rewrite srev_app. cbn [srev].
  rewrite sapp_nil_l, sapp_cons, sapp_nil_l. cbn [trim_start_matches]. by rewrite decide_True. Qed.

(** The DNS table knows a hostname with and without the final dot. *)
Lemma lookup_a_canonical reg h : canonical h → lookup_a reg h = reg !! h ∧ lookup_a reg (h +:+ ".") = reg !! h.
Proof.
  intros Hc. unfold lookup_a. rewrite trim_end_snoc, trim_end_matches_id by by apply canonical_no_dot.
  by destruct Hc as [_ ->].
Qed.

(** The proxy knows a hostname with and without a port. *)
Lemma resolve_canonical s h port : canonical h →
  resolve s h = rs_inner s !! h ∧ resolve s (h +:+ ":" +:+ port) = rs_inner s !! h.
Proof.
  intros Hc. pose proof (canonical_no_colon h Hc) as Hn. destruct Hc as [_ Hl].
  unfold resolve, split_first, split. change (":" +:+ port) with (String ":" port).
  rewrite split_on_app, split_on_nosep by done. by rewrite Hl.
Qed.

(** With a final dot it looks for a name no canonical table has. *)
Lemma resolve_dotted s h : canonical h → (∀ k, is_Some (rs_inner s !! k) → canonical k) →
  resolve s (h +:+ ".") = None.
Proof.
  intros Hc Hs. unfold resolve. destruct (rs_inner s !! _) as [r|] eqn:Hr; [|done].
  exfalso. pose proof (canonical_no_dot _ (Hs _ (mk_is_Some _ _ Hr))) as Hd.
  apply not_true_iff_false in Hd. apply Hd, ends_with_iff.
  exists h. unfold split_first, split. rewrite split_on_nosep.
  2: { rewrite sall_app, canonical_no_colon by done. done. }
  destruct Hc as [_ Hl]. by rewrite to_ascii_lowercase_app, Hl.
Qed.

Lemma last_entry_cons h e es :
  last_entry h (e :: es) =
  match last_entry h es with Some x => Some x | None => if decide (re_hostname e = h) then Some e else None end.
Proof.
  unfold last_entry. rewrite filter_cons. case_decide; [apply last_cons | by destruct (last _)].
Qed.

(** The row a route update writes is that of the last entry for the hostname. *)
Lemma last_row_entry `{Chrono} id clk i es h :
  Forall (λ e, to_ascii_lowercase (re_hostname e) = re_hostname e) es →
  rt_backend <$> last_row id clk i es h = re_backend <$> last_entry h es.
Proof.
  intros Hall. revert i. induction Hall as [|e es He _ IH]; intros i; [done|].
  rewrite last_entry_cons. cbn [last_row]. specialize (IH (S i)).
  destruct (last_row id clk (S i) es h), (last_entry h es); simplify_eq/=; [by f_equal|].
  unfold entry_host. rewrite He. by case_decide.
Qed.

Lemma entry_in_table t e : tables_agree t → e ∈ tb_api t → is_Some (tb_local t !! re_hostname e).
Proof.
  intros Ht He. destruct (Ht (re_hostname e)) as [Hl _].
  destruct (tb_local t !! re_hostname e); [done|]. cbn in Hl. unfold last_entry in Hl.
  apply last_None in Hl. by destruct (filter_nil_not_elem_of _ _ _ Hl eq_refl He).
Qed.

Lemma lookup_key {A} (m : gmap string A) k x : m !! k = Some x → k ∈ (map_to_list m).*1.
Proof. intros Hk. apply list_elem_of_fmap. exists (k, x). by rewrite elem_of_map_to_list. Qed.

Section system.
Context `{Argon2} `{Base64} `{Chrono} `{HeaderCrate} `{UrlCrate} `{Idna}.
Context `{SerdeJson (list string)} `{SerdeJson (list DiscoveredContainerDto)}.

(** What a route update that succeeds did to the storage and the DNS table. *)
Lemma put_routes_inv id headers body t_get clk t_dns st resp st' :
  Controller.put_routes id headers body t_get clk t_dns st = (Ok resp, st') →
  ∃ ttl out, ttl_of st = Some ttl ∧ dns_in_sync t_dns st' ∧ cfg st' = cfg st
    ∧ Store.put_routes id (pr_routes body) ttl t_get clk (db_of st) = (Ok out, db_of st').
Proof.
  unfold Controller.put_routes. intros ([] & st1 & Hc & Hrest)%SE_bind_inv.
  apply check_agent_inv in Hc as [-> _].
  apply SE_bind_inv in Hrest as (c & st2 & Hg & Hrest). injection Hg as <- <-.
  apply SE_bind_inv in Hrest as ([] & st3 & Hf & Hrest).
  assert (st3 = st) as -> by (unfold lift in Hf; by injection Hf).
  apply SE_bind_inv in Hrest as (ttl & st4 & Ht & Hrest).
  unfold lease_ttl in Ht. injection Ht as Ht <-.
  apply SE_bind_inv in Hrest as (out & st5 & Hs & Hrest). apply storage_op_Ok in Hs as [Hs Hst5].
  apply SE_bind_inv in Hrest as ([] & st6 & Hd & Hrest).
  assert (st6 = st') as -> by by injection Hrest.
  exists ttl, out. unfold ttl_of. destruct (duration_seconds _) as [x|]; [|done].
  injection Ht as ->. split; [done|].
  destruct (refresh_dns_sync t_dns st5) as [(st7 & Hr & Hdb & Hcfg & _ & Hsync)|[_ Hp]]; [|congruence].
  rewrite Hd in Hr. injection Hr as <-. split; [done|]. split; [|by rewrite Hdb].
  rewrite Hcfg, Hst5. by destruct st.
Qed.
(** A well-formed update of an enrolled agent succeeds and writes, for every
    hostname that is not blocked, the row of the table or none. *)
Lemma update_publishes t id a ttl t_get clk db out db' h :
  tables_agree t → (∀ k, is_Some (tb_local t !! k) → canonical k) →
  agents db !! id = Some a → ag_revoked_at a = None →
  Store.put_routes id (tb_api t) ttl t_get clk db = (Ok out, db') →
  (∀ j, blocked id ttl (at_check (clk j)) db h = false) →
  agents db' = agents db ∧
  match tb_local t !! h with
  | Some r => ∃ row, routes db' !! h = Some row ∧ rt_agent_id row = id
      ∧ rt_backend row = base_url (br_backend r)
  | None => owner_of db' h ≠ Some id
  end.
Proof.
  intros Hag Hcan Ha Hr Hsp Hb.
  pose proof (put_routes_lookup _ _ _ _ _ _ _ _ _ h false Ha Hr Hsp Hb) as Hrow.
  split.
  { destruct (put_routes_ok id a (tb_api t) ttl t_get clk db Ha Hr) as (db1 & o & _ & _ & Heq).
    rewrite Heq in Hsp. by injection Hsp as _ <-. }
  assert (Forall (λ e, to_ascii_lowercase (re_hostname e) = re_hostname e) (tb_api t)) as Hlow.
  { apply Forall_forall. intros e He. apply Hcan. by apply entry_in_table. }
  pose proof (last_row_entry id clk 0 (tb_api t) h Hlow) as Hlast.
  rewrite (proj1 (Hag h)) in Hlast. destruct (tb_local t !! h) as [r|].
  - destruct (last_row id clk 0 (tb_api t) h) as [row|] eqn:Hl; [|done].
    apply last_row_owner in Hl. cbn in Hlast. injection Hlast as Hlast. by exists row.
  - destruct (last_row id clk 0 (tb_api t) h); [done|].
    unfold owner_of. rewrite Hrow. case_decide as Ho; [done|]. exact Ho.
Qed.

(** A row of the routes whose owner is heard is an entry of the DNS table. *)
Lemma dns_entry_row ttl now db h row a ip :
  routes db !! h = Some row → agents db !! rt_agent_id row = Some a → ag_revoked_at a = None →
  lease_alive now ttl (ag_last_seen_at a) = true → parse_ipv4 (ag_tailscale_ipv4 a) = Some ip →
  dns_entry ttl now db h = Some ip.
Proof.
  intros Hrow Ha Hr Hl Hip. unfold dns_entry. rewrite Hrow. cbn [mbind option_bind].
  rewrite Ha. cbn [mbind option_bind]. by rewrite bool_decide_true, Hl.
Qed.
(** A pass the controller accepted resets the backoff and nothing else. *)
Lemma pass_accepted w s s1 sv : (reconcile_once w s).2 = s1 → is_ok (reconcile_once w s).1 = true →
  reconcile_once w s = (Ok tt, s1)
  ∧ (run_routes (reconcile_with_backoff w sv s) = run_routes s1
     ∧ run_sent (reconcile_with_backoff w sv s) = run_sent s1)
  ∧ run_controller_backoff (reconcile_with_backoff w sv s) = CONTROLLER_BACKOFF_BASE.
Proof.
  unfold reconcile_with_backoff. destruct (reconcile_once w s) as [[[]|] s2]; cbn [fst snd is_ok]; [|done].
  by intros <- _.
Qed.

(** A route update that the policy allows, from an agent whose credential is
    live, succeeds; so does its heartbeat, which renews its row. *)
Lemma put_routes_succeeds id headers body t clk t_dns st ttl :
  agent_authorized (db_of st) id headers = true → ttl_of st = Some ttl →
  Forall (λ e, hostname_allowed (cfg st) (re_hostname e) = Ok tt) (pr_routes body) →
  ∃ resp st', Controller.put_routes id headers body t clk t_dns st = (Ok resp, st').
Proof.
  intros Hauth Httl Hall. unfold Controller.put_routes. rewrite SE_bind_run, check_agent_run, Hauth.
  rewrite SE_bind_run. cbn [gets]. rewrite SE_bind_run. cbn [lift].
  assert (for_each (λ r, map_err (Refused ∘ Forbidden) (hostname_allowed (cfg st) (re_hostname r)))
    (pr_routes body) = Ok tt) as ->.
  { apply for_each_Ok. eapply Forall_impl; [exact Hall|]. intros e He. cbn beta. by rewrite He. }
  rewrite SE_bind_run. unfold lease_ttl. unfold ttl_of in Httl. rewrite Httl. cbn [ok_or].
  apply agent_authorized_row in Hauth as (token & a & _ & Ha & Hr & _).
  destruct (put_routes_ok id a (pr_routes body) ttl t clk (db_of st) Ha Hr) as (db1 & out & _ & _ & Heq).
  rewrite SE_bind_run, storage_op_run, Heq. rewrite SE_bind_run.
  match goal with |- context [refresh_dns t_dns ?x] =>
    destruct (refresh_dns_sync t_dns x) as [(st2 & -> & _)|[Hn _]] end; [by do 2 eexists|].
  unfold ttl_of in Hn. cbn in Hn. congruence.
Qed.
Lemma heartbeat_succeeds id headers body t t_dns st ttl :
  agent_authorized (db_of st) id headers = true → ttl_of st = Some ttl →
  ∃ st' a, Controller.heartbeat id headers body t t_dns st = (Ok 204, st')
    ∧ ttl_of st' = Some ttl ∧ dns_in_sync t_dns st' ∧ routes (db_of st') = routes (db_of st)
    ∧ agents (db_of st') !! id = Some a ∧ ag_revoked_at a = None
    ∧ ag_tailscale_ipv4 a = hr_tailscale_ipv4 body ∧ ag_last_seen_at a = Some (to_rfc3339 t).
Proof.
  intros Hauth Httl. unfold Controller.heartbeat. rewrite SE_bind_run, check_agent_run, Hauth.
  apply agent_authorized_row in Hauth as (token & a & _ & Ha & Hr & _).
  rewrite SE_bind_run, storage_op_run. unfold Store.heartbeat. rewrite SE_bind_run. cbn [get].
  rewrite Ha, decide_True by done. cbn [modify]. rewrite SE_bind_run.
  match goal with |- context [refresh_dns t_dns ?x] =>
    destruct (refresh_dns_sync t_dns x) as [(st2 & -> & Hdb & Hcfg & _ & Hs)|[Hn _]] end.
  - eexists st2, _. split; [done|]. split; [unfold ttl_of; rewrite Hcfg; exact Httl|]. split; [done|].
    rewrite Hdb. split; [done|]. cbn [db_of set_db set_storage pool storage agents set_agents].
    by rewrite lookup_insert_eq.
  - unfold ttl_of in Hn, Httl. cbn in Hn. congruence.
Qed.
(** The route update and the heartbeat of a pass, at the controller. *)
Lemma update_and_beat `{!ChronoLaws} t id headers t_get clk t_dns beat ip t_beat t_end st ttl h :
  let answer := Controller.put_routes id headers {| pr_routes := tb_api t |} t_get clk t_dns st in
  let st' := (Controller.heartbeat id headers beat t_beat t_end answer.2).2 in
  tables_agree t → (∀ k, is_Some (tb_local t !! k) → canonical k ∧ hostname_allowed (cfg st) k = Ok tt) →
  agent_authorized (db_of st) id headers = true → ttl_of st = Some ttl →
  hr_tailscale_ipv4 beat = show_ipv4 ip → ipv4_wf ip → chrono_range t_beat → t_end - t_beat < ttl →
  (∀ j, blocked id ttl (at_check (clk j)) (db_of st) h = false) →
  is_ok answer.1 = true ∧ (Controller.heartbeat id headers beat t_beat t_end answer.2).1 = Ok 204
  ∧ match tb_local t !! h with
    | Some r => registry st' !! h = Some ip
        ∧ ∃ row, routes (db_of st') !! h = Some row ∧ rt_agent_id row = id ∧ rt_backend row = base_url (br_backend r)
    | None => owner_of (db_of st') h ≠ Some id
    end.
Proof.
  intros answer st' Hag Hcan Hauth Httl Hbip Hip Hbeat Hend Hb.
  destruct (put_routes_succeeds id headers {| pr_routes := tb_api t |} t_get clk t_dns st ttl Hauth Httl)
    as (resp & st1 & Hput).
  { apply Forall_forall. intros e He. by apply Hcan, entry_in_table. }
  unfold st', answer in *. rewrite Hput. cbn [fst snd is_ok]. split; [done|].
  pose proof (put_routes_inv _ _ _ _ _ _ _ _ _ Hput) as (ttl' & out & Httl' & _ & Hcfg & Hsp).
  assert (ttl' = ttl) as -> by congruence.
  destruct (agent_authorized_row _ _ _ Hauth) as (token & a & Htok & Ha & Hr & Hver).
  destruct (update_publishes t id a ttl t_get clk _ _ _ h Hag (λ k Hk, proj1 (Hcan k Hk)) Ha Hr Hsp Hb)
    as [Hagents Hrow].
  assert (agent_authorized (db_of st1) id headers = true) as Hauth1.
  { revert Hauth. unfold agent_authorized. by rewrite Hagents. }
  destruct (heartbeat_succeeds id headers beat t_beat t_end st1 ttl Hauth1) as
    (st2 & b & Hhb & Httl2 & (ttl2 & Httl2' & Hsync) & Hroutes & Hb2 & Hrb & Hipb & Hlb).
  { unfold ttl_of. by rewrite Hcfg. }
  rewrite Hhb. cbn [fst snd]. split; [done|]. destruct (tb_local t !! h) as [r|].
  - destruct Hrow as (row & Hrow & Hid & Hbk). assert (ttl2 = ttl) as -> by congruence.
    split; [|exists row; by rewrite Hroutes]. rewrite Hsync.
    eapply dns_entry_row; [by rewrite Hroutes | by rewrite Hid | done | |].
    + rewrite Hlb, lease_alive_printed by done. by apply Z.ltb_lt.
    + rewrite Hipb, Hbip. by apply parse_show_ipv4.
  - unfold owner_of. rewrite Hroutes. exact Hrow.
Qed.
End system.

(** ** Properties *)

Section property.
Context `{Argon2} `{Base64} `{Chrono} `{HeaderCrate} `{UrlCrate} `{Idna}.
Context `{SerdeJson (list string)} `{SerdeJson (list DiscoveredContainerDto)}.

(** After an agent's pass whose routes the controller accepted, every
    canonical hostname that no other live agent owns behaves the same at both
    ends.  If the agent's tables have it, it resolves, with or without the final
    dot, to the agent's address, the proxy there finds the backend of the table
    under the name with or without a port, and the controller stores the very
    same backend; if not, the proxy does not know it and the agent does not own
    it.  A Host header that keeps the final dot finds nothing, although the name
    resolves. *)
Theorem published_routes_reachable w s services id headers t_get clk t_dns st resp st' a ip ttl h port :
  let t := build_tables (run_cfg s) services (w_desired w) in
  w_services w = Ok services →
  (∀ k, is_Some (tb_local t !! k) → canonical k) →
  Controller.put_routes id headers {| pr_routes := tb_api t |} t_get clk t_dns st = (Ok resp, st') →
  agents (db_of st) !! id = Some a → parse_ipv4 (ag_tailscale_ipv4 a) = Some ip →
  ttl_of st = Some ttl → lease_alive t_dns ttl (ag_last_seen_at a) = true →
  canonical h → (∀ j, blocked id ttl (at_check (clk j)) (db_of st) h = false) →
  let proxy := run_routes (reconcile_once w s).2 in
  resolve proxy (h +:+ ".") = None
  ∧ match tb_local t !! h with
    | Some r =>
        lookup_a (registry st') h = Some ip ∧ lookup_a (registry st') (h +:+ ".") = Some ip
        ∧ resolve proxy h = Some r ∧ resolve proxy (h +:+ ":" +:+ port) = Some r
        ∧ ∃ row, routes (db_of st') !! h = Some row ∧ rt_agent_id row = id
          ∧ rt_backend row = base_url (br_backend r)
    | None => resolve proxy h = None ∧ owner_of (db_of st') h ≠ Some id
    end.
Proof.
  intros t Hw Hcan Hput Ha Hip Httl Hlive Hh Hb proxy.
  assert (rs_inner proxy = tb_local t) as Hp.
  { destruct (reconcile_once_run w s services Hw) as (s' & Hs & _ & _ & Hr & _).
    unfold proxy. by rewrite Hs, Hr. }
  destruct (resolve_canonical proxy h port Hh) as [-> ->].
  destruct (lookup_a_canonical (registry st') h Hh) as [-> ->]. rewrite Hp.
  split; [apply resolve_dotted; [done | by rewrite Hp]|].
  pose proof (build_tables_agree (run_cfg s) services (w_desired w)) as Hag. fold t in Hag.
  apply put_routes_inv in Hput as (ttl' & out & Httl' & (ttl2 & Httl2 & Hsync) & Hcfg & Hsp).
  cbn [pr_routes] in Hsp.
  assert (ttl' = ttl) as -> by congruence.
  assert (ttl2 = ttl) as -> by (unfold ttl_of in *; rewrite Hcfg in Httl2; congruence).
  destruct (decide (ag_revoked_at a = None)) as [Hr|Hr].
  2: { rewrite put_routes_refused in Hsp; [done|]. intros ??. by simplify_eq. }
  destruct (update_publishes t id a ttl t_get clk _ _ _ h Hag Hcan Ha Hr Hsp Hb) as [Hagents Hrow].
  destruct (tb_local t !! h) as [r|]; [|done].
  destruct Hrow as (row & Hrow & Hid & Hbk).
  assert (registry st' !! h = Some ip) as Hreg.
  { rewrite Hsync. eapply dns_entry_row; [exact Hrow | by rewrite Hid, Hagents | done..]. }
  do 2 (split; [done|]). do 2 (split; [done|]). by exists row.
Qed.

End property.

(** ** Witnesses: the agent of [AgentSpec] enrolled as the one of [ControllerSpec]. *)
Section witness.
#[local] Existing Instance bits_chrono.
#[local] Existing Instance bits_chrono_laws.
#[local] Existing Instance plain_argon2.
#[local] Existing Instance raw_base64.
#[local] Existing Instance plain_headers.
#[local] Existing Instance plain_url.
#[local] Existing Instance id_idna.
#[local] Existing Instance plain_strings.
#[local] Instance dto_json : SerdeJson (list DiscoveredContainerDto) := no_json _.

#[local] Definition pass_world : AgentWorld := demo_world [demo_service ["api.internal"]] true.
#[local] Definition pass_tables : Tables := build_tables demo_cfg [demo_service ["api.internal"]] (w_desired pass_world).
#[local] Definition at_6 : nat → EntryClock := λ _, mk_clock 6 6 6.
#[local] Definition put_answer : result Failure PutRoutesResponse * AppState :=
  Controller.put_routes "agt_1" {["authorization" := "Bearer 2"]} {| pr_routes := tb_api pass_tables |} 6 at_6 6
    ControllerSpec.st2.
#[local] Definition all_accepted : PutRoutesResponse :=
  {| ps_accepted := ["api.internal"; "web.internal"; "admin.internal"]; ps_conflicts := [] |}.

Lemma canonical_test h : validate_hostname_syntax h = Ok tt → to_ascii_lowercase h = h → canonical h.
Proof. by intros ?%validate_hostname_syntax_Ok. Qed.
Lemma demo_hosts :
  (map_to_list (tb_local pass_tables)).*1 = ["web.internal"; "admin.internal"; "api.internal"].
Proof. vm_compute. reflexivity. Qed.
Lemma canonical_demo k : is_Some (tb_local pass_tables !! k) → canonical k.
Proof.
  intros [r Hk%lookup_key]. rewrite demo_hosts in Hk. revert k Hk. apply Forall_forall.
  repeat (apply Forall_cons_2; [by apply canonical_test; vm_compute|]). apply Forall_nil_2.
Qed.

Lemma published_routes_reachable_witness :
  lookup_a (registry put_answer.2) "api.internal." = Some (mk_ipv4 100 64 0 1)
  ∧ resolve (run_routes (reconcile_once pass_world demo_run).2) "api.internal:80" =
    Some (mk_backend_route (mk_backend "172.17.0.2" 3000) (Some "c1") (Some "web")).
Proof.
  assert (put_answer = (Ok all_accepted, put_answer.2)) as Hput by (vm_compute; reflexivity).
  assert (canonical "api.internal") as Hc by (apply canonical_demo; vm_compute; by eexists).
  destruct (published_routes_reachable pass_world demo_run [demo_service ["api.internal"]] "agt_1" _ 6 at_6 6 _ _ _
    (default (StoreRoutes.agent_seen 0) (agents (db_of ControllerSpec.st2) !! "agt_1")) (mk_ipv4 100 64 0 1) 90000000000
    "api.internal" "80" eq_refl canonical_demo Hput) as [_ Hr]; [vm_compute; reflexivity .. | exact Hc | |].
  - intros j. vm_compute. reflexivity.
  - assert (tb_local pass_tables !! "api.internal" =
      Some (mk_backend_route (mk_backend "172.17.0.2" 3000) (Some "c1") (Some "web"))) as Ht by (vm_compute; reflexivity).
    fold pass_tables in Hr. change (build_tables _ _ _) with pass_tables in Hr. rewrite Ht in Hr.
    destruct Hr as (_ & Hl & _ & Hp & _). by split.
Defined.

Lemma demo_allowed k : is_Some (tb_local pass_tables !! k) →
  canonical k ∧ hostname_allowed (cfg ControllerSpec.st2) k = Ok tt.
Proof.
  intros Hk. split; [by apply canonical_demo|]. destruct Hk as [r Hk%lookup_key].
  rewrite demo_hosts in Hk. revert k Hk. apply Forall_forall.
  repeat (apply Forall_cons_2; [vm_compute; reflexivity|]). apply Forall_nil_2.
Qed.
End witness.
